(** * History Studio: the AI gateway, the sync and upload store, the
      setup-response parser and the undo/redo hook

    A shallow embedding of [server/index.js], of the [useUndoRedo] and
    [useKeyboardShortcuts] hooks, and of the pure helpers of [src/App.tsx]
    (the setup parsers, the connection identifiers, the main points, the
    file sizes, the browser's storage, the sync client, and the contexts and
    requests sent to the AI route), followed by the properties proved about
    them.

    Conventions.
    - A JavaScript string is the list of its UTF-16 code units ([list N]).
    - [undefined] and [null] of an optional field are both [None].
    - Time is the clock reading in milliseconds since the epoch ([Z]).
    - The file system is a finite map from normalised absolute paths to
      contents; the contents of a text file are the code units of its text.
    - A JSON number is carried by a literal. In a value that the code
      receives or builds it is the literal that JavaScript prints for the
      number, so that [JSON.stringify] and [String] print it back.
      [JSON_parse] keeps the literal of the text as it is written: its
      result is the value that JavaScript parses when the numbers of the
      text are written as JavaScript prints them, as they are in a text
      that [JSON.stringify] wrote, and differs from it otherwise in the
      literals of the numbers only. Nothing modelled here reads more of a
      number that was parsed than whether it is zero.
    - Where a conversion of JavaScript can throw, the embedding returns an
      option and [None] is the throw: [String] throws on an object that
      has a [toString] of its own, [JSON.parse] on a text that is not
      JSON. *)

From Stdlib Require Import ZArith NArith List String Ascii Bool Lia.
From Stdlib Require Import Decimal DecimalString DecimalPos.
From stdpp Require Import base list gmap.

Set Default Proof Using "Type".
Local Open Scope Z_scope.

(** ** Part I. The embedding *)

(** *** JavaScript strings *)

Abbreviation jsstring := (list N).

Module Js.

(** The code units of an ASCII literal. *)
Definition lit (s : string) : jsstring :=
  List.map N_of_ascii (list_ascii_of_string s).

(** [a + b] on strings, and [Array.prototype.join]. *)
Fixpoint join (sep : jsstring) (parts : list jsstring) : jsstring :=
  match parts with
  | [] => []
  | [p] => p
  | p :: rest => p ++ sep ++ join sep rest
  end.

Definition eqb (a b : jsstring) : bool := bool_decide (a = b).

(** Truthiness of a string value that may be [undefined]: [undefined],
    [null] and the empty string are falsy. *)
Definition truthy (v : option jsstring) : bool :=
  match v with
  | Some (_ :: _) => true
  | _ => false
  end.

(** [a || b] on such values. *)
Definition or_else (a b : option jsstring) : option jsstring :=
  if truthy a then a else b.

(** [a ?? b]: only [undefined] and [null] take the default. *)
Definition nullish (a : option jsstring) (b : jsstring) : jsstring :=
  match a with
  | Some s => s
  | None => b
  end.

(** WhiteSpace and LineTerminator code units, the ones [trim] strips. *)
Definition is_line_terminator (c : N) : bool :=
  ((c =? 10) || (c =? 13) || (c =? 8232) || (c =? 8233))%N.

Definition is_whitespace (c : N) : bool :=
  ((c =? 9) || (c =? 11) || (c =? 12) || (c =? 32) || (c =? 160)
   || (c =? 5760) || ((8192 <=? c) && (c <=? 8202)) || (c =? 8239)
   || (c =? 8287) || (c =? 12288) || (c =? 65279)
   || is_line_terminator c)%N.

Fixpoint trimStart (s : jsstring) : jsstring :=
  match s with
  | c :: rest => if is_whitespace c then trimStart rest else s
  | [] => []
  end.

Definition trimEnd (s : jsstring) : jsstring := rev (trimStart (rev s)).

Definition trim (s : jsstring) : jsstring := trimEnd (trimStart s).

(** [s.startsWith(p)]. *)
Fixpoint startsWith (p s : jsstring) : bool :=
  match p, s with
  | [], _ => true
  | a :: p', b :: s' => (a =? b)%N && startsWith p' s'
  | _ :: _, [] => false
  end.

(** [s.indexOf(p)], [-1] when [p] does not occur. *)
Fixpoint indexOf_from (p s : jsstring) (i : Z) : Z :=
  if startsWith p s then i
  else match s with
       | [] => -1
       | _ :: s' => indexOf_from p s' (i + 1)
       end.

Definition indexOf (p s : jsstring) : Z := indexOf_from p s 0.

(** [s.lastIndexOf(p)]: the scan keeps the last position that matches. *)
Fixpoint lastIndexOf_from (p s : jsstring) (i : Z) (found : Z) : Z :=
  let found' := if startsWith p s then i else found in
  match s with
  | [] => found'
  | _ :: s' => lastIndexOf_from p s' (i + 1) found'
  end.

Definition lastIndexOf (p s : jsstring) : Z := lastIndexOf_from p s 0 (-1).

(** Relative index of [slice]: negative counts from the end, then clamped. *)
Definition clamp_index (len k : Z) : Z :=
  if k <? 0 then Z.max (len + k) 0 else Z.min k len.

(** [xs.slice(from, to)], on strings and arrays alike. *)
Definition slice {A} (from to : Z) (xs : list A) : list A :=
  let len := Z.of_nat (length xs) in
  let a := clamp_index len from in
  let b := clamp_index len to in
  take (Z.to_nat (b - a)) (drop (Z.to_nat a) xs).

(** [xs[i]] for a number [i] that is an integer. *)
Definition at_index {A} (xs : list A) (i : Z) : option A :=
  if i <? 0 then None else xs !! Z.to_nat i.

(** Decimal rendering of an integer, as a template literal prints it. *)
Definition of_Z (z : Z) : jsstring :=
  match z with
  | Z0 => lit "0"
  | Zpos p => lit (NilEmpty.string_of_uint (Pos.to_uint p))
  | Zneg p => lit "-" ++ lit (NilEmpty.string_of_uint (Pos.to_uint p))
  end.

Definition of_nat (n : nat) : jsstring := of_Z (Z.of_nat n).

(** [a < b] on strings: the order of the code units. *)
Fixpoint lessThan (a b : jsstring) : bool :=
  match a, b with
  | _, [] => false
  | [], _ :: _ => true
  | x :: a', y :: b' => (x <? y)%N || ((x =? y)%N && lessThan a' b')
  end.

(** [s.split(sep)] for a separator of one code unit. *)
Fixpoint split_acc (sep : N) (cur : jsstring) (s : jsstring) : list jsstring :=
  match s with
  | [] => [rev cur]
  | c :: rest =>
      if (c =? sep)%N then rev cur :: split_acc sep [] rest
      else split_acc sep (c :: cur) rest
  end.

Definition split (sep : N) (s : jsstring) : list jsstring := split_acc sep [] s.

(** [s.includes(p)]. *)
Definition includes (p s : jsstring) : bool := 0 <=? indexOf p s.

(** [s.split(p)[1]]: the text between the first occurrence of [p] and the
    next one, [undefined] when [p] does not occur. *)
Definition split_second (p s : jsstring) : option jsstring :=
  let i := indexOf p s in
  if i <? 0 then None
  else
    let rest := drop (Z.to_nat i + length p) s in
    let j := indexOf p rest in
    Some (if j <? 0 then rest else take (Z.to_nat j) rest).

(** [n] as decimal digits, padded with zeros to [width]. *)
Definition pad (width : nat) (n : Z) : jsstring :=
  let ds := of_Z n in repeat 48%N (width - length ds) ++ ds.

(** Year, month and day of the day [z] days after the epoch. *)
Definition civil_from_days (z : Z) : Z * Z * Z :=
  let z := z + 719468 in
  let era := z / 146097 in
  let doe := z - era * 146097 in
  let yoe := (doe - doe / 1460 + doe / 36524 - doe / 146096) / 365 in
  let doy := doe - (365 * yoe + yoe / 4 - yoe / 100) in
  let mp := (5 * doy + 2) / 153 in
  let d := doy - (153 * mp + 2) / 5 + 1 in
  let m := if mp <? 10 then mp + 3 else mp - 9 in
  let y := yoe + era * 400 in
  (if m <=? 2 then y + 1 else y, m, d).

(** [new Date(t).toISOString()] for a time value [t] in milliseconds. *)
Definition toISOString (t : Z) : jsstring :=
  let '(y, m, d) := civil_from_days (t / 86400000) in
  let ms := t mod 86400000 in
  let year :=
    if (0 <=? y) && (y <=? 9999) then pad 4 y
    else lit (if y <? 0 then "-" else "+") ++ pad 6 (Z.abs y) in
  year ++ lit "-" ++ pad 2 m ++ lit "-" ++ pad 2 d ++ lit "T"
  ++ pad 2 (ms / 3600000) ++ lit ":" ++ pad 2 (ms / 60000 mod 60) ++ lit ":"
  ++ pad 2 (ms / 1000 mod 60) ++ lit "." ++ pad 3 (ms mod 1000) ++ lit "Z".

(** [s.split(re)] for a regular expression [re] that matches one code unit
    of a class, as [/[.!?]/] does. *)
Fixpoint split_where_acc (is_sep : N -> bool) (cur : jsstring) (s : jsstring)
  : list jsstring :=
  match s with
  | [] => [rev cur]
  | c :: rest =>
      if is_sep c then rev cur :: split_where_acc is_sep [] rest
      else split_where_acc is_sep (c :: cur) rest
  end.

Definition split_where (is_sep : N -> bool) (s : jsstring) : list jsstring :=
  split_where_acc is_sep [] s.

(** [s] without the run of [c] at its head. *)
Fixpoint drop_run (c : N) (s : jsstring) : jsstring :=
  match s with
  | x :: rest => if (x =? c)%N then drop_run c rest else s
  | [] => []
  end.

(** [s.replace(/c+$/, '')]: the match is the run of [c] that ends the text. *)
Definition strip_trailing (c : N) (s : jsstring) : jsstring :=
  rev (drop_run c (rev s)).

(** [(a / b).toFixed(1)] for an integer [0 <= a < 2^53] and [b] a power of
    two: the quotient is then the exact value of the number, and the result
    is its nearest tenth, the larger one on a tie. *)
Definition toFixed1 (a b : Z) : jsstring :=
  let n := (10 * a + b / 2) / b in
  of_Z (n / 10) ++ lit "." ++ of_Z (n mod 10).

(** [a || b] on strings. *)
Definition or_string (a b : jsstring) : jsstring :=
  match a with
  | [] => b
  | _ => a
  end.

(** The value of a digit of base64, in the standard alphabet or in the
    URL-safe one. *)
Definition base64_value (c : N) : option N :=
  if ((65 <=? c) && (c <=? 90))%N then Some (c - 65)%N
  else if ((97 <=? c) && (c <=? 122))%N then Some (c - 71)%N
  else if ((48 <=? c) && (c <=? 57))%N then Some (c + 4)%N
  else if ((c =? 43) || (c =? 45))%N then Some 62%N
  else if ((c =? 47) || (c =? 95))%N then Some 63%N
  else None.

(** The digits that the decoder of Node reads in a text: it takes each code
    unit as a byte, skips what is no digit, and stops at the first [=]. *)
Fixpoint base64_digits (s : jsstring) : list N :=
  match s with
  | [] => []
  | c :: rest =>
      let c := (c mod 256)%N in
      if (c =? 61)%N then []
      else match base64_value c with
           | Some v => v :: base64_digits rest
           | None => base64_digits rest
           end
  end.

(** Three bytes for every four digits; one byte for two digits that are
    left, two for three, none for one. *)
Fixpoint base64_bytes (vs : list N) : list N :=
  match vs with
  | a :: b :: c :: d :: rest =>
      (a * 4 + b / 16)%N :: (b mod 16 * 16 + c / 4)%N :: (c mod 4 * 64 + d)%N
      :: base64_bytes rest
  | [a; b; c] => [(a * 4 + b / 16)%N; (b mod 16 * 16 + c / 4)%N]
  | [a; b] => [(a * 4 + b / 16)%N]
  | _ => []
  end.

(** [Buffer.from(text, 'base64')], as the list of its bytes. *)
Definition Buffer_from_base64 (text : jsstring) : list N :=
  base64_bytes (base64_digits text).

End Js.

(** *** Dates *)

Module Calendar.

(** A date before another: year, month and day in the order of the
    dictionary. *)
Definition before (p q : Z * Z * Z) : Prop :=
  let '(y, m, d) := p in
  let '(y', m', d') := q in
  y < y' \/ (y = y' /\ (m < m' \/ (m = m' /\ d < d'))).

(** A date of the calendar whose year has four digits. *)
Definition four_digits (p : Z * Z * Z) : Prop :=
  let '(y, m, d) := p in 0 <= y <= 9999 /\ 1 <= m <= 12 /\ 1 <= d <= 31.

End Calendar.

(** *** The undo/redo hook ([useUndoRedo]) *)

Module UndoRedo.
Section Hook.
Context {T : Type}.

(** The two pieces of React state of the hook, as a render has them. *)
Record hook := Hook { history : list T; index : Z }.

Definition useUndoRedo (initialState : T) : hook :=
  {| history := [initialState]; index := 0 |}.

Definition state (h : hook) : option T := Js.at_index (history h) (index h).

(** A call of [setHistory] or of [setIndex]: the update it queues for the
    next render. *)
Inductive update := SetHistory (next : list T) | SetIndex (next : Z).

(** The callbacks of the render [h]. Each closes over the history and the
    index of that render, whatever was queued since, and queues its own
    updates. *)
Definition setState (value : T) (h : hook) : list update :=
  let newHistory := Js.slice 0 (index h + 1) (history h) ++ [value] in
  if 50 <? Z.of_nat (length newHistory) then
    let newHistory := tail newHistory in
    [SetHistory newHistory; SetIndex (Z.of_nat (length newHistory) - 1)]
  else
    [SetHistory newHistory; SetIndex (Z.of_nat (length newHistory) - 1)].

Definition undo (h : hook) : list update :=
  if index h >? 0 then [SetIndex (index h - 1)] else [].

Definition redo (h : hook) : list update :=
  if index h <? Z.of_nat (length (history h)) - 1
  then [SetIndex (index h + 1)]
  else [].

Definition reset (initialState : T) (h : hook) : list update :=
  [SetHistory [initialState]; SetIndex 0].

Definition canUndo (h : hook) : bool := index h >? 0.

Definition canRedo (h : hook) : bool :=
  index h <? Z.of_nat (length (history h)) - 1.

(** The calls a component can make on the callbacks of a render. *)
Inductive action := SetState (v : T) | Undo | Redo | Reset (v : T).

Definition call (h : hook) (a : action) : list update :=
  match a with
  | SetState v => setState v h
  | Undo => undo h
  | Redo => redo h
  | Reset v => reset v h
  end.

(** The next render: React applies the updates queued since the last one in
    their order, each replacing the piece of state it sets. *)
Definition apply (h : hook) (u : update) : hook :=
  match u with
  | SetHistory next => {| history := next; index := index h |}
  | SetIndex next => {| history := history h; index := next |}
  end.

Definition render (h : hook) (queue : list update) : hook := fold_left apply queue h.

(** An event: the calls a component makes on the callbacks of the render
    [h] before React renders again, and the render that follows. *)
Definition event (h : hook) (calls : list action) : hook :=
  render h (flat_map (call h) calls).

(** A run of events, each on the callbacks of the render before it. *)
Definition run (h : hook) (events : list (list action)) : hook :=
  fold_left event events h.

(** The index points into the history, which holds at most 50 entries. *)
Definition valid (h : hook) : Prop :=
  0 <= index h < Z.of_nat (length (history h)) /\
  Z.of_nat (length (history h)) <= 50.

End Hook.
Arguments hook : clear implicits.
Arguments action : clear implicits.
Arguments update : clear implicits.
End UndoRedo.

(** *** The context block of a prompt ([buildContextBlock]) *)

Module Prompt.

Record AiContext := {
  kind : option jsstring;
  scope : option jsstring;
  title : option jsstring;
  range : option jsstring;
  focus : option jsstring;
  summary : option jsstring;
  prompt : option jsstring;
  draft : option jsstring;
  readingText : option jsstring;
}.

(** [cond ? `label${cond}` : null]. *)
Definition optional_line (label : string) (field : option jsstring)
  : option jsstring :=
  if Js.truthy field then Some (Js.lit label ++ Js.nullish field []) else None.

(** [.filter(Boolean)] on an array of strings and [null]s. *)
Definition filter_Boolean (xs : list (option jsstring)) : list jsstring :=
  omap (fun x => if Js.truthy x then x else None) xs.

Definition context_lines (context : AiContext) : list (option jsstring) :=
  [ Some (Js.lit "Kind: " ++ Js.nullish (kind context) (Js.lit "unknown"));
    Some (Js.lit "Scope: " ++ Js.nullish (scope context) (Js.lit "summary"));
    Some (Js.lit "Title: " ++ Js.nullish (title context) (Js.lit "Untitled"));
    Some (Js.lit "Range: " ++ Js.nullish (range context) (Js.lit "n/a"));
    optional_line "Focus: " (focus context);
    optional_line "Summary: " (summary context);
    optional_line "Prompt: " (prompt context);
    optional_line "Draft: " (draft context);
    optional_line "Reading text: " (readingText context) ].

Definition buildContextBlock (context : AiContext) : jsstring :=
  Js.join (Js.lit (String "010" EmptyString))
          (filter_Boolean (context_lines context)).

(** [s.split('\n')]. *)
Definition split_lines (s : jsstring) : list jsstring := Js.split 10%N s.

End Prompt.

(** *** The OpenAI-compatible dispatch ([buildModelList], [isModelError],
      [callOpenAi]) *)

Module Gateway.

(** The body of an API error ([error.error]) and the error itself, with the
    fields [isModelError] reads. *)
Record ErrorBody := { body_code : option jsstring; body_message : option jsstring }.

Record ApiError := {
  status : option Z;
  error : option ErrorBody;
  code : option jsstring;
  message : option jsstring;
}.

(** What a handler can catch: an error of the provider, or an [Error] the
    gateway itself builds from a message. *)
Inductive thrown := ProviderError (e : ApiError) | NewError (msg : jsstring).

(** A chat completion, as far as [callOpenAi] reads it. *)
Record Message := { content : option jsstring }.
Record Choice := { choice_message : option Message }.
Record Completion := { choices : option (list Choice) }.

Record Reply := { text : jsstring; model : jsstring }.

Definition modelFallbacks : list jsstring :=
  [Js.lit "gpt-4o-mini"; Js.lit "gpt-4o"; Js.lit "gpt-4.1-mini"].

(** [[...new Set(xs)]]: each value once, at its first position. *)
Definition Set_add (seen : list jsstring) (x : jsstring) : list jsstring :=
  if bool_decide (x ∈ seen) then seen else seen ++ [x].

Definition Set_of (xs : list jsstring) : list jsstring := fold_left Set_add xs [].

Definition buildModelList (OPENAI_MODEL : option jsstring) : list jsstring :=
  let candidates :=
    Prompt.filter_Boolean (OPENAI_MODEL :: List.map Some modelFallbacks) in
  Set_of candidates.

(** ASCII case folding: without the [u] flag, [/i] identifies a code unit
    below 128 only with its other case. *)
Definition fold_case (c : N) : N :=
  if ((65 <=? c) && (c <=? 90))%N then (c + 32)%N else c.

(** The literal [p] (given folded) matches at the head of [s], ignoring case. *)
Fixpoint starts_ci (p s : jsstring) : bool :=
  match p, s with
  | [], _ => true
  | a :: p', b :: s' => (a =? fold_case b)%N && starts_ci p' s'
  | _ :: _, [] => false
  end.

(** [/p/i.test(s)] for a literal [p]. *)
Fixpoint contains_ci (p s : jsstring) : bool :=
  starts_ci p s ||
  match s with
  | [] => false
  | _ :: s' => contains_ci p s'
  end.

(** [.*p] at the head of [s]: [.] takes any code unit but a line
    terminator. *)
Fixpoint dots_then_ci (p s : jsstring) : bool :=
  starts_ci p s ||
  match s with
  | [] => false
  | c :: s' => negb (Js.is_line_terminator c) && dots_then_ci p s'
  end.

(** [/model.*not found/i.test(s)]. *)
Fixpoint test_model_not_found (s : jsstring) : bool :=
  (starts_ci (Js.lit "model") s
   && dots_then_ci (Js.lit "not found") (drop 5 s)) ||
  match s with
  | [] => false
  | _ :: s' => test_model_not_found s'
  end.

(** [/does not exist/i.test(s)]. *)
Definition test_does_not_exist (s : jsstring) : bool :=
  contains_ci (Js.lit "does not exist") s.

(** [error?.error?.code || error?.code]. *)
Definition error_code (e : ApiError) : option jsstring :=
  Js.or_else (error e ≫= body_code) (code e).

(** [error?.error?.message || error?.message || '']. *)
Definition error_message (e : ApiError) : jsstring :=
  Js.nullish (Js.or_else (Js.or_else (error e ≫= body_message) (message e))
                         (Some [])) [].

Definition isModelError (e : ApiError) : bool :=
  bool_decide (status e = Some 404)
  || bool_decide (error_code e = Some (Js.lit "model_not_found"))
  || test_model_not_found (error_message e)
  || test_does_not_exist (error_message e).

(** [completion.choices?.[0]?.message?.content?.trim() ?? '']. *)
Definition completion_text (c : Completion) : jsstring :=
  let first := (all ← choices c; ch ← head all; m ← choice_message ch; content m) in
  match first with
  | Some s => Js.trim s
  | None => []
  end.

Section Dispatch.
(** The provider: its state, and one [client.chat.completions.create] call
    for a model, which resolves with a completion or rejects with an error. *)
Context {Provider : Type}.
Variable create : jsstring -> Provider -> (ApiError + Completion) * Provider.

(** The variables of the [for] loop when it is left, or the error it
    rethrows; with the models attempted, in order, and the provider's state. *)
Inductive loop_exit :=
| LoopDone (completion : option Completion) (modelUsed : jsstring)
           (lastError : option ApiError)
| LoopThrow (e : ApiError).

Record run := { exit : loop_exit; attempted : list jsstring; after : Provider }.

Definition attempt_first (m : jsstring) (r : run) : run :=
  {| exit := exit r; attempted := m :: attempted r; after := after r |}.

(** The run [r], after the attempts on [ms]. *)
Definition attempts_before (ms : list jsstring) (r : run) : run :=
  {| exit := exit r; attempted := ms ++ attempted r; after := after r |}.

Fixpoint try_models (models : list jsstring) (modelUsed : jsstring)
    (lastError : option ApiError) (p : Provider) : run :=
  match models with
  | [] => {| exit := LoopDone None modelUsed lastError; attempted := []; after := p |}
  | m :: rest =>
      match create m p with
      | (inr completion, p') =>
          {| exit := LoopDone (Some completion) m lastError;
             attempted := [m]; after := p' |}
      | (inl e, p') =>
          if isModelError e
          then attempt_first m (try_models rest modelUsed (Some e) p')
          else {| exit := LoopThrow e; attempted := [m]; after := p' |}
      end
  end.

Record outcome := {
  result : thrown + Reply;
  calls : list jsstring;
  provider_after : Provider;
}.

(** [callOpenAi] for the model list [models]; [has_client] tells whether an
    API key was configured. *)
Definition callOpenAi_on (has_client : bool) (models : list jsstring)
    (p : Provider) : outcome :=
  if negb has_client then
    {| result := inl (NewError (Js.lit "Missing OPENAI_API_KEY"));
       calls := []; provider_after := p |}
  else
    let modelUsed := default (Js.lit "gpt-4o-mini") (head models) in
    let r := try_models models modelUsed None p in
    {| result :=
         match exit r with
         | LoopThrow e => inl (ProviderError e)
         | LoopDone None _ lastError =>
             inl (match lastError with
                  | Some e => ProviderError e
                  | None => NewError (Js.lit "No available model")
                  end)
         | LoopDone (Some completion) modelUsed _ =>
             inr {| text := completion_text completion; model := modelUsed |}
         end;
       calls := attempted r;
       provider_after := after r |}.

Definition callOpenAi (has_client : bool) (OPENAI_MODEL : option jsstring)
    (p : Provider) : outcome :=
  callOpenAi_on has_client (buildModelList OPENAI_MODEL) p.

(** Every model of [models] is attempted from state [p] and fails with the
    model-unavailable errors [errs], leaving the provider in [p']. *)
Inductive all_unavailable : list jsstring -> Provider -> list ApiError -> Provider -> Prop :=
| unavailable_nil p : all_unavailable [] p [] p
| unavailable_cons m rest p e p1 errs p' :
    create m p = (inl e, p1) ->
    isModelError e = true ->
    all_unavailable rest p1 errs p' ->
    all_unavailable (m :: rest) p (e :: errs) p'.

End Dispatch.
Arguments loop_exit : clear implicits.
Arguments run : clear implicits.
Arguments outcome : clear implicits.

(** [lastError] after the failures [errs], when it held [before] them. *)
Definition last_error (errs : list ApiError) (before : option ApiError)
  : option ApiError :=
  match last errs with
  | Some e => Some e
  | None => before
  end.







(** The text of a reply, stated on the fields of the completion: the
    content of the message of the first choice, trimmed, and the empty text
    when there is no choice, no message or no content. *)
Definition reply_text (c : Completion) (text : jsstring) : Prop :=
  (forall ch rest msg s,
     choices c = Some (ch :: rest) -> choice_message ch = Some msg ->
     content msg = Some s -> text = Js.trim s) /\
  (choices c = None \/ choices c = Some []
   \/ (exists ch rest, choices c = Some (ch :: rest) /\
        (choice_message ch = None
         \/ exists msg, choice_message ch = Some msg /\ content msg = None)) ->
   text = []).

End Gateway.

(** *** JSON values, [JSON.parse] and [JSON.stringify] *)

Module Json.

Unset Elimination Schemes.
Inductive json :=
| JNull
| JBool (b : bool)
| JNum (literal : jsstring)
| JStr (s : jsstring)
| JArr (items : list json)
| JObj (members : list (jsstring * json)).
Set Elimination Schemes.

(** **** Objects: property lookup and definition, in property order *)

Definition is_digit (c : N) : bool := ((48 <=? c) && (c <=? 57))%N.

Fixpoint digits_value (acc : N) (s : jsstring) : option N :=
  match s with
  | [] => Some acc
  | c :: rest =>
      if is_digit c then digits_value (10 * acc + (c - 48))%N rest else None
  end.

(** The array index a property key denotes, if it is the canonical decimal
    form of an integer below [2^32 - 1]. *)
Definition array_index (k : jsstring) : option N :=
  match k with
  | [] => None
  | c :: rest =>
      if (c =? 48)%N then match rest with [] => Some 0%N | _ => None end
      else n ← digits_value 0 k; if (n <? 4294967295)%N then Some n else None
  end.

Definition obj_get (k : jsstring) (ms : list (jsstring * json)) : option json :=
  snd <$> List.find (fun m => Js.eqb (fst m) k) ms.

Definition has_key (k : jsstring) (ms : list (jsstring * json)) : bool :=
  bool_decide (is_Some (obj_get k ms)).

(** An existing property keeps its place when it is redefined. *)
Fixpoint obj_replace (k : jsstring) (v : json) (ms : list (jsstring * json))
  : list (jsstring * json) :=
  match ms with
  | [] => []
  | (k', v') :: rest =>
      if Js.eqb k' k then (k, v) :: rest else (k', v') :: obj_replace k v rest
  end.

(** A new index key goes among the index keys, in ascending order. *)
Fixpoint obj_insert_index (n : N) (k : jsstring) (v : json)
    (ms : list (jsstring * json)) : list (jsstring * json) :=
  match ms with
  | [] => [(k, v)]
  | (k', v') :: rest =>
      match array_index k' with
      | Some n' =>
          if (n' <? n)%N then (k', v') :: obj_insert_index n k v rest
          else (k, v) :: ms
      | None => (k, v) :: ms
      end
  end.

(** [o[k] = v] on a plain object: index keys first, ascending, then the
    other keys in the order of their creation. *)
Definition obj_set (k : jsstring) (v : json) (ms : list (jsstring * json))
  : list (jsstring * json) :=
  if has_key k ms then obj_replace k v ms
  else match array_index k with
       | Some n => obj_insert_index n k v ms
       | None => ms ++ [(k, v)]
       end.

(** The object that defining the properties [ms] one after the other gives. *)
Definition build_object (ms : list (jsstring * json)) : list (jsstring * json) :=
  fold_left (fun o m => obj_set (fst m) (snd m) o) ms [].

(** **** [JSON.parse] *)

Definition is_json_ws (c : N) : bool :=
  ((c =? 9) || (c =? 10) || (c =? 13) || (c =? 32))%N.

Fixpoint skip_ws (s : jsstring) : jsstring :=
  match s with
  | c :: rest => if is_json_ws c then skip_ws rest else s
  | [] => []
  end.

Definition hex_value (c : N) : option N :=
  if is_digit c then Some (c - 48)%N
  else if ((97 <=? c) && (c <=? 102))%N then Some (c - 87)%N
  else if ((65 <=? c) && (c <=? 70))%N then Some (c - 55)%N
  else None.

Definition hex4 (a b c d : N) : option N :=
  x ← hex_value a; y ← hex_value b; z ← hex_value c; w ← hex_value d;
  Some (((x * 16 + y) * 16 + z) * 16 + w)%N.

(** The code unit a one-letter escape stands for. *)
Definition escape_value (e : N) : option N :=
  if (e =? 34)%N then Some 34%N
  else if (e =? 92)%N then Some 92%N
  else if (e =? 47)%N then Some 47%N
  else if (e =? 98)%N then Some 8%N
  else if (e =? 102)%N then Some 12%N
  else if (e =? 110)%N then Some 10%N
  else if (e =? 114)%N then Some 13%N
  else if (e =? 116)%N then Some 9%N
  else None.

(** The characters of a string literal after its opening quote, up to the
    closing quote; the text after it. *)
Fixpoint parse_string_body (s : jsstring) : option (jsstring * jsstring) :=
  match s with
  | [] => None
  | c :: rest =>
      if (c =? 34)%N then Some ([], rest)
      else if (c =? 92)%N then
        match rest with
        | e :: rest' =>
            if (e =? 117)%N then
              match rest' with
              | h1 :: h2 :: h3 :: h4 :: rest'' =>
                  u ← hex4 h1 h2 h3 h4;
                  '(str, r) ← parse_string_body rest'';
                  Some (u :: str, r)
              | _ => None
              end
            else
              u ← escape_value e;
              '(str, r) ← parse_string_body rest';
              Some (u :: str, r)
        | [] => None
        end
      else if (c <? 32)%N then None
      else '(str, r) ← parse_string_body rest; Some (c :: str, r)
  end.

Fixpoint take_digits (s : jsstring) : jsstring * jsstring :=
  match s with
  | c :: rest =>
      if is_digit c
      then let '(ds, r) := take_digits rest in (c :: ds, r)
      else ([], s)
  | [] => ([], [])
  end.

(** One or more digits. *)
Definition parse_digits (s : jsstring) : option (jsstring * jsstring) :=
  match take_digits s with
  | ([], _) => None
  | (ds, r) => Some (ds, r)
  end.

Definition parse_int (s : jsstring) : option (jsstring * jsstring) :=
  match s with
  | c :: rest => if (c =? 48)%N then Some ([c], rest) else parse_digits s
  | [] => None
  end.

Definition parse_frac (s : jsstring) : option (jsstring * jsstring) :=
  match s with
  | c :: rest =>
      if (c =? 46)%N then '(ds, r) ← parse_digits rest; Some (c :: ds, r)
      else Some ([], s)
  | [] => Some ([], s)
  end.

Definition parse_exp (s : jsstring) : option (jsstring * jsstring) :=
  match s with
  | c :: rest =>
      if ((c =? 101) || (c =? 69))%N then
        match rest with
        | sign :: rest' =>
            if ((sign =? 43) || (sign =? 45))%N
            then '(ds, r) ← parse_digits rest'; Some (c :: sign :: ds, r)
            else '(ds, r) ← parse_digits rest; Some (c :: ds, r)
        | [] => None
        end
      else Some ([], s)
  | [] => Some ([], s)
  end.

(** A number literal: [-? int frac? exp?]. *)
Definition parse_number (s : jsstring) : option (jsstring * jsstring) :=
  let '(sign, s1) := match s with
                     | c :: rest => if (c =? 45)%N then ([c], rest) else ([], s)
                     | [] => ([], s)
                     end in
  '(i, s2) ← parse_int s1;
  '(f, s3) ← parse_frac s2;
  '(e, s4) ← parse_exp s3;
  Some (sign ++ i ++ f ++ e, s4).

Definition parse_keyword (word : string) (v : json) (s : jsstring)
  : option (json * jsstring) :=
  let w := Js.lit word in
  if Js.startsWith w s then Some (v, drop (length w) s) else None.

(** [s] after a first code unit [c], if it starts with one. *)
Definition expect (c : N) (s : jsstring) : option jsstring :=
  match s with
  | c' :: rest => if (c' =? c)%N then Some rest else None
  | [] => None
  end.

(** A value at the head of [s], then the elements of an array after its
    first bracket, the members of an object after its first brace. [fuel]
    bounds the depth of the calls. *)
Fixpoint parse_value (fuel : nat) (s : jsstring) : option (json * jsstring) :=
  match fuel with
  | O => None
  | S fuel' =>
      match s with
      | [] => None
      | c :: rest =>
          if (c =? 123)%N then
            match expect 125 (skip_ws rest) with
            | Some r => Some (JObj [], r)
            | None =>
                '(ms, r) ← parse_members fuel' (skip_ws rest);
                Some (JObj (build_object ms), r)
            end
          else if (c =? 91)%N then
            match expect 93 (skip_ws rest) with
            | Some r => Some (JArr [], r)
            | None =>
                '(vs, r) ← parse_elements fuel' (skip_ws rest);
                Some (JArr vs, r)
            end
          else if (c =? 34)%N then
            '(str, r) ← parse_string_body rest; Some (JStr str, r)
          else if (c =? 116)%N then parse_keyword "true" (JBool true) s
          else if (c =? 102)%N then parse_keyword "false" (JBool false) s
          else if (c =? 110)%N then parse_keyword "null" JNull s
          else '(lit, r) ← parse_number s; Some (JNum lit, r)
      end
  end
with parse_elements (fuel : nat) (s : jsstring) : option (list json * jsstring) :=
  match fuel with
  | O => None
  | S fuel' =>
      '(v, r) ← parse_value fuel' s;
      match expect 44 (skip_ws r) with
      | Some r' =>
          '(vs, r'') ← parse_elements fuel' (skip_ws r'); Some (v :: vs, r'')
      | None =>
          r' ← expect 93 (skip_ws r); Some ([v], r')
      end
  end
with parse_members (fuel : nat) (s : jsstring)
  : option (list (jsstring * json) * jsstring) :=
  match fuel with
  | O => None
  | S fuel' =>
      r0 ← expect 34 s;
      '(k, r1) ← parse_string_body r0;
      r2 ← expect 58 (skip_ws r1);
      '(v, r3) ← parse_value fuel' (skip_ws r2);
      match expect 44 (skip_ws r3) with
      | Some r4 =>
          '(ms, r5) ← parse_members fuel' (skip_ws r4);
          Some ((k, v) :: ms, r5)
      | None =>
          r4 ← expect 125 (skip_ws r3); Some ([(k, v)], r4)
      end
  end.

(** [JSON.parse(text)]; [None] stands for the [SyntaxError] it throws. The
    fuel is more than any text takes: every call goes with a code unit of
    the text. A number is kept by its literal as the text has it, which is
    the one JavaScript prints when [JSON.stringify] wrote the text. *)
Definition JSON_parse (text : jsstring) : option json :=
  '(v, r) ← parse_value (2 + 2 * length text) (skip_ws text);
  match skip_ws r with
  | [] => Some v
  | _ => None
  end.

(** **** [JSON.stringify(value, null, 2)] *)

Definition hex_digit (n : N) : N := if (n <? 10)%N then (48 + n)%N else (87 + n)%N.

(** [\uXXXX], in lower case. *)
Definition unicode_escape (c : N) : jsstring :=
  [92; 117; hex_digit (c / 4096 mod 16); hex_digit (c / 256 mod 16);
   hex_digit (c / 16 mod 16); hex_digit (c mod 16)]%N.

Definition is_lead_surrogate (c : N) : bool := ((55296 <=? c) && (c <=? 56319))%N.
Definition is_trail_surrogate (c : N) : bool := ((56320 <=? c) && (c <=? 57343))%N.

(** One code unit that is not a surrogate. *)
Definition quote_unit (c : N) : jsstring :=
  if (c =? 8)%N then [92; 98]%N
  else if (c =? 9)%N then [92; 116]%N
  else if (c =? 10)%N then [92; 110]%N
  else if (c =? 12)%N then [92; 102]%N
  else if (c =? 13)%N then [92; 114]%N
  else if (c =? 34)%N then [92; 34]%N
  else if (c =? 92)%N then [92; 92]%N
  else if (c <? 32)%N then unicode_escape c
  else [c].

(** The characters between the quotes: a surrogate pair is copied, a lone
    surrogate is escaped. *)
Fixpoint quote_units (s : jsstring) : jsstring :=
  match s with
  | [] => []
  | c :: rest =>
      if is_lead_surrogate c then
        match rest with
        | d :: rest' =>
            if is_trail_surrogate d then c :: d :: quote_units rest'
            else unicode_escape c ++ quote_units rest
        | [] => unicode_escape c
        end
      else if is_trail_surrogate c then unicode_escape c ++ quote_units rest
      else quote_unit c ++ quote_units rest
  end.

Definition quote (s : jsstring) : jsstring := [34%N] ++ quote_units s ++ [34%N].

Definition gap : jsstring := [32; 32]%N.

Definition newline : jsstring := [10%N].

Fixpoint stringify (indent : jsstring) (v : json) : jsstring :=
  match v with
  | JNull => Js.lit "null"
  | JBool true => Js.lit "true"
  | JBool false => Js.lit "false"
  | JNum lit => lit
  | JStr s => quote s
  | JArr [] => Js.lit "[]"
  | JArr items =>
      let inner := indent ++ gap in
      Js.lit "[" ++ newline ++ inner
      ++ Js.join (Js.lit "," ++ newline ++ inner)
                 (List.map (stringify inner) items)
      ++ newline ++ indent ++ Js.lit "]"
  | JObj [] => Js.lit "{}"
  | JObj members =>
      let inner := indent ++ gap in
      Js.lit "{" ++ newline ++ inner
      ++ Js.join (Js.lit "," ++ newline ++ inner)
                 (List.map (fun m => quote (fst m) ++ Js.lit ": "
                                     ++ stringify inner (snd m)) members)
      ++ newline ++ indent ++ Js.lit "}"
  end.

Definition JSON_stringify (v : json) : jsstring := stringify [] v.

(** **** Values a JavaScript program can hold *)

Fixpoint names_ordered (ks : list jsstring) : bool :=
  match ks with
  | [] => true
  | k :: rest =>
      bool_decide (array_index k = None) && bool_decide (k ∉ rest)
      && names_ordered rest
  end.

(** Property order: index keys ascending, then the other keys, each once. *)
Fixpoint keys_ordered (above : option N) (ks : list jsstring) : bool :=
  match ks with
  | [] => true
  | k :: rest =>
      match array_index k with
      | Some n =>
          match above with
          | Some m => (m <? n)%N
          | None => true
          end && keys_ordered (Some n) rest
      | None => names_ordered ks
      end
  end.

Definition number_literal (lit : jsstring) : bool :=
  bool_decide (parse_number lit = Some (lit, [])).

(** Numbers are literals of the grammar and objects keep their keys in
    property order. *)
Fixpoint well_formed (v : json) : bool :=
  match v with
  | JNull | JBool _ | JStr _ => true
  | JNum lit => number_literal lit
  | JArr items => forallb well_formed items
  | JObj members =>
      keys_ordered None (List.map fst members)
      && forallb (fun m => well_formed (snd m)) members
  end.

(** The number of values in [v], counting each element of an array and each
    member of an object once more: the fuel that parsing its text takes. *)
Fixpoint json_size (v : json) : nat :=
  match v with
  | JArr items => S (list_sum (List.map (fun x => S (json_size x)) items))
  | JObj members => S (list_sum (List.map (fun m => S (json_size (snd m))) members))
  | _ => 1
  end.

(** What may follow a number literal: nothing that would extend it. *)
Definition ends_number (rest : jsstring) : Prop :=
  match rest with
  | [] => True
  | c :: _ => c = 44%N \/ c = 10%N
  end.

(** The text after a run of digits: it does not go on with a digit. *)
Definition stops_digits (t : jsstring) : Prop :=
  match t with
  | [] => True
  | c :: _ => is_digit c = false
  end.

(** An indentation: white space only. *)
Definition blank (indent : jsstring) : Prop :=
  Forall (fun c => is_json_ws c = true) indent.

(** The first code unit of a value's text: not white space, not a bracket
    that closes an array. *)
Definition starts_value (s : jsstring) : Prop :=
  exists c t, s = c :: t /\ is_json_ws c = false /\ c <> 93%N.

(** Reading a value back: the statement of the round trip for one value,
    at any indentation and before any text that does not extend a number. *)
Definition reads_back (v : json) : Prop :=
  forall fuel indent rest,
    well_formed v = true ->
    (json_size v <= fuel)%nat ->
    blank indent ->
    ends_number rest ->
    parse_value fuel (stringify indent v ++ rest) = Some (v, rest).

(** **** Coercions *)

(** A number literal denotes zero when its digits before the exponent are
    all [0]. *)
Fixpoint mantissa_zero (lit : jsstring) : bool :=
  match lit with
  | [] => true
  | c :: rest =>
      if ((c =? 101) || (c =? 69))%N then true
      else if ((49 <=? c) && (c <=? 57))%N then false
      else mantissa_zero rest
  end.

(** [Boolean(v)] for a value that may be [undefined]. *)
Definition truthy (v : option json) : bool :=
  match v with
  | None | Some JNull => false
  | Some (JBool b) => b
  | Some (JNum lit) => negb (mantissa_zero lit)
  | Some (JStr s) => Js.truthy (Some s)
  | Some (JArr _) | Some (JObj _) => true
  end.

(** [typeof v === 'object']: objects, arrays and [null]. *)
Definition typeof_object (v : option json) : bool :=
  match v with
  | Some JNull | Some (JArr _) | Some (JObj _) => true
  | _ => false
  end.

(** [String(v)] and [`${v}`]. An object prints as [[object Object]] unless
    it has a property [toString] of its own: that one is no function, nor
    does [valueOf] give a primitive value, and the conversion throws a
    [TypeError], which is [None]. An array prints its elements with commas
    between, [null] as nothing, and throws when an element does. *)
Fixpoint to_String (v : json) : option jsstring :=
  match v with
  | JNull => Some (Js.lit "null")
  | JBool true => Some (Js.lit "true")
  | JBool false => Some (Js.lit "false")
  | JNum lit => Some lit
  | JStr s => Some s
  | JArr items =>
      Js.join (Js.lit ",")
        <$> mapM (fun x => match x with JNull => Some [] | _ => to_String x end) items
  | JObj members =>
      if has_key (Js.lit "toString") members then None
      else Some (Js.lit "[object Object]")
  end.

(** The own enumerable properties of an object or an array, as [{...v}]
    copies them; [null], booleans and numbers have none. *)
Definition own_properties (v : json) : list (jsstring * json) :=
  match v with
  | JObj members => members
  | JArr items => imap (fun i x => (Js.of_nat i, x)) items
  | _ => []
  end.

(** [v[k]] for a key [k] other than [length] that no prototype defines. *)
Definition get (v : option json) (k : jsstring) : option json :=
  match v with
  | Some (JObj members) => obj_get k members
  | Some other => obj_get k (own_properties other)
  | None => None
  end.

End Json.

(** *** The setup-response parser ([extractJsonObject], [parsePhaseSetup]) *)

Module Setup.
Import Json.

Record PhaseSetup := {
  title : option jsstring;
  range : option jsstring;
  summary : option jsstring;
  subphaseTitle : option jsstring;
  subphaseRange : option jsstring;
  subphasePrompt : option jsstring;
  themes : option (list jsstring);
  questions : option (list jsstring);
}.

(** [None] is the [null] the function returns. *)
Definition extractJsonObject (text : jsstring) : option json :=
  let start := Js.indexOf (Js.lit "{") text in
  let end_ := Js.lastIndexOf (Js.lit "}") text in
  if (start <? 0) || (end_ <? 0) || (end_ <=? start) then None
  else
    let slice := Js.slice start (end_ + 1) text in
    JSON_parse slice.

Definition pickString (value : option json) (key : string) : option jsstring :=
  match get value (Js.lit key) with
  | Some (JStr s) => Some (Js.trim s)
  | _ => None
  end.

(** The strings among the items of an array. *)
Definition strings_of (items : list json) : list jsstring :=
  omap (fun item => match item with JStr s => Some s | _ => None end) items.

Definition pickList (value : option json) (key : string) : option (list jsstring) :=
  match get value (Js.lit key) with
  | Some (JArr items) =>
      Some (List.filter (fun s => Js.truthy (Some s))
              (List.map Js.trim (strings_of items)))
  | _ => None
  end.

Definition parsePhaseSetup (text : jsstring) : option PhaseSetup :=
  if negb (Js.truthy (Some text)) then None
  else
    let parsed := extractJsonObject text in
    if negb (truthy parsed) || negb (typeof_object parsed) then None
    else
      let value := parsed in
      Some {| title := pickString value "title";
              range := pickString value "range";
              summary := pickString value "summary";
              subphaseTitle := pickString value "subphaseTitle";
              subphaseRange := pickString value "subphaseRange";
              subphasePrompt := pickString value "subphasePrompt";
              themes := pickList value "themes";
              questions := pickList value "questions" |}.

End Setup.

(** *** The sync and upload store ([requireSyncAuth], [readSyncData],
      [writeSyncData] and the three routes) *)

(** What a response carries: the value given to [res.json], or the error page
    that Express writes when a handler throws. A JSON value is read as the
    response that carries it. *)
Inductive sent := Value (v : Json.json) | ErrorPage.
Coercion Value : Json.json >-> sent.

Module Server.
Import Json.

(** An absolute path, as the list of its segments. *)
Abbreviation path := (list jsstring).

(** The file system: contents by path. *)
Abbreviation Disk := (gmap (list jsstring) (list N)).

(** [path.join(dir, name)] on POSIX: the segments of [name] are walked from
    [dir]; empty segments and [.] stay, [..] climbs. *)
Definition walk (at_ : path) (segment : jsstring) : path :=
  if bool_decide (segment = []) || bool_decide (segment = Js.lit ".") then at_
  else if bool_decide (segment = Js.lit "..") then removelast at_
  else at_ ++ [segment].

Definition path_join (dir : path) (name : jsstring) : path :=
  fold_left walk (Js.split 47%N name) dir.

Record Config := {
  SYNC_TOKEN : option jsstring;
  cwd : path;
}.

Definition syncToken (cfg : Config) : option jsstring := SYNC_TOKEN cfg.

Definition dataDir (cfg : Config) : path :=
  path_join (path_join (cwd cfg) (Js.lit "server")) (Js.lit "data").

Definition uploadsDir (cfg : Config) : path :=
  path_join (path_join (cwd cfg) (Js.lit "server")) (Js.lit "uploads").

Definition syncFile (cfg : Config) : path :=
  path_join (dataDir cfg) (Js.lit "sync.json").

(** A request, as far as the three routes read it. *)
Record Request := {
  authorization : option jsstring;
  x_sync_token : option jsstring;
  body : option json;
}.

(** How a write to the disk ends: it completes; it throws before the file
    is opened; it throws after the file was truncated and [n] units were
    written. *)
Inductive write_result := WriteOk | WriteFailsAtOpen | WriteFailsAfter (n : nat).

(** What a request finds: the clock reading, the fate of its write, and
    whether reading the sync file throws. *)
Record Env := {
  now : Z;
  disk_write : write_result;
  read_fails : bool;
}.

Record Response := { status : Z; payload : sent }.

(** The response to a request whose handler throws: Express catches the
    error and its default error handler answers 500 with the error page. *)
Definition uncaught : Response := {| status := 500; payload := ErrorPage |}.

Definition prop (key : string) (value : option json) : string * option json :=
  (key, value).

Definition json_response (code : Z) (props : list (string * option json))
  : Response :=
  {| status := code;
     payload := JObj (omap (fun p => v ← snd p; Some (Js.lit (fst p), v)) props) |}.

Definition getAuthToken (req : Request) : option jsstring :=
  let header := Js.nullish (Js.or_else (authorization req) (Some [])) [] in
  if Js.startsWith (Js.lit "Bearer ") header then Some (Js.slice 7 (Z.of_nat (length header)) header)
  else x_sync_token req.

(** [true] when the middleware calls [next()], [false] when it answers 401. *)
Definition requireSyncAuth (cfg : Config) (req : Request) : bool :=
  if negb (Js.truthy (syncToken cfg)) then true
  else
    let token := getAuthToken req in
    Js.truthy token && bool_decide (token = syncToken cfg).

(** [fs.writeFileSync(target, data)]: whether it returned, and the disk. *)
Definition writeFileSync (target : path) (data : list N) (r : write_result)
    (d : Disk) : bool * Disk :=
  match r with
  | WriteOk => (true, <[target := data]> d)
  | WriteFailsAtOpen => (false, d)
  | WriteFailsAfter n => (false, <[target := take n data]> d)
  end.

Definition placeholder : json := JObj [(Js.lit "updatedAt", JNull)].

Definition readSyncData (cfg : Config) (env : Env) (d : Disk) : json :=
  match d !! syncFile cfg with
  | None => placeholder
  | Some raw =>
      if read_fails env then placeholder
      else match JSON_parse raw with
           | Some parsed =>
               if typeof_object (Some parsed) && truthy (Some parsed)
               then parsed else placeholder
           | None => placeholder
           end
  end.

(** The stamped document [{...payload, updatedAt: new Date().toISOString()}]. *)
Definition stamp (payload : json) (t : Z) : json :=
  JObj (obj_set (Js.lit "updatedAt") (JStr (Js.toISOString t))
          (build_object (own_properties payload))).

(** [None] when the write throws. *)
Definition writeSyncData (cfg : Config) (env : Env) (payload : json) (d : Disk)
  : option json * Disk :=
  let next := stamp payload (now env) in
  let '(written, d') :=
    writeFileSync (syncFile cfg) (JSON_stringify next) (disk_write env) d in
  (if written then Some next else None, d').

Definition getSync (cfg : Config) (req : Request) (env : Env) (d : Disk)
  : Response * Disk :=
  ({| status := 200; payload := readSyncData cfg env d |}, d).

Definition postSync (cfg : Config) (req : Request) (env : Env) (d : Disk)
  : Response * Disk :=
  if negb (truthy (body req)) || negb (typeof_object (body req)) then
    (json_response 400 [prop "error" (Some (JStr (Js.lit "Invalid payload")))], d)
  else
    match writeSyncData cfg env (default JNull (body req)) d with
    | (Some stored, d') =>
        (json_response 200 [prop "ok" (Some (JBool true));
                            prop "updatedAt" (get (Some stored) (Js.lit "updatedAt"))],
         d')
    | (None, d') =>
        (json_response 500
           [prop "error" (Some (JStr (Js.lit "Failed to write sync data")))], d')
    end.

Definition is_string (v : option json) : bool :=
  match v with
  | Some (JStr _) => true
  | _ => false
  end.

Definition word_char (c : N) : bool :=
  (((65 <=? c) && (c <=? 90)) || ((97 <=? c) && (c <=? 122))
   || is_digit c || (c =? 95))%N.

(** The class [[\w.-]] the upload keeps. *)
Definition safe_char (c : N) : bool := (word_char c || (c =? 46) || (c =? 45))%N.

(** [s.replace(/[^\w.-]/g, '_')]. *)
Definition sanitize (s : jsstring) : jsstring :=
  List.map (fun c => if safe_char c then c else 95%N) s.

(** [String(fileName).replace(/[^\w.-]/g, '_') || 'upload']; [None] when
    [String(fileName)] throws. *)
Definition safeBase (fileName : json) : option jsstring :=
  text ← to_String fileName;
  let replaced := sanitize text in
  Some (if Js.truthy (Some replaced) then replaced else Js.lit "upload").

(** [`${Date.now()}-${safeBase}`]. *)
Definition uniqueName (t : Z) (safeBase : jsstring) : jsstring :=
  Js.of_Z t ++ Js.lit "-" ++ safeBase.

Section Upload.
(** [Buffer.from(text, 'base64')]: the bytes a base64 text decodes to. *)
Variable Buffer_from_base64 : jsstring -> list N.

Definition postUpload (cfg : Config) (req : Request) (env : Env) (d : Disk)
  : Response * Disk :=
  let source := match body req with
                | None | Some JNull => Some (JObj [])
                | other => other
                end in
  let fileName := get source (Js.lit "fileName") in
  let fileType := get source (Js.lit "fileType") in
  let data := get source (Js.lit "data") in
  if negb (truthy fileName) || negb (truthy data) || negb (is_string data) then
    (json_response 400 [prop "error" (Some (JStr (Js.lit "Missing file payload")))], d)
  else
    match safeBase (default JNull fileName) with
    | None => (uncaught, d)
    | Some safeBase =>
        let uniqueName := uniqueName (now env) safeBase in
        let target := path_join (uploadsDir cfg) uniqueName in
        let data := match data with
                    | Some (JStr text) => text
                    | _ => []
                    end in
        let base64 :=
          if Js.includes (Js.lit "base64,") data
          then default [] (Js.split_second (Js.lit "base64,") data)
          else data in
        let buffer := Buffer_from_base64 base64 in
        match writeFileSync target buffer (disk_write env) d with
        | (true, d') =>
            (json_response 200
               [prop "url" (Some (JStr (Js.lit "/uploads/" ++ uniqueName)));
                prop "fileName" (Some (JStr safeBase));
                prop "fileType" (Some (if truthy fileType then default JNull fileType
                                       else JStr []));
                prop "size" (Some (JNum (Js.of_nat (length buffer))))],
             d')
        | (false, d') =>
            (json_response 500
               [prop "error" (Some (JStr (Js.lit "Failed to store file")))],
             d')
        end
    end.

Inductive Route := GET_api_sync | POST_api_sync | POST_api_upload.

Definition handler (route : Route)
  : Config -> Request -> Env -> Disk -> Response * Disk :=
  match route with
  | GET_api_sync => getSync
  | POST_api_sync => postSync
  | POST_api_upload => postUpload
  end.

Definition unauthorized : Response :=
  json_response 401 [prop "error" (Some (JStr (Js.lit "Unauthorized")))].

(** One request to a gated route: the middleware, then the handler. *)
Definition serve (cfg : Config) (route : Route) (req : Request) (env : Env)
    (d : Disk) : Response * Disk :=
  if requireSyncAuth cfg req then handler route cfg req env d
  else (unauthorized, d).

End Upload.

(** The files of a disk inside a directory. *)
Definition inside (dir : path) (p : path) : Prop :=
  exists name, p = dir ++ [name].

End Server.

(** *** Example data *)

Module Example.
Import Json Server.

(** A deployment without a secret, and one with the secret [s3cret]. *)
Definition open_config : Config :=
  {| SYNC_TOKEN := None; cwd := [Js.lit "srv"; Js.lit "app"] |}.

Definition gated_config : Config :=
  {| SYNC_TOKEN := Some (Js.lit "s3cret"); cwd := [Js.lit "srv"; Js.lit "app"] |}.

Definition request (b : option json) : Request :=
  {| authorization := None; x_sync_token := None; body := b |}.

Definition note (text : string) : json :=
  JObj [(Js.lit "note", JStr (Js.lit text)); (Js.lit "updatedAt", JNum (Js.lit "7"))].

Definition at_time (t : Z) (w : write_result) : Env :=
  {| now := t; disk_write := w; read_fails := false |}.

(** The decoder of the examples: the bytes that Node decodes a base64 text
    to. *)
Definition raw_bytes (text : jsstring) : list N := Js.Buffer_from_base64 text.

Definition upload (name data : string) : Request :=
  request (Some (JObj [(Js.lit "fileName", JStr (Js.lit name));
                       (Js.lit "data", JStr (Js.lit data))])).

(** A text between double quotes. *)
Definition quoted (text : string) : jsstring := [34%N] ++ Js.lit text ++ [34%N].

(** The reply of the specification's example: some prose, then an object
    with a title and three themes, one of them a number. *)
Definition reform_reply : jsstring :=
  Js.lit "Sure! {" ++ quoted "title" ++ Js.lit ": " ++ quoted "Reform Era"
  ++ Js.lit ", " ++ quoted "themes" ++ Js.lit ": [" ++ quoted "law"
  ++ Js.lit ", 42, " ++ quoted " politics " ++ Js.lit "]}".

(** A provider where [gpt-4o-mini] is unknown, [gpt-4o] answers and any
    other model is refused for a reason other than its absence; its state
    counts the calls. *)
Definition not_found : Gateway.ApiError :=
  {| Gateway.status := Some 404; Gateway.error := None;
     Gateway.code := None; Gateway.message := Some (Js.lit "No such model") |}.

Definition forbidden : Gateway.ApiError :=
  {| Gateway.status := Some 401; Gateway.error := None;
     Gateway.code := Some (Js.lit "invalid_api_key");
     Gateway.message := Some (Js.lit "Incorrect API key provided") |}.

Definition answer : Gateway.Completion :=
  {| Gateway.choices :=
       Some [ {| Gateway.choice_message :=
                   Some {| Gateway.content := Some (Js.lit "  Hello.  ") |} |} ] |}.

Definition provider (m : jsstring) (calls : nat)
  : (Gateway.ApiError + Gateway.Completion) * nat :=
  if Js.eqb m (Js.lit "gpt-4o-mini") then (inl not_found, S calls)
  else if Js.eqb m (Js.lit "gpt-4o") then (inr answer, S calls)
  else (inl forbidden, S calls).

End Example.

(** *** Connection nodes and their identifiers ([buildConnectionNodeId],
      [parseConnectionNodeId], [isEntitySectionId], [isEntitySection]) *)

Module Connections.

Definition entitySections : list jsstring :=
  [Js.lit "Countries"; Js.lit "Empires"; Js.lit "People"; Js.lit "Places"].

(** The seven values of [SectionId]. *)
Definition sectionIds : list jsstring :=
  [Js.lit "Home"; Js.lit "Phases"; Js.lit "Countries"; Js.lit "Empires";
   Js.lit "People"; Js.lit "Places"; Js.lit "Library"].

(** [entitySections.includes(value)]. *)
Definition isEntitySectionId (value : jsstring) : bool :=
  bool_decide (value ∈ entitySections).

Definition isEntitySection (section : jsstring) : bool :=
  negb (Js.eqb section (Js.lit "Home")) && negb (Js.eqb section (Js.lit "Phases"))
  && negb (Js.eqb section (Js.lit "Library")).

(** The four kinds of [ConnectionNode]; a section is the string the node
    holds. *)
Inductive ConnectionNode :=
| PhaseNode (phaseId : jsstring)
| PhaseSubphaseNode (phaseId subphaseId : jsstring)
| EntityNode (section entityId : jsstring)
| EntitySubphaseNode (section entityId subphaseId : jsstring).

Definition buildConnectionNodeId (node : ConnectionNode) : jsstring :=
  match node with
  | PhaseNode phaseId => Js.lit "phase:" ++ phaseId
  | PhaseSubphaseNode phaseId subphaseId =>
      Js.lit "phase-sub:" ++ phaseId ++ Js.lit ":" ++ subphaseId
  | EntityNode section entityId =>
      Js.lit "entity:" ++ section ++ Js.lit ":" ++ entityId
  | EntitySubphaseNode section entityId subphaseId =>
      Js.lit "entity-sub:" ++ section ++ Js.lit ":" ++ entityId
      ++ Js.lit ":" ++ subphaseId
  end.

(** [None] is the [null] the function returns. *)
Definition parseConnectionNodeId (value : jsstring) : option ConnectionNode :=
  if negb (Js.truthy (Some value)) then None
  else
    let parts := Js.split 58%N value in
    let kind := parts !! 0%nat in
    let first := parts !! 1%nat in
    let second := parts !! 2%nat in
    let third := parts !! 3%nat in
    if bool_decide (kind = Some (Js.lit "phase")) && Js.truthy first then
      Some (PhaseNode (Js.nullish first []))
    else if bool_decide (kind = Some (Js.lit "phase-sub")) && Js.truthy first
            && Js.truthy second then
      Some (PhaseSubphaseNode (Js.nullish first []) (Js.nullish second []))
    else if bool_decide (kind = Some (Js.lit "entity")) && Js.truthy first
            && Js.truthy second && isEntitySectionId (Js.nullish first []) then
      Some (EntityNode (Js.nullish first []) (Js.nullish second []))
    else if bool_decide (kind = Some (Js.lit "entity-sub")) && Js.truthy first
            && Js.truthy second && Js.truthy third
            && isEntitySectionId (Js.nullish first []) then
      Some (EntitySubphaseNode (Js.nullish first []) (Js.nullish second [])
                               (Js.nullish third []))
    else None.

(** The identifiers a node holds, and what makes them fit for an identifier
    of the node: not empty, no colon, the section one of the four. *)
Definition plain_id (s : jsstring) : Prop := s <> [] /\ (58%N ∉ s).

Definition plain_node (node : ConnectionNode) : Prop :=
  match node with
  | PhaseNode phaseId => plain_id phaseId
  | PhaseSubphaseNode phaseId subphaseId => plain_id phaseId /\ plain_id subphaseId
  | EntityNode section entityId => section ∈ entitySections /\ plain_id entityId
  | EntitySubphaseNode section entityId subphaseId =>
      section ∈ entitySections /\ plain_id entityId /\ plain_id subphaseId
  end.

End Connections.

(** *** Texts *)

Module Text.

(** A text that is tight: it neither starts nor ends with white space. *)
Definition tight_text (s : jsstring) : Prop :=
  match s with
  | [] => True
  | c :: _ => Js.is_whitespace c = false
  end /\
  match last s with
  | None => True
  | Some c => Js.is_whitespace c = false
  end.

(** A part of a text: a run of consecutive code units of it. *)
Definition part_of (t s : jsstring) : Prop := exists pre post, s = pre ++ t ++ post.

End Text.

(** *** Main points ([deriveLegacyMainPoint], [normalizeMainPoints],
      [buildMainPointFocus]) *)

Module MainPoints.

Record MainPoint := {
  id : jsstring;
  title : jsstring;
  description : jsstring;
}.

(** The part of a phase or an entity that [normalizeMainPoints] reads. *)
Record Pointed := {
  mainPoints : option (list MainPoint);
  mainPoint : option jsstring;
}.

(** The class [[.!?]]. *)
Definition sentence_end (c : N) : bool := ((c =? 46) || (c =? 33) || (c =? 63))%N.

Definition deriveLegacyMainPoint (text : jsstring) : MainPoint :=
  let trimmed := Js.trim text in
  let firstSentence :=
    match head (Js.split_where sentence_end trimmed) with
    | Some s => Js.trim s
    | None => []
    end in
  let title :=
    Js.or_string (Js.or_string (Js.slice 0 80 firstSentence) (Js.slice 0 80 trimmed))
                 (Js.lit "Main point") in
  {| id := Js.lit "main-point-legacy"; title := title; description := trimmed |}.

Definition normalizeMainPoints (record : option Pointed) : list MainPoint :=
  match record with
  | None => []
  | Some record =>
      match mainPoints record with
      | Some (p :: ps) => p :: ps
      | _ =>
          match mainPoint record with
          | Some text =>
              if Js.truthy (Some (Js.trim text)) then [deriveLegacyMainPoint text]
              else []
          | None => []
          end
      end
  end.

(** [point.title.trim() || point.description.trim()], as a condition. *)
Definition has_text (point : MainPoint) : bool :=
  Js.truthy (Some (Js.trim (title point)))
  || Js.truthy (Some (Js.trim (description point))).

(** [None] is [undefined]. *)
Definition buildMainPointFocus (mainPoints : option (list MainPoint))
    (fallback : option jsstring) : option jsstring :=
  let primary := points ← mainPoints; List.find has_text points in
  match primary with
  | Some primary =>
      let title := Js.trim (title primary) in
      let description := Js.trim (description primary) in
      if Js.truthy (Some title) && Js.truthy (Some description)
      then Some (title ++ Js.lit ": " ++ description)
      else Some (Js.or_string title description)
  | None => fallback
  end.

End MainPoints.

(** *** File sizes ([formatFileSize]) *)

Module Display.

(** [size] is a byte count: an integer, below [2^53] so that it is a
    number; [None] is a size that is not given. *)
Definition formatFileSize (size : option Z) : jsstring :=
  match size with
  | None => []
  | Some size =>
      if (size =? 0) || (size <=? 0) then []
      else if size <? 1024 then Js.of_Z size ++ Js.lit " B"
      else if size <? 1024 * 1024 then Js.toFixed1 size 1024 ++ Js.lit " KB"
      else Js.toFixed1 size (1024 * 1024) ++ Js.lit " MB"
  end.

End Display.

(** *** [JSON.stringify(value)], without indentation *)

Module Compact.
Import Json.

Fixpoint stringify (v : json) : jsstring :=
  match v with
  | JNull => Js.lit "null"
  | JBool true => Js.lit "true"
  | JBool false => Js.lit "false"
  | JNum lit => lit
  | JStr s => quote s
  | JArr items =>
      Js.lit "[" ++ Js.join (Js.lit ",") (List.map stringify items) ++ Js.lit "]"
  | JObj members =>
      Js.lit "{"
      ++ Js.join (Js.lit ",")
           (List.map (fun m => quote (fst m) ++ Js.lit ":" ++ stringify (snd m))
                     members)
      ++ Js.lit "}"
  end.

Definition JSON_stringify (v : json) : jsstring := stringify v.

(** What may follow a value in a text without indentation: nothing, a
    comma, or a bracket or a brace that closes. *)
Definition closes (rest : jsstring) : Prop :=
  match rest with
  | [] => True
  | c :: _ => c = 44%N \/ c = 93%N \/ c = 125%N
  end.

(** Reading back one value of such a text. *)
Definition reads_back (v : json) : Prop :=
  forall fuel rest,
    well_formed v = true ->
    (json_size v <= fuel)%nat ->
    closes rest ->
    parse_value fuel (stringify v ++ rest) = Some (v, rest).

End Compact.

(** *** The browser's storage ([loadStoredPhases], [savePhases],
      [loadStoredEntities], [saveEntities], [loadStoredConnections],
      [saveConnections]) *)

Module Storage.
Import Json.

(** [window.localStorage]: texts by key. *)
Abbreviation LocalStorage := (gmap (list N) (list N)).

Definition storageKey : jsstring := Js.lit "history-studio-phases-v2".
Definition entityStorageKey : jsstring := Js.lit "history-studio-entities-v1".
Definition connectionsStorageKey : jsstring := Js.lit "history-studio-connections-v1".

Definition isArray (v : json) : bool :=
  match v with
  | JArr _ => true
  | _ => false
  end.

(** The value a loader returns, [None] for [null]. *)
Definition or_null (v : json) : option json :=
  match v with
  | JNull => None
  | _ => Some v
  end.

(** [window] tells whether there is a [window]. *)
Definition load_array (key : jsstring) (window : bool) (store : LocalStorage)
  : option json :=
  if negb window then None
  else
    let raw := store !! key in
    if negb (Js.truthy raw) then None
    else
      match JSON_parse (Js.nullish raw []) with
      | Some parsed => if isArray parsed then Some parsed else None
      | None => None
      end.

Definition loadStoredPhases : bool -> LocalStorage -> option json :=
  load_array storageKey.

Definition loadStoredConnections : bool -> LocalStorage -> option json :=
  load_array connectionsStorageKey.

Definition loadStoredEntities (window : bool) (store : LocalStorage) : option json :=
  if negb window then None
  else
    let raw := store !! entityStorageKey in
    if negb (Js.truthy raw) then None
    else
      match JSON_parse (Js.nullish raw []) with
      | Some parsed => or_null parsed
      | None => None
      end.

(** [localStorage.setItem(key, text)]; [fits] tells whether the quota
    allows it, and [None] stands for the exception it throws otherwise. *)
Definition setItem (key text : jsstring) (fits : bool) (store : LocalStorage)
  : option LocalStorage :=
  if fits then Some (<[key := text]> store) else None.

Definition save (key : jsstring) (window : bool) (data : json) (fits : bool)
    (store : LocalStorage) : option LocalStorage :=
  if negb window then Some store
  else setItem key (Compact.JSON_stringify data) fits store.

Definition savePhases : bool -> json -> bool -> LocalStorage -> option LocalStorage :=
  save storageKey.

Definition saveEntities : bool -> json -> bool -> LocalStorage -> option LocalStorage :=
  save entityStorageKey.

Definition saveConnections
  : bool -> json -> bool -> LocalStorage -> option LocalStorage :=
  save connectionsStorageKey.

End Storage.

(** *** The sync client ([syncUrl], [syncToken], [buildSyncHeaders],
      [resolveSyncFileUrl]) *)

Module Client.

(** [import.meta.env], as far as the sync client reads it. *)
Record Env := {
  VITE_SYNC_URL : option jsstring;
  VITE_SYNC_TOKEN : option jsstring;
}.

Definition syncUrl (env : Env) : jsstring :=
  Js.strip_trailing 47%N
    (Js.trim (Js.nullish (Js.or_else (VITE_SYNC_URL env) (Some [])) [])).

Definition syncToken (env : Env) : jsstring :=
  Js.trim (Js.nullish (Js.or_else (VITE_SYNC_TOKEN env) (Some [])) []).

Definition syncEnabled (env : Env) : bool := Js.truthy (Some (syncUrl env)).

(** The two headers a sync request can carry. *)
Record Headers := {
  Content_Type : option jsstring;
  Authorization : option jsstring;
}.

Definition buildSyncHeaders (env : Env) (includeJson : bool) : Headers :=
  {| Content_Type := if includeJson then Some (Js.lit "application/json") else None;
     Authorization :=
       if Js.truthy (Some (syncToken env))
       then Some (Js.lit "Bearer " ++ syncToken env) else None |}.

(** The request the server sees when the client sends [body] with these
    headers. *)
Definition request (headers : Headers) (body : option Json.json) : Server.Request :=
  {| Server.authorization := Authorization headers;
     Server.x_sync_token := None;
     Server.body := body |}.

Definition resolveSyncFileUrl (env : Env) (fileUrl : option jsstring) : jsstring :=
  if negb (Js.truthy fileUrl) then []
  else
    let fileUrl := Js.nullish fileUrl [] in
    if Js.startsWith (Js.lit "http://") fileUrl
       || Js.startsWith (Js.lit "https://") fileUrl then fileUrl
    else if negb (Js.truthy (Some (syncUrl env))) then fileUrl
    else syncUrl env ++ fileUrl.

End Client.

(** *** Keyboard shortcuts ([useKeyboardShortcuts]) *)

Module Keyboard.

Record KeyboardEvent := {
  key : jsstring;
  metaKey : bool;
  ctrlKey : bool;
  shiftKey : bool;
}.

(** Which handlers the component passed. *)
Record Shortcuts := {
  onEscape : bool;
  onSave : bool;
  onCommandPalette : bool;
  onUndo : bool;
  onRedo : bool;
}.

Inductive Handler := Escape | Save | CommandPalette | Undo | Redo.

(** The handler that a key press runs, after [event.preventDefault()];
    [None] when the press is left alone. [isMac] is the test on
    [navigator.platform]. *)
Definition handleKeyDown (isMac : bool) (shortcuts : Shortcuts)
    (event : KeyboardEvent) : option Handler :=
  let modKey := if isMac then metaKey event else ctrlKey event in
  let pressed (name : string) := Js.eqb (key event) (Js.lit name) in
  if pressed "Escape"%string && onEscape shortcuts then Some Escape
  else if modKey && pressed "s"%string && onSave shortcuts then Some Save
  else if modKey && pressed "k"%string && onCommandPalette shortcuts then Some CommandPalette
  else if modKey && pressed "z"%string && negb (shiftKey event) && onUndo shortcuts
  then Some Undo
  else if ((modKey && shiftKey event && pressed "z"%string) || (modKey && pressed "y"%string))
          && onRedo shortcuts
  then Some Redo
  else None.

End Keyboard.

(** *** The AI route ([buildTask], [callOllama] and [POST /api/ai]) *)

Module Ai.
Import Json.

(** [process.env], as far as the AI route reads it. *)
Record Settings := {
  OPENAI_API_KEY : option jsstring;
  AI_PROVIDER : option jsstring;
  OLLAMA_HOST : option jsstring;
  OLLAMA_MODEL : option jsstring;
  OPENAI_MODEL : option jsstring;
}.

(** Whether [client] is an OpenAI client rather than [null]. *)
Definition has_client (s : Settings) : bool := Js.truthy (OPENAI_API_KEY s).

Definition provider (s : Settings) : jsstring :=
  Js.nullish
    (Js.or_else (AI_PROVIDER s)
       (Some (if has_client s then Js.lit "openai" else Js.lit "ollama"))) [].

Definition ollamaHost (s : Settings) : jsstring :=
  Js.strip_trailing 47%N
    (Js.nullish (Js.or_else (OLLAMA_HOST s) (Some (Js.lit "http://127.0.0.1:11434"))) []).

Definition ollamaModel (s : Settings) : jsstring :=
  Js.nullish (Js.or_else (OLLAMA_MODEL s) (Some (Js.lit "llama3.1:8b"))) [].

(** [v === 'text']. *)
Definition equals (v : option json) (text : string) : bool :=
  match v with
  | Some (JStr s) => Js.eqb s (Js.lit text)
  | _ => false
  end.

(** [`${v}`]; [None] when the conversion throws. *)
Definition show (v : option json) : option jsstring :=
  match v with
  | Some x => to_String x
  | None => Some (Js.lit "undefined")
  end.

(** A line of the block: [None] when building it throws; else the line, or
    the [null] that stands for a line left out. *)
Abbreviation line := (option (option jsstring)).

(** [`label${field ?? missing}`]. *)
Definition required_line (label : string) (field : option json) (missing : string)
  : line :=
  text ← match field with
         | None | Some JNull => Some (Js.lit missing)
         | Some x => to_String x
         end;
  Some (Some (Js.lit label ++ text)).

(** [field ? `label${field}` : null]. *)
Definition optional_line (label : string) (field : option json) : line :=
  if truthy field then text ← show field; Some (Some (Js.lit label ++ text))
  else Some None.

(** [buildContextBlock] on the context of a request body; [None] when a
    field cannot be printed: the elements of the array are built in order,
    and the first that throws ends the call. *)
Definition buildContextBlock (context : option json) : option jsstring :=
  lines ← mapM id
    [ required_line "Kind: " (get context (Js.lit "kind")) "unknown";
      required_line "Scope: " (get context (Js.lit "scope")) "summary";
      required_line "Title: " (get context (Js.lit "title")) "Untitled";
      required_line "Range: " (get context (Js.lit "range")) "n/a";
      optional_line "Focus: " (get context (Js.lit "focus"));
      optional_line "Summary: " (get context (Js.lit "summary"));
      optional_line "Prompt: " (get context (Js.lit "prompt"));
      optional_line "Draft: " (get context (Js.lit "draft"));
      optional_line "Reading text: " (get context (Js.lit "readingText")) ];
  Some (Js.join (Js.lit (String "010" EmptyString)) (Prompt.filter_Boolean lines)).

(** The context a typed client sends: each of the nine fields a string or
    absent. *)
Definition text_field (context : option json) (k : string) : option jsstring :=
  match get context (Js.lit k) with
  | Some (JStr s) => Some s
  | _ => None
  end.

Definition typed_field (context : option json) (k : string) : Prop :=
  match get context (Js.lit k) with
  | None | Some (JStr _) => True
  | _ => False
  end.

Definition typed_context (context : option json) : Prop :=
  typed_field context "kind" /\ typed_field context "scope"
  /\ typed_field context "title" /\ typed_field context "range"
  /\ typed_field context "focus" /\ typed_field context "summary"
  /\ typed_field context "prompt" /\ typed_field context "draft"
  /\ typed_field context "readingText".

Definition context_record (context : option json) : Prompt.AiContext :=
  {| Prompt.kind := text_field context "kind";
     Prompt.scope := text_field context "scope";
     Prompt.title := text_field context "title";
     Prompt.range := text_field context "range";
     Prompt.focus := text_field context "focus";
     Prompt.summary := text_field context "summary";
     Prompt.prompt := text_field context "prompt";
     Prompt.draft := text_field context "draft";
     Prompt.readingText := text_field context "readingText" |}.

Definition buildTask (action context : option json) : jsstring :=
  let scope := get context (Js.lit "scope") in
  let kind := get context (Js.lit "kind") in
  if equals action "draft" then
    if equals scope "summary" then
      if equals kind "phase"
      then Js.lit "Write a long-form narrative (4-6 paragraphs) based on the context."
      else Js.lit "Write a concise 3-5 sentence summary based on the context."
    else Js.lit "Write a clear working draft (3-6 paragraphs) based on the prompt and context."
  else if equals action "edit" then
    if equals scope "summary" then
      if equals kind "phase"
      then Js.lit "Revise the narrative for clarity, structure, and flow. Keep it 4-6 paragraphs."
      else Js.lit "Revise the summary for clarity and precision in 3-5 sentences."
    else Js.lit "Revise the draft for clarity, structure, and evidence alignment. Keep the length similar."
  else if equals action "overview" then
    Js.lit "Provide a concise high-level overview in 4-6 sentences. Avoid citations."
  else if equals action "chat" then
    Js.lit "Answer the user question and suggest concrete edits or next steps."
  else if equals action "setup" then
    if equals scope "subphase" then
      Js.join (Js.lit " ")
        [ Js.lit "Create a minimal subphase setup from the context.";
          Js.lit "Return JSON only with keys: title, range, prompt.";
          Js.lit "Keep values concise and specific.";
          Js.lit "Do not include any extra text or code fences." ]
    else
      let target := if equals kind "entity" then Js.lit "entry" else Js.lit "phase" in
      Js.join (Js.lit " ")
        [ Js.lit "Create a minimal " ++ target ++ Js.lit " setup from the context.";
          Js.lit "Return JSON only with keys:";
          Js.lit "title, range, summary, subphaseTitle, subphaseRange, subphasePrompt, themes, questions.";
          Js.lit "Write the summary as 2-4 short paragraphs.";
          Js.lit "Keep prompts concise but informative.";
          Js.lit "Do not include any extra text or code fences." ]
  else Js.lit "Provide a helpful response based on the context.".

Definition actions : list string := ["draft"; "edit"; "overview"; "chat"; "setup"]%string.

(** [['draft', 'edit', 'overview', 'chat', 'setup'].includes(action)]. *)
Definition supported (action : option json) : bool :=
  existsb (equals action) actions.

Definition systemPrompt : jsstring :=
  Js.join (Js.lit " ")
    [ Js.lit "You are a history research assistant in a learning app.";
      Js.lit "Use only the provided context; do not invent citations or sources.";
      Js.lit "If details are missing, ask one clarifying question.";
      Js.lit "Return plain text only." ].

(** [{ role, content }]. *)
Definition message (role : string) (content : json) : json :=
  JObj [(Js.lit "role", JStr (Js.lit role)); (Js.lit "content", content)].

(** The test of the filter on the chat history. *)
Definition is_turn (entry : json) : bool :=
  truthy (Some entry)
  && (equals (get (Some entry) (Js.lit "role")) "user"
      || equals (get (Some entry) (Js.lit "role")) "assistant")
  && Server.is_string (get (Some entry) (Js.lit "content")).

(** The turns of the chat history that are passed on. *)
Definition history_of (chatHistory : option json) : list json :=
  match chatHistory with
  | Some (JArr entries) =>
      let turns := List.filter is_turn entries in
      Js.slice (-8) (Z.of_nat (length turns)) turns
  | _ => []
  end.

Definition blank_lines : jsstring := [10; 10]%N.

(** The messages of a request whose action and context passed the checks,
    for the context block [contextBlock]. *)
Definition messages_for (contextBlock : jsstring)
    (action context message_ chatHistory : option json) : list json :=
  let task := buildTask action context in
  let messages :=
    [ message "system" (JStr systemPrompt);
      message "system" (JStr (Js.lit "Context:" ++ [10%N] ++ contextBlock)) ] in
  if equals action "chat" then
    messages ++ [message "system" (JStr task)]
    ++ history_of chatHistory
    ++ [message "user"
          (if truthy message_ then default JNull message_
           else JStr (Js.lit "Continue the conversation with useful guidance."))]
  else
    let guidance :=
      match message_ with
      | Some (JStr text) =>
          if Js.truthy (Some (Js.trim text))
          then Some (Js.lit "User direction: " ++ Js.trim text) else None
      | _ => None
      end in
    messages
    ++ [message "user"
          (JStr (Js.join blank_lines
                   (Prompt.filter_Boolean [Some task; guidance; Some contextBlock])))].

(** The messages of such a request; [None] when [buildContextBlock] throws. *)
Definition build_messages (action context message_ chatHistory : option json)
  : option (list json) :=
  contextBlock ← buildContextBlock context;
  Some (messages_for contextBlock action context message_ chatHistory).

(** One call of [client.chat.completions.create]: the model, the messages,
    the temperature and whether a JSON object is asked for. *)
Record ChatCall := {
  call_model : jsstring;
  call_messages : list json;
  call_temperature : jsstring;
  call_json : bool;
}.

(** What [fetch] and the reading of the response come to: a rejection, or
    a response with its [ok] flag and its text. *)
Inductive fetched := Rejects | Responds (ok : bool) (text : jsstring).

(** What [callOllama] throws: an [Error] with a message, the rejection of
    [fetch], the [SyntaxError] of [response.json()], the [TypeError] of
    calling [trim] on a content that has none. *)
Inductive failure :=
| Thrown (t : Gateway.thrown)
| FetchRejected
| SyntaxError
| TypeError.

(** The body of the request to Ollama. *)
Definition ollama_request (s : Settings) (messages : list json) (jsonMode : bool)
  : json :=
  JObj ([ (Js.lit "model", JStr (ollamaModel s));
          (Js.lit "messages", JArr messages);
          (Js.lit "stream", JBool false) ]
        ++ (if jsonMode then [(Js.lit "format", JStr (Js.lit "json"))] else [])
        ++ [ (Js.lit "options",
              JObj [(Js.lit "temperature", JNum (Js.lit "0.4"))]) ]).

(** [data?.message?.content?.trim() ?? '']; [None] is the [TypeError]. *)
Definition ollama_text (data : json) : option jsstring :=
  match get (Some data) (Js.lit "message") with
  | None | Some JNull => Some []
  | Some m =>
      match get (Some m) (Js.lit "content") with
      | None | Some JNull => Some []
      | Some (JStr text) => Some (Js.trim text)
      | Some _ => None
      end
  end.

(** What the handler of [POST /api/ai] comes to: it answers, or it throws
    before its [try] block, and its promise rejects with nothing sent. *)
Inductive handled := Answers (r : Server.Response) | Throws.

(** The status of the answer, when there is one. *)
Definition answer_status (h : handled) : option Z :=
  match h with
  | Answers r => Some (Server.status r)
  | Throws => None
  end.

Section Route.
(** The world outside the server, with the two services it offers: a chat
    completion of OpenAI, and a POST of a text to a URL. *)
Context {World : Type}.
Variable create : ChatCall -> World -> (Gateway.ApiError + Gateway.Completion) * World.
Variable fetch : jsstring -> jsstring -> World -> fetched * World.

Definition callOpenAi (s : Settings) (messages : list json) (jsonMode : bool)
    (w : World) : Gateway.outcome World :=
  Gateway.callOpenAi
    (fun model =>
       create {| call_model := model; call_messages := messages;
                 call_temperature := Js.lit "0.4"; call_json := jsonMode |})
    (has_client s) (OPENAI_MODEL s) w.

Definition callOllama (s : Settings) (messages : list json) (jsonMode : bool)
    (w : World) : (failure + Gateway.Reply) * World :=
  let url := ollamaHost s ++ Js.lit "/api/chat" in
  let body := Compact.JSON_stringify (ollama_request s messages jsonMode) in
  match fetch url body w with
  | (Rejects, w') => (inl FetchRejected, w')
  | (Responds false errorText, w') =>
      (inl (Thrown (Gateway.NewError
                      (Js.or_string errorText (Js.lit "Ollama request failed")))), w')
  | (Responds true text, w') =>
      match JSON_parse text with
      | None => (inl SyntaxError, w')
      | Some data =>
          match ollama_text data with
          | None => (inl TypeError, w')
          | Some text =>
              (inr {| Gateway.text := text; Gateway.model := ollamaModel s |}, w')
          end
      end
  end.

(** The provider's answer to the messages, whichever provider it is. *)
Definition dispatch (s : Settings) (messages : list json) (jsonMode : bool)
    (w : World) : (failure + Gateway.Reply) * World :=
  if Js.eqb (provider s) (Js.lit "openai") then
    let r := callOpenAi s messages jsonMode w in
    (match Gateway.result r with
     | inl t => inl (Thrown t)
     | inr reply => inr reply
     end, Gateway.provider_after r)
  else callOllama s messages jsonMode w.

Definition postAi (s : Settings) (req : Server.Request) (w : World)
  : handled * World :=
  let source := match Server.body req with
                | None | Some JNull => Some (JObj [])
                | other => other
                end in
  let action := get source (Js.lit "action") in
  let context := get source (Js.lit "context") in
  let message_ := get source (Js.lit "message") in
  let chatHistory := get source (Js.lit "chatHistory") in
  if negb (truthy action) || negb (truthy context) then
    (Answers
       (Server.json_response 400
          [Server.prop "error" (Some (JStr (Js.lit "Missing action or context")))]), w)
  else if negb (supported action) then
    (Answers
       (Server.json_response 400
          [Server.prop "error" (Some (JStr (Js.lit "Unsupported action")))]), w)
  else
    match build_messages action context message_ chatHistory with
    | None => (Throws, w)
    | Some messages =>
        let jsonMode := equals action "setup" in
        match dispatch s messages jsonMode w with
        | (inr result, w') =>
            (Answers
               (Server.json_response 200
                  [Server.prop "text" (Some (JStr (Gateway.text result)));
                   Server.prop "model" (Some (JStr (Gateway.model result)));
                   Server.prop "provider" (Some (JStr (provider s)))]), w')
        | (inl _, w') =>
            if Js.eqb (provider s) (Js.lit "ollama") then
              (Answers
                 (Server.json_response 503
                    [Server.prop "error"
                       (Some (JStr (Js.lit "Ollama is not reachable. Make sure it is running and the model is downloaded.")))]),
               w')
            else
              (Answers
                 (Server.json_response 500
                    [Server.prop "error" (Some (JStr (Js.lit "AI request failed")))]),
               w')
        end
    end.

End Route.

End Ai.

(** *** The subphase setup parser ([parseSubphaseSetup]) *)

Module SubSetup.
Import Json.

Record SubphaseSetup := {
  title : option jsstring;
  range : option jsstring;
  prompt : option jsstring;
}.

Definition parseSubphaseSetup (text : jsstring) : option SubphaseSetup :=
  if negb (Js.truthy (Some text)) then None
  else
    let parsed := Setup.extractJsonObject text in
    if negb (truthy parsed) || negb (typeof_object parsed) then None
    else
      let value := parsed in
      Some {| title := Setup.pickString value "title";
              range := Setup.pickString value "range";
              prompt := Setup.pickString value "prompt" |}.

End SubSetup.

(** *** The discussion a chat request carries ([requestAi]) *)

Module Discussion.
Import Json.

Inductive Speaker := ai | you.

Record DiscussionLine := { role : Speaker; text : jsstring }.

(** [{ role: line.role === 'ai' ? 'assistant' : 'user', content: line.text }]. *)
Definition chat_message (line : DiscussionLine) : json :=
  Ai.message (match role line with
              | ai => "assistant"
              | you => "user"
              end) (JStr (text line)).

(** [options?.history?.map(...)], as the body of the request carries it:
    [None] when no history is given. *)
Definition chatHistory (history : option (list DiscussionLine)) : option json :=
  match history with
  | Some lines => Some (JArr (List.map chat_message lines))
  | None => None
  end.

End Discussion.

(** *** The contexts and the requests of the client ([buildPhaseAiContext],
      [buildEntityAiContext], [requestAi]) *)

Module Contexts.
Import Json.

(** The fields of a subphase that a context reads. *)
Record Subphase := {
  prompt : jsstring;
  draft : jsstring;
  readingText : jsstring;
}.

Module OfPhase.

(** The fields of a phase that its context reads. *)
Record Phase := {
  title : jsstring;
  range : jsstring;
  mainPoint : option jsstring;
  mainPoints : option (list MainPoints.MainPoint);
  summary : jsstring;
}.

Definition buildPhaseAiContext (phase : Phase) (subphase : option Subphase)
  : Prompt.AiContext :=
  {| Prompt.kind := Some (Js.lit "phase");
     Prompt.scope := Some (match subphase with
                          | Some _ => Js.lit "subphase"
                          | None => Js.lit "summary"
                          end);
     Prompt.title := Some (title phase);
     Prompt.range := Some (range phase);
     Prompt.focus :=
       MainPoints.buildMainPointFocus (mainPoints phase) (mainPoint phase);
     Prompt.summary := Some (summary phase);
     Prompt.prompt := prompt <$> subphase;
     Prompt.draft := draft <$> subphase;
     Prompt.readingText := readingText <$> subphase |}.

End OfPhase.

Module OfEntity.

(** The fields of an entity that its context reads. *)
Record EntityRecord := {
  name : jsstring;
  era : jsstring;
  focus : jsstring;
  mainPoint : option jsstring;
  mainPoints : option (list MainPoints.MainPoint);
  summary : jsstring;
}.

Definition buildEntityAiContext (entity : EntityRecord) (subphase : option Subphase)
  : Prompt.AiContext :=
  {| Prompt.kind := Some (Js.lit "entity");
     Prompt.scope := Some (match subphase with
                          | Some _ => Js.lit "subphase"
                          | None => Js.lit "summary"
                          end);
     Prompt.title := Some (name entity);
     Prompt.range := Some (era entity);
     Prompt.focus :=
       MainPoints.buildMainPointFocus (mainPoints entity)
         (Js.or_else (mainPoint entity) (Some (focus entity)));
     Prompt.summary := Some (summary entity);
     Prompt.prompt := prompt <$> subphase;
     Prompt.draft := draft <$> subphase;
     Prompt.readingText := readingText <$> subphase |}.

End OfEntity.

(** A property of an object in its JSON text: left out when [undefined]. *)
Definition member (k : string) (v : option jsstring) : list (jsstring * json) :=
  match v with
  | Some s => [(Js.lit k, JStr s)]
  | None => []
  end.

(** The context as the body of a request carries it. *)
Definition context_json (context : Prompt.AiContext) : json :=
  JObj (member "kind" (Prompt.kind context)
        ++ member "scope" (Prompt.scope context)
        ++ member "title" (Prompt.title context)
        ++ member "range" (Prompt.range context)
        ++ member "focus" (Prompt.focus context)
        ++ member "summary" (Prompt.summary context)
        ++ member "prompt" (Prompt.prompt context)
        ++ member "draft" (Prompt.draft context)
        ++ member "readingText" (Prompt.readingText context)).

(** The request that [requestAi] posts to [/api/ai]. *)
Definition requestAi (action : string) (context : Prompt.AiContext)
    (message : option jsstring) (history : option (list Discussion.DiscussionLine))
  : Server.Request :=
  {| Server.authorization := None;
     Server.x_sync_token := None;
     Server.body :=
       Some (JObj ([(Js.lit "action", JStr (Js.lit action));
                    (Js.lit "context", context_json context)]
                   ++ member "message" message
                   ++ match Discussion.chatHistory history with
                      | Some turns => [(Js.lit "chatHistory", turns)]
                      | None => []
                      end)) |}.

End Contexts.

(** *** More example data *)

Module Scenario.
Import Json.

(** A request with a wrong bearer token and the right [x-sync-token]. *)
Definition wrong_bearer : Server.Request :=
  {| Server.authorization := Some (Js.lit "Bearer guess");
     Server.x_sync_token := Some (Js.lit "s3cret");
     Server.body := Some (Example.note "A") |}.

(** The phases a browser stores. *)
Definition phases : json :=
  JArr [JObj [(Js.lit "id", JStr (Js.lit "phase-1"));
              (Js.lit "title", JStr (Js.lit "Age of Revolutions"));
              (Js.lit "themes", JArr [JStr (Js.lit "trade")])]].

(** The context of a phase, and a request to the AI route for an action. *)
Definition context : json :=
  JObj [(Js.lit "kind", JStr (Js.lit "phase"));
        (Js.lit "scope", JStr (Js.lit "summary"));
        (Js.lit "title", JStr (Js.lit "Age of Revolutions"));
        (Js.lit "range", JStr (Js.lit "1760-1850"));
        (Js.lit "focus", JStr (Js.lit "Wages"))].

Definition ask (action : string) (extra : list (jsstring * json)) : Server.Request :=
  Example.request
    (Some (JObj ([(Js.lit "action", JStr (Js.lit action));
                  (Js.lit "context", context)] ++ extra))).

(** A discussion of ten lines, the speakers taking turns. *)
Definition discussion : list Discussion.DiscussionLine :=
  List.map (fun n => {| Discussion.role := if Nat.even n then Discussion.you
                                           else Discussion.ai;
                        Discussion.text := Js.of_nat n |})
           (seq 0 10).

(** A server with an API key, and one without, which uses Ollama. *)
Definition with_key : Ai.Settings :=
  {| Ai.OPENAI_API_KEY := Some (Js.lit "sk-test"); Ai.AI_PROVIDER := None;
     Ai.OLLAMA_HOST := None; Ai.OLLAMA_MODEL := None; Ai.OPENAI_MODEL := None |}.

Definition local : Ai.Settings :=
  {| Ai.OPENAI_API_KEY := None; Ai.AI_PROVIDER := None;
     Ai.OLLAMA_HOST := Some (Js.lit "http://ollama:11434//");
     Ai.OLLAMA_MODEL := None; Ai.OPENAI_MODEL := None |}.

(** A provider that refuses [gpt-4o-mini] by the code of the body of its
    error, [gpt-4o] by the message of the body, and fails on any other model
    with an error whose own code and message are those of a missing model
    while its body says otherwise. *)
Definition unknown_model : Gateway.ApiError :=
  {| Gateway.status := Some 400;
     Gateway.error := Some (Gateway.Build_ErrorBody (Some (Js.lit "model_not_found")) None);
     Gateway.code := None; Gateway.message := None |}.

Definition no_access : Gateway.ApiError :=
  {| Gateway.status := Some 403;
     Gateway.error :=
       Some (Gateway.Build_ErrorBody (Some [])
               (Some (Js.lit "The model `gpt-4o` does not exist.")));
     Gateway.code := Some (Js.lit "forbidden");
     Gateway.message := Some (Js.lit "403 Forbidden") |}.

Definition overloaded : Gateway.ApiError :=
  {| Gateway.status := Some 503;
     Gateway.error :=
       Some (Gateway.Build_ErrorBody (Some (Js.lit "server_error"))
               (Some (Js.lit "The engine is overloaded")));
     Gateway.code := Some (Js.lit "model_not_found");
     Gateway.message := Some (Js.lit "The model does not exist") |}.


(** The world counts the calls; OpenAI is the provider of the examples, and
    Ollama answers every request with the same JSON text. *)
Definition create (call : Ai.ChatCall) (calls : nat)
  : (Gateway.ApiError + Gateway.Completion) * nat :=
  Example.provider (Ai.call_model call) calls.

Definition ollama_answer : jsstring :=
  Js.lit "{" ++ Example.quoted "message" ++ Js.lit ":{" ++ Example.quoted "content"
  ++ Js.lit ":" ++ Example.quoted " Bonjour. " ++ Js.lit "}}".

Definition fetch (url body : jsstring) (calls : nat) : Ai.fetched * nat :=
  (Ai.Responds true ollama_answer, S calls).

End Scenario.

(** ** Part II. Properties *)

(** *** The models of the built-ins on examples *)

Example trim_both_ends :
  Js.trim ([9; 32; 160]%N ++ Js.lit "a b" ++ [10; 8233; 65279]%N) = Js.lit "a b".
Proof. reflexivity. Qed.

Example lastIndexOf_brace :
  Js.indexOf (Js.lit "{") (Js.lit "a{b{c}d}e") = 1 /\
  Js.lastIndexOf (Js.lit "}") (Js.lit "a{b{c}d}e") = 7 /\
  Js.slice 1 8 (Js.lit "a{b{c}d}e") = Js.lit "{b{c}d}".
Proof. by split_and!. Qed.

Example toISOString_epoch : Js.toISOString 0 = Js.lit "1970-01-01T00:00:00.000Z".
Proof. reflexivity. Qed.

Example toISOString_leap_day :
  Js.toISOString 951825599999 = Js.lit "2000-02-29T11:59:59.999Z".
Proof. reflexivity. Qed.

Example toISOString_before_epoch :
  Js.toISOString (-1) = Js.lit "1969-12-31T23:59:59.999Z".
Proof. reflexivity. Qed.

Example JSON_parse_rejects :
  List.map Json.JSON_parse
    [Js.lit "[1,]"; Js.lit "01"; Js.lit "1."; Js.lit "-"; Js.lit "tru";
     Js.lit "{a: 1}"; Js.lit "[1 2]"; Js.lit "{} x"; Js.lit ""]
  = [None; None; None; None; None; None; None; None; None].
Proof. reflexivity. Qed.

(** The literal of a number is kept as it is written. *)
Example JSON_parse_accepts :
  Json.JSON_parse (Js.lit " [1, -2.5e+3, true, null, [], {}] ")
  = Some (Json.JArr [Json.JNum (Js.lit "1"); Json.JNum (Js.lit "-2.5e+3");
                     Json.JBool true; Json.JNull; Json.JArr []; Json.JObj []]).
Proof. reflexivity. Qed.

(** A key written twice keeps its first place and its last value; index
    keys come first. *)
Example JSON_parse_property_order :
  Json.JSON_parse
    (Js.lit "{" ++ Example.quoted "b" ++ Js.lit ":1," ++ Example.quoted "2"
     ++ Js.lit ":2," ++ Example.quoted "a" ++ Js.lit ":3," ++ Example.quoted "b"
     ++ Js.lit ":4}")
  = Some (Json.JObj [(Js.lit "2", Json.JNum (Js.lit "2"));
                     (Js.lit "b", Json.JNum (Js.lit "4"));
                     (Js.lit "a", Json.JNum (Js.lit "3"))]).
Proof. reflexivity. Qed.

Example JSON_stringify_indents :
  Json.JSON_stringify
    (Json.JObj [(Js.lit "a", Json.JArr [Json.JNum (Js.lit "1"); Json.JObj []]);
                (Js.lit "b", Json.JStr [10%N; 55357%N])])
  = Js.lit "{" ++ [10%N] ++ Js.lit "  " ++ Example.quoted "a" ++ Js.lit ": ["
    ++ [10%N] ++ Js.lit "    1," ++ [10%N] ++ Js.lit "    {}" ++ [10%N]
    ++ Js.lit "  ]," ++ [10%N] ++ Js.lit "  " ++ Example.quoted "b" ++ Js.lit ": "
    ++ Example.quoted "\n\ud83d" ++ [10%N] ++ Js.lit "}".
Proof. reflexivity. Qed.

Example path_join_normalises :
  Server.path_join [Js.lit "srv"; Js.lit "app"] (Js.lit "../../etc/./x//y")
  = [Js.lit "etc"; Js.lit "x"; Js.lit "y"].
Proof. reflexivity. Qed.

Example isModelError_examples :
  List.map (fun m => Gateway.test_model_not_found (Js.lit m))
    ["The Model `x` was NOT FOUND"; "not found: model"; "modelnot found"]%string
  = [true; false; true].
Proof. reflexivity. Qed.

(** *** The undo/redo hook *)

Section UndoRedoFacts.
Context {T : Type}.
Implicit Types (h : UndoRedo.hook T) (v : T).
Import UndoRedo.

Lemma slice_from_start {A} (xs : list A) (k : Z) :
  0 <= k <= Z.of_nat (length xs) ->
  Js.slice 0 k xs = take (Z.to_nat k) xs.
Proof.
  intros Hk. unfold Js.slice, Js.clamp_index.
  replace (0 <? 0) with false by reflexivity.
  destruct (Z.ltb_spec k 0); [lia|].
  rewrite Z.min_l, Z.min_l by lia. simpl. f_equal. lia.
Qed.

Lemma tail_length {A} (xs : list A) : length (tail xs) = Nat.pred (length xs).
Proof. by destruct xs. Qed.

(** What a call of [setState] alone leaves in the history at the next
    render: the entries up to the current one and the new value, less the
    oldest entry when that makes 51. *)
Lemma setState_history v h :
  valid h ->
  let kept := take (Z.to_nat (index h + 1)) (history h) ++ [v] in
  event h [SetState v] =
    if 50 <? Z.of_nat (length kept)
    then Hook (tail kept) (Z.of_nat (length (tail kept)) - 1)
    else Hook kept (Z.of_nat (length kept) - 1).
Proof.
  intros [Hi Hlen]. unfold event, render. cbn [flat_map call]. unfold setState.
  rewrite slice_from_start by lia. cbv zeta.
  by destruct (50 <? _).
Qed.

Lemma undo_alone h :
  event h [Undo] = if index h >? 0 then Hook (history h) (index h - 1) else h.
Proof.
  unfold event, render. cbn [flat_map call]. unfold undo.
  by destruct (index h >? 0), h.
Qed.

Lemma redo_alone h :
  event h [Redo]
  = if index h <? Z.of_nat (length (history h)) - 1
    then Hook (history h) (index h + 1) else h.
Proof.
  unfold event, render. cbn [flat_map call]. unfold redo.
  by destruct (index h <? _), h.
Qed.

Lemma reset_alone v h : event h [Reset v] = Hook [v] 0.
Proof. reflexivity. Qed.

Lemma setState_valid v h : valid h -> valid (event h [SetState v]).
Proof.
  intros Hv. rewrite setState_history by done. destruct Hv as [Hi Hlen]. cbv zeta.
  assert (Hk : length (take (Z.to_nat (index h + 1)) (history h) ++ [v])
               = S (Z.to_nat (index h + 1))).
  { rewrite length_app, length_take. simpl. lia. }
  destruct (Z.ltb_spec 50 (Z.of_nat
    (length (take (Z.to_nat (index h + 1)) (history h) ++ [v]))));
    unfold valid; simpl; rewrite ?tail_length; lia.
Qed.

Lemma setState_state v h : valid h -> state (event h [SetState v]) = Some v.
Proof.
  intros Hv. rewrite setState_history by done. destruct Hv as [Hi Hlen]. cbv zeta.
  set (kept := take (Z.to_nat (index h + 1)) (history h)).
  assert (Hk : length kept = Z.to_nat (index h + 1)).
  { unfold kept. rewrite length_take. lia. }
  assert (Hlast : (kept ++ [v]) !! length kept = Some v).
  { rewrite lookup_app_r by lia. by rewrite Nat.sub_diag. }
  destruct (Z.ltb_spec 50 (Z.of_nat (length (kept ++ [v])))) as [Hbig|Hsmall];
    unfold state, Js.at_index; simpl index; simpl history;
    rewrite ?tail_length, length_app in *; simpl in *.
  - destruct (Z.ltb_spec (Z.of_nat (Init.Nat.pred (length kept + 1)) - 1) 0); [lia|].
    rewrite lookup_tail.
    replace (S (Z.to_nat (Z.of_nat (Init.Nat.pred (length kept + 1)) - 1)))
      with (length kept) by lia.
    exact Hlast.
  - destruct (Z.ltb_spec (Z.of_nat (length kept + 1) - 1) 0); [lia|].
    replace (Z.to_nat (Z.of_nat (length kept + 1) - 1)) with (length kept) by lia.
    exact Hlast.
Qed.

Lemma setState_canRedo v h : valid h -> canRedo (event h [SetState v]) = false.
Proof.
  intros Hv. rewrite setState_history by done. unfold canRedo. cbv zeta.
  destruct (50 <? _); simpl; apply Z.ltb_irrefl.
Qed.

Lemma undo_valid h : valid h -> valid (event h [Undo]).
Proof.
  rewrite undo_alone. unfold valid. intros [Hi Hlen].
  destruct (Z.gtb_spec (index h) 0); simpl; lia.
Qed.

Lemma redo_valid h : valid h -> valid (event h [Redo]).
Proof.
  rewrite redo_alone. unfold valid. intros [Hi Hlen].
  destruct (Z.ltb_spec (index h) (Z.of_nat (length (history h)) - 1)); simpl; lia.
Qed.

Lemma reset_valid v h : valid (event h [Reset v]).
Proof. rewrite reset_alone. unfold valid. simpl. lia. Qed.

Lemma useUndoRedo_valid v : valid (useUndoRedo v).
Proof. unfold useUndoRedo, valid. simpl. lia. Qed.

Lemma event_valid h (a : action T) : valid h -> valid (event h [a]).
Proof.
  destruct a; auto using setState_valid, undo_valid, redo_valid, reset_valid.
Qed.

(** Every state that events of one call each bring the hook to satisfies
    the invariant. *)
Lemma run_valid (acts : list (action T)) h :
  valid h -> valid (run h (List.map (fun a => [a]) acts)).
Proof.
  unfold run. revert h. induction acts as [|a acts IH]; intros h Hv; simpl; [done|].
  apply IH, event_valid, Hv.
Qed.

(** [reset] and then [undo] in one event: [undo] still reads the index of
    the render and queues the index before it, after [reset] queued 0. *)
Lemma reset_then_undo v h :
  event h [Reset v; Undo]
  = Hook [v] (if index h >? 0 then index h - 1 else 0).
Proof.
  unfold event, render. cbn [flat_map call]. unfold reset, undo.
  by destruct (index h >? 0).
Qed.

(** C9. The hook starts in a state where the index is a position of the
    history and the history has at most 50 entries, and a call of
    [setState], [undo], [redo] or [reset] keeps it so when it is the only
    call before the next render; after [setState v] alone the exposed state
    is [v] and [canRedo] is false; [canUndo] holds exactly when the index is
    positive and [canRedo] exactly when the index is before the last entry.
    The invariant is not kept when [reset] and [undo] are called in one
    event from an index above 1: [undo] closes over the index of the render,
    and the next render has the index before it in a history of one entry,
    so that the exposed state is [undefined]. *)
Theorem useUndoRedo_invariant h (v initialState : T) :
  valid h ->
  valid (useUndoRedo initialState) /\
  (forall a : action T, valid (event h [a])) /\
  state (event h [SetState v]) = Some v /\
  canRedo (event h [SetState v]) = false /\
  (canUndo h = true <-> 0 < index h) /\
  (canRedo h = true <-> index h < Z.of_nat (length (history h)) - 1) /\
  (1 < index h ->
   event h [Reset initialState; Undo] = Hook [initialState] (index h - 1) /\
   ~ valid (event h [Reset initialState; Undo]) /\
   state (event h [Reset initialState; Undo]) = None).
Proof.
  intros Hv. split; [apply useUndoRedo_valid|].
  split; [intros a; by apply event_valid|].
  split; [by apply setState_state|].
  split; [by apply setState_canRedo|].
  unfold canUndo, canRedo. split; [|split].
  - rewrite Z.gtb_ltb, Z.ltb_lt. reflexivity.
  - apply Z.ltb_lt.
  - intros Hi. rewrite reset_then_undo.
    destruct (Z.gtb_spec (index h) 0); [|lia]. split; [done|]. split.
    + unfold valid. simpl. lia.
    + unfold state, Js.at_index. cbn [index history].
      destruct (Z.ltb_spec (index h - 1) 0); [done|].
      apply lookup_ge_None_2. simpl. lia.
Qed.

End UndoRedoFacts.

(** A hook rendered with three entries and the index at the last: [reset]
    and then [undo] in one event leave the index 1 in a history of one
    entry. *)
Lemma useUndoRedo_invariant_witness :
  let h := UndoRedo.Hook [1; 2; 3]%nat 2 in
  UndoRedo.valid h /\
  UndoRedo.event h [UndoRedo.Reset 7%nat; UndoRedo.Undo] = UndoRedo.Hook [7%nat] 1 /\
  ~ UndoRedo.valid (UndoRedo.event h [UndoRedo.Reset 7%nat; UndoRedo.Undo]) /\
  UndoRedo.state (UndoRedo.event h [UndoRedo.Reset 7%nat; UndoRedo.Undo]) = None.
Proof.
  assert (Hv : UndoRedo.valid (UndoRedo.Hook [1; 2; 3]%nat 2)).
  { unfold UndoRedo.valid. simpl. lia. }
  split; [exact Hv|].
  exact (proj2 (proj2 (proj2 (proj2 (proj2 (proj2
           (useUndoRedo_invariant _ 0%nat 7%nat Hv))))))
           ltac:(simpl; lia)).
Defined.

(** *** The context block *)

Section ContextBlockFacts.
Import Prompt.

Lemma truthy_spec (field : option jsstring) :
  Js.truthy field = false <-> field = None \/ field = Some [].
Proof.
  destruct field as [[|c s]|]; simpl; split; auto; try discriminate.
  intros [H|H]; discriminate H.
Qed.

Lemma filter_Boolean_cons_truthy (s : jsstring) xs :
  Js.truthy (Some s) = true ->
  filter_Boolean (Some s :: xs) = s :: filter_Boolean xs.
Proof. intros H. destruct s; [discriminate|reflexivity]. Qed.

Lemma filter_Boolean_optional label field xs :
  filter_Boolean (optional_line label field :: xs) =
    match optional_line label field with
    | Some line => line :: filter_Boolean xs
    | None => filter_Boolean xs
    end.
Proof.
  unfold optional_line. destruct field as [[|c s]|]; try reflexivity.
  simpl Js.truthy. cbv iota. apply filter_Boolean_cons_truthy.
  destruct label; reflexivity.
Qed.

Lemma split_acc_length (sep : N) (s cur : jsstring) :
  length (Js.split_acc sep cur s) = S (length (List.filter (N.eqb sep) s)).
Proof.
  revert cur. induction s as [|c s IH]; intros cur; simpl; [done|].
  rewrite (N.eqb_sym sep c). destruct (c =? sep)%N; simpl; by rewrite IH.
Qed.

Lemma join_separators (sep : N) (parts : list jsstring) :
  (length parts <= S (length (List.filter (N.eqb sep) (Js.join [sep] parts))))%nat.
Proof.
  induction parts as [|p [|q parts] IH]; simpl in *; try lia.
  rewrite List.filter_app. simpl. rewrite N.eqb_refl, length_app. simpl. lia.
Qed.

(** A block of [n] joined lines has at least [n] lines. *)
Lemma split_lines_join (parts : list jsstring) :
  (length parts <= length (split_lines (Js.join [10%N] parts)))%nat.
Proof.
  unfold split_lines, Js.split. rewrite split_acc_length. apply join_separators.
Qed.

(** C10. The block is the four required lines, with ['unknown'], ['summary'],
    ['Untitled'] and ['n/a'] standing in for a missing kind, scope, title and
    range, followed by those of the five optional lines whose field is
    neither absent nor empty; so it has at least four lines. *)
Theorem buildContextBlock_required_lines (context : AiContext) :
  let required :=
    [ Js.lit "Kind: " ++ default (Js.lit "unknown") (kind context);
      Js.lit "Scope: " ++ default (Js.lit "summary") (scope context);
      Js.lit "Title: " ++ default (Js.lit "Untitled") (title context);
      Js.lit "Range: " ++ default (Js.lit "n/a") (range context) ] in
  let optional (label : string) (field : option jsstring) : list jsstring :=
    match field with
    | None | Some [] => []
    | Some text => [Js.lit label ++ text]
    end in
  buildContextBlock context =
    Js.join [10%N]
      (required
       ++ optional "Focus: "%string (focus context)
       ++ optional "Summary: "%string (summary context)
       ++ optional "Prompt: "%string (prompt context)
       ++ optional "Draft: "%string (draft context)
       ++ optional "Reading text: "%string (readingText context)) /\
  (4 <= length (split_lines (buildContextBlock context)))%nat.
Proof.
  intros required optional.
  assert (Hopt : forall label field xs,
    filter_Boolean (optional_line label field :: xs)
    = optional label field ++ filter_Boolean xs).
  { intros label field xs. rewrite filter_Boolean_optional.
    unfold optional_line, optional. by destruct field as [[|c s]|]. }
  assert (Heq : filter_Boolean (context_lines context) =
    required ++ optional "Focus: "%string (focus context)
       ++ optional "Summary: "%string (summary context)
       ++ optional "Prompt: "%string (prompt context)
       ++ optional "Draft: "%string (draft context)
       ++ optional "Reading text: "%string (readingText context)).
  { unfold context_lines.
    rewrite 4 filter_Boolean_cons_truthy by reflexivity.
    rewrite 5 Hopt. unfold required.
    destruct (kind context), (scope context), (title context), (range context);
      simpl; by rewrite app_nil_r. }
  unfold buildContextBlock. change (Js.lit (String "010" EmptyString)) with [10%N].
  rewrite Heq. split; [reflexivity|].
  etrans; [|apply split_lines_join]. rewrite length_app. simpl. lia.
Qed.

End ContextBlockFacts.

(** *** The OpenAI-compatible dispatch *)

Section GatewayFacts.
Import Gateway.













(** The text of a reply is what the source reads in the completion. *)
Lemma completion_text_spec (c : Completion) : reply_text c (completion_text c).
Proof.
  unfold reply_text, completion_text. split.
  - intros ch rest msg s Hc Hm Hs. rewrite Hc. cbn [mbind option_bind head].
    rewrite Hm. cbn [mbind option_bind]. by rewrite Hs.
  - intros [->|[->|(ch & rest & -> & [Hm|(msg & Hm & Hs)])]]; try done.
    + cbn [mbind option_bind head]. by rewrite Hm.
    + cbn [mbind option_bind head]. rewrite Hm. cbn [mbind option_bind].
      by rewrite Hs.
Qed.

Lemma Set_add_fold (xs acc : list jsstring) :
  fold_left Set_add xs acc =
    acc ++ List.filter (fun y => bool_decide (y ∉ acc)) (fold_left Set_add xs []).
Proof.
  revert acc. induction xs as [|x xs IH] using rev_ind; intros acc.
  - simpl. by rewrite app_nil_r.
  - rewrite !fold_left_app. simpl. rewrite (IH acc). unfold Set_add at 1 3.
    set (done_ := fold_left Set_add xs []).
    destruct (decide (x ∈ done_)) as [Hin|Hout].
    + rewrite (bool_decide_eq_true_2 _ Hin).
      destruct (decide (x ∈ acc)) as [Hacc|Hacc].
      * rewrite bool_decide_eq_true_2; [done|]. apply elem_of_app. by left.
      * rewrite bool_decide_eq_true_2; [done|]. apply elem_of_app. right.
        apply list_elem_of_In, List.filter_In. split; [by apply list_elem_of_In|].
        by apply bool_decide_eq_true_2.
    + rewrite (bool_decide_eq_false_2 _ Hout), List.filter_app. simpl.
      destruct (decide (x ∈ acc)) as [Hacc|Hacc].
      * rewrite bool_decide_eq_true_2 by (apply elem_of_app; by left).
        rewrite (bool_decide_eq_false_2 (x ∉ acc)) by tauto. by rewrite app_nil_r.
      * rewrite bool_decide_eq_false_2.
        -- rewrite (bool_decide_eq_true_2 (x ∉ acc)) by done. by rewrite app_assoc.
        -- rewrite elem_of_app. intros [?|Hf]; [done|].
           apply list_elem_of_In, List.filter_In in Hf as [Hf _].
           by apply list_elem_of_In in Hf.
Qed.

(** The candidates: the preferred model when one is set, then the fallbacks
    other than it. *)
Lemma buildModelList_order (OPENAI_MODEL : option jsstring) :
  buildModelList OPENAI_MODEL =
    match OPENAI_MODEL with
    | Some (c :: s) =>
        (c :: s) :: List.filter (fun y => bool_decide (y <> c :: s)) modelFallbacks
    | _ => modelFallbacks
    end.
Proof.
  destruct OPENAI_MODEL as [[|c s]|]; try reflexivity.
  change (buildModelList (Some (c :: s)))
    with (fold_left Set_add modelFallbacks (Set_add [] (c :: s))).
  assert (Hfirst : Set_add [] (c :: s) = [c :: s]).
  { unfold Set_add. rewrite bool_decide_eq_false_2; [done|]. apply not_elem_of_nil. }
  rewrite Hfirst, Set_add_fold.
  apply (f_equal (cons (c :: s))).
  change (fold_left Set_add modelFallbacks []) with modelFallbacks.
  apply List.filter_ext. intros y. apply bool_decide_ext.
  by rewrite list_elem_of_singleton.
Qed.

Context {Provider : Type}.
Variable create : jsstring -> Provider -> (ApiError + Completion) * Provider.

Lemma last_error_cons (e : ApiError) errs before :
  last_error (e :: errs) before = last_error errs (Some e).
Proof.
  unfold last_error. destruct errs as [|e' errs]; [reflexivity|].
  rewrite last_cons_cons. destruct (last (e' :: errs)) eqn:Hlast; [done|].
  by apply last_None in Hlast.
Qed.

Lemma try_models_unavailable pre rest modelUsed before p errs p1 :
  all_unavailable create pre p errs p1 ->
  try_models create (pre ++ rest) modelUsed before p =
    attempts_before pre
      (try_models create rest modelUsed (last_error errs before) p1).
Proof.
  intros Hall. revert before.
  induction Hall as [p|m ms p e p1 errs p' Hcreate Herr Hall IH]; intros before.
  - unfold attempts_before. by destruct (try_models _ _ _ _ _).
  - simpl. rewrite Hcreate, Herr, IH, last_error_cons. reflexivity.
Qed.

(** The attempts follow the list of candidates, from its first. *)
Lemma try_models_prefix models modelUsed before p :
  attempted (try_models create models modelUsed before p) `prefix_of` models.
Proof.
  revert before p. induction models as [|m models IH]; intros before p; simpl.
  - by exists [].
  - destruct (create m p) as [[e|completion] p'].
    + destruct (isModelError e).
      * simpl. by apply prefix_cons.
      * simpl. by exists models.
    + simpl. by exists models.
Qed.

Lemma all_unavailable_length models p errs p' :
  all_unavailable create models p errs p' -> length errs = length models.
Proof. induction 1; simpl; congruence. Qed.


(** C2. The candidates are the preferred model, when one is set, then the
    fallback list without what was already listed. The call attempts them in
    that order, from the first: when the candidates before [m] are
    unavailable and the attempt on [m] succeeds, exactly those and [m] were
    attempted and the reply has [m] as its model and, as its text, the
    trimmed content of the message of the first choice of the completion,
    or the empty text when the completion has no such content; when every
    candidate is unavailable, all were attempted and the last error is
    thrown. On an empty list of candidates the error is [No available
    model]. *)
Theorem callOpenAi_fallback_order (OPENAI_MODEL : option jsstring) (p : Provider) :
  let models := buildModelList OPENAI_MODEL in
  models =
    match OPENAI_MODEL with
    | Some (c :: s) =>
        (c :: s) :: List.filter (fun y => bool_decide (y <> c :: s)) modelFallbacks
    | _ => modelFallbacks
    end /\
  calls (callOpenAi create true OPENAI_MODEL p) `prefix_of` models /\
  (forall pre m post errs p1 completion p2,
     models = pre ++ m :: post ->
     all_unavailable create pre p errs p1 ->
     create m p1 = (inr completion, p2) ->
     exists text,
       reply_text completion text /\
       callOpenAi create true OPENAI_MODEL p =
         {| result := inr {| text := text; model := m |};
            calls := pre ++ [m];
            provider_after := p2 |}) /\
  (forall errs p',
     all_unavailable create models p errs p' ->
     exists e,
       last errs = Some e /\
       callOpenAi create true OPENAI_MODEL p =
         {| result := inl (ProviderError e);
            calls := models;
            provider_after := p' |}) /\
  callOpenAi_on create true [] p =
    {| result := inl (NewError (Js.lit "No available model"));
       calls := []; provider_after := p |}.
Proof.
  intros models. split; [apply buildModelList_order|].
  split; [apply try_models_prefix|]. split; [|split].
  - intros pre m post errs p1 completion p2 Hmodels Hpre Hcreate.
    exists (completion_text completion). split; [apply completion_text_spec|].
    unfold callOpenAi. fold models. rewrite Hmodels.
    unfold callOpenAi_on. simpl negb. cbv iota.
    rewrite (try_models_unavailable pre _ _ _ _ _ _ Hpre).
    simpl. by rewrite Hcreate.
  - intros errs p' Hall. unfold callOpenAi. fold models.
    unfold callOpenAi_on. simpl negb. cbv iota.
    pose proof (try_models_unavailable models []
                  (default (Js.lit "gpt-4o-mini") (head models)) None _ _ _ Hall)
      as Hrun.
    rewrite app_nil_r in Hrun. rewrite Hrun.
    destruct (last errs) as [e|] eqn:Hlast.
    + exists e. split; [done|]. simpl. rewrite app_nil_r.
      unfold last_error. by rewrite Hlast.
    + apply last_None in Hlast as ->. apply all_unavailable_length in Hall.
      unfold models in Hall. rewrite buildModelList_order in Hall.
      by destruct OPENAI_MODEL as [[|c s]|].
  - reflexivity.
Qed.

End GatewayFacts.


(** With the example provider and no preferred model: the second candidate
    answers, and the reply carries its name and the content of its first
    choice, trimmed. *)
Lemma callOpenAi_fallback_order_witness :
  Gateway.callOpenAi Example.provider true None 0%nat =
    {| Gateway.result :=
         inr {| Gateway.text := Js.lit "Hello."; Gateway.model := Js.lit "gpt-4o" |};
       Gateway.calls := [Js.lit "gpt-4o-mini"; Js.lit "gpt-4o"];
       Gateway.provider_after := 2%nat |}.
Proof.
  destruct (proj1 (proj2 (proj2 (callOpenAi_fallback_order Example.provider None 0%nat)))
              [Js.lit "gpt-4o-mini"] (Js.lit "gpt-4o") [Js.lit "gpt-4.1-mini"]
              [Example.not_found] 1%nat Example.answer 2%nat)
    as (text & [Htext _] & Hcall).
  - reflexivity.
  - apply (Gateway.unavailable_cons Example.provider _ _ 0%nat Example.not_found 1%nat);
      [reflexivity|reflexivity|constructor].
  - reflexivity.
  - rewrite Hcall.
    by rewrite (Htext _ [] _ (Js.lit "  Hello.  ") eq_refl eq_refl eq_refl).
Defined.

(** The text of a reply on examples: leading and trailing white space is
    cut, later choices are not read, and a completion without choices, or
    whose first choice has no content, gives the empty text. *)
Example completion_text_examples :
  List.map Gateway.completion_text
    [ Example.answer;
      {| Gateway.choices :=
           Some [ {| Gateway.choice_message :=
                       Some {| Gateway.content := Some ([10%N] ++ Js.lit "One" ++ [9%N]) |} |};
                  {| Gateway.choice_message :=
                       Some {| Gateway.content := Some (Js.lit "Two") |} |} ] |};
      {| Gateway.choices := None |};
      {| Gateway.choices := Some [] |};
      {| Gateway.choices := Some [ {| Gateway.choice_message := None |} ] |};
      {| Gateway.choices :=
           Some [ {| Gateway.choice_message :=
                       Some {| Gateway.content := None |} |};
                  {| Gateway.choice_message :=
                       Some {| Gateway.content := Some (Js.lit "Two") |} |} ] |} ]
  = [Js.lit "Hello."; Js.lit "One"; []; []; []; []].
Proof. reflexivity. Qed.

(** The class of model errors on examples: the code of the body decides
    before the code of the error, and so does its message. *)
Example isModelError_fields :
  List.map Gateway.isModelError
    [ Example.not_found; Example.forbidden; Scenario.unknown_model;
      Scenario.no_access; Scenario.overloaded;
      {| Gateway.status := None; Gateway.error := None;
         Gateway.code := Some (Js.lit "model_not_found"); Gateway.message := None |};
      {| Gateway.status := None;
         Gateway.error := Some (Gateway.Build_ErrorBody (Some []) (Some []));
         Gateway.code := Some (Js.lit "model_not_found"); Gateway.message := None |};
      {| Gateway.status := None; Gateway.error := None; Gateway.code := None;
         Gateway.message := Some (Js.lit "Model gpt-x not found") |};
      {| Gateway.status := None;
         Gateway.error := Some (Gateway.Build_ErrorBody None (Some (Js.lit "Rate limit")));
         Gateway.code := None;
         Gateway.message := Some (Js.lit "Model gpt-x not found") |} ]
  = [true; false; true; true; false; true; true; true; false].
Proof. reflexivity. Qed.

(** *** [JSON.parse] reads back what [JSON.stringify] writes *)

Section JsonFacts.
Import Json.

Lemma json_ind (P : json -> Prop) :
  P JNull ->
  (forall b, P (JBool b)) ->
  (forall lit, P (JNum lit)) ->
  (forall s, P (JStr s)) ->
  (forall items, Forall P items -> P (JArr items)) ->
  (forall members, Forall (fun m => P (snd m)) members -> P (JObj members)) ->
  forall v, P v.
Proof.
  intros Hnull Hbool Hnum Hstr Harr Hobj.
  refine (fix IH (v : json) : P v :=
            match v with
            | JNull => Hnull
            | JBool b => Hbool b
            | JNum lit => Hnum lit
            | JStr s => Hstr s
            | JArr items =>
                Harr items
                  ((fix all (xs : list json) : Forall P xs :=
                      match xs with
                      | [] => Forall_nil_2 P
                      | x :: xs' => Forall_cons_2 P x xs' (IH x) (all xs')
                      end) items)
            | JObj members =>
                Hobj members
                  ((fix all (ms : list (jsstring * json))
                      : Forall (fun m => P (snd m)) ms :=
                      match ms with
                      | [] => Forall_nil_2 _
                      | m :: ms' => Forall_cons_2 _ m ms' (IH (snd m)) (all ms')
                      end) members)
            end).
Qed.

(** **** String literals *)

Lemma hex_value_digit (n : N) : (n < 16)%N -> hex_value (hex_digit n) = Some n.
Proof.
  intros Hn. unfold hex_digit, hex_value, is_digit.
  destruct (N.ltb_spec n 10).
  - replace ((48 <=? 48 + n) && (48 + n <=? 57))%N with true
      by (symmetry; apply andb_true_iff; split; apply N.leb_le; lia).
    f_equal. lia.
  - replace ((48 <=? 87 + n) && (87 + n <=? 57))%N with false
      by (symmetry; apply andb_false_iff; right; apply N.leb_gt; lia).
    replace ((97 <=? 87 + n) && (87 + n <=? 102))%N with true
      by (symmetry; apply andb_true_iff; split; apply N.leb_le; lia).
    f_equal. lia.
Qed.

Lemma hex4_escape (c : N) :
  (c < 65536)%N ->
  hex4 (hex_digit (c / 4096 mod 16)) (hex_digit (c / 256 mod 16))
       (hex_digit (c / 16 mod 16)) (hex_digit (c mod 16)) = Some c.
Proof.
  intros Hc. unfold hex4.
  rewrite !hex_value_digit by (apply N.mod_lt; lia). simpl. f_equal.
  pose proof (N.div_mod c 16 ltac:(lia)).
  pose proof (N.div_mod (c / 16) 16 ltac:(lia)).
  pose proof (N.div_mod (c / 16 / 16) 16 ltac:(lia)).
  rewrite !N.Div0.div_div in *.
  change (16 * 16)%N with 256%N in *. change (256 * 16)%N with 4096%N in *.
  assert (c / 4096 < 16)%N by (apply N.Div0.div_lt_upper_bound; lia).
  rewrite (N.mod_small (c / 4096) 16) in * by lia. lia.
Qed.

Lemma parse_unicode_escape (c : N) (tail : jsstring) :
  (c < 65536)%N ->
  parse_string_body (unicode_escape c ++ tail) =
    '(str, r) ← parse_string_body tail; Some (c :: str, r).
Proof.
  intros Hc. unfold unicode_escape. cbn [app parse_string_body].
  replace (92 =? 34)%N with false by reflexivity.
  replace (92 =? 92)%N with true by reflexivity.
  replace (117 =? 117)%N with true by reflexivity.
  cbv iota. by rewrite hex4_escape.
Qed.

Lemma parse_plain_unit (c : N) (tail : jsstring) :
  (32 <= c)%N -> c <> 34%N -> c <> 92%N ->
  parse_string_body (c :: tail) =
    '(str, r) ← parse_string_body tail; Some (c :: str, r).
Proof.
  intros Hc H34 H92. cbn [parse_string_body].
  rewrite (proj2 (N.eqb_neq c 34) H34), (proj2 (N.eqb_neq c 92) H92).
  by rewrite (proj2 (N.ltb_ge c 32) Hc).
Qed.

Lemma parse_quote_unit (c : N) (tail : jsstring) :
  parse_string_body (quote_unit c ++ tail) =
    '(str, r) ← parse_string_body tail; Some (c :: str, r).
Proof.
  unfold quote_unit.
  repeat match goal with
         | |- context [(c =? ?k)%N] =>
             destruct (N.eqb_spec c k) as [->|?]; [reflexivity|]
         end.
  destruct (N.ltb_spec c 32).
  - apply parse_unicode_escape. lia.
  - by apply parse_plain_unit.
Qed.

Lemma surrogate_bounds (c : N) :
  is_lead_surrogate c = true \/ is_trail_surrogate c = true ->
  (32 <= c < 65536)%N /\ c <> 34%N /\ c <> 92%N.
Proof.
  unfold is_lead_surrogate, is_trail_surrogate.
  rewrite !andb_true_iff, !N.leb_le. lia.
Qed.

(** A quoted string reads back as the string, whatever follows the closing
    quote. *)
Lemma parse_quote_units (s rest : jsstring) :
  parse_string_body (quote_units s ++ 34%N :: rest) = Some (s, rest).
Proof.
  induction s as [s IH] using (induction_ltof1 _ (@length N)).
  unfold ltof in IH. destruct s as [|c s]; [reflexivity|].
  cbn [quote_units].
  destruct (is_lead_surrogate c) eqn:Hlead.
  - destruct (surrogate_bounds c (or_introl Hlead)) as (Hc & H34 & H92).
    destruct s as [|d s].
    + rewrite parse_unicode_escape by lia. reflexivity.
    + destruct (is_trail_surrogate d) eqn:Htrail.
      * destruct (surrogate_bounds d (or_intror Htrail)) as (Hd & Hd34 & Hd92).
        rewrite <- !app_comm_cons, 2 parse_plain_unit by (done || lia).
        rewrite IH by (simpl; lia). reflexivity.
      * rewrite <- app_assoc, parse_unicode_escape by lia.
        rewrite IH by (simpl; lia). reflexivity.
  - destruct (is_trail_surrogate c) eqn:Htrail.
    + destruct (surrogate_bounds c (or_intror Htrail)) as (Hc & H34 & H92).
      rewrite <- app_assoc, parse_unicode_escape by lia.
      rewrite IH by (simpl; lia). reflexivity.
    + rewrite <- app_assoc, parse_quote_unit.
      rewrite IH by (simpl; lia). reflexivity.
Qed.

(** **** Number literals *)

Lemma ends_number_head (c : N) (rest : jsstring) :
  ends_number (c :: rest) ->
  is_digit c = false /\ (c =? 46)%N = false /\ (c =? 101)%N = false
  /\ (c =? 69)%N = false.
Proof. intros [->| ->]; by vm_compute. Qed.

Lemma take_digits_app (s rest : jsstring) :
  ends_number rest ->
  take_digits (s ++ rest) =
    let '(ds, r) := take_digits s in (ds, r ++ rest).
Proof.
  intros Hrest. induction s as [|c s IH]; simpl.
  - destruct rest as [|c rest]; [done|]. simpl.
    by destruct (ends_number_head _ _ Hrest) as (-> & _).
  - destruct (is_digit c); [|done]. rewrite IH. by destruct (take_digits s).
Qed.

Lemma parse_digits_app (s rest ds r : jsstring) :
  ends_number rest ->
  parse_digits s = Some (ds, r) ->
  parse_digits (s ++ rest) = Some (ds, r ++ rest).
Proof.
  intros Hrest. unfold parse_digits. rewrite take_digits_app by done.
  destruct (take_digits s) as [[|d ds'] r']; [done|]. by intros [= <- <-].
Qed.

Lemma parse_int_app (s rest ds r : jsstring) :
  ends_number rest ->
  parse_int s = Some (ds, r) ->
  parse_int (s ++ rest) = Some (ds, r ++ rest).
Proof.
  intros Hrest. destruct s as [|c s]; [done|]. simpl.
  destruct (c =? 48)%N; [by intros [= <- <-]|].
  apply (parse_digits_app (c :: s)), Hrest.
Qed.

Lemma parse_frac_app (s rest ds r : jsstring) :
  ends_number rest ->
  parse_frac s = Some (ds, r) ->
  parse_frac (s ++ rest) = Some (ds, r ++ rest).
Proof.
  intros Hrest. destruct s as [|c s]; simpl.
  - intros [= <- <-]. destruct rest as [|c rest]; [done|]. simpl.
    by destruct (ends_number_head _ _ Hrest) as (_ & -> & _).
  - destruct (c =? 46)%N; [|by intros [= <- <-]].
    destruct (parse_digits s) as [[ds' r']|] eqn:Hds; [|done].
    rewrite (parse_digits_app _ _ _ _ Hrest Hds). by intros [= <- <-].
Qed.

Lemma parse_exp_app (s rest ds r : jsstring) :
  ends_number rest ->
  parse_exp s = Some (ds, r) ->
  parse_exp (s ++ rest) = Some (ds, r ++ rest).
Proof.
  intros Hrest. destruct s as [|c s]; simpl.
  - intros [= <- <-]. destruct rest as [|c rest]; [done|]. simpl.
    by destruct (ends_number_head _ _ Hrest) as (_ & _ & -> & ->).
  - destruct ((c =? 101) || (c =? 69))%N; [|by intros [= <- <-]].
    destruct s as [|sign s]; [done|]. simpl.
    destruct ((sign =? 43) || (sign =? 45))%N.
    + destruct (parse_digits s) as [[ds' r']|] eqn:Hds; [|done].
      rewrite (parse_digits_app _ _ _ _ Hrest Hds). by intros [= <- <-].
    + destruct (parse_digits (sign :: s)) as [[ds' r']|] eqn:Hds; [|done].
      change (sign :: s ++ rest) with ((sign :: s) ++ rest).
      rewrite (parse_digits_app (sign :: s) _ _ _ Hrest Hds). by intros [= <- <-].
Qed.

Lemma parse_number_app (s rest lit r : jsstring) :
  ends_number rest ->
  parse_number s = Some (lit, r) ->
  parse_number (s ++ rest) = Some (lit, r ++ rest).
Proof.
  intros Hrest. unfold parse_number.
  assert (Hsign : forall (t : jsstring) sign s1,
    match t with
    | c :: rest0 => if (c =? 45)%N then ([c], rest0) else ([], t)
    | [] => ([], t)
    end = (sign, s1) ->
    parse_int s1 <> None ->
    match t ++ rest with
    | c :: rest0 => if (c =? 45)%N then ([c], rest0) else ([], t ++ rest)
    | [] => ([], t ++ rest)
    end = (sign, s1 ++ rest)).
  { intros [|c t] sign s1; simpl.
    - by intros [= <- <-].
    - destruct (c =? 45)%N; by intros [= <- <-]. }
  destruct (match s with
            | c :: rest0 => if (c =? 45)%N then ([c], rest0) else ([], s)
            | [] => ([], s)
            end) as [sign s1] eqn:Hs.
  destruct (parse_int s1) as [[i s2]|] eqn:Hi; [|done].
  rewrite (Hsign s sign s1 Hs) by congruence.
  rewrite (parse_int_app _ _ _ _ Hrest Hi). simpl.
  destruct (parse_frac s2) as [[f s3]|] eqn:Hf; [|done].
  rewrite (parse_frac_app _ _ _ _ Hrest Hf). simpl.
  destruct (parse_exp s3) as [[e s4]|] eqn:He; [|done].
  rewrite (parse_exp_app _ _ _ _ Hrest He). simpl.
  by intros [= <- <-].
Qed.

(** A number literal starts with a digit or a minus sign. *)
Lemma parse_number_head (c : N) (s : jsstring) :
  parse_number (c :: s) <> None -> c = 45%N \/ is_digit c = true.
Proof.
  unfold parse_number. destruct (N.eqb_spec c 45) as [->|Hc]; [by left|].
  intros Hparse. right. simpl in Hparse.
  destruct (N.eqb_spec c 48) as [->|Hc0]; [done|].
  unfold parse_digits in Hparse. simpl in Hparse.
  destruct (is_digit c); [done|]. by simpl in Hparse.
Qed.

(** **** Values *)

Lemma skip_ws_blank (indent s : jsstring) :
  blank indent -> skip_ws (indent ++ s) = skip_ws s.
Proof. induction 1 as [|c w Hc Hw IH]; simpl; [done|]. by rewrite Hc. Qed.

Lemma blank_inner (indent : jsstring) : blank indent -> blank (indent ++ gap).
Proof. intros H. apply Forall_app. split; [done|]. by repeat constructor. Qed.

Lemma number_literal_head (lit : jsstring) :
  number_literal lit = true ->
  exists c t, lit = c :: t /\ (c = 45%N \/ is_digit c = true).
Proof.
  unfold number_literal. rewrite bool_decide_eq_true. intros Hlit.
  destruct lit as [|c t]; [done|]. exists c, t. split; [done|].
  apply (parse_number_head c t). congruence.
Qed.

Lemma digit_bounds (c : N) : is_digit c = true -> (48 <= c <= 57)%N.
Proof. unfold is_digit. rewrite andb_true_iff, !N.leb_le. lia. Qed.

Lemma stringify_starts_value (indent : jsstring) (v : json) :
  well_formed v = true -> starts_value (stringify indent v).
Proof.
  unfold starts_value. destruct v as [|[]|lit|s|[|x xs]|[|m ms]]; simpl; intros Hwf;
    try (eexists _, _; split; [reflexivity|]; by vm_compute).
  destruct (number_literal_head lit Hwf) as (c & t & -> & Hc).
  exists c, t. split; [done|].
  destruct Hc as [->|Hc]; [by vm_compute|]. apply digit_bounds in Hc.
  unfold is_json_ws. split; [|lia].
  repeat (apply orb_false_iff; split); apply N.eqb_neq; lia.
Qed.

Lemma skip_ws_starts_value (s rest : jsstring) :
  starts_value s -> skip_ws (s ++ rest) = s ++ rest.
Proof. intros (c & t & -> & Hc & _). simpl. by rewrite Hc. Qed.

Lemma expect_close_starts_value (s rest : jsstring) :
  starts_value s -> expect 93 (s ++ rest) = None.
Proof.
  intros (c & t & -> & _ & Hc). simpl. by rewrite (proj2 (N.eqb_neq c 93) Hc).
Qed.

Lemma stringify_array (indent : jsstring) (x : json) (xs : list json) :
  stringify indent (JArr (x :: xs)) =
    91%N :: 10%N :: (indent ++ gap)
    ++ Js.join (44%N :: 10%N :: indent ++ gap)
         (List.map (stringify (indent ++ gap)) (x :: xs))
    ++ 10%N :: indent ++ [93%N].
Proof. reflexivity. Qed.

Lemma stringify_object (indent : jsstring) (m : jsstring * json)
    (ms : list (jsstring * json)) :
  stringify indent (JObj (m :: ms)) =
    123%N :: 10%N :: (indent ++ gap)
    ++ Js.join (44%N :: 10%N :: indent ++ gap)
         (List.map (fun m => quote (fst m) ++ 58%N :: 32%N
                             :: stringify (indent ++ gap) (snd m)) (m :: ms))
    ++ 10%N :: indent ++ [125%N].
Proof. reflexivity. Qed.

Lemma join_one (sep a : jsstring) : Js.join sep [a] = a.
Proof. reflexivity. Qed.

Lemma join_more (sep a b : jsstring) (parts : list jsstring) :
  Js.join sep (a :: b :: parts) = a ++ sep ++ Js.join sep (b :: parts).
Proof. reflexivity. Qed.

Lemma starts_value_app (s t : jsstring) : starts_value s -> starts_value (s ++ t).
Proof. intros (c & u & -> & H). by exists c, (u ++ t). Qed.

Lemma join_starts_value (sep a : jsstring) (parts : list jsstring) :
  starts_value a -> starts_value (Js.join sep (a :: parts)).
Proof.
  intros Ha. destruct parts; [done|]. rewrite join_more. by apply starts_value_app.
Qed.

Lemma expect_head (c : N) (s : jsstring) : expect c (c :: s) = Some s.
Proof. simpl. by rewrite N.eqb_refl. Qed.

Lemma expect_other (c d : N) (s : jsstring) : d <> c -> expect c (d :: s) = None.
Proof. intros H. simpl. by rewrite (proj2 (N.eqb_neq d c) H). Qed.

Lemma skip_ws_stop (c : N) (s : jsstring) :
  is_json_ws c = false -> skip_ws (c :: s) = c :: s.
Proof. intros H. simpl. by rewrite H. Qed.

(** After a comma and the line break, the next item. *)
Lemma skip_separator (inner t : jsstring) :
  blank inner -> starts_value t ->
  skip_ws ((44%N :: 10%N :: inner) ++ t) = 44%N :: 10%N :: inner ++ t /\
  skip_ws (10%N :: inner ++ t) = t.
Proof.
  intros Hinner Ht. split; [reflexivity|].
  change (10%N :: inner ++ t) with ((10%N :: inner) ++ t).
  rewrite skip_ws_blank by (by constructor).
  destruct Ht as (c & u & -> & Hc & _). by apply skip_ws_stop.
Qed.

(** After the last item, the line break and the closing bracket. *)
Lemma skip_to_close (indent rest : jsstring) (close : N) :
  blank indent -> is_json_ws close = false ->
  skip_ws (10%N :: indent ++ close :: rest) = close :: rest.
Proof.
  intros Hindent Hclose.
  change (10%N :: indent ++ close :: rest) with ((10%N :: indent) ++ close :: rest).
  rewrite skip_ws_blank by (by constructor). by apply skip_ws_stop.
Qed.

Lemma parse_elements_step (fuel : nat) (s : jsstring) :
  parse_elements (S fuel) s =
    '(v, r) ← parse_value fuel s;
    match expect 44 (skip_ws r) with
    | Some r' =>
        '(vs, r'') ← parse_elements fuel (skip_ws r'); Some (v :: vs, r'')
    | None => r' ← expect 93 (skip_ws r); Some ([v], r')
    end.
Proof. reflexivity. Qed.

Lemma parse_members_step (fuel : nat) (s : jsstring) :
  parse_members (S fuel) s =
    r0 ← expect 34 s;
    '(k, r1) ← parse_string_body r0;
    r2 ← expect 58 (skip_ws r1);
    '(v, r3) ← parse_value fuel (skip_ws r2);
    match expect 44 (skip_ws r3) with
    | Some r4 =>
        '(ms, r5) ← parse_members fuel (skip_ws r4); Some ((k, v) :: ms, r5)
    | None => r4 ← expect 125 (skip_ws r3); Some ([(k, v)], r4)
    end.
Proof. reflexivity. Qed.

Lemma parse_elements_join (items : list json) (inner indent rest : jsstring)
    (fuel : nat) :
  items <> [] ->
  Forall reads_back items ->
  forallb well_formed items = true ->
  (list_sum (List.map (fun x => S (json_size x)) items) <= fuel)%nat ->
  blank inner -> blank indent ->
  parse_elements fuel
    (Js.join (44%N :: 10%N :: inner) (List.map (stringify inner) items)
     ++ 10%N :: indent ++ 93%N :: rest) = Some (items, rest).
Proof.
  intros Hne Hall. revert fuel Hne.
  induction Hall as [|x xs Hx Hxs IH]; intros fuel Hne Hwf Hfuel Hinner Hindent;
    [done|].
  simpl in Hwf. apply andb_true_iff in Hwf as [Hwfx Hwfxs].
  simpl in Hfuel. destruct fuel as [|fuel]; [lia|].
  rewrite parse_elements_step.
  destruct xs as [|y ys].
  - cbn [List.map]. rewrite join_one.
    rewrite Hx; [|done|simpl in Hfuel; lia|done|by right].
    cbn [mbind option_bind]. rewrite skip_to_close by done.
    rewrite expect_other by done. by rewrite expect_head.
  - rewrite 2 map_cons, join_more, <- !app_assoc.
    rewrite Hx; [|done|simpl in Hfuel; lia|done|by left].
    cbn [mbind option_bind].
    assert (Hnext : starts_value
      (Js.join (44%N :: 10%N :: inner) (stringify inner y :: List.map (stringify inner) ys)
       ++ 10%N :: indent ++ 93%N :: rest)).
    { apply starts_value_app, join_starts_value, stringify_starts_value.
      simpl in Hwfxs. by apply andb_true_iff in Hwfxs as [? _]. }
    destruct (skip_separator inner _ Hinner Hnext) as [-> Hskip].
    rewrite expect_head, Hskip, <- map_cons.
    rewrite IH by (done || simpl in *; lia). reflexivity.
Qed.

Lemma quote_text (k t : jsstring) :
  quote k ++ t = 34%N :: quote_units k ++ 34%N :: t.
Proof. unfold quote. by rewrite <- !app_assoc. Qed.

Lemma parse_members_key (fuel : nat) (k text t : jsstring) :
  starts_value text ->
  parse_members (S fuel) (quote k ++ 58%N :: 32%N :: text ++ t) =
    '(v, r3) ← parse_value fuel (text ++ t);
    match expect 44 (skip_ws r3) with
    | Some r4 =>
        '(ms, r5) ← parse_members fuel (skip_ws r4); Some ((k, v) :: ms, r5)
    | None => r4 ← expect 125 (skip_ws r3); Some ([(k, v)], r4)
    end.
Proof.
  intros Htext. rewrite parse_members_step, quote_text, expect_head.
  cbn [mbind option_bind]. rewrite parse_quote_units. cbn [mbind option_bind].
  rewrite skip_ws_stop by done. rewrite expect_head. cbn [mbind option_bind].
  change (32%N :: text ++ t) with ([32%N] ++ text ++ t).
  rewrite skip_ws_blank by (by repeat constructor).
  by rewrite skip_ws_starts_value.
Qed.

Lemma parse_members_join (members : list (jsstring * json))
    (inner indent rest : jsstring) (fuel : nat) :
  members <> [] ->
  Forall (fun m => reads_back (snd m)) members ->
  forallb (fun m => well_formed (snd m)) members = true ->
  (list_sum (List.map (fun m => S (json_size (snd m))) members) <= fuel)%nat ->
  blank inner -> blank indent ->
  parse_members fuel
    (Js.join (44%N :: 10%N :: inner)
       (List.map (fun m => quote (fst m) ++ 58%N :: 32%N :: stringify inner (snd m))
          members)
     ++ 10%N :: indent ++ 125%N :: rest) = Some (members, rest).
Proof.
  intros Hne Hall. revert fuel Hne.
  induction Hall as [|[k x] ms Hx Hms IH];
    intros fuel Hne Hwf Hfuel Hinner Hindent; [done|].
  simpl in Hwf. apply andb_true_iff in Hwf as [Hwfx Hwfms].
  simpl in Hfuel, Hx. destruct fuel as [|fuel]; [lia|].
  destruct ms as [|[k' y] ms'].
  - cbn [List.map fst snd]. rewrite join_one, <- app_assoc.
    rewrite <- 2 app_comm_cons.
    rewrite parse_members_key by (by apply stringify_starts_value).
    rewrite Hx; [|done|simpl in Hfuel; lia|done|by right].
    cbn [mbind option_bind]. rewrite skip_to_close by done.
    rewrite expect_other by done. by rewrite expect_head.
  - rewrite map_cons, (map_cons _ (k', y)), join_more, <- !app_assoc. cbn [fst snd].
    rewrite <- 2 app_comm_cons.
    rewrite parse_members_key by (by apply stringify_starts_value).
    rewrite Hx; [|done|simpl in Hfuel; lia|done|by left].
    cbn [mbind option_bind].
    match goal with
    | |- context [skip_ws ((44%N :: 10%N :: inner) ++ ?t)] =>
        assert (Hnext : starts_value t)
    end.
    { apply starts_value_app, join_starts_value.
      rewrite quote_text. by eexists _, _. }
    destruct (skip_separator inner _ Hinner Hnext) as [-> Hskip].
    rewrite expect_head, Hskip.
    change (parse_members fuel ?t) with
      (parse_members fuel
         (Js.join (44%N :: 10%N :: inner)
            (List.map (fun m => quote (fst m) ++ 58%N :: 32%N
                                :: stringify inner (snd m)) ((k', y) :: ms'))
          ++ 10%N :: indent ++ 125%N :: rest)).
    rewrite IH by (done || simpl in *; lia). reflexivity.
Qed.

(** **** Property order *)

Lemma obj_get_None (k : jsstring) (ms : list (jsstring * json)) :
  k ∉ List.map fst ms -> obj_get k ms = None.
Proof.
  unfold obj_get. induction ms as [|[k' v] ms IH]; simpl; [done|].
  rewrite not_elem_of_cons. intros [Hne Hnot]. unfold Js.eqb.
  rewrite bool_decide_eq_false_2 by congruence. by apply IH.
Qed.

Lemma names_ordered_snoc (ks : list jsstring) (k : jsstring) :
  names_ordered (ks ++ [k]) = true ->
  names_ordered ks = true /\ (k ∉ ks) /\ array_index k = None.
Proof.
  induction ks as [|k' ks IH]; cbn [app names_ordered]; intros H;
    apply andb_true_iff in H as [H Hrest]; apply andb_true_iff in H as [Hk' Hnot];
    apply bool_decide_eq_true in Hk', Hnot.
  - split_and!; [done|apply not_elem_of_nil|done].
  - destruct (IH Hrest) as (Hks & Hk & Hidx).
    rewrite not_elem_of_app, list_elem_of_singleton in Hnot.
    destruct Hnot as [Hnot Hne]. split_and!; [|by apply not_elem_of_cons|done].
    by rewrite Hks, !bool_decide_eq_true_2.
Qed.

Lemma names_ordered_keys (ks : list jsstring) (above : option N) :
  names_ordered ks = true -> keys_ordered above ks = true.
Proof.
  destruct ks as [|k ks]; [done|]. intros H. simpl in *.
  apply andb_true_iff in H as [H1 H2]. apply andb_true_iff in H1 as [Hk H1].
  apply bool_decide_eq_true in Hk. rewrite Hk.
  by rewrite bool_decide_eq_true_2, H1, H2.
Qed.

(** Two canonical index keys with the same index are the same key. *)
Lemma keys_ordered_snoc (ks : list jsstring) (k : jsstring) (above : option N) :
  keys_ordered above (ks ++ [k]) = true ->
  keys_ordered above ks = true /\
  (k ∉ ks) /\
  match array_index k with
  | Some n =>
      Forall (fun k' => exists n', array_index k' = Some n' /\ (n' < n)%N) ks /\
      (forall m, above = Some m -> (m < n)%N)
  | None => True
  end.
Proof.
  revert above. induction ks as [|k' ks IH]; intros above.
  - simpl. intros H. split; [done|]. split; [apply not_elem_of_nil|].
    destruct (array_index k) as [n|]; [|done]. split; [constructor|].
    intros m ->. apply andb_true_iff in H as [H _]. by apply N.ltb_lt.
  - cbn [app keys_ordered]. destruct (array_index k') as [n'|] eqn:Hk'.
    + rewrite andb_true_iff. intros [Habove Hrest].
      destruct (IH _ Hrest) as (Hks & Hnot & Hidx). rewrite Hks, Habove.
      split; [done|]. split.
      * rewrite not_elem_of_cons. split; [|done]. intros ->.
        rewrite Hk' in Hidx. destruct Hidx as [_ Hlt].
        specialize (Hlt n' eq_refl). lia.
      * destruct (array_index k) as [n|]; [|done].
        destruct Hidx as [Hall Hlt]. specialize (Hlt n' eq_refl).
        split; [constructor; eauto|].
        intros m ->. apply N.ltb_lt in Habove. lia.
    + change (names_ordered (k' :: ks ++ [k]))
        with (names_ordered ((k' :: ks) ++ [k])).
      intros H. destruct (names_ordered_snoc _ _ H) as (Hks & Hnot & Hidx).
      rewrite Hidx. by rewrite Hks.
Qed.

Lemma obj_insert_index_last (n : N) (k : jsstring) (v : json)
    (ms : list (jsstring * json)) :
  Forall (fun k' => exists n', array_index k' = Some n' /\ (n' < n)%N)
         (List.map fst ms) ->
  obj_insert_index n k v ms = ms ++ [(k, v)].
Proof.
  induction ms as [|[k' v'] ms IH]; simpl; [done|].
  intros H. apply Forall_cons in H as [(n' & -> & Hlt) Hall].
  rewrite (proj2 (N.ltb_lt n' n) Hlt). by rewrite IH.
Qed.

(** Defining the properties of an object in property order gives the
    object with these properties. *)
Lemma build_object_ordered (ms : list (jsstring * json)) :
  keys_ordered None (List.map fst ms) = true -> build_object ms = ms.
Proof.
  unfold build_object.
  induction ms as [|[k v] ms IH] using rev_ind; [done|].
  rewrite map_app. cbn [List.map fst]. intros H.
  destruct (keys_ordered_snoc _ _ _ H) as (Hms & Hnot & Hidx).
  rewrite fold_left_app. cbn [fold_left fst snd]. rewrite IH by done.
  unfold obj_set, has_key. rewrite obj_get_None by done.
  rewrite bool_decide_eq_false_2 by (by intros [? ?]).
  destruct (array_index k) as [n|]; [|done].
  apply obj_insert_index_last, Hidx.
Qed.

(** **** The round trip *)

Lemma join_length (sep : jsstring) (parts : list jsstring) :
  (list_sum (List.map length parts) <= length (Js.join sep parts))%nat.
Proof.
  induction parts as [|a [|b parts] IH]; simpl in *; [lia..|].
  rewrite !length_app. lia.
Qed.

Lemma sizes_lengths {A} (size : A -> nat) (text : A -> jsstring) (xs : list A) :
  Forall (fun a => (S (size a) <= 2 * length (text a))%nat) xs ->
  (list_sum (List.map (fun a => S (size a)) xs)
   <= 2 * list_sum (List.map length (List.map text xs)))%nat.
Proof. induction 1; simpl in *; lia. Qed.

Lemma stringify_length (indent : jsstring) (v : json) :
  well_formed v = true ->
  (S (json_size v) <= 2 * length (stringify indent v))%nat.
Proof.
  revert indent. induction v as [|[]|lit|s|items IH|members IH] using json_ind;
    intros indent Hwf; try (simpl; lia).
  - destruct (number_literal_head lit Hwf) as (c & t & -> & _). simpl. lia.
  - destruct items as [|x xs]; [simpl; lia|].
    rewrite stringify_array. cbn [length]. rewrite !length_app.
    pose proof (join_length (44%N :: 10%N :: indent ++ gap)
                  (List.map (stringify (indent ++ gap)) (x :: xs))) as Hjoin.
    pose proof (sizes_lengths json_size (stringify (indent ++ gap)) (x :: xs))
      as Hsum.
    cbn [well_formed] in Hwf. rewrite forallb_forall in Hwf.
    cbn [json_size]. rewrite Forall_forall in IH.
    assert (Hall : Forall (fun a => (S (json_size a)
                     <= 2 * length (stringify (indent ++ gap) a))%nat) (x :: xs)).
    { apply Forall_forall. intros a Ha. apply IH; [done|].
      by apply Hwf, list_elem_of_In. }
    specialize (Hsum Hall). lia.
  - destruct members as [|m ms]; [simpl; lia|].
    rewrite stringify_object. cbn [length]. rewrite !length_app.
    match goal with
    | |- context [Js.join ?sep ?parts] =>
        pose proof (join_length sep parts) as Hjoin
    end.
    pose proof (sizes_lengths (fun m => json_size (snd m))
                  (fun m => quote (fst m) ++ 58%N :: 32%N
                            :: stringify (indent ++ gap) (snd m)) (m :: ms))
      as Hsum.
    cbn [well_formed] in Hwf. apply andb_true_iff in Hwf as [_ Hwf].
    rewrite forallb_forall in Hwf.
    cbn [json_size]. rewrite Forall_forall in IH.
    assert (Hall : Forall (fun a => (S (json_size (snd a))
                     <= 2 * length (quote (fst a) ++ 58%N :: 32%N
                            :: stringify (indent ++ gap) (snd a)))%nat) (m :: ms)).
    { apply Forall_forall. intros a Ha. rewrite length_app. cbn [length].
      specialize (IH a Ha (indent ++ gap) (Hwf a (proj1 (list_elem_of_In _ _) Ha))).
      lia. }
    specialize (Hsum Hall). lia.
Qed.

Lemma array_text (indent rest : jsstring) (x : json) (xs : list json) :
  stringify indent (JArr (x :: xs)) ++ rest =
    91%N :: (10%N :: indent ++ gap)
    ++ (Js.join (44%N :: 10%N :: indent ++ gap)
          (List.map (stringify (indent ++ gap)) (x :: xs))
        ++ 10%N :: indent ++ 93%N :: rest).
Proof.
  rewrite stringify_array. cbn [app]. do 2 f_equal.
  by rewrite <- !app_assoc, <- app_comm_cons, <- app_assoc.
Qed.

Lemma object_text (indent rest : jsstring) (m : jsstring * json)
    (ms : list (jsstring * json)) :
  stringify indent (JObj (m :: ms)) ++ rest =
    123%N :: (10%N :: indent ++ gap)
    ++ (Js.join (44%N :: 10%N :: indent ++ gap)
          (List.map (fun m => quote (fst m) ++ 58%N :: 32%N
                              :: stringify (indent ++ gap) (snd m)) (m :: ms))
        ++ 10%N :: indent ++ 125%N :: rest).
Proof.
  rewrite stringify_object. cbn [app]. do 2 f_equal.
  by rewrite <- !app_assoc, <- app_comm_cons, <- app_assoc.
Qed.

Lemma parse_value_open (fuel : nat) (c : N) (s : jsstring) :
  parse_value (S fuel) (c :: s) =
    if (c =? 123)%N then
      match expect 125 (skip_ws s) with
      | Some r => Some (JObj [], r)
      | None =>
          '(ms, r) ← parse_members fuel (skip_ws s);
          Some (JObj (build_object ms), r)
      end
    else if (c =? 91)%N then
      match expect 93 (skip_ws s) with
      | Some r => Some (JArr [], r)
      | None => '(vs, r) ← parse_elements fuel (skip_ws s); Some (JArr vs, r)
      end
    else if (c =? 34)%N then
      '(str, r) ← parse_string_body s; Some (JStr str, r)
    else if (c =? 116)%N then parse_keyword "true" (JBool true) (c :: s)
    else if (c =? 102)%N then parse_keyword "false" (JBool false) (c :: s)
    else if (c =? 110)%N then parse_keyword "null" JNull (c :: s)
    else '(lit, r) ← parse_number (c :: s); Some (JNum lit, r).
Proof. reflexivity. Qed.

Lemma parse_value_stringify (v : json) : reads_back v.
Proof.
  induction v as [|[]|lit|s|items IH|members IH] using json_ind;
    intros fuel indent rest Hwf Hfuel Hindent Hrest;
    (destruct fuel as [|fuel]; [simpl in Hfuel; lia|]).
  - reflexivity.
  - reflexivity.
  - reflexivity.
  - destruct (number_literal_head lit Hwf) as (c & t & -> & Hc).
    apply bool_decide_eq_true in Hwf.
    pose proof (parse_number_app _ _ _ _ Hrest Hwf) as Hparse.
    cbn [stringify]. rewrite <- app_comm_cons, parse_value_open.
    assert (Htests : (c =? 123)%N = false /\ (c =? 91)%N = false
                     /\ (c =? 34)%N = false /\ (c =? 116)%N = false
                     /\ (c =? 102)%N = false /\ (c =? 110)%N = false).
    { destruct Hc as [->|Hc]; [by vm_compute|]. apply digit_bounds in Hc.
      repeat split; apply N.eqb_neq; lia. }
    destruct Htests as (-> & -> & -> & -> & -> & ->).
    rewrite app_comm_cons. by rewrite Hparse.
  - cbn [stringify]. rewrite quote_text, parse_value_open.
    replace (34 =? 123)%N with false by reflexivity.
    replace (34 =? 91)%N with false by reflexivity.
    replace (34 =? 34)%N with true by reflexivity.
    cbv iota. by rewrite parse_quote_units.
  - destruct items as [|x xs]; [reflexivity|].
    rewrite array_text, parse_value_open.
    replace (91 =? 123)%N with false by reflexivity.
    replace (91 =? 91)%N with true by reflexivity. cbv iota.
    cbn [well_formed] in Hwf.
    rewrite skip_ws_blank by (constructor; [done|by apply blank_inner]).
    assert (Hfirst : starts_value
      (Js.join (44%N :: 10%N :: indent ++ gap)
         (List.map (stringify (indent ++ gap)) (x :: xs)))).
    { rewrite map_cons. apply join_starts_value, stringify_starts_value.
      simpl in Hwf. by apply andb_true_iff in Hwf as [? _]. }
    rewrite skip_ws_starts_value, expect_close_starts_value by done.
    rewrite parse_elements_join;
      [done|done|done|done|simpl in Hfuel |- *; lia|by apply blank_inner|done].
  - destruct members as [|m ms]; [reflexivity|].
    rewrite object_text, parse_value_open.
    replace (123 =? 123)%N with true by reflexivity. cbv iota.
    cbn [well_formed] in Hwf. apply andb_true_iff in Hwf as [Hkeys Hwf].
    rewrite skip_ws_blank by (constructor; [done|by apply blank_inner]).
    rewrite map_cons, (quote_text (fst m)).
    assert (Hjoin : forall sep t parts u,
      exists w, Js.join sep ((34%N :: t) :: parts) ++ u = 34%N :: w).
    { intros sep t [|p parts] u; by eexists. }
    match goal with
    | |- context [Js.join ?sep ((34%N :: ?t) :: ?parts) ++ ?u] =>
        destruct (Hjoin sep t parts u) as (w & Hw)
    end.
    rewrite Hw, skip_ws_stop, expect_other by done. rewrite <- Hw.
    rewrite <- quote_text, <- (map_cons (fun m => quote (fst m) ++ 58%N :: 32%N
                              :: stringify (indent ++ gap) (snd m))).
    rewrite parse_members_join;
      [|done|done|done|simpl in Hfuel |- *; lia|by apply blank_inner|done].
    cbn [mbind option_bind]. by rewrite build_object_ordered.
Qed.

(** What [JSON.stringify(v, null, 2)] writes, [JSON.parse] reads back as
    [v]. *)
Lemma JSON_parse_stringify (v : json) :
  well_formed v = true -> JSON_parse (JSON_stringify v) = Some v.
Proof.
  intros Hwf. unfold JSON_parse, JSON_stringify.
  pose proof (stringify_starts_value [] v Hwf) as Hstart.
  pose proof (skip_ws_starts_value _ [] Hstart) as Hskip.
  rewrite app_nil_r in Hskip. rewrite Hskip.
  pose proof (parse_value_stringify v (2 + 2 * length (stringify [] v))%nat [] []
                Hwf) as Hparse.
  rewrite app_nil_r in Hparse. rewrite Hparse; [done| |constructor|done].
  pose proof (stringify_length [] v Hwf). lia.
Qed.

(** **** Setting a property *)

Lemma obj_get_Some_key (k : jsstring) (ms : list (jsstring * json)) :
  is_Some (obj_get k ms) <-> k ∈ List.map fst ms.
Proof.
  unfold obj_get. induction ms as [|[k' v] ms IH]; simpl.
  - split; [by intros [? ?]|]. by rewrite elem_of_nil.
  - unfold Js.eqb. destruct (decide (k' = k)) as [->|Hne].
    + rewrite bool_decide_eq_true_2 by done. simpl. split; [|by eexists].
      intros _. by left.
    + rewrite bool_decide_eq_false_2 by done. rewrite IH, elem_of_cons.
      split; [by right|]. by intros [->|?].
Qed.

Lemma obj_replace_keys (k : jsstring) (v : json) (ms : list (jsstring * json)) :
  List.map fst (obj_replace k v ms) = List.map fst ms.
Proof.
  induction ms as [|[k' v'] ms IH]; simpl; [done|]. unfold Js.eqb.
  destruct (decide (k' = k)) as [->|Hne].
  - by rewrite bool_decide_eq_true_2.
  - rewrite bool_decide_eq_false_2 by done. simpl. by rewrite IH.
Qed.

Lemma obj_replace_well_formed (k : jsstring) (v : json)
    (ms : list (jsstring * json)) :
  well_formed v = true ->
  forallb (fun m => well_formed (snd m)) ms = true ->
  forallb (fun m => well_formed (snd m)) (obj_replace k v ms) = true.
Proof.
  intros Hv. induction ms as [|[k' v'] ms IH]; simpl; [done|].
  rewrite andb_true_iff. intros [Hv' Hms].
  destruct (Js.eqb k' k); simpl; rewrite ?Hv, ?Hv', ?Hms; auto.
Qed.

Lemma obj_get_replace (k k' : jsstring) (v : json) (ms : list (jsstring * json)) :
  obj_get k' (obj_replace k v ms) =
    if decide (k' = k)
    then match obj_get k ms with Some _ => Some v | None => None end
    else obj_get k' ms.
Proof.
  unfold obj_get. induction ms as [|[k0 v0] ms IH]; simpl.
  - by destruct (decide (k' = k)).
  - unfold Js.eqb in *. destruct (decide (k0 = k)) as [->|Hne].
    + rewrite (bool_decide_eq_true_2 (k = k)) by done. simpl.
      destruct (decide (k' = k)) as [->|Hne'].
      * by rewrite bool_decide_eq_true_2.
      * by rewrite !bool_decide_eq_false_2 by done.
    + rewrite (bool_decide_eq_false_2 (k0 = k)) by done. simpl.
      destruct (decide (k' = k)) as [->|Hne'].
      * rewrite bool_decide_eq_false_2 by done. exact IH.
      * destruct (bool_decide (k0 = k')); [done|exact IH].
Qed.

Lemma obj_get_app (k : jsstring) (ms ms' : list (jsstring * json)) :
  obj_get k (ms ++ ms') =
    match obj_get k ms with
    | Some v => Some v
    | None => obj_get k ms'
    end.
Proof.
  unfold obj_get. induction ms as [|[k0 v0] ms IH]; simpl; [done|].
  by destruct (Js.eqb k0 k).
Qed.

Lemma names_ordered_app_name (ks : list jsstring) (k : jsstring) :
  names_ordered ks = true -> k ∉ ks -> array_index k = None ->
  names_ordered (ks ++ [k]) = true.
Proof.
  intros Hks Hk Hidx. induction ks as [|k' ks IH]; simpl.
  - rewrite !bool_decide_eq_true_2; auto using not_elem_of_nil.
  - simpl in Hks. apply andb_true_iff in Hks as [H Hrest].
    apply andb_true_iff in H as [Hk' Hnot]. apply bool_decide_eq_true in Hnot.
    apply not_elem_of_cons in Hk as [Hne Hk].
    rewrite Hk', IH by done. rewrite bool_decide_eq_true_2; [done|].
    rewrite not_elem_of_app, list_elem_of_singleton. split; [done|congruence].
Qed.

Lemma keys_ordered_app_name (ks : list jsstring) (k : jsstring) (above : option N) :
  keys_ordered above ks = true -> k ∉ ks -> array_index k = None ->
  keys_ordered above (ks ++ [k]) = true.
Proof.
  revert above. induction ks as [|k' ks IH]; intros above Hks Hk Hidx.
  - simpl. by rewrite Hidx.
  - cbn [app keys_ordered] in *. destruct (array_index k') as [n|] eqn:Hk'.
    + apply andb_true_iff in Hks as [-> Hks]. apply not_elem_of_cons in Hk as [_ Hk].
      by rewrite IH.
    + by apply (names_ordered_app_name (k' :: ks)).
Qed.

(** A well-formed object stays one when a key that is not an index is set. *)
Lemma obj_set_well_formed (k : jsstring) (v : json) (ms : list (jsstring * json)) :
  array_index k = None ->
  well_formed v = true ->
  well_formed (JObj ms) = true ->
  well_formed (JObj (obj_set k v ms)) = true.
Proof.
  intros Hidx Hv Hms. cbn [well_formed] in *.
  apply andb_true_iff in Hms as [Hkeys Hvals]. unfold obj_set, has_key. rewrite Hidx.
  destruct (decide (is_Some (obj_get k ms))) as [Hin|Hout].
  - rewrite bool_decide_eq_true_2 by done.
    by rewrite obj_replace_keys, Hkeys, obj_replace_well_formed.
  - rewrite bool_decide_eq_false_2 by done. rewrite obj_get_Some_key in Hout.
    rewrite map_app. cbn [List.map fst]. rewrite keys_ordered_app_name by done.
    rewrite forallb_app, Hvals. simpl. by rewrite Hv.
Qed.

Lemma obj_get_set (k k' : jsstring) (v : json) (ms : list (jsstring * json)) :
  array_index k = None ->
  obj_get k' (obj_set k v ms) = if decide (k' = k) then Some v else obj_get k' ms.
Proof.
  intros Hidx. unfold obj_set, has_key. rewrite Hidx.
  destruct (decide (is_Some (obj_get k ms))) as [[v0 Hin]|Hout].
  - rewrite bool_decide_eq_true_2 by (by eexists).
    rewrite obj_get_replace, Hin. by destruct (decide (k' = k)).
  - rewrite bool_decide_eq_false_2 by done. rewrite obj_get_app.
    destruct (decide (k' = k)) as [->|Hne].
    + destruct (obj_get k ms) eqn:Hget; [by destruct Hout; eexists|].
      unfold obj_get. simpl. unfold Js.eqb. by rewrite bool_decide_eq_true_2.
    + destruct (obj_get k' ms); [done|].
      unfold obj_get. simpl. unfold Js.eqb. by rewrite bool_decide_eq_false_2.
Qed.

(** **** What [JSON.parse] returns is well formed *)

Lemma digits_value_bounds (s : jsstring) (acc n : N) :
  digits_value acc s = Some n ->
  (acc * 10 ^ N.of_nat (length s) <= n < (acc + 1) * 10 ^ N.of_nat (length s))%N.
Proof.
  revert acc. induction s as [|c s IH]; intros acc; simpl digits_value.
  - intros [= <-]. simpl. lia.
  - destruct (is_digit c) eqn:Hc; [|done]. intros Hn. apply IH in Hn.
    apply digit_bounds in Hc.
    replace (N.of_nat (length (c :: s))) with (N.succ (N.of_nat (length s)))
      by (simpl; lia).
    rewrite N.pow_succ_r'. nia.
Qed.

Lemma digits_value_inj (s s' : jsstring) (acc acc' n : N) :
  length s = length s' ->
  digits_value acc s = Some n -> digits_value acc' s' = Some n ->
  acc = acc' /\ s = s'.
Proof.
  revert s' acc acc'. induction s as [|c s IH]; intros [|c' s'] acc acc' Hlen;
    try done; simpl digits_value.
  - by intros [= <-] [= <-].
  - destruct (is_digit c) eqn:Hc; [|done]. destruct (is_digit c') eqn:Hc'; [|done].
    intros Hn Hn'. injection Hlen as Hlen.
    destruct (IH _ _ _ Hlen Hn Hn') as [Hacc ->].
    apply digit_bounds in Hc, Hc'.
    assert (c = c') as -> by lia. split; [lia|done].
Qed.

(** The keys that denote an index are canonical: one key for each index. *)
Lemma array_index_inj (k k' : jsstring) (n : N) :
  array_index k = Some n -> array_index k' = Some n -> k = k'.
Proof.
  assert (Hcanon : forall c r m,
    (c =? 48)%N = false -> array_index (c :: r) = Some m ->
    digits_value 0 (c :: r) = Some m /\ (10 ^ N.of_nat (length r) <= m)%N
    /\ (m < 10 ^ N.succ (N.of_nat (length r)))%N).
  { intros c r m Hc. unfold array_index. rewrite Hc.
    destruct (digits_value 0 (c :: r)) as [m'|] eqn:Hm; [|done].
    cbn [mbind option_bind]. destruct (m' <? 4294967295)%N; [|done].
    intros [= <-]. split; [done|]. simpl digits_value in Hm.
    destruct (is_digit c) eqn:Hd; [|done]. apply digits_value_bounds in Hm.
    apply digit_bounds in Hd. apply N.eqb_neq in Hc.
    rewrite N.pow_succ_r'. nia. }
  destruct k as [|c r]; [done|]. destruct k' as [|c' r']; [done|].
  destruct (c =? 48)%N eqn:Hc, (c' =? 48)%N eqn:Hc'.
  - unfold array_index. rewrite Hc, Hc'. apply N.eqb_eq in Hc as ->, Hc' as ->.
    by destruct r, r'.
  - intros H0 H'. destruct (Hcanon _ _ _ Hc' H') as (_ & Hlow & _).
    unfold array_index in H0. rewrite Hc in H0. destruct r; [|done].
    injection H0 as <-. pose proof (N.pow_nonzero 10 (N.of_nat (length r'))). lia.
  - intros H H0. destruct (Hcanon _ _ _ Hc H) as (_ & Hlow & _).
    unfold array_index in H0. rewrite Hc' in H0. destruct r'; [|done].
    injection H0 as <-. pose proof (N.pow_nonzero 10 (N.of_nat (length r))). lia.
  - intros H H'.
    destruct (Hcanon _ _ _ Hc H) as (Hv & Hlow & Hhigh).
    destruct (Hcanon _ _ _ Hc' H') as (Hv' & Hlow' & Hhigh').
    assert (Hlen : length r = length r').
    { destruct (Nat.lt_trichotomy (length r) (length r')) as [Hlt|[Heq|Hlt]];
        [|done|].
      - assert (10 ^ N.succ (N.of_nat (length r)) <= 10 ^ N.of_nat (length r'))%N
          by (apply N.pow_le_mono_r; lia). lia.
      - assert (10 ^ N.succ (N.of_nat (length r')) <= 10 ^ N.of_nat (length r))%N
          by (apply N.pow_le_mono_r; lia). lia. }
    by destruct (digits_value_inj (c :: r) (c' :: r') 0 0 n
                   ltac:(simpl; lia) Hv Hv') as [_ ->].
Qed.

Lemma obj_insert_index_keys (n : N) (k : jsstring) (v : json)
    (ms : list (jsstring * json)) (above : option N) :
  array_index k = Some n ->
  k ∉ List.map fst ms ->
  (forall m, above = Some m -> (m < n)%N) ->
  keys_ordered above (List.map fst ms) = true ->
  keys_ordered above (List.map fst (obj_insert_index n k v ms)) = true.
Proof.
  intros Hk. revert above.
  induction ms as [|[k' v'] ms IH]; intros above Hnot Habove Hms.
  - simpl. rewrite Hk. destruct above as [m|]; [|done].
    by rewrite (proj2 (N.ltb_lt m n) (Habove m eq_refl)).
  - cbn [obj_insert_index List.map fst] in *.
    apply not_elem_of_cons in Hnot as [Hne Hnot].
    assert (Hlow : match above with Some m => (m <? n)%N | None => true end = true).
    { destruct above as [m|]; [|done]. apply N.ltb_lt. by apply Habove. }
    cbn [keys_ordered] in Hms.
    destruct (array_index k') as [n'|] eqn:Hk'.
    + apply andb_true_iff in Hms as [Hab Hms].
      destruct (N.ltb_spec n' n) as [Hlt|Hge].
      * cbn [List.map fst keys_ordered]. rewrite Hk', Hab. cbn [andb].
        apply IH; [done| |done]. by intros m [= <-].
      * cbn [List.map fst keys_ordered]. rewrite Hk, Hk', Hlow, Hms. cbn [andb].
        rewrite andb_true_r. apply N.ltb_lt.
        destruct (N.eq_dec n n') as [->|Hnn]; [|lia].
        destruct Hne. by apply (array_index_inj _ _ n').
    + cbn [List.map fst keys_ordered]. rewrite Hk, Hk', Hlow. exact Hms.
Qed.

Lemma take_digits_spec (s ds r : jsstring) :
  take_digits s = (ds, r) ->
  s = ds ++ r /\ Forall (fun c => is_digit c = true) ds /\ stops_digits r.
Proof.
  revert ds r. induction s as [|c s IH]; intros ds r; simpl.
  - by intros [= <- <-].
  - destruct (is_digit c) eqn:Hc.
    + destruct (take_digits s) as [ds' r']. intros [= <- <-].
      destruct (IH _ _ eq_refl) as (-> & Hds & Hr). by repeat constructor.
    + intros [= <- <-]. by repeat constructor.
Qed.

Lemma take_digits_alone (ds t : jsstring) :
  Forall (fun c => is_digit c = true) ds -> stops_digits t ->
  take_digits (ds ++ t) = (ds, t).
Proof.
  intros Hds Ht. induction Hds as [|c ds Hc Hds IH]; simpl.
  - destruct t as [|c t]; [done|]. simpl in *. by rewrite Ht.
  - by rewrite Hc, IH.
Qed.

Lemma parse_digits_alone (s ds r t : jsstring) :
  parse_digits s = Some (ds, r) -> stops_digits t ->
  parse_digits (ds ++ t) = Some (ds, t) /\
  exists c ds', ds = c :: ds' /\ is_digit c = true /\ s = ds ++ r.
Proof.
  unfold parse_digits. intros Hs Ht.
  destruct (take_digits s) as [ds0 r0] eqn:Htake.
  destruct (take_digits_spec _ _ _ Htake) as (-> & Hds & _).
  destruct ds0 as [|c ds0]; [done|]. injection Hs as <- <-.
  rewrite take_digits_alone by done. split; [done|].
  apply Forall_cons in Hds as [Hc _]. by exists c, ds0.
Qed.

Lemma parse_int_alone (s i r t : jsstring) :
  parse_int s = Some (i, r) -> stops_digits t ->
  parse_int (i ++ t) = Some (i, t) /\
  exists c i', i = c :: i' /\ is_digit c = true.
Proof.
  destruct s as [|c s]; [done|]. cbn [parse_int]. intros Hs Ht.
  destruct (c =? 48)%N eqn:Hc.
  - injection Hs as <- <-. cbn [app parse_int]. rewrite Hc. split; [done|].
    exists c, []. apply N.eqb_eq in Hc as ->. done.
  - destruct (parse_digits_alone _ _ _ _ Hs Ht) as (Hparse & c' & i' & -> & Hc' & Heq).
    injection Heq as <- _. cbn [app parse_int]. rewrite Hc. split; [done|].
    by exists c, i'.
Qed.

Lemma parse_frac_alone (s f r t : jsstring) :
  parse_frac s = Some (f, r) -> stops_digits t ->
  match t with c :: _ => c <> 46%N | [] => True end ->
  parse_frac (f ++ t) = Some (f, t) /\ (f = [] \/ exists f', f = 46%N :: f').
Proof.
  intros Hs Ht Hdot. destruct s as [|c s]; cbn [parse_frac] in Hs.
  - injection Hs as <- <-. split; [|by left]. destruct t as [|c t]; [done|].
    cbn [app parse_frac]. by rewrite (proj2 (N.eqb_neq c 46) Hdot).
  - destruct (N.eqb_spec c 46) as [->|Hc].
    + destruct (parse_digits s) as [[ds r']|] eqn:Hds; [|done].
      cbn [mbind option_bind] in Hs. injection Hs as <- <-.
      destruct (parse_digits_alone _ _ _ _ Hds Ht) as (Hparse & _).
      split; [|by right; eexists]. cbn [app parse_frac].
      replace (46 =? 46)%N with true by done. by rewrite Hparse.
    + injection Hs as <- <-. split; [|by left]. destruct t as [|c' t]; [done|].
      cbn [app parse_frac]. by rewrite (proj2 (N.eqb_neq c' 46) Hdot).
Qed.

Lemma parse_exp_alone (s e r : jsstring) :
  parse_exp s = Some (e, r) ->
  parse_exp e = Some (e, []) /\
  (e = [] \/ exists c e', e = c :: e' /\ (c = 101%N \/ c = 69%N)).
Proof.
  intros Hs. destruct s as [|c s]; cbn [parse_exp] in Hs.
  - injection Hs as <- <-. split; [done|by left].
  - destruct ((c =? 101) || (c =? 69))%N eqn:Hc.
    + destruct s as [|sign s]; [done|].
      assert (Hce : c = 101%N \/ c = 69%N).
      { apply orb_true_iff in Hc as [Hc|Hc]; apply N.eqb_eq in Hc; auto. }
      destruct ((sign =? 43) || (sign =? 45))%N eqn:Hsign.
      * destruct (parse_digits s) as [[ds r']|] eqn:Hds; [|done].
        cbn [mbind option_bind] in Hs. injection Hs as <- <-.
        destruct (parse_digits_alone _ _ _ [] Hds I) as (Hparse & _).
        rewrite app_nil_r in Hparse. split; [|right; by eexists _, _].
        cbn [parse_exp]. by rewrite Hc, Hsign, Hparse.
      * destruct (parse_digits (sign :: s)) as [[ds r']|] eqn:Hds; [|done].
        cbn [mbind option_bind] in Hs. injection Hs as <- <-.
        destruct (parse_digits_alone _ _ _ [] Hds I)
          as (Hparse & c' & ds' & -> & Hc' & Heq).
        rewrite app_nil_r in Hparse. injection Heq as <- _.
        split; [|right; by eexists _, _].
        cbn [parse_exp]. by rewrite Hc, Hsign, Hparse.
    + injection Hs as <- <-. split; [done|by left].
Qed.

(** The literal a number was read from is a number literal. *)
Lemma parse_number_literal (s lit r : jsstring) :
  parse_number s = Some (lit, r) -> number_literal lit = true.
Proof.
  unfold number_literal, parse_number. intros Hs. apply bool_decide_eq_true.
  destruct (match s with
            | c :: rest => if (c =? 45)%N then ([c], rest) else ([], s)
            | [] => ([], s)
            end) as [sign s1] eqn:Hsign.
  destruct (parse_int s1) as [[i s2]|] eqn:Hi; [|done]. cbn [mbind option_bind] in Hs.
  destruct (parse_frac s2) as [[f s3]|] eqn:Hf; [|done]. cbn [mbind option_bind] in Hs.
  destruct (parse_exp s3) as [[e s4]|] eqn:He; [|done]. cbn [mbind option_bind] in Hs.
  injection Hs as <- <-.
  destruct (parse_exp_alone _ _ _ He) as (Hexp & Heshape).
  assert (Hstop_e : stops_digits e /\ match e with c :: _ => c <> 46%N | [] => True end).
  { destruct Heshape as [->|(c & e' & -> & [->| ->])]; by split. }
  destruct (parse_frac_alone _ _ _ e Hf (proj1 Hstop_e) (proj2 Hstop_e))
    as (Hfrac & Hfshape).
  assert (Hstop_f : stops_digits (f ++ e)).
  { destruct Hfshape as [->|(f' & ->)]; [apply Hstop_e|done]. }
  destruct (parse_int_alone _ _ _ (f ++ e) Hi Hstop_f) as (Hint & c & i' & -> & Hc).
  assert (Hsign' : match sign ++ (c :: i') ++ f ++ e with
                   | c0 :: rest => if (c0 =? 45)%N then ([c0], rest)
                                   else ([], sign ++ (c :: i') ++ f ++ e)
                   | [] => ([], sign ++ (c :: i') ++ f ++ e)
                   end = (sign, (c :: i') ++ f ++ e)).
  { destruct s as [|c0 s]; [by injection Hsign as <- <-|].
    destruct (c0 =? 45)%N eqn:Hc0; injection Hsign as <- <-.
    - cbn [app]. by rewrite Hc0.
    - cbn [app]. apply digit_bounds in Hc.
      by rewrite (proj2 (N.eqb_neq c 45)) by lia. }
  rewrite Hsign', Hint. cbn [mbind option_bind]. rewrite Hfrac.
  cbn [mbind option_bind]. by rewrite Hexp.
Qed.

Lemma obj_insert_index_well_formed (n : N) (k : jsstring) (v : json)
    (ms : list (jsstring * json)) :
  well_formed v = true ->
  forallb (fun m => well_formed (snd m)) ms = true ->
  forallb (fun m => well_formed (snd m)) (obj_insert_index n k v ms) = true.
Proof.
  intros Hv. induction ms as [|[k' v'] ms IH]; simpl; [by rewrite Hv|].
  rewrite andb_true_iff. intros [Hv' Hms].
  destruct (array_index k') as [n'|]; [destruct (n' <? n)%N|];
    simpl; rewrite ?Hv, ?Hv', ?Hms, ?IH; auto.
Qed.

(** Setting a property keeps an object well formed. *)
Lemma obj_set_any_well_formed (k : jsstring) (v : json)
    (ms : list (jsstring * json)) :
  well_formed v = true ->
  well_formed (JObj ms) = true ->
  well_formed (JObj (obj_set k v ms)) = true.
Proof.
  intros Hv Hms. destruct (array_index k) as [n|] eqn:Hidx;
    [|by apply obj_set_well_formed].
  cbn [well_formed] in *. apply andb_true_iff in Hms as [Hkeys Hvals].
  unfold obj_set, has_key. rewrite Hidx.
  destruct (decide (is_Some (obj_get k ms))) as [Hin|Hout].
  - rewrite bool_decide_eq_true_2 by done.
    by rewrite obj_replace_keys, Hkeys, obj_replace_well_formed.
  - rewrite bool_decide_eq_false_2 by done. rewrite obj_get_Some_key in Hout.
    rewrite (obj_insert_index_keys n) by done.
    by rewrite obj_insert_index_well_formed.
Qed.

Lemma build_object_well_formed (ms : list (jsstring * json)) :
  forallb (fun m => well_formed (snd m)) ms = true ->
  well_formed (JObj (build_object ms)) = true.
Proof.
  unfold build_object. induction ms as [|[k v] ms IH] using rev_ind; [done|].
  rewrite forallb_app, andb_true_iff. cbn [forallb snd]. rewrite andb_true_r.
  intros [Hms Hv]. rewrite fold_left_app. cbn [fold_left fst snd].
  apply obj_set_any_well_formed; [done|by apply IH].
Qed.

Lemma parse_well_formed (fuel : nat) :
  (forall s v r, parse_value fuel s = Some (v, r) -> well_formed v = true) /\
  (forall s vs r, parse_elements fuel s = Some (vs, r) ->
                  forallb well_formed vs = true) /\
  (forall s ms r, parse_members fuel s = Some (ms, r) ->
                  forallb (fun m => well_formed (snd m)) ms = true).
Proof.
  induction fuel as [|fuel (IHv & IHe & IHm)]; [by split_and!|]. split_and!.
  - intros [|c s] v r; [done|]. rewrite parse_value_open.
    repeat match goal with
           | |- context [if ?b then _ else _] => destruct b
           end.
    + destruct (expect 125 (skip_ws s)); [by intros [= <- <-]|].
      destruct (parse_members fuel (skip_ws s)) as [[ms r']|] eqn:Hms; [|done].
      intros [= <- <-]. by apply build_object_well_formed, (IHm _ _ _ Hms).
    + destruct (expect 93 (skip_ws s)); [by intros [= <- <-]|].
      destruct (parse_elements fuel (skip_ws s)) as [[vs r']|] eqn:Hvs; [|done].
      intros [= <- <-]. by apply (IHe _ _ _ Hvs).
    + destruct (parse_string_body s) as [[str r']|]; [|done]. by intros [= <- <-].
    + unfold parse_keyword. destruct (Js.startsWith _ _); [|done]. by intros [= <- <-].
    + unfold parse_keyword. destruct (Js.startsWith _ _); [|done]. by intros [= <- <-].
    + unfold parse_keyword. destruct (Js.startsWith _ _); [|done]. by intros [= <- <-].
    + destruct (parse_number (c :: s)) as [[lit r']|] eqn:Hnum; [|done].
      intros [= <- <-]. by apply (parse_number_literal _ _ _ Hnum).
  - intros s vs r. rewrite parse_elements_step.
    destruct (parse_value fuel s) as [[v r1]|] eqn:Hv; [|done].
    cbn [mbind option_bind]. pose proof (IHv _ _ _ Hv) as Hwf.
    destruct (expect 44 (skip_ws r1)) as [r2|].
    + destruct (parse_elements fuel (skip_ws r2)) as [[vs' r3]|] eqn:Hvs; [|done].
      intros [= <- <-]. cbn [forallb]. by rewrite Hwf, (IHe _ _ _ Hvs).
    + destruct (expect 93 (skip_ws r1)); [|done]. intros [= <- <-].
      cbn [forallb]. by rewrite Hwf.
  - intros s ms r. rewrite parse_members_step.
    destruct (expect 34 s) as [r0|]; [|done]. cbn [mbind option_bind].
    destruct (parse_string_body r0) as [[k r1]|]; [|done]. cbn [mbind option_bind].
    destruct (expect 58 (skip_ws r1)) as [r2|]; [|done]. cbn [mbind option_bind].
    destruct (parse_value fuel (skip_ws r2)) as [[v r3]|] eqn:Hv; [|done].
    cbn [mbind option_bind]. pose proof (IHv _ _ _ Hv) as Hwf.
    destruct (expect 44 (skip_ws r3)) as [r4|].
    + destruct (parse_members fuel (skip_ws r4)) as [[ms' r5]|] eqn:Hms; [|done].
      intros [= <- <-]. cbn [forallb snd]. by rewrite Hwf, (IHm _ _ _ Hms).
    + destruct (expect 125 (skip_ws r3)); [|done]. intros [= <- <-].
      cbn [forallb snd]. by rewrite Hwf.
Qed.

(** Every value [JSON.parse] returns is well formed: so is every request
    body the JSON body parser hands to a route. *)
Lemma JSON_parse_well_formed (text : jsstring) (v : json) :
  JSON_parse text = Some v -> well_formed v = true.
Proof.
  unfold JSON_parse.
  destruct (parse_value _ _) as [[v' r]|] eqn:Hv; [|done]. cbn [mbind option_bind].
  destruct (skip_ws r); [|done]. intros [= <-].
  by apply (proj1 (parse_well_formed _) _ _ _ Hv).
Qed.

(** What was parsed once is read back from what is written of it. *)
Lemma JSON_parse_stringify_parse (text : jsstring) (v : json) :
  JSON_parse text = Some v -> JSON_parse (JSON_stringify v) = Some v.
Proof. intros H. by apply JSON_parse_stringify, (JSON_parse_well_formed text). Qed.

(** **** The fuel of the parser is enough *)

Lemma skip_ws_length (s : jsstring) : (length (skip_ws s) <= length s)%nat.
Proof. induction s as [|c s IH]; simpl; [done|]. destruct (is_json_ws c); simpl; lia. Qed.

Lemma expect_length (c : N) (s r : jsstring) :
  expect c s = Some r -> length s = S (length r).
Proof. destruct s as [|c' s]; simpl; [done|]. by destruct (c' =? c)%N; intros [= ->]. Qed.

Lemma parse_string_body_length (s str r : jsstring) :
  parse_string_body s = Some (str, r) -> (length r < length s)%nat.
Proof.
  revert str r. induction s as [s IH] using (induction_ltof1 _ (@length N)).
  unfold ltof in IH. intros str r. destruct s as [|c s]; [done|].
  cbn [parse_string_body]. destruct (c =? 34)%N; [intros [= <- <-]; simpl; lia|].
  destruct (c =? 92)%N.
  - destruct s as [|e s]; [done|]. destruct (e =? 117)%N.
    + destruct s as [|h1 [|h2 [|h3 [|h4 s]]]]; try done.
      destruct (hex4 h1 h2 h3 h4); [|done]. cbn [mbind option_bind].
      destruct (parse_string_body s) as [[str' r']|] eqn:Hs; [|done].
      intros [= <- <-]. apply IH in Hs; simpl in *; lia.
    + destruct (escape_value e); [|done]. cbn [mbind option_bind].
      destruct (parse_string_body s) as [[str' r']|] eqn:Hs; [|done].
      intros [= <- <-]. apply IH in Hs; simpl in *; lia.
  - destruct (c <? 32)%N; [done|].
    destruct (parse_string_body s) as [[str' r']|] eqn:Hs; [|done].
    intros [= <- <-]. apply IH in Hs; simpl in *; lia.
Qed.

Lemma parse_number_length (s lit r : jsstring) :
  parse_number s = Some (lit, r) -> (length r < length s)%nat.
Proof.
  assert (Hdigits : forall t ds u,
    parse_digits t = Some (ds, u) -> (length u < length t)%nat).
  { intros t ds u Ht. destruct (parse_digits_alone _ _ _ [] Ht I)
      as (_ & c & ds' & -> & _ & ->). rewrite length_app. simpl. lia. }
  assert (Hfrac : forall t f u,
    parse_frac t = Some (f, u) -> (length u <= length t)%nat).
  { intros [|c t] f u; cbn [parse_frac]; [by intros [= <- <-]|].
    destruct (c =? 46)%N; [|by intros [= <- <-]].
    destruct (parse_digits t) as [[ds u']|] eqn:Ht; [|done].
    intros [= <- <-]. apply Hdigits in Ht. simpl. lia. }
  assert (Hexp : forall t e u,
    parse_exp t = Some (e, u) -> (length u <= length t)%nat).
  { intros [|c t] e u; cbn [parse_exp]; [by intros [= <- <-]|].
    destruct ((c =? 101) || (c =? 69))%N; [|by intros [= <- <-]].
    destruct t as [|sign t]; [done|]. destruct ((sign =? 43) || (sign =? 45))%N.
    - destruct (parse_digits t) as [[ds u']|] eqn:Ht; [|done].
      intros [= <- <-]. apply Hdigits in Ht. simpl. lia.
    - destruct (parse_digits (sign :: t)) as [[ds u']|] eqn:Ht; [|done].
      intros [= <- <-]. apply Hdigits in Ht. simpl in *. lia. }
  assert (Hint : forall t i u,
    parse_int t = Some (i, u) -> (length u < length t)%nat).
  { intros [|c t] i u; cbn [parse_int]; [done|].
    destruct (c =? 48)%N; [intros [= <- <-]; simpl; lia|]. apply Hdigits. }
  unfold parse_number.
  destruct (match s with
            | c :: rest => if (c =? 45)%N then ([c], rest) else ([], s)
            | [] => ([], s)
            end) as [sign s1] eqn:Hsign.
  assert (length s1 <= length s)%nat.
  { destruct s as [|c s]; [by injection Hsign as <- <-|].
    destruct (c =? 45)%N; injection Hsign as <- <-; simpl; lia. }
  destruct (parse_int s1) as [[i s2]|] eqn:Hi; [|done]. cbn [mbind option_bind].
  destruct (parse_frac s2) as [[f s3]|] eqn:Hf; [|done]. cbn [mbind option_bind].
  destruct (parse_exp s3) as [[e s4]|] eqn:He; [|done]. cbn [mbind option_bind].
  intros [= <- <-]. apply Hint in Hi. apply Hfrac in Hf. apply Hexp in He. lia.
Qed.

Lemma parse_keyword_length (word : string) (v v' : json) (c : N) (s r : jsstring) :
  word <> EmptyString ->
  parse_keyword word v (c :: s) = Some (v', r) -> (length r < length (c :: s))%nat.
Proof.
  intros Hword. unfold parse_keyword. destruct (Js.startsWith _ _); [|done].
  intros [= <- <-]. destruct word; [done|]. simpl. rewrite length_drop. lia.
Qed.

(** A parse that succeeds with some fuel consumes text, and succeeds alike
    with any fuel that is at least the number of code units it consumes. *)
Lemma parse_fuel (fuel : nat) :
  (forall s v r,
     parse_value fuel s = Some (v, r) ->
     (length r < length s)%nat /\
     forall fuel', (length s - length r <= fuel')%nat ->
                   parse_value fuel' s = Some (v, r)) /\
  (forall s vs r,
     parse_elements fuel s = Some (vs, r) ->
     (length r < length s)%nat /\
     forall fuel', (length s - length r <= fuel')%nat ->
                   parse_elements fuel' s = Some (vs, r)) /\
  (forall s ms r,
     parse_members fuel s = Some (ms, r) ->
     (length r < length s)%nat /\
     forall fuel', (length s - length r <= fuel')%nat ->
                   parse_members fuel' s = Some (ms, r)).
Proof.
  induction fuel as [|fuel (IHv & IHe & IHm)]; [by split_and!|]. split_and!.
  - intros [|c s] v r; [done|]. rewrite parse_value_open. intros Hparse.
    pose proof (skip_ws_length s) as Hskip.
    revert Hparse.
    destruct (c =? 123)%N eqn:H123; [|destruct (c =? 91)%N eqn:H91;
      [|destruct (c =? 34)%N eqn:H34; [|destruct (c =? 116)%N eqn:H116;
        [|destruct (c =? 102)%N eqn:H102; [|destruct (c =? 110)%N eqn:H110]]]]].
    + destruct (expect 125 (skip_ws s)) as [r0|] eqn:Hclose.
      * intros [= <- <-]. split; [apply expect_length in Hclose; simpl; lia|].
        intros [|fuel'] Hfuel; [apply expect_length in Hclose; simpl in Hfuel; lia|].
        by rewrite parse_value_open, H123, Hclose.
      * destruct (parse_members fuel (skip_ws s)) as [[ms r']|] eqn:Hms; [|done].
        intros [= <- <-]. destruct (IHm _ _ _ Hms) as [Hlen Hmore].
        split; [simpl; lia|]. intros [|fuel'] Hfuel; [simpl in Hfuel; lia|].
        rewrite parse_value_open, H123, Hclose, Hmore; [done|]. simpl in Hfuel. lia.
    + destruct (expect 93 (skip_ws s)) as [r0|] eqn:Hclose.
      * intros [= <- <-]. split; [apply expect_length in Hclose; simpl; lia|].
        intros [|fuel'] Hfuel; [apply expect_length in Hclose; simpl in Hfuel; lia|].
        by rewrite parse_value_open, H123, H91, Hclose.
      * destruct (parse_elements fuel (skip_ws s)) as [[vs r']|] eqn:Hvs; [|done].
        intros [= <- <-]. destruct (IHe _ _ _ Hvs) as [Hlen Hmore].
        split; [simpl; lia|]. intros [|fuel'] Hfuel; [simpl in Hfuel; lia|].
        rewrite parse_value_open, H123, H91, Hclose, Hmore; [done|].
        simpl in Hfuel. lia.
    + destruct (parse_string_body s) as [[str r']|] eqn:Hstr; [|done].
      intros [= <- <-]. apply parse_string_body_length in Hstr as Hlen.
      split; [simpl; lia|]. intros [|fuel'] Hfuel; [simpl in Hfuel; lia|].
      by rewrite parse_value_open, H123, H91, H34, Hstr.
    + intros Hkey. apply parse_keyword_length in Hkey as Hlen; [|done].
      split; [done|]. intros [|fuel'] Hfuel; [lia|].
      by rewrite parse_value_open, H123, H91, H34, H116.
    + intros Hkey. apply parse_keyword_length in Hkey as Hlen; [|done].
      split; [done|]. intros [|fuel'] Hfuel; [lia|].
      by rewrite parse_value_open, H123, H91, H34, H116, H102.
    + intros Hkey. apply parse_keyword_length in Hkey as Hlen; [|done].
      split; [done|]. intros [|fuel'] Hfuel; [lia|].
      by rewrite parse_value_open, H123, H91, H34, H116, H102, H110.
    + destruct (parse_number (c :: s)) as [[lit r']|] eqn:Hnum; [|done].
      intros [= <- <-]. apply parse_number_length in Hnum as Hlen.
      split; [done|]. intros [|fuel'] Hfuel; [lia|].
      by rewrite parse_value_open, H123, H91, H34, H116, H102, H110, Hnum.
  - intros s vs r. rewrite parse_elements_step.
    destruct (parse_value fuel s) as [[v r1]|] eqn:Hv; [|done].
    cbn [mbind option_bind]. destruct (IHv _ _ _ Hv) as [Hlen1 Hmore1].
    pose proof (skip_ws_length r1) as Hskip1.
    destruct (expect 44 (skip_ws r1)) as [r2|] eqn:Hcomma.
    + destruct (parse_elements fuel (skip_ws r2)) as [[vs' r3]|] eqn:Hvs; [|done].
      intros [= <- <-]. destruct (IHe _ _ _ Hvs) as [Hlen3 Hmore3].
      apply expect_length in Hcomma as Hlen2. pose proof (skip_ws_length r2).
      split; [lia|]. intros [|fuel'] Hfuel; [lia|].
      rewrite parse_elements_step, Hmore1 by lia. cbn [mbind option_bind].
      rewrite Hcomma, Hmore3 by lia. done.
    + destruct (expect 93 (skip_ws r1)) as [r2|] eqn:Hclose; [|done].
      intros [= <- <-]. apply expect_length in Hclose as Hlen2.
      split; [lia|]. intros [|fuel'] Hfuel; [lia|].
      rewrite parse_elements_step, Hmore1 by lia. cbn [mbind option_bind].
      by rewrite Hcomma, Hclose.
  - intros s ms r. rewrite parse_members_step.
    destruct (expect 34 s) as [r0|] eqn:Hquote; [|done]. cbn [mbind option_bind].
    destruct (parse_string_body r0) as [[k r1]|] eqn:Hkey; [|done].
    cbn [mbind option_bind].
    destruct (expect 58 (skip_ws r1)) as [r2|] eqn:Hcolon; [|done].
    cbn [mbind option_bind].
    destruct (parse_value fuel (skip_ws r2)) as [[v r3]|] eqn:Hv; [|done].
    cbn [mbind option_bind]. destruct (IHv _ _ _ Hv) as [Hlen3 Hmore3].
    apply expect_length in Hquote as Hlen0.
    apply parse_string_body_length in Hkey as Hlen1.
    apply expect_length in Hcolon as Hlen2.
    pose proof (skip_ws_length r1). pose proof (skip_ws_length r2).
    pose proof (skip_ws_length r3).
    destruct (expect 44 (skip_ws r3)) as [r4|] eqn:Hcomma.
    + destruct (parse_members fuel (skip_ws r4)) as [[ms' r5]|] eqn:Hms; [|done].
      intros [= <- <-]. destruct (IHm _ _ _ Hms) as [Hlen5 Hmore5].
      apply expect_length in Hcomma as Hlen4. pose proof (skip_ws_length r4).
      split; [lia|]. intros [|fuel'] Hfuel; [lia|].
      rewrite parse_members_step, Hquote. cbn [mbind option_bind].
      rewrite Hkey. cbn [mbind option_bind]. rewrite Hcolon. cbn [mbind option_bind].
      rewrite Hmore3 by lia. cbn [mbind option_bind].
      rewrite Hcomma, Hmore5 by lia. done.
    + destruct (expect 125 (skip_ws r3)) as [r4|] eqn:Hclose; [|done].
      intros [= <- <-]. apply expect_length in Hclose as Hlen4.
      split; [lia|]. intros [|fuel'] Hfuel; [lia|].
      rewrite parse_members_step, Hquote. cbn [mbind option_bind].
      rewrite Hkey. cbn [mbind option_bind]. rewrite Hcolon. cbn [mbind option_bind].
      rewrite Hmore3 by lia. cbn [mbind option_bind].
      by rewrite Hcomma, Hclose.
Qed.

(** [JSON_parse] does not fail for want of fuel: a text that parses with
    some fuel parses to the same value with the fuel [JSON_parse] takes. *)
Lemma JSON_parse_enough_fuel (fuel : nat) (text : jsstring) (v : json) (r : jsstring) :
  parse_value fuel (skip_ws text) = Some (v, r) ->
  skip_ws r = [] ->
  JSON_parse text = Some v.
Proof.
  intros Hparse Hend. unfold JSON_parse.
  destruct (proj1 (parse_fuel fuel) _ _ _ Hparse) as [_ Hmore].
  rewrite Hmore; [by cbn [mbind option_bind]; rewrite Hend|].
  pose proof (skip_ws_length text). lia.
Qed.

End JsonFacts.

(** *** Timestamps in the order of their instants *)

Section TimeFacts.

Lemma lessThan_irrefl (a : jsstring) : Js.lessThan a a = false.
Proof.
  induction a as [|x a IH]; [done|]. cbn [Js.lessThan].
  by rewrite N.ltb_irrefl, N.eqb_refl, IH.
Qed.

Lemma lessThan_trans (a b c : jsstring) :
  Js.lessThan a b = true -> Js.lessThan b c = true -> Js.lessThan a c = true.
Proof.
  revert b c. induction a as [|x a IH]; intros [|y b] [|z c]; cbn [Js.lessThan];
    try done.
  rewrite !orb_true_iff, !andb_true_iff, !N.ltb_lt, !N.eqb_eq.
  intros [Hxy|[-> Hab]] [Hyz|[<- Hbc]].
  - left. lia.
  - by left.
  - by left.
  - right. split; [done|]. by apply (IH b).
Qed.

Lemma lessThan_asym (a b : jsstring) :
  Js.lessThan a b = true -> Js.lessThan b a = false.
Proof.
  intros Hab. destruct (Js.lessThan b a) eqn:Hba; [|done].
  by rewrite <- (lessThan_irrefl a), (lessThan_trans a b a).
Qed.

(** Two texts that start with fields of one length compare as the fields
    do, and as what follows when the fields are the same. *)
Lemma lessThan_field (a b s t : jsstring) :
  length a = length b ->
  Js.lessThan a b = true -> Js.lessThan (a ++ s) (b ++ t) = true.
Proof.
  revert b. induction a as [|x a IH]; intros [|y b]; cbn [Js.lessThan length app];
    try done.
  intros [= Hlen]. rewrite !orb_true_iff, !andb_true_iff.
  intros [Hxy|[Hxy Hab]]; [by left|]. right. split; [done|]. by apply IH.
Qed.

Lemma lessThan_after (a s t : jsstring) :
  Js.lessThan (a ++ s) (a ++ t) = Js.lessThan s t.
Proof.
  induction a as [|x a IH]; [done|]. cbn [Js.lessThan app].
  by rewrite N.ltb_irrefl, N.eqb_refl, IH.
Qed.

(** A property of consecutive numbers that is transitive holds of any two
    numbers in their order. *)
Lemma chain {A} (R : A -> A -> Prop) (f : Z -> A) (lo hi : Z) :
  (forall a b c, R a b -> R b c -> R a c) ->
  (forall n, lo <= n -> n + 1 < hi -> R (f n) (f (n + 1))) ->
  forall x y, lo <= x -> x < y -> y < hi -> R (f x) (f y).
Proof.
  intros Htrans Hstep x y Hlo Hxy Hhi.
  replace y with (x + 1 + Z.of_nat (Z.to_nat (y - x - 1))) in * by lia.
  generalize dependent (Z.to_nat (y - x - 1)). intros k _ Hhi.
  induction k as [|k IH].
  - rewrite Z.add_0_r in *. apply Hstep; lia.
  - apply (Htrans _ (f (x + 1 + Z.of_nat k))); [apply IH; lia|].
    replace (x + 1 + Z.of_nat (S k)) with (x + 1 + Z.of_nat k + 1) by lia.
    apply Hstep; lia.
Qed.

(** What a check of the numbers from 0 up to [n], one after the other,
    says of each of them. *)
Lemma checked (P : Z -> bool) (n : N) (x : Z) :
  fst (N.iter n (fun s => (fst s && P (snd s), snd s + 1)) (true, 0)) = true ->
  0 <= x < Z.of_N n -> P x = true.
Proof.
  set (step := fun s : bool * Z => (fst s && P (snd s), snd s + 1)).
  assert (Hiter : forall k,
    snd (N.iter k step (true, 0)) = Z.of_N k /\
    (fst (N.iter k step (true, 0)) = true ->
     forall y, 0 <= y < Z.of_N k -> P y = true)).
  { induction k as [|k [IHn IHall]] using N.peano_ind; [split; [done|lia]|].
    rewrite N.iter_succ. unfold step at 1 3. cbn [fst snd]. rewrite IHn.
    split; [lia|]. intros Hok y Hy. apply andb_true_iff in Hok as [Hok Hk].
    destruct (decide (y = Z.of_N k)) as [->|Hne]; [done|]. apply IHall; [done|lia]. }
  intros Hok Hx. by apply (proj2 (Hiter n)).
Qed.

(** Numbers padded to one width have that width and compare as numbers. *)
Lemma pad_order (w : nat) (limit : N) :
  fst (N.iter limit
         (fun s => (fst s && ((length (Js.pad w (snd s)) =? w)%nat
                              && ((snd s + 1 =? Z.of_N limit)
                                  || Js.lessThan (Js.pad w (snd s))
                                       (Js.pad w (snd s + 1)))),
                    snd s + 1))
         (true, 0)) = true ->
  forall x y, 0 <= x -> x <= y -> y < Z.of_N limit ->
    length (Js.pad w x) = w /\
    (x < y -> Js.lessThan (Js.pad w x) (Js.pad w y) = true).
Proof.
  intros Hall x y Hx Hxy Hy.
  assert (Hone : forall n, 0 <= n < Z.of_N limit ->
    length (Js.pad w n) = w /\
    (n + 1 < Z.of_N limit -> Js.lessThan (Js.pad w n) (Js.pad w (n + 1)) = true)).
  { intros n Hn.
    pose proof (checked (fun n => (length (Js.pad w n) =? w)%nat
                                  && ((n + 1 =? Z.of_N limit)
                                      || Js.lessThan (Js.pad w n) (Js.pad w (n + 1))))
                  limit n Hall Hn) as H. cbv beta in H.
    apply andb_true_iff in H as [H1 H2]. apply Nat.eqb_eq in H1. split; [done|].
    intros Hnext. apply orb_true_iff in H2 as [H2|H2]; [|done].
    apply Z.eqb_eq in H2. lia. }
  split; [apply (Hone x); lia|].
  intros Hlt. apply (chain (fun a b => Js.lessThan a b = true) (Js.pad w) 0
                       (Z.of_N limit)); try lia.
  - apply lessThan_trans.
  - intros n Hn Hn'. apply (Hone n); lia.
Qed.

Lemma pad2_order (x y : Z) :
  0 <= x -> x <= y -> y < 100 ->
  length (Js.pad 2 x) = 2%nat /\
  (x < y -> Js.lessThan (Js.pad 2 x) (Js.pad 2 y) = true).
Proof. apply (pad_order 2 100). vm_compute. reflexivity. Qed.

Lemma pad3_order (x y : Z) :
  0 <= x -> x <= y -> y < 1000 ->
  length (Js.pad 3 x) = 3%nat /\
  (x < y -> Js.lessThan (Js.pad 3 x) (Js.pad 3 y) = true).
Proof. apply (pad_order 3 1000). vm_compute. reflexivity. Qed.

Lemma pad4_order (x y : Z) :
  0 <= x -> x <= y -> y < 10000 ->
  length (Js.pad 4 x) = 4%nat /\
  (x < y -> Js.lessThan (Js.pad 4 x) (Js.pad 4 y) = true).
Proof. apply (pad_order 4 10000). vm_compute. reflexivity. Qed.


(** The time of day: hours, minutes, seconds and milliseconds. *)
Lemma time_of_day_order (a b : Z) :
  0 <= a -> a < b -> b < 86400000 ->
  Js.lessThan
    (Js.pad 2 (a / 3600000) ++ Js.lit ":" ++ Js.pad 2 (a / 60000 mod 60) ++ Js.lit ":"
     ++ Js.pad 2 (a / 1000 mod 60) ++ Js.lit "." ++ Js.pad 3 (a mod 1000) ++ Js.lit "Z")
    (Js.pad 2 (b / 3600000) ++ Js.lit ":" ++ Js.pad 2 (b / 60000 mod 60) ++ Js.lit ":"
     ++ Js.pad 2 (b / 1000 mod 60) ++ Js.lit "." ++ Js.pad 3 (b mod 1000) ++ Js.lit "Z")
  = true.
Proof.
  intros Ha Hab Hb.
  assert (Hh : 0 <= a / 3600000 <= b / 3600000 /\ b / 3600000 < 100).
  { Z.div_mod_to_equations. lia. }
  assert (Hm : 0 <= a / 60000 mod 60 < 60 /\ 0 <= b / 60000 mod 60 < 60).
  { Z.div_mod_to_equations. lia. }
  assert (Hs : 0 <= a / 1000 mod 60 < 60 /\ 0 <= b / 1000 mod 60 < 60).
  { Z.div_mod_to_equations. lia. }
  assert (Hms : 0 <= a mod 1000 < 1000 /\ 0 <= b mod 1000 < 1000).
  { Z.div_mod_to_equations. lia. }
  destruct (decide (a / 3600000 = b / 3600000)) as [Hh'|Hh'].
  2:{ apply lessThan_field; [|apply pad2_order; lia].
      destruct (pad2_order (a / 3600000) (a / 3600000)) as [-> _]; try lia.
      by destruct (pad2_order (b / 3600000) (b / 3600000)) as [-> _]; try lia. }
  rewrite Hh', lessThan_after, (lessThan_after (Js.lit ":")).
  assert (Hmm : a / 60000 mod 60 <= b / 60000 mod 60).
  { Z.div_mod_to_equations. lia. }
  destruct (decide (a / 60000 mod 60 = b / 60000 mod 60)) as [Hm'|Hm'].
  2:{ apply lessThan_field; [|apply pad2_order; lia].
      destruct (pad2_order (a / 60000 mod 60) (a / 60000 mod 60)) as [-> _]; try lia.
      by destruct (pad2_order (b / 60000 mod 60) (b / 60000 mod 60)) as [-> _];
        try lia. }
  rewrite Hm', lessThan_after, (lessThan_after (Js.lit ":")).
  assert (Hss : a / 1000 mod 60 <= b / 1000 mod 60).
  { Z.div_mod_to_equations. lia. }
  destruct (decide (a / 1000 mod 60 = b / 1000 mod 60)) as [Hs'|Hs'].
  2:{ apply lessThan_field; [|apply pad2_order; lia].
      destruct (pad2_order (a / 1000 mod 60) (a / 1000 mod 60)) as [-> _]; try lia.
      by destruct (pad2_order (b / 1000 mod 60) (b / 1000 mod 60)) as [-> _];
        try lia. }
  rewrite Hs', lessThan_after, (lessThan_after (Js.lit ".")).
  assert (Hlast : a mod 1000 < b mod 1000).
  { Z.div_mod_to_equations. lia. }
  apply lessThan_field; [|apply pad3_order; lia].
  destruct (pad3_order (a mod 1000) (a mod 1000)) as [-> _]; try lia.
  by destruct (pad3_order (b mod 1000) (b mod 1000)) as [-> _]; try lia.
Qed.


(** The date of a day, through the day of its era of 400 years, the year of
    the era and the day of the year, which starts in March. *)
Lemma civil_from_days_spec (days : Z) :
  0 <= days <= 2932896 ->
  exists era yoe doy mp : Z,
    Js.civil_from_days days =
      (yoe + era * 400 + (if mp <? 10 then 0 else 1),
       if mp <? 10 then mp + 3 else mp - 9,
       doy - (153 * mp + 2) / 5 + 1) /\
    days + 719468 = era * 146097 + (365 * yoe + yoe / 4 - yoe / 100) + doy /\
    4 <= era <= 24 /\ 0 <= yoe <= 399 /\ 0 <= doy <= 365 /\
    mp = (5 * doy + 2) / 153 /\
    (era = 24 -> yoe = 399 -> doy < 306).
Proof.
  intros Hdays.
  exists ((days + 719468) / 146097).
  set (era := (days + 719468) / 146097).
  set (doe := days + 719468 - era * 146097).
  exists ((doe - doe / 1460 + doe / 36524 - doe / 146096) / 365).
  set (yoe := (doe - doe / 1460 + doe / 36524 - doe / 146096) / 365).
  exists (doe - (365 * yoe + yoe / 4 - yoe / 100)).
  set (doy := doe - (365 * yoe + yoe / 4 - yoe / 100)).
  exists ((5 * doy + 2) / 153).
  assert (Hdoe : 0 <= doe < 146097 /\ 4 <= era <= 24 /\ (era = 24 -> doe <= 146036)).
  { subst doe era. Z.div_mod_to_equations. lia. }
  assert (Hyoe : 0 <= yoe <= 399 /\ 0 <= doy <= 365).
  { subst doy yoe. Z.div_mod_to_equations. lia. }
  split.
  { unfold Js.civil_from_days. cbv zeta. fold era. fold doe. fold yoe. fold doy.
    set (mp := (5 * doy + 2) / 153).
    assert (Hmp : 0 <= mp <= 11) by (subst mp; Z.div_mod_to_equations; lia).
    destruct (Z.ltb_spec mp 10).
    - destruct (Z.leb_spec (mp + 3) 2); [lia|]. by rewrite Z.add_0_r.
    - by destruct (Z.leb_spec (mp - 9) 2); [|lia]. }
  repeat split; try lia.
  intros Hera Hy. subst doy. Z.div_mod_to_equations. lia.
Qed.

(** A later day has a later date; the days from the epoch to the end of the
    year 9999 have dates with a year of four digits. *)
Lemma civil_from_days_order (a b : Z) :
  0 <= a -> a <= b -> b <= 2932896 ->
  Calendar.four_digits (Js.civil_from_days a) /\
  (a < b -> Calendar.before (Js.civil_from_days a) (Js.civil_from_days b)).
Proof.
  intros Ha Hab Hb.
  destruct (civil_from_days_spec a) as (era & yoe & doy & mp & -> & Hsum & He & Hy & Hd & Hmp & Hlast);
    [lia|].
  destruct (civil_from_days_spec b) as (era' & yoe' & doy' & mp' & -> & Hsum' & He' & Hy' & Hd' & Hmp' & Hlast');
    [lia|].
  unfold Calendar.four_digits, Calendar.before.
  assert (Hm : 0 <= mp <= 11 /\ 1 <= doy - (153 * mp + 2) / 5 + 1 <= 31).
  { subst mp. Z.div_mod_to_equations. lia. }
  split.
  { destruct (Z.ltb_spec mp 10); [lia|].
    assert (306 <= doy) by (subst mp; Z.div_mod_to_equations; lia). lia. }
  intros Hlt.
  assert (Hm' : 0 <= mp' <= 11) by (subst mp'; Z.div_mod_to_equations; lia).
  assert (Horder : era < era' \/ era = era' /\ (yoe < yoe' \/ yoe = yoe' /\ doy < doy')).
  { Z.div_mod_to_equations. lia. }
  assert (Hmonth : yoe = yoe' -> era = era' -> doy < doy' ->
            mp < mp' \/ mp = mp' /\ doy - (153 * mp + 2) / 5 < doy' - (153 * mp' + 2) / 5).
  { intros. subst mp mp'. Z.div_mod_to_equations. lia. }
  destruct (Z.ltb_spec mp 10), (Z.ltb_spec mp' 10); lia.
Qed.

(** From the epoch to the end of the year 9999 the timestamps compare, as
    texts, in the order of their instants. *)
Lemma toISOString_increasing (t1 t2 : Z) :
  0 <= t1 -> t1 < t2 -> t2 < 253402300800000 ->
  Js.lessThan (Js.toISOString t1) (Js.toISOString t2) = true.
Proof.
  intros H1 H12 H2. unfold Js.toISOString.
  assert (Hdays : 0 <= t1 / 86400000 <= t2 / 86400000 /\ t2 / 86400000 <= 2932896).
  { Z.div_mod_to_equations. lia. }
  assert (Hms : 0 <= t1 mod 86400000 < 86400000 /\ 0 <= t2 mod 86400000 < 86400000).
  { Z.div_mod_to_equations. lia. }
  destruct (civil_from_days_order (t1 / 86400000) (t2 / 86400000)) as [Ha Hlt];
    [lia..|].
  destruct (civil_from_days_order (t2 / 86400000) (t2 / 86400000)) as [Hb _];
    [lia..|].
  destruct (decide (t1 / 86400000 = t2 / 86400000)) as [Heq|Hne].
  { rewrite Heq. destruct (Js.civil_from_days (t2 / 86400000)) as [[y m] d].
    rewrite lessThan_after, (lessThan_after (Js.lit "-")), lessThan_after,
      (lessThan_after (Js.lit "-")), lessThan_after, (lessThan_after (Js.lit "T")).
    apply time_of_day_order; [lia| |lia]. Z.div_mod_to_equations. lia. }
  specialize (Hlt ltac:(lia)).
  destruct (Js.civil_from_days (t1 / 86400000)) as [[y m] d].
  destruct (Js.civil_from_days (t2 / 86400000)) as [[y' m'] d'].
  unfold Calendar.four_digits, Calendar.before in *.
  destruct Ha as (Hy & Hm & Hd), Hb as (Hy' & Hm' & Hd').
  replace ((0 <=? y) && (y <=? 9999)) with true by (symmetry; apply andb_true_iff; lia).
  replace ((0 <=? y') && (y' <=? 9999)) with true by (symmetry; apply andb_true_iff; lia).
  destruct (decide (y = y')) as [<-|Hy''].
  2:{ apply lessThan_field; [|apply pad4_order; lia].
      destruct (pad4_order y y) as [-> _]; try lia.
      by destruct (pad4_order y' y') as [-> _]; try lia. }
  rewrite lessThan_after, (lessThan_after (Js.lit "-")).
  destruct (decide (m = m')) as [<-|Hm''].
  2:{ apply lessThan_field; [|apply pad2_order; lia].
      destruct (pad2_order m m) as [-> _]; try lia.
      by destruct (pad2_order m' m') as [-> _]; try lia. }
  rewrite lessThan_after, (lessThan_after (Js.lit "-")).
  apply lessThan_field; [|apply pad2_order; lia].
  destruct (pad2_order d d) as [-> _]; try lia.
  by destruct (pad2_order d' d') as [-> _]; try lia.
Qed.

(** In that range a timestamp is before another, as a text, exactly when
    its instant is. *)
Lemma toISOString_order (t1 t2 : Z) :
  0 <= t1 < 253402300800000 -> 0 <= t2 < 253402300800000 ->
  Js.lessThan (Js.toISOString t1) (Js.toISOString t2) = true <-> t1 < t2.
Proof.
  intros H1 H2. split; [|intros; apply toISOString_increasing; lia].
  intros Hlt. destruct (Z.lt_trichotomy t1 t2) as [?|[->|Hgt]]; [done| |].
  - by rewrite lessThan_irrefl in Hlt.
  - rewrite (lessThan_asym (Js.toISOString t2) (Js.toISOString t1)) in Hlt;
      [done|apply toISOString_increasing; lia].
Qed.

End TimeFacts.

(** *** The sync and upload store *)

Section ServerFacts.
Import Json Server.
Variable Buffer_from_base64 : jsstring -> list N.

(** **** Paths *)

Lemma split_acc_whole (sep : N) (cur s : jsstring) :
  sep ∉ s -> Js.split_acc sep cur s = [rev cur ++ s].
Proof.
  revert cur. induction s as [|c s IH]; intros cur Hsep; simpl.
  - by rewrite app_nil_r.
  - apply not_elem_of_cons in Hsep as [Hc Hs].
    rewrite (proj2 (N.eqb_neq c sep)) by congruence.
    rewrite IH by done. simpl. by rewrite <- app_assoc.
Qed.

(** A name without a slash that is neither empty nor [.] nor [..] names a
    file of the directory itself. *)
Lemma path_join_child (dir : path) (name : jsstring) :
  47%N ∉ name -> name <> [] -> name <> Js.lit "." -> name <> Js.lit ".." ->
  path_join dir name = dir ++ [name].
Proof.
  intros Hslash Hempty Hdot Hdots. unfold path_join, Js.split.
  rewrite split_acc_whole by done. simpl. unfold walk.
  by rewrite !bool_decide_eq_false_2.
Qed.

(** Side conditions on a name given by a literal. *)
Ltac literal_name :=
  first [ apply (bool_decide_unpack _); by vm_compute
        | let H := fresh in intros H; vm_compute in H; discriminate H ].

Lemma syncFile_path (cfg : Config) :
  syncFile cfg = cwd cfg ++ [Js.lit "server"; Js.lit "data"; Js.lit "sync.json"].
Proof.
  unfold syncFile, dataDir.
  rewrite !path_join_child by literal_name.
  by rewrite <- !app_assoc.
Qed.

Lemma uploadsDir_path (cfg : Config) :
  uploadsDir cfg = cwd cfg ++ [Js.lit "server"; Js.lit "uploads"].
Proof.
  unfold uploadsDir.
  rewrite !path_join_child by literal_name.
  by rewrite <- !app_assoc.
Qed.

(** **** The stamped document *)

Lemma stamp_object (members : list (jsstring * json)) (t : Z) :
  well_formed (JObj members) = true ->
  stamp (JObj members) t =
    JObj (obj_set (Js.lit "updatedAt") (JStr (Js.toISOString t)) members) /\
  well_formed (stamp (JObj members) t) = true.
Proof.
  intros Hwf. unfold stamp. cbn [own_properties].
  rewrite build_object_ordered
    by (cbn [well_formed] in Hwf; by apply andb_true_iff in Hwf as [? _]).
  split; [done|]. by apply obj_set_well_formed.
Qed.

(** **** The routes *)

Lemma startsWith_spec (p s : jsstring) :
  Js.startsWith p s = true <-> exists t, s = p ++ t.
Proof.
  revert s. induction p as [|a p IH]; intros s; simpl.
  - split; [|done]. intros _. by exists s.
  - destruct s as [|b s].
    + split; [done|]. by intros (t & Ht).
    + rewrite andb_true_iff, N.eqb_eq, IH. split.
      * intros (-> & t & ->). by exists t.
      * intros (t & [= -> ->]). eauto.
Qed.

Lemma slice_to_end {A} (xs : list A) (k : nat) :
  (k <= length xs)%nat ->
  Js.slice (Z.of_nat k) (Z.of_nat (length xs)) xs = drop k xs.
Proof.
  intros Hk. unfold Js.slice, Js.clamp_index.
  destruct (Z.ltb_spec (Z.of_nat k) 0); [lia|].
  destruct (Z.ltb_spec (Z.of_nat (length xs)) 0); [lia|].
  rewrite !Z.min_l, Nat2Z.id by lia.
  apply take_ge. rewrite length_drop. lia.
Qed.

(** The token of a request: what follows [Bearer ] in the Authorization
    header when the header starts so, the [x-sync-token] header otherwise. *)
Lemma getAuthToken_spec (req : Request) :
  getAuthToken req =
    match authorization req with
    | Some header =>
        if Js.startsWith (Js.lit "Bearer ") header then Some (drop 7 header)
        else x_sync_token req
    | None => x_sync_token req
    end.
Proof.
  unfold getAuthToken. destruct (authorization req) as [[|c header]|]; try done.
  cbn [Js.or_else Js.truthy Js.nullish].
  destruct (Js.startsWith _ _) eqn:Hstart; [|done].
  apply startsWith_spec in Hstart as (t & Ht). rewrite Ht.
  by rewrite (slice_to_end _ 7) by (rewrite length_app; simpl; lia).
Qed.

Lemma requireSyncAuth_open (cfg : Config) (req : Request) :
  Js.truthy (syncToken cfg) = false -> requireSyncAuth cfg req = true.
Proof. unfold requireSyncAuth. by intros ->. Qed.

Lemma requireSyncAuth_spec (cfg : Config) (req : Request) (secret : jsstring) :
  syncToken cfg = Some secret -> secret <> [] ->
  requireSyncAuth cfg req = bool_decide (getAuthToken req = Some secret).
Proof.
  intros Hcfg Hsecret. unfold requireSyncAuth. rewrite Hcfg.
  destruct secret as [|c secret]; [done|]. simpl.
  by destruct (getAuthToken req) as [[|c' token]|].
Qed.

(** C6. With a secret configured, a request that carries it neither as
    [Authorization: Bearer] nor as [x-sync-token] is answered 401 by each of
    the three gated routes and the disk is left as it was; a request with the
    right bearer token reaches the handler. Without a secret every request
    reaches the handler. *)
Theorem requireSyncAuth_gate (cfg : Config) (route : Route) (req : Request)
    (env : Env) (d : Disk) :
  (forall secret,
     syncToken cfg = Some secret -> secret <> [] ->
     (authorization req <> Some (Js.lit "Bearer " ++ secret) ->
      x_sync_token req <> Some secret ->
      serve Buffer_from_base64 cfg route req env d = (unauthorized, d)
      /\ status unauthorized = 401) /\
     (authorization req = Some (Js.lit "Bearer " ++ secret) ->
      serve Buffer_from_base64 cfg route req env d
      = handler Buffer_from_base64 route cfg req env d)) /\
  (syncToken cfg = None \/ syncToken cfg = Some [] ->
   serve Buffer_from_base64 cfg route req env d
   = handler Buffer_from_base64 route cfg req env d).
Proof.
  split.
  - intros secret Hcfg Hsecret. unfold serve.
    rewrite (requireSyncAuth_spec _ _ _ Hcfg Hsecret), getAuthToken_spec. split.
    + intros Hauth Hheader. split; [|done].
      rewrite bool_decide_eq_false_2; [done|].
      destruct (authorization req) as [header|]; [|done].
      destruct (Js.startsWith _ _) eqn:Hstart; [|done].
      apply startsWith_spec in Hstart as (t & ->).
      rewrite (drop_app_length (Js.lit "Bearer ")). congruence.
    + intros ->.
      replace (Js.startsWith (Js.lit "Bearer ") (Js.lit "Bearer " ++ secret))
        with true by (symmetry; apply startsWith_spec; by eexists).
      rewrite (drop_app_length (Js.lit "Bearer ")).
      by rewrite bool_decide_eq_true_2.
  - intros Hcfg. unfold serve. rewrite requireSyncAuth_open; [done|].
    by destruct Hcfg as [-> | ->].
Qed.

Lemma postSync_object (cfg : Config) (req : Request) (env : Env) (d : Disk)
    (members : list (jsstring * json)) :
  body req = Some (JObj members) ->
  postSync cfg req env d =
    match disk_write env with
    | WriteOk =>
        (json_response 200
           [prop "ok" (Some (JBool true));
            prop "updatedAt" (Some (JStr (Js.toISOString (now env))))],
         <[syncFile cfg := JSON_stringify (stamp (JObj members) (now env))]> d)
    | WriteFailsAtOpen =>
        (json_response 500
           [prop "error" (Some (JStr (Js.lit "Failed to write sync data")))], d)
    | WriteFailsAfter n =>
        (json_response 500
           [prop "error" (Some (JStr (Js.lit "Failed to write sync data")))],
         <[syncFile cfg := take n (JSON_stringify (stamp (JObj members) (now env)))]> d)
    end.
Proof.
  intros Hbody. unfold postSync, writeSyncData, writeFileSync. rewrite Hbody.
  cbn [truthy typeof_object negb orb default].
  destruct (disk_write env); try reflexivity.
  change (id (JObj members)) with (JObj members).
  unfold stamp at 1. cbn [get]. rewrite obj_get_set by done.
  by rewrite decide_True.
Qed.

Lemma getSync_after_write (cfg : Config) (req : Request) (env : Env) (d : Disk)
    (doc : json) :
  well_formed doc = true ->
  typeof_object (Some doc) && truthy (Some doc) = true ->
  read_fails env = false ->
  getSync cfg req env (<[syncFile cfg := JSON_stringify doc]> d)
  = ({| status := 200; payload := doc |},
     <[syncFile cfg := JSON_stringify doc]> d).
Proof.
  intros Hwf Hobj Hread. unfold getSync, readSyncData.
  rewrite lookup_insert_eq, Hread, JSON_parse_stringify by done.
  by rewrite Hobj.
Qed.

(** C3, as the code has it. After two accepted writes of objects [A] then
    [B] (well formed, as every parsed body is: [JSON_parse_well_formed]), a
    read returns [B]'s members with [updatedAt] set to the rendering of the
    server's clock at the write of [B], whatever [updatedAt] the body of [B]
    held; each write answers the rendering of the clock at its own time. The
    timestamps are those of the clock, to the millisecond: when the clock
    reads the same at both writes, the second timestamp is the first one;
    for clock readings from the epoch to the end of the year 9999 the
    timestamp of [B] is later than that of [A], the two compared as texts,
    exactly when the clock has advanced between the two writes. *)
Theorem sync_last_write_wins (cfg : Config) (reqA reqB reqG : Request)
    (envA envB envG : Env) (a b : list (jsstring * json)) (d0 : Disk) :
  requireSyncAuth cfg reqA = true ->
  requireSyncAuth cfg reqB = true ->
  requireSyncAuth cfg reqG = true ->
  body reqA = Some (JObj a) -> well_formed (JObj a) = true ->
  body reqB = Some (JObj b) -> well_formed (JObj b) = true ->
  disk_write envA = WriteOk -> disk_write envB = WriteOk ->
  read_fails envG = false ->
  let writeA := serve Buffer_from_base64 cfg POST_api_sync reqA envA d0 in
  let writeB := serve Buffer_from_base64 cfg POST_api_sync reqB envB (snd writeA) in
  let read := serve Buffer_from_base64 cfg GET_api_sync reqG envG (snd writeB) in
  let stored :=
    obj_set (Js.lit "updatedAt") (JStr (Js.toISOString (now envB))) b in
  fst read = {| status := 200; payload := JObj stored |} /\
  obj_get (Js.lit "updatedAt") stored = Some (JStr (Js.toISOString (now envB))) /\
  (forall k, k <> Js.lit "updatedAt" -> obj_get k stored = obj_get k b) /\
  fst writeA =
    json_response 200
      [prop "ok" (Some (JBool true));
       prop "updatedAt" (Some (JStr (Js.toISOString (now envA))))] /\
  fst writeB =
    json_response 200
      [prop "ok" (Some (JBool true));
       prop "updatedAt" (Some (JStr (Js.toISOString (now envB))))] /\
  (now envA = now envB -> fst writeB = fst writeA) /\
  (0 <= now envA < 253402300800000 -> 0 <= now envB < 253402300800000 ->
   Js.lessThan (Js.toISOString (now envA)) (Js.toISOString (now envB)) = true
   <-> now envA < now envB).
Proof.
  intros HauthA HauthB HauthG HbodyA HwfA HbodyB HwfB HwriteA HwriteB Hread.
  unfold serve. rewrite HauthA, HauthB, HauthG. cbn [handler].
  rewrite (postSync_object _ _ _ _ _ HbodyA), HwriteA. cbn [fst snd].
  rewrite (postSync_object _ _ _ _ _ HbodyB), HwriteB. cbn [fst snd].
  destruct (stamp_object b (now envB) HwfB) as [Hstamp Hwf].
  rewrite getSync_after_write by (done || by rewrite Hstamp).
  cbn [fst]. rewrite Hstamp. split; [done|].
  split; [by rewrite obj_get_set, decide_True|].
  split; [intros k Hk; by rewrite obj_get_set, decide_False|].
  split; [done|]. split; [done|]. split; [by intros ->|].
  apply toISOString_order.
Qed.

(** C5, as the code has it. A body that is absent, [null], a boolean, a
    number or a string is answered 400 and nothing is written. For a body
    that is a JSON object the stamped document is written and the answer is
    [{ok: true, updatedAt}] when the write succeeds; when the write fails the
    answer is 500. A body that is a JSON array is not a JSON object, yet it
    is not answered 400: the test [typeof req.body !== 'object'] of the
    handler lets it through, and it is stamped and written as an object
    is. *)
Theorem postSync_payload_check (cfg : Config) (req : Request) (env : Env)
    (d : Disk) :
  requireSyncAuth cfg req = true ->
  match body req with
  | Some (JObj members) =>
      (disk_write env = WriteOk ->
       serve Buffer_from_base64 cfg POST_api_sync req env d =
         (json_response 200
            [prop "ok" (Some (JBool true));
             prop "updatedAt" (Some (JStr (Js.toISOString (now env))))],
          <[syncFile cfg := JSON_stringify (stamp (JObj members) (now env))]> d)) /\
      (disk_write env <> WriteOk ->
       status (fst (serve Buffer_from_base64 cfg POST_api_sync req env d)) = 500)
  | Some (JArr items) =>
      status (fst (serve Buffer_from_base64 cfg POST_api_sync req env d)) <> 400 /\
      (disk_write env = WriteOk ->
       serve Buffer_from_base64 cfg POST_api_sync req env d =
         (json_response 200
            [prop "ok" (Some (JBool true));
             prop "updatedAt" (Some (JStr (Js.toISOString (now env))))],
          <[syncFile cfg := JSON_stringify (stamp (JArr items) (now env))]> d))
  | _ =>
      serve Buffer_from_base64 cfg POST_api_sync req env d =
        (json_response 400 [prop "error" (Some (JStr (Js.lit "Invalid payload")))],
         d)
  end.
Proof.
  intros Hauth. unfold serve. rewrite Hauth. cbn [handler].
  destruct (body req) as [[| | | |items|members]|] eqn:Hbody;
    try (unfold postSync; rewrite Hbody; cbn [typeof_object negb];
         by rewrite ?orb_true_r).
  - assert (Hpost : postSync cfg req env d =
      match disk_write env with
      | WriteOk =>
          (json_response 200
             [prop "ok" (Some (JBool true));
              prop "updatedAt" (Some (JStr (Js.toISOString (now env))))],
           <[syncFile cfg := JSON_stringify (stamp (JArr items) (now env))]> d)
      | WriteFailsAtOpen =>
          (json_response 500
             [prop "error" (Some (JStr (Js.lit "Failed to write sync data")))], d)
      | WriteFailsAfter n =>
          (json_response 500
             [prop "error" (Some (JStr (Js.lit "Failed to write sync data")))],
           <[syncFile cfg := take n (JSON_stringify (stamp (JArr items) (now env)))]> d)
      end).
    { unfold postSync, writeSyncData, writeFileSync. rewrite Hbody.
      cbn [truthy typeof_object negb orb default].
      destruct (disk_write env); try reflexivity.
      change (id (JArr items)) with (JArr items).
      unfold stamp at 1. cbn [get]. rewrite obj_get_set by done.
      by rewrite decide_True. }
    rewrite Hpost. split; [by destruct (disk_write env)|by intros ->].
  - rewrite (postSync_object _ _ _ _ _ Hbody).
    split; [by intros ->|]. by destruct (disk_write env).
Qed.

(** C4, as the code has it. A write that fails while [POST /api/sync] is
    handled is answered 500, and when it failed before the file was opened
    the disk is as it was. A read never changes the disk and is always
    answered 200: when the file is missing, cannot be read or does not parse,
    the answer is the placeholder [{updatedAt: null}]. *)
Theorem sync_persistence_failures (cfg : Config) (req : Request) (env : Env)
    (d : Disk) :
  requireSyncAuth cfg req = true ->
  (forall members,
     body req = Some (JObj members) ->
     disk_write env <> WriteOk ->
     status (fst (serve Buffer_from_base64 cfg POST_api_sync req env d)) = 500 /\
     (disk_write env = WriteFailsAtOpen ->
      snd (serve Buffer_from_base64 cfg POST_api_sync req env d) = d)) /\
  snd (serve Buffer_from_base64 cfg GET_api_sync req env d) = d /\
  status (fst (serve Buffer_from_base64 cfg GET_api_sync req env d)) = 200 /\
  (d !! syncFile cfg = None \/ read_fails env = true
   \/ (exists raw, d !! syncFile cfg = Some raw /\ JSON_parse raw = None) ->
   payload (fst (serve Buffer_from_base64 cfg GET_api_sync req env d))
   = placeholder).
Proof.
  intros Hauth. unfold serve. rewrite Hauth. cbn [handler]. split.
  - intros members Hbody Hfail. rewrite (postSync_object _ _ _ _ _ Hbody).
    split; [by destruct (disk_write env)|]. by intros ->.
  - split; [done|]. split; [done|]. cbn [getSync fst payload]. unfold readSyncData.
    intros [-> |[Hread|(raw & -> & Hparse)]]; [done| |].
    + rewrite Hread. by destruct (d !! syncFile cfg).
    + rewrite Hparse. by destruct (read_fails env).
Qed.

(** **** Upload names *)

Lemma lit_inj (s s' : string) : Js.lit s = Js.lit s' -> s = s'.
Proof.
  unfold Js.lit. intros H.
  rewrite <- (string_of_list_ascii_of_string s),
          <- (string_of_list_ascii_of_string s'). f_equal.
  revert H. generalize (list_ascii_of_string s) (list_ascii_of_string s').
  induction l as [|a l IH]; intros [|a' l']; simpl; try done.
  intros [= Ha Hl]. f_equal; [|by apply IH].
  by rewrite <- (ascii_N_embedding a), <- (ascii_N_embedding a'), Ha.
Qed.

Lemma uint_digits (d : Decimal.uint) :
  Forall (fun c => is_digit c = true) (Js.lit (NilEmpty.string_of_uint d)).
Proof. induction d; simpl; by constructor. Qed.

(** The decimal rendering of an integer: an optional minus sign, then one
    digit or more. *)
Lemma of_Z_digits (t : Z) :
  exists sign ds,
    Js.of_Z t = sign ++ ds /\ (sign = [] \/ sign = [45%N]) /\
    ds <> [] /\ Forall (fun c => is_digit c = true) ds /\
    (sign = [] <-> 0 <= t).
Proof.
  assert (Hne : forall p, Js.lit (NilEmpty.string_of_uint (Pos.to_uint p)) <> []).
  { intros p H. apply (lit_inj _ "") in H.
    pose proof (NilEmpty.usu (Pos.to_uint p)) as Hu. rewrite H in Hu.
    simpl in Hu. injection Hu as Hu. symmetry in Hu.
    by apply Unsigned.to_uint_nonnil in Hu. }
  destruct t as [|p|p]; cbn [Js.of_Z].
  - exists [], (Js.lit "0").
    split_and!; try done; try (by left); try (by repeat constructor).
  - exists [], (Js.lit (NilEmpty.string_of_uint (Pos.to_uint p))).
    split_and!; try done; try (by left); try apply uint_digits.
  - exists [45%N], (Js.lit (NilEmpty.string_of_uint (Pos.to_uint p))).
    split_and!; try done; try (by right); try apply uint_digits.
Qed.

Lemma of_Z_inj (t t' : Z) : Js.of_Z t = Js.of_Z t' -> t = t'.
Proof.
  assert (Hpos : forall p q,
    Js.lit (NilEmpty.string_of_uint (Pos.to_uint p))
    = Js.lit (NilEmpty.string_of_uint (Pos.to_uint q)) -> p = q).
  { intros p q H. apply lit_inj in H. apply Unsigned.to_uint_inj.
    pose proof (NilEmpty.usu (Pos.to_uint p)) as Hp.
    pose proof (NilEmpty.usu (Pos.to_uint q)) as Hq. congruence. }
  assert (Hdigit : forall p, exists c ds,
    Js.lit (NilEmpty.string_of_uint (Pos.to_uint p)) = c :: ds
    /\ is_digit c = true).
  { intros p. destruct (of_Z_digits (Z.pos p)) as (sign & ds & Heq & _ & Hne & Hall & Hsign).
    assert (sign = []) as -> by (apply Hsign; lia). cbn [Js.of_Z app] in Heq.
    destruct ds as [|c ds]; [done|]. apply Forall_cons in Hall as [Hc _].
    by exists c, ds. }
  assert (Hzero : forall p, Js.lit (NilEmpty.string_of_uint (Pos.to_uint p)) <> Js.lit "0").
  { intros p H. apply lit_inj in H.
    pose proof (NilEmpty.usu (Pos.to_uint p)) as Hp. rewrite H in Hp.
    simpl in Hp. injection Hp as Hp. symmetry in Hp.
    by apply Unsigned.to_uint_nonzero in Hp. }
  destruct t as [|p|p], t' as [|q|q]; cbn [Js.of_Z]; intros H; try done.
  - by apply symmetry, Hzero in H.
  - by apply Hzero in H.
  - by rewrite (Hpos _ _ H).
  - destruct (Hdigit p) as (c & ds & Hp & Hc). rewrite Hp in H.
    injection H as -> _. by vm_compute in Hc.
  - destruct (Hdigit q) as (c & ds & Hq & Hc). rewrite Hq in H.
    injection H as <- _. by vm_compute in Hc.
  - injection H as H. by rewrite (Hpos _ _ H).
Qed.

(** Two runs of digits, each followed by a hyphen, that start equal texts
    are the same run. *)
Lemma digits_then_hyphen (ds ds' r r' : jsstring) :
  Forall (fun c => is_digit c = true) ds ->
  Forall (fun c => is_digit c = true) ds' ->
  ds ++ 45%N :: r = ds' ++ 45%N :: r' -> ds = ds' /\ r = r'.
Proof.
  intros Hds. revert ds'. induction Hds as [|c ds Hc Hds IH]; intros ds' Hds' Heq.
  - destruct Hds' as [|c' ds' Hc' _]; simpl in Heq; [by injection Heq|].
    injection Heq as <- _. by vm_compute in Hc'.
  - destruct Hds' as [|c' ds' Hc' Hds']; simpl in Heq.
    + injection Heq as -> _. by vm_compute in Hc.
    + injection Heq as -> Heq. destruct (IH _ Hds' Heq) as [-> ->]. done.
Qed.

Lemma sanitize_safe (s : jsstring) :
  Forall (fun c => safe_char c = true) (sanitize s).
Proof.
  unfold sanitize. induction s as [|c s IH]; simpl; constructor; [|done].
  by destruct (safe_char c) eqn:Hc.
Qed.

Lemma safeBase_safe (fileName : json) (base : jsstring) :
  safeBase fileName = Some base ->
  Forall (fun c => safe_char c = true) base /\ base <> [].
Proof.
  unfold safeBase. destruct (to_String fileName) as [text|]; [|done].
  cbn [mbind option_bind]. intros [= <-].
  destruct (sanitize text) as [|c s] eqn:Hs; simpl.
  - split; [by repeat constructor|done].
  - split; [|done]. rewrite <- Hs. apply sanitize_safe.
Qed.

(** The base of the stored name, spelled out. *)
Lemma safeBase_spec (fileName : json) (text : jsstring) :
  to_String fileName = Some text ->
  let replaced := List.map (fun c => if safe_char c then c else 95%N) text in
  safeBase fileName
  = Some (match replaced with [] => Js.lit "upload" | _ => replaced end).
Proof.
  intros Htext. unfold safeBase, sanitize. rewrite Htext. cbn [mbind option_bind].
  by destruct (List.map _ text).
Qed.

Lemma safe_char_not_slash (c : N) : safe_char c = true -> c <> 47%N.
Proof. intros Hc ->. by vm_compute in Hc. Qed.

Lemma digit_not_slash (c : N) : is_digit c = true -> c <> 47%N.
Proof. intros Hc ->. by vm_compute in Hc. Qed.

(** The stored name is the child of the uploads directory that it names. *)
Lemma uniqueName_child (dir : path) (t : Z) (base : jsstring) :
  Forall (fun c => safe_char c = true) base ->
  path_join dir (uniqueName t base) = dir ++ [uniqueName t base].
Proof.
  intros Hsafe. unfold uniqueName.
  destruct (of_Z_digits t) as (sign & ds & -> & Hsign & Hne & Hds & _).
  assert (Hhyphen : 45%N ∈ (sign ++ ds) ++ Js.lit "-" ++ base).
  { apply elem_of_app. right. by left. }
  apply path_join_child.
  - rewrite !not_elem_of_app. split_and!.
    + destruct Hsign as [-> | ->]; [apply not_elem_of_nil|].
      by apply (bool_decide_unpack _).
    + intros Hin. rewrite Forall_forall in Hds. by apply (digit_not_slash _ (Hds _ Hin)).
    + by apply (bool_decide_unpack _).
    + intros Hin. rewrite Forall_forall in Hsafe.
      by apply (safe_char_not_slash _ (Hsafe _ Hin)).
  - intros H. rewrite H in Hhyphen. by apply elem_of_nil in Hhyphen.
  - intros H. rewrite H in Hhyphen. apply (bool_decide_pack _) in Hhyphen.
    by vm_compute in Hhyphen.
  - intros H. rewrite H in Hhyphen. apply (bool_decide_pack _) in Hhyphen.
    by vm_compute in Hhyphen.
Qed.

(** Two stored names are the same exactly when their clock readings and
    their bases are. *)
Lemma uniqueName_eq (t t' : Z) (base base' : jsstring) :
  uniqueName t base = uniqueName t' base' <-> t = t' /\ base = base'.
Proof.
  split; [|by intros [-> ->]].
  unfold uniqueName. intros Heq.
  destruct (of_Z_digits t) as (sign & ds & Ht & Hsign & Hne & Hds & Hpos).
  destruct (of_Z_digits t') as (sign' & ds' & Ht' & Hsign' & Hne' & Hds' & Hpos').
  rewrite Ht, Ht', <- !app_assoc in Heq. cbn [Js.lit List.map list_ascii_of_string app] in Heq.
  change (N_of_ascii "-") with 45%N in Heq.
  assert (Hhead : forall c xs, Forall (fun c => is_digit c = true) (c :: xs) -> c <> 45%N).
  { intros c xs Hall ->. apply Forall_cons in Hall as [Hc _]. by vm_compute in Hc. }
  assert (sign = sign' /\ ds ++ 45%N :: base = ds' ++ 45%N :: base') as [-> Hrest].
  { destruct Hsign as [-> | ->], Hsign' as [-> | ->]; cbn [app] in Heq.
    - done.
    - destruct ds as [|c xs]; [done|]. injection Heq as -> _.
      by destruct (Hhead _ _ Hds).
    - destruct ds' as [|c xs]; [done|]. injection Heq as <- _.
      by destruct (Hhead _ _ Hds').
    - by injection Heq. }
  destruct (digits_then_hyphen _ _ _ _ Hds Hds' Hrest) as [-> Hbase].
  split; [|done]. apply of_Z_inj. by rewrite Ht, Ht'.
Qed.

(** An upload that passes the test of the route, when its file name can be
    printed and the write succeeds. *)
Lemma postUpload_stored (cfg : Config) (req : Request) (env : Env) (d : Disk)
    (members : list (jsstring * json)) (fileName : json) (data base : jsstring) :
  body req = Some (JObj members) ->
  obj_get (Js.lit "fileName") members = Some fileName ->
  truthy (Some fileName) = true ->
  obj_get (Js.lit "data") members = Some (JStr data) ->
  data <> [] ->
  safeBase fileName = Some base ->
  disk_write env = WriteOk ->
  exists bytes,
    snd (postUpload Buffer_from_base64 cfg req env d)
    = <[uploadsDir cfg ++ [uniqueName (now env) base] := bytes]> d /\
    status (fst (postUpload Buffer_from_base64 cfg req env d)) = 200.
Proof.
  intros Hbody Hname Htruthy Hdata Hne Hbase Hwrite. unfold postUpload.
  rewrite Hbody. cbn [get]. rewrite Hname, Hdata, Htruthy.
  destruct data as [|c data]; [done|]. cbn [truthy Js.truthy is_string negb orb default].
  change (id fileName) with fileName. rewrite Hbase.
  rewrite uniqueName_child by (by apply (safeBase_safe fileName)).
  rewrite Hwrite. cbn [writeFileSync]. by eexists.
Qed.

(** An upload that passes the test of the route with a file name that
    cannot be printed: the handler throws before it writes. *)
Lemma postUpload_throws (cfg : Config) (req : Request) (env : Env) (d : Disk)
    (members : list (jsstring * json)) (fileName : json) (data : jsstring) :
  body req = Some (JObj members) ->
  obj_get (Js.lit "fileName") members = Some fileName ->
  truthy (Some fileName) = true ->
  obj_get (Js.lit "data") members = Some (JStr data) ->
  data <> [] ->
  to_String fileName = None ->
  postUpload Buffer_from_base64 cfg req env d = (uncaught, d).
Proof.
  intros Hbody Hname Htruthy Hdata Hne Hthrows. unfold postUpload.
  rewrite Hbody. cbn [get]. rewrite Hname, Hdata, Htruthy.
  destruct data as [|c data]; [done|]. cbn [truthy Js.truthy is_string negb orb default].
  change (id fileName) with fileName. unfold safeBase. by rewrite Hthrows.
Qed.

(** C7, as the code has it. An accepted upload whose file name prints as
    [text] is stored under the clock reading in milliseconds, a hyphen, and
    [text] with every code unit outside [[A-Za-z0-9_.-]] replaced by an
    underscore, [upload] standing in when that leaves nothing; the file is a
    child of the uploads directory. Another upload gets the same stored name
    exactly when it falls in the same millisecond and its name sanitises to
    the same text. *)
Theorem upload_stored_name (cfg : Config) (req : Request) (env : Env) (d : Disk)
    (members : list (jsstring * json)) (fileName : json) (text data : jsstring) :
  requireSyncAuth cfg req = true ->
  body req = Some (JObj members) ->
  obj_get (Js.lit "fileName") members = Some fileName ->
  truthy (Some fileName) = true ->
  to_String fileName = Some text ->
  obj_get (Js.lit "data") members = Some (JStr data) ->
  data <> [] ->
  disk_write env = WriteOk ->
  let replaced := List.map (fun c => if safe_char c then c else 95%N) text in
  let base := match replaced with [] => Js.lit "upload" | _ => replaced end in
  let name := Js.of_Z (now env) ++ Js.lit "-" ++ base in
  (exists bytes,
     snd (serve Buffer_from_base64 cfg POST_api_upload req env d)
     = <[uploadsDir cfg ++ [name] := bytes]> d) /\
  status (fst (serve Buffer_from_base64 cfg POST_api_upload req env d)) = 200 /\
  Forall (fun c => safe_char c = true) base /\
  path_join (uploadsDir cfg) name = uploadsDir cfg ++ [name] /\
  inside (uploadsDir cfg) (path_join (uploadsDir cfg) name) /\
  (forall t' fileName' base',
     safeBase fileName' = Some base' ->
     uniqueName t' base' = name <-> t' = now env /\ base' = base).
Proof.
  intros Hauth Hbody Hname Htruthy Htext Hdata Hne Hwrite replaced base name.
  pose proof (safeBase_spec fileName text Htext) as Hbase.
  cbv zeta in Hbase. fold replaced base in Hbase.
  destruct (safeBase_safe _ _ Hbase) as [Hsafe _].
  change name with (uniqueName (now env) base).
  destruct (postUpload_stored cfg req env d members fileName data base)
    as (bytes & Hdisk & Hstatus); try done.
  split_and!.
  - unfold serve. rewrite Hauth. cbn [handler]. by exists bytes.
  - unfold serve. by rewrite Hauth.
  - done.
  - by apply uniqueName_child.
  - rewrite uniqueName_child by done. by eexists.
  - intros t' fileName' base' _. apply uniqueName_eq.
Qed.

End ServerFacts.

(** Two notes written at clock readings 1000 and 2500, then read: the
    second note, with the later of the two timestamps. *)
Lemma sync_last_write_wins_witness :
  fst (Server.serve Example.raw_bytes Example.open_config Server.GET_api_sync
         (Example.request None) (Example.at_time 3000 Server.WriteOk)
         (snd (Server.serve Example.raw_bytes Example.open_config
                 Server.POST_api_sync (Example.request (Some (Example.note "B")))
                 (Example.at_time 2500 Server.WriteOk)
                 (snd (Server.serve Example.raw_bytes Example.open_config
                         Server.POST_api_sync
                         (Example.request (Some (Example.note "A")))
                         (Example.at_time 1000 Server.WriteOk) ∅)))))
  = {| Server.status := 200;
       Server.payload :=
         Json.JObj [(Js.lit "note", Json.JStr (Js.lit "B"));
                    (Js.lit "updatedAt",
                     Json.JStr (Js.lit "1970-01-01T00:00:02.500Z"))] |} /\
  Js.lessThan (Js.lit "1970-01-01T00:00:01.000Z")
              (Js.lit "1970-01-01T00:00:02.500Z") = true.
Proof.
  pose proof (sync_last_write_wins Example.raw_bytes Example.open_config
                (Example.request (Some (Example.note "A")))
                (Example.request (Some (Example.note "B")))
                (Example.request None)
                (Example.at_time 1000 Server.WriteOk)
                (Example.at_time 2500 Server.WriteOk)
                (Example.at_time 3000 Server.WriteOk)
                _ _ ∅ eq_refl eq_refl eq_refl eq_refl eq_refl eq_refl eq_refl
                eq_refl eq_refl eq_refl) as (Hread & _ & _ & _ & _ & _ & Horder).
  split; [exact Hread|].
  apply (proj2 (Horder ltac:(simpl; lia) ltac:(simpl; lia))). simpl. lia.
Defined.

(** Two writes within one millisecond, each read back: the second timestamp
    is the first one, not a later one. *)
Lemma sync_timestamps_coincide :
  let cfg := Example.open_config in
  let env := Example.at_time 1700000000000 Server.WriteOk in
  let writeA :=
    Server.serve Example.raw_bytes cfg Server.POST_api_sync
      (Example.request (Some (Example.note "A"))) env ∅ in
  let readA :=
    Server.serve Example.raw_bytes cfg Server.GET_api_sync
      (Example.request None) env (snd writeA) in
  let writeB :=
    Server.serve Example.raw_bytes cfg Server.POST_api_sync
      (Example.request (Some (Example.note "B"))) env (snd readA) in
  let readB :=
    Server.serve Example.raw_bytes cfg Server.GET_api_sync
      (Example.request None) env (snd writeB) in
  let stamp := Js.lit "2023-11-14T22:13:20.000Z" in
  fst readA =
    {| Server.status := 200;
       Server.payload :=
         Json.JObj [(Js.lit "note", Json.JStr (Js.lit "A"));
                    (Js.lit "updatedAt", Json.JStr stamp)] |} /\
  fst readB =
    {| Server.status := 200;
       Server.payload :=
         Json.JObj [(Js.lit "note", Json.JStr (Js.lit "B"));
                    (Js.lit "updatedAt", Json.JStr stamp)] |} /\
  Js.lessThan stamp stamp = false.
Proof. vm_compute. repeat split. Qed.

(** A write that cannot open the file: the answer is 500 and the disk is as
    it was; a read of a missing file: the placeholder. *)
Lemma sync_persistence_failures_witness :
  Server.status
    (fst (Server.serve Example.raw_bytes Example.open_config Server.POST_api_sync
            (Example.request (Some (Example.note "A")))
            (Example.at_time 1000 Server.WriteFailsAtOpen) ∅)) = 500 /\
  snd (Server.serve Example.raw_bytes Example.open_config Server.POST_api_sync
         (Example.request (Some (Example.note "A")))
         (Example.at_time 1000 Server.WriteFailsAtOpen) ∅) = ∅.
Proof.
  destruct (proj1 (sync_persistence_failures Example.raw_bytes Example.open_config
                     (Example.request (Some (Example.note "A")))
                     (Example.at_time 1000 Server.WriteFailsAtOpen) ∅ eq_refl)
              _ eq_refl ltac:(discriminate)) as [H500 Hdisk].
  split; [exact H500|exact (Hdisk eq_refl)].
Defined.

(** A sync file that does not parse is answered 200 with the placeholder,
    not 500; and a write that fails after two code units leaves those two
    where the document was. *)
Lemma sync_read_failure_is_not_500 :
  let cfg := Example.open_config in
  let garbled : Server.Disk := {[ Server.syncFile cfg := Js.lit "{not json" ]} in
  let read :=
    Server.serve Example.raw_bytes cfg Server.GET_api_sync (Example.request None)
      (Example.at_time 1000 Server.WriteOk) garbled in
  let written :=
    snd (Server.serve Example.raw_bytes cfg Server.POST_api_sync
           (Example.request (Some (Example.note "A")))
           (Example.at_time 1000 Server.WriteOk) ∅) in
  let failed :=
    Server.serve Example.raw_bytes cfg Server.POST_api_sync
      (Example.request (Some (Example.note "B")))
      (Example.at_time 2000 (Server.WriteFailsAfter 2)) written in
  fst read = {| Server.status := 200; Server.payload := Server.placeholder |} /\
  Server.status (fst failed) = 500 /\
  snd failed !! Server.syncFile cfg = Some [123%N; 10%N] /\
  snd failed <> written.
Proof.
  split; [vm_compute; reflexivity|]. split; [vm_compute; reflexivity|].
  split; [vm_compute; reflexivity|].
  intros H. apply (f_equal (fun d => d !! Server.syncFile Example.open_config)) in H.
  vm_compute in H. discriminate H.
Qed.

(** The array [["a", true]] sent as the body: the answer is
    [{ok: true, updatedAt}], not 400, and the file holds an object with the
    keys [0], [1] and [updatedAt]. *)
Lemma postSync_payload_check_witness :
  Server.serve Example.raw_bytes Example.open_config Server.POST_api_sync
    (Example.request (Some (Json.JArr [Json.JStr (Js.lit "a"); Json.JBool true])))
    (Example.at_time 1000 Server.WriteOk) ∅
  = (Server.json_response 200
       [Server.prop "ok" (Some (Json.JBool true));
        Server.prop "updatedAt"
          (Some (Json.JStr (Js.lit "1970-01-01T00:00:01.000Z")))],
     <[Server.syncFile Example.open_config :=
         Json.JSON_stringify
           (Json.JObj [(Js.lit "0", Json.JStr (Js.lit "a"));
                       (Js.lit "1", Json.JBool true);
                       (Js.lit "updatedAt",
                        Json.JStr (Js.lit "1970-01-01T00:00:01.000Z"))])]> ∅).
Proof.
  exact (proj2 (postSync_payload_check Example.raw_bytes Example.open_config
                  (Example.request
                     (Some (Json.JArr [Json.JStr (Js.lit "a"); Json.JBool true])))
                  (Example.at_time 1000 Server.WriteOk) ∅ eq_refl) eq_refl).
Defined.

(** With the secret [s3cret]: no token is refused, the bearer token passes. *)
Lemma requireSyncAuth_gate_witness :
  Server.serve Example.raw_bytes Example.gated_config Server.POST_api_sync
    (Example.request (Some (Example.note "A")))
    (Example.at_time 1000 Server.WriteOk) ∅
  = (Server.unauthorized, ∅) /\
  Server.status Server.unauthorized = 401.
Proof.
  apply (proj1 (proj1 (requireSyncAuth_gate Example.raw_bytes Example.gated_config
                         Server.POST_api_sync
                         (Example.request (Some (Example.note "A")))
                         (Example.at_time 1000 Server.WriteOk) ∅)
                  (Js.lit "s3cret") eq_refl ltac:(discriminate)));
    discriminate.
Defined.

(** The upload of [../../evil:name?.pdf] at clock reading 1700000000000. *)
Lemma upload_stored_name_witness :
  exists bytes,
    snd (Server.serve Example.raw_bytes Example.open_config Server.POST_api_upload
           (Example.upload "../../evil:name?.pdf" "QUJD")
           (Example.at_time 1700000000000 Server.WriteOk) ∅)
    = <[ [Js.lit "srv"; Js.lit "app"; Js.lit "server"; Js.lit "uploads";
          Js.lit "1700000000000-.._.._evil_name_.pdf"] := bytes ]> ∅.
Proof.
  exact (proj1 (upload_stored_name Example.raw_bytes Example.open_config
                  (Example.upload "../../evil:name?.pdf" "QUJD")
                  (Example.at_time 1700000000000 Server.WriteOk) ∅
                  _ (Json.JStr (Js.lit "../../evil:name?.pdf"))
                  (Js.lit "../../evil:name?.pdf") (Js.lit "QUJD")
                  eq_refl eq_refl eq_refl eq_refl eq_refl eq_refl
                  ltac:(discriminate) eq_refl)).
Defined.

(** Two different files uploaded within one millisecond under names that
    sanitise alike: one stored name, and the second file replaces the first. *)
Lemma upload_names_collide :
  let cfg := Example.open_config in
  let env := Example.at_time 1700000000000 Server.WriteOk in
  let first :=
    Server.serve Example.raw_bytes cfg Server.POST_api_upload
      (Example.upload "a b.txt" "QUFB") env ∅ in
  let second :=
    Server.serve Example.raw_bytes cfg Server.POST_api_upload
      (Example.upload "a_b.txt" "QkJC") env (snd first) in
  let answer :=
    Server.json_response 200
      [Server.prop "url"
         (Some (Json.JStr (Js.lit "/uploads/1700000000000-a_b.txt")));
       Server.prop "fileName" (Some (Json.JStr (Js.lit "a_b.txt")));
       Server.prop "fileType" (Some (Json.JStr []));
       Server.prop "size" (Some (Json.JNum (Js.lit "3")))] in
  fst first = answer /\ fst second = answer /\
  snd first !! (Server.uploadsDir cfg ++ [Js.lit "1700000000000-a_b.txt"])
  = Some (Js.lit "AAA") /\
  size (snd second) = 1%nat /\
  snd second !! (Server.uploadsDir cfg ++ [Js.lit "1700000000000-a_b.txt"])
  = Some (Js.lit "BBB").
Proof. vm_compute. repeat split. Qed.

(** A file name that is an object with a property [toString]: the handler
    throws on [String(fileName)], Express answers 500 and nothing is stored;
    an object without one is stored under the name it prints as. *)
Example upload_name_not_printable :
  let named (fileName : Json.json) :=
    Example.request
      (Some (Json.JObj [(Js.lit "fileName", fileName);
                        (Js.lit "data", Json.JStr (Js.lit "QUJD"))])) in
  Server.serve Example.raw_bytes Example.open_config Server.POST_api_upload
    (named (Json.JObj [(Js.lit "toString", Json.JNum (Js.lit "1"))]))
    (Example.at_time 1700000000000 Server.WriteOk) ∅
  = (Server.uncaught, ∅) /\
  Server.serve Example.raw_bytes Example.open_config Server.POST_api_upload
    (named (Json.JArr [Json.JNum (Js.lit "1");
                       Json.JObj [(Js.lit "toString", Json.JNull)]]))
    (Example.at_time 1700000000000 Server.WriteOk) ∅
  = (Server.uncaught, ∅) /\
  snd (Server.serve Example.raw_bytes Example.open_config Server.POST_api_upload
         (named (Json.JObj [(Js.lit "name", Json.JStr (Js.lit "x"))]))
         (Example.at_time 1700000000000 Server.WriteOk) ∅)
  = {[ Server.uploadsDir Example.open_config
       ++ [Js.lit "1700000000000-_object_Object_"] := Js.lit "ABC" ]}.
Proof. vm_compute. repeat split. Qed.

(** The decoder on examples: padding, a data that is cut short, characters
    that are no digits, the URL-safe alphabet. *)
Example Buffer_from_base64_examples :
  List.map (fun text => Js.Buffer_from_base64 (Js.lit text))
    ["QUJD"; "QUI="; "QQ=="; "QUJDRA"; "Q"; "QU JD"; "QQ==QUJD"; "-_8"; "+/8="]%string
  = [Js.lit "ABC"; Js.lit "AB"; Js.lit "A"; Js.lit "ABCD"; []; Js.lit "ABC";
     Js.lit "A"; [251; 255]%N; [251; 255]%N].
Proof. reflexivity. Qed.

(** *** The setup-response parser *)

Section SetupFacts.
Import Json Setup.

Lemma startsWith_char (c : N) (s : jsstring) :
  Js.startsWith [c] s = match s with
                        | c' :: _ => (c =? c')%N
                        | [] => false
                        end.
Proof. destruct s; simpl; [done|]. apply andb_true_r. Qed.

Lemma indexOf_from_absent (c : N) (s : jsstring) (i : Z) :
  c ∉ s -> Js.indexOf_from [c] s i = -1.
Proof.
  revert i. induction s as [|c' s IH]; intros i Hc; [done|].
  apply not_elem_of_cons in Hc as [Hne Hc]. cbn [Js.indexOf_from].
  rewrite startsWith_char, (proj2 (N.eqb_neq c c')) by done. by apply IH.
Qed.

Lemma indexOf_from_first (c : N) (pre post : jsstring) (i : Z) :
  c ∉ pre ->
  Js.indexOf_from [c] (pre ++ c :: post) i = i + Z.of_nat (length pre).
Proof.
  revert i. induction pre as [|c' pre IH]; intros i Hc; cbn [app Js.indexOf_from].
  - rewrite startsWith_char, N.eqb_refl. simpl. lia.
  - apply not_elem_of_cons in Hc as [Hne Hc].
    rewrite startsWith_char, (proj2 (N.eqb_neq c c')) by done.
    rewrite IH by done. simpl length. lia.
Qed.

Lemma lastIndexOf_from_absent (c : N) (s : jsstring) (i found : Z) :
  c ∉ s -> Js.lastIndexOf_from [c] s i found = found.
Proof.
  revert i. induction s as [|c' s IH]; intros i Hc; [done|].
  apply not_elem_of_cons in Hc as [Hne Hc]. cbn [Js.lastIndexOf_from].
  rewrite startsWith_char, (proj2 (N.eqb_neq c c')) by done. by apply IH.
Qed.

Lemma lastIndexOf_from_last (c : N) (pre post : jsstring) (i found : Z) :
  c ∉ post ->
  Js.lastIndexOf_from [c] (pre ++ c :: post) i found = i + Z.of_nat (length pre).
Proof.
  revert i found. induction pre as [|c' pre IH]; intros i found Hc;
    cbn [app Js.lastIndexOf_from].
  - rewrite startsWith_char, N.eqb_refl, lastIndexOf_from_absent by done.
    simpl. lia.
  - rewrite IH by done. simpl length. lia.
Qed.

(** Between the first opening brace and the last closing brace. *)
Lemma extractJsonObject_slice (pre mid post : jsstring) :
  123%N ∉ pre -> 125%N ∉ post ->
  extractJsonObject (pre ++ [123%N] ++ mid ++ [125%N] ++ post)
  = JSON_parse ([123%N] ++ mid ++ [125%N]).
Proof.
  intros Hpre Hpost. set (text := pre ++ [123%N] ++ mid ++ [125%N] ++ post).
  assert (Hstart : Js.indexOf [123%N] text = Z.of_nat (length pre)).
  { unfold Js.indexOf, text. cbn [app]. by rewrite indexOf_from_first. }
  assert (Hend : Js.lastIndexOf [125%N] text
                 = Z.of_nat (length pre + S (length mid))).
  { unfold Js.lastIndexOf, text.
    replace (pre ++ [123%N] ++ mid ++ [125%N] ++ post)
      with ((pre ++ 123%N :: mid) ++ 125%N :: post)
      by (by rewrite <- app_assoc).
    rewrite lastIndexOf_from_last by done. rewrite length_app. simpl. lia. }
  unfold extractJsonObject.
  change (Js.lit "{") with [123%N]. change (Js.lit "}") with [125%N].
  rewrite Hstart, Hend.
  destruct (Z.ltb_spec (Z.of_nat (length pre)) 0); [lia|].
  destruct (Z.ltb_spec (Z.of_nat (length pre + S (length mid))) 0); [lia|].
  destruct (Z.leb_spec (Z.of_nat (length pre + S (length mid)))
              (Z.of_nat (length pre))); [lia|].
  cbn [orb]. f_equal. unfold Js.slice, Js.clamp_index.
  assert (Hlen : length text = (length pre + S (length mid + S (length post)))%nat).
  { unfold text. rewrite !length_app. simpl. rewrite ?length_app. simpl. lia. }
  rewrite Hlen.
  destruct (Z.ltb_spec (Z.of_nat (length pre)) 0); [lia|].
  destruct (Z.ltb_spec (Z.of_nat (length pre + S (length mid)) + 1) 0); [lia|].
  rewrite !Z.min_l by lia.
  replace (Z.to_nat (Z.of_nat (length pre))) with (length pre) by lia.
  unfold text. rewrite drop_app_length.
  replace (Z.to_nat _) with (length ([123%N] ++ mid ++ [125%N]))
    by (rewrite !length_app; simpl; lia).
  rewrite !app_assoc. rewrite <- (app_assoc [123%N]). apply take_app_length.
Qed.

(** Without an opening brace followed somewhere by a closing one there is
    nothing to parse. *)
Lemma extractJsonObject_no_pair (text : jsstring) :
  ~ (exists pre mid post, text = pre ++ [123%N] ++ mid ++ [125%N] ++ post) ->
  extractJsonObject text = None.
Proof.
  intros Hno. unfold extractJsonObject, Js.indexOf, Js.lastIndexOf.
  change (Js.lit "{") with [123%N]. change (Js.lit "}") with [125%N].
  destruct (decide (123%N ∈ text)) as [Hopen|Hopen];
    [|by rewrite indexOf_from_absent].
  apply list_elem_of_split_l in Hopen as (pre & rest & -> & Hpre).
  rewrite indexOf_from_first by done.
  assert (Hrest : 125%N ∉ rest).
  { intros Hin. apply list_elem_of_split in Hin as (mid & post & ->).
    apply Hno. by exists pre, mid, post. }
  destruct (decide (125%N ∈ pre)) as [Hclose|Hclose].
  - apply list_elem_of_split_r in Hclose as (pre1 & pre2 & -> & Hpre2).
    rewrite <- app_assoc. cbn [app].
    rewrite lastIndexOf_from_last
      by (rewrite not_elem_of_app, not_elem_of_cons; by split_and!).
    rewrite length_app. cbn [length].
    destruct (Z.leb_spec (0 + Z.of_nat (length pre1))
                (0 + Z.of_nat (length pre1 + S (length pre2)))); [|lia].
    by rewrite !orb_true_r.
  - rewrite lastIndexOf_from_absent
      by (rewrite not_elem_of_app, not_elem_of_cons; by split_and!).
    by rewrite orb_true_r.
Qed.

(** A text that starts with a brace parses to an object or not at all. *)
Lemma JSON_parse_object (s : jsstring) (v : json) :
  JSON_parse (123%N :: s) = Some v -> exists members, v = JObj members.
Proof.
  unfold JSON_parse. cbn [skip_ws is_json_ws]. replace (is_json_ws 123) with false by done.
  cbn [Nat.add]. rewrite parse_value_open. replace (123 =? 123)%N with true by done.
  destruct (expect 125 (skip_ws s)) as [r|].
  - cbn [mbind option_bind]. destruct (skip_ws r); [|done]. intros [= <-]. by eexists.
  - destruct (parse_members _ _) as [[ms r]|]; [|done]. cbn [mbind option_bind].
    destruct (skip_ws r); [|done]. intros [= <-]. by eexists.
Qed.

(** C8. Without an opening brace followed by a closing one the parser
    returns [null]. Otherwise it parses the text from the first opening
    brace to the last closing brace: when that fails it returns [null], and
    when it gives a value each string field is the trimmed string under its
    key and each list field the trimmed non-empty strings of the array under
    its key, a field of any other shape being absent. The parser is a total
    function: it never throws. On the reply of the example it finds the
    title [Reform Era] and the themes [law] and [politics]. *)
Theorem parsePhaseSetup_spec (text : jsstring) :
  (~ (exists pre mid post, text = pre ++ [123%N] ++ mid ++ [125%N] ++ post) ->
   parsePhaseSetup text = None) /\
  (forall pre mid post,
     text = pre ++ [123%N] ++ mid ++ [125%N] ++ post ->
     123%N ∉ pre -> 125%N ∉ post ->
     parsePhaseSetup text =
       match JSON_parse ([123%N] ++ mid ++ [125%N]) with
       | None => None
       | Some value =>
           let string_at key :=
             match get (Some value) (Js.lit key) with
             | Some (JStr s) => Some (Js.trim s)
             | _ => None
             end in
           let list_at key :=
             match get (Some value) (Js.lit key) with
             | Some (JArr items) =>
                 Some (List.filter (fun s => negb (bool_decide (s = [])))
                         (List.map Js.trim
                            (omap (fun item => match item with
                                               | JStr s => Some s
                                               | _ => None
                                               end) items)))
             | _ => None
             end in
           Some {| title := string_at "title"%string;
                   range := string_at "range"%string;
                   summary := string_at "summary"%string;
                   subphaseTitle := string_at "subphaseTitle"%string;
                   subphaseRange := string_at "subphaseRange"%string;
                   subphasePrompt := string_at "subphasePrompt"%string;
                   themes := list_at "themes"%string;
                   questions := list_at "questions"%string |}
       end) /\
  (let reply := parsePhaseSetup Example.reform_reply in
   (reply ≫= title) = Some (Js.lit "Reform Era") /\
   (reply ≫= themes) = Some [Js.lit "law"; Js.lit "politics"]).
Proof.
  split; [|split].
  - intros Hno. unfold parsePhaseSetup.
    destruct (negb (Js.truthy (Some text))); [done|].
    by rewrite extractJsonObject_no_pair.
  - intros pre mid post -> Hpre Hpost. unfold parsePhaseSetup.
    replace (Js.truthy (Some (pre ++ [123%N] ++ mid ++ [125%N] ++ post)))
      with true by (by destruct pre).
    cbn [negb]. rewrite extractJsonObject_slice by done.
    destruct (JSON_parse ([123%N] ++ mid ++ [125%N])) as [value|] eqn:Hparse;
      [|done].
    apply JSON_parse_object in Hparse as (members & ->).
    cbn [truthy typeof_object negb orb]. unfold pickString, pickList, strings_of.
    assert (Hfilter : forall xs : list jsstring,
      List.filter (fun s => Js.truthy (Some s)) xs
      = List.filter (fun s => negb (bool_decide (s = []))) xs).
    { intros xs. apply List.filter_ext. by intros [|c s]. }
    do 2 f_equal; try reflexivity;
      (destruct (get _ _) as [[]|]; try reflexivity; by rewrite Hfilter).
  - by vm_compute.
Qed.

End SetupFacts.

(** A reply without braces. *)
Lemma parsePhaseSetup_spec_witness :
  Setup.parsePhaseSetup (Js.lit "I could not draft that.") = None.
Proof.
  apply (proj1 (parsePhaseSetup_spec (Js.lit "I could not draft that."))).
  intros (pre & mid & post & H).
  assert (Hin : 123%N ∈ Js.lit "I could not draft that.").
  { rewrite H, !elem_of_app. right. left. by left. }
  apply (bool_decide_pack _) in Hin. vm_compute in Hin. exact Hin.
Defined.

(** *** Connection nodes *)

Section ConnectionFacts.
Import Connections.

Lemma split_acc_cur (sep : N) (cur s : jsstring) :
  exists p ps, Js.split_acc sep cur s = (rev cur ++ p) :: ps /\
               Js.split_acc sep [] s = p :: ps.
Proof.
  revert cur. induction s as [|c s IH]; intros cur; simpl.
  - exists [], []. by rewrite app_nil_r.
  - destruct (c =? sep)%N.
    + exists [], (Js.split_acc sep [] s). by rewrite app_nil_r.
    + destruct (IH (c :: cur)) as (p & ps & -> & Hp).
      destruct (IH [c]) as (p' & ps' & -> & Hp').
      rewrite Hp in Hp'. injection Hp' as <- <-.
      exists (c :: p), ps. simpl. by rewrite <- app_assoc.
Qed.

(** A text is one segment without the separator, or such a segment, the
    separator and more text. *)
Lemma split_cases (sep : N) (s : jsstring) :
  ((sep ∉ s) /\ Js.split sep s = [s]) \/
  (exists p rest, (sep ∉ p) /\ s = p ++ sep :: rest /\
                  Js.split sep s = p :: Js.split sep rest).
Proof.
  unfold Js.split. induction s as [|c s IH]; simpl.
  - left. split; [apply not_elem_of_nil|done].
  - destruct (N.eqb_spec c sep) as [->|Hc].
    + right. exists [], s. split; [apply not_elem_of_nil|done].
    + destruct (split_acc_cur sep [c] s) as (p & ps & -> & Hp). simpl.
      destruct IH as [[Hs Hsplit]|(q & rest & Hq & -> & Hsplit)].
      * left. rewrite Hsplit in Hp. injection Hp as <- <-.
        split; [|done]. apply not_elem_of_cons. split; [congruence|done].
      * right. rewrite Hsplit in Hp. injection Hp as <- <-.
        exists (c :: q), rest. split; [|done].
        apply not_elem_of_cons. split; [congruence|done].
Qed.

Lemma split_segment (sep : N) (p rest : jsstring) :
  sep ∉ p -> Js.split sep (p ++ sep :: rest) = p :: Js.split sep rest.
Proof.
  intros Hp. destruct (split_cases sep (p ++ sep :: rest))
    as [[Hs _]|(q & rest' & Hq & Heq & ->)].
  - destruct Hs. apply elem_of_app. right. by left.
  - assert (p = q /\ rest = rest') as [-> ->]; [|done].
    clear -Hp Hq Heq. revert q Hq Heq.
    induction p as [|c p IH]; intros [|d q] Hq Heq; simpl in Heq.
    + by injection Heq.
    + injection Heq as <- _. destruct Hq. by left.
    + injection Heq as -> _. destruct Hp. by left.
    + injection Heq as -> Heq. apply not_elem_of_cons in Hp as [_ Hp].
      apply not_elem_of_cons in Hq as [_ Hq].
      by destruct (IH Hp _ Hq Heq) as [-> ->].
Qed.

Lemma split_whole (sep : N) (s : jsstring) : sep ∉ s -> Js.split sep s = [s].
Proof. intros Hs. unfold Js.split. by rewrite split_acc_whole. Qed.

Lemma entitySection_plain (section : jsstring) :
  section ∈ entitySections -> section <> [] /\ (58%N ∉ section).
Proof.
  unfold entitySections. rewrite !elem_of_cons, elem_of_nil.
  intros [->|[->|[->|[->|[]]]]]; (split; [done|]);
    apply (bool_decide_unpack _); by vm_compute.
Qed.

Lemma truthy_Some (s : jsstring) : Js.truthy (Some s) = true <-> s <> [].
Proof. by destruct s. Qed.

Ltac literal_kind :=
  repeat match goal with
         | |- context [bool_decide (Some (Js.lit ?a) = Some (Js.lit ?b))] =>
             first [ rewrite (bool_decide_eq_true_2 (Some (Js.lit a) = Some (Js.lit b)))
                       by reflexivity
                   | rewrite (bool_decide_eq_false_2 (Some (Js.lit a) = Some (Js.lit b)))
                       by (intros [= H]; by vm_compute in H) ]
         end.

(** The identifier of a plain node, alone or followed by a colon and more
    text, parses to the node. *)
Lemma parseConnectionNodeId_build (node : ConnectionNode) (more : jsstring) :
  plain_node node ->
  more = [] \/ (exists rest, more = 58%N :: rest) ->
  parseConnectionNodeId (buildConnectionNodeId node ++ more) = Some node.
Proof.
  intros Hnode Hmore.
  assert (Hlast : forall p, 58%N ∉ p ->
    exists ps, Js.split 58 (p ++ more) = p :: ps).
  { intros p Hp. destruct Hmore as [->|(rest & ->)].
    - exists []. rewrite app_nil_r. by apply split_whole.
    - eexists. by apply split_segment. }
  unfold parseConnectionNodeId.
  assert (Hkind : forall k, (58%N ∉ Js.lit k) -> forall tail,
    Js.split 58 (Js.lit k ++ 58%N :: tail) = Js.lit k :: Js.split 58 tail).
  { intros k Hk tail. by apply split_segment. }
  destruct node as [p|p s|sec e|sec e s]; cbn [buildConnectionNodeId plain_node] in *.
  - destruct Hnode as [Hne Hp]. destruct (Hlast p Hp) as (ps & Hsplit).
    change (Js.lit "phase:") with (Js.lit "phase" ++ [58%N]).
    rewrite <- !app_assoc. cbn [app].
    rewrite Hkind by (apply (bool_decide_unpack _); by vm_compute).
    rewrite Hsplit. cbn [lookup list_lookup]. literal_kind.
    destruct p; [done|]. done.
  - destruct Hnode as [[Hne Hp] [Hnes Hs]].
    destruct (Hlast s Hs) as (ps & Hsplit).
    change (Js.lit "phase-sub:") with (Js.lit "phase-sub" ++ [58%N]).
    change (Js.lit ":") with [58%N].
    rewrite <- !app_assoc. cbn [app].
    rewrite Hkind by (apply (bool_decide_unpack _); by vm_compute).
    rewrite split_segment by done. rewrite Hsplit.
    cbn [lookup list_lookup]. literal_kind.
    destruct p; [done|]. destruct s; [done|]. done.
  - destruct Hnode as [Hsec [Hne He]].
    destruct (entitySection_plain _ Hsec) as [Hnesec Hcolon].
    destruct (Hlast e He) as (ps & Hsplit).
    change (Js.lit "entity:") with (Js.lit "entity" ++ [58%N]).
    change (Js.lit ":") with [58%N].
    rewrite <- !app_assoc. cbn [app].
    rewrite Hkind by (apply (bool_decide_unpack _); by vm_compute).
    rewrite split_segment by done. rewrite Hsplit.
    cbn [lookup list_lookup]. literal_kind.
    destruct sec; [done|]. destruct e; [done|].
    cbn [Js.truthy Js.nullish andb]. unfold isEntitySectionId.
    by rewrite bool_decide_eq_true_2.
  - destruct Hnode as [Hsec [[Hne He] [Hnes Hs]]].
    destruct (entitySection_plain _ Hsec) as [Hnesec Hcolon].
    destruct (Hlast s Hs) as (ps & Hsplit).
    change (Js.lit "entity-sub:") with (Js.lit "entity-sub" ++ [58%N]).
    change (Js.lit ":") with [58%N].
    rewrite <- !app_assoc. cbn [app].
    rewrite Hkind by (apply (bool_decide_unpack _); by vm_compute).
    rewrite !split_segment by done. rewrite Hsplit.
    cbn [lookup list_lookup]. literal_kind.
    destruct sec; [done|]. destruct e; [done|]. destruct s; [done|].
    cbn [Js.truthy Js.nullish andb]. unfold isEntitySectionId.
    by rewrite bool_decide_eq_true_2.
Qed.

Lemma split_join (sep : N) (s : jsstring) :
  Js.join [sep] (Js.split sep s) = s /\
  Forall (fun p => sep ∉ p) (Js.split sep s).
Proof.
  induction s as [s IH] using (induction_ltof1 _ (@length N)). unfold ltof in IH.
  destruct (split_cases sep s) as [[Hs ->]|(p & rest & Hp & -> & ->)].
  - split; [done|]. by repeat constructor.
  - destruct (IH rest) as [Hjoin Hall]; [rewrite length_app; simpl; lia|].
    split; [|by constructor].
    destruct (Js.split sep rest) as [|q qs] eqn:Hsplit.
    + destruct (split_cases sep rest) as [[_ H]|(? & ? & _ & _ & H)];
        rewrite Hsplit in H; discriminate H.
    + change (Js.join [sep] (p :: q :: qs)) with (p ++ [sep] ++ Js.join [sep] (q :: qs)).
      by rewrite Hjoin.
Qed.

(** What parses to a node is the identifier of the node, alone or followed
    by a colon and more text; and the node is plain. *)
Lemma parseConnectionNodeId_inv (value : jsstring) (node : ConnectionNode) :
  parseConnectionNodeId value = Some node ->
  plain_node node /\
  exists more, value = buildConnectionNodeId node ++ more /\
               (more = [] \/ exists rest, more = 58%N :: rest).
Proof.
  unfold parseConnectionNodeId. destruct (negb _); [done|].
  destruct (split_join 58 value) as [Hjoin Hall]. revert Hjoin Hall.
  generalize (Js.split 58 value). intros parts <- Hall.
  assert (Hplain : forall p : jsstring,
    (58%N ∉ p) -> Js.truthy (Some p) = true -> plain_id p).
  { intros p Hp Ht. split; [by apply truthy_Some|done]. }
  assert (Hjoin : forall (p : jsstring) ps, exists more,
    Js.join [58%N] (p :: ps) = p ++ more /\
    (more = [] \/ exists rest, more = 58%N :: rest)).
  { intros p [|q qs].
    - exists []. split; [by rewrite app_nil_r|by left].
    - eexists. split; [done|]. right. by eexists. }
  destruct parts as [|kind [|first parts]];
    cbn [lookup list_lookup Js.nullish];
    change (Js.truthy None) with false; rewrite ?andb_false_r; try done.
  apply Forall_cons in Hall as [_ Hall]. apply Forall_cons in Hall as [H1 Hall].
  destruct (decide (kind = Js.lit "phase")) as [->|Hk1].
  { literal_kind. cbn [andb].
    destruct (Js.truthy (Some first)) eqn:Ht1; cbn [andb]; [|done].
    intros [= <-]. split; [by apply Hplain|].
    destruct (Hjoin first parts) as (more & Hmore & Hshape).
    exists more. split; [|done].
    change (Js.join [58%N] (Js.lit "phase" :: first :: parts))
      with (Js.lit "phase" ++ [58%N] ++ Js.join [58%N] (first :: parts)).
    rewrite Hmore. cbn [buildConnectionNodeId]. by rewrite <- !app_assoc. }
  rewrite (bool_decide_eq_false_2 (Some kind = Some (Js.lit "phase")))
    by congruence.
  cbn [andb].
  destruct parts as [|second parts];
    cbn [lookup list_lookup Js.nullish];
    change (Js.truthy None) with false; rewrite ?andb_false_r; try done.
  apply Forall_cons in Hall as [H2 Hall].
  destruct (decide (kind = Js.lit "phase-sub")) as [->|Hk2].
  { literal_kind. cbn [andb].
    destruct (Js.truthy (Some first)) eqn:Ht1; cbn [andb]; [|done].
    destruct (Js.truthy (Some second)) eqn:Ht2; cbn [andb]; [|done].
    intros [= <-]. split; [split; by apply Hplain|].
    destruct (Hjoin second parts) as (more & Hmore & Hshape).
    exists more. split; [|done].
    change (Js.join [58%N] (Js.lit "phase-sub" :: first :: second :: parts))
      with (Js.lit "phase-sub" ++ [58%N] ++ first ++ [58%N]
            ++ Js.join [58%N] (second :: parts)).
    rewrite Hmore. cbn [buildConnectionNodeId]. by rewrite <- !app_assoc. }
  rewrite (bool_decide_eq_false_2 (Some kind = Some (Js.lit "phase-sub")))
    by congruence.
  cbn [andb].
  destruct (decide (kind = Js.lit "entity")) as [->|Hk3].
  { literal_kind. cbn [andb].
    destruct (Js.truthy (Some first)) eqn:Ht1; cbn [andb]; [|done].
    destruct (Js.truthy (Some second)) eqn:Ht2; cbn [andb]; [|done].
    destruct (isEntitySectionId first) eqn:Hsec; cbn [andb]; [|done].
    intros [= <-]. apply bool_decide_eq_true in Hsec.
    split; [split; [done|by apply Hplain]|].
    destruct (Hjoin second parts) as (more & Hmore & Hshape).
    exists more. split; [|done].
    change (Js.join [58%N] (Js.lit "entity" :: first :: second :: parts))
      with (Js.lit "entity" ++ [58%N] ++ first ++ [58%N]
            ++ Js.join [58%N] (second :: parts)).
    rewrite Hmore. cbn [buildConnectionNodeId]. by rewrite <- !app_assoc. }
  rewrite (bool_decide_eq_false_2 (Some kind = Some (Js.lit "entity")))
    by congruence.
  cbn [andb].
  destruct (bool_decide (Some kind = Some (Js.lit "entity-sub"))) eqn:Hk4; [|done].
  apply bool_decide_eq_true in Hk4 as [= ->]. cbn [andb].
  destruct (Js.truthy (Some first)) eqn:Ht1; cbn [andb]; [|done].
  destruct (Js.truthy (Some second)) eqn:Ht2; cbn [andb]; [|done].
  destruct parts as [|third parts];
    cbn [lookup list_lookup Js.nullish];
    change (Js.truthy None) with false; cbn [andb]; try done.
  apply Forall_cons in Hall as [H3 Hall].
  destruct (Js.truthy (Some third)) eqn:Ht3; cbn [andb]; [|done].
  destruct (isEntitySectionId first) eqn:Hsec; [|done].
  intros [= <-]. apply bool_decide_eq_true in Hsec.
  split; [split; [done|split; by apply Hplain]|].
  destruct (Hjoin third parts) as (more & Hmore & Hshape).
  exists more. split; [|done].
  change (Js.join [58%N] (Js.lit "entity-sub" :: first :: second :: third :: parts))
    with (Js.lit "entity-sub" ++ [58%N] ++ first ++ [58%N] ++ second ++ [58%N]
          ++ Js.join [58%N] (third :: parts)).
  rewrite Hmore. cbn [buildConnectionNodeId]. by rewrite <- !app_assoc.
Qed.

(** X1. An identifier built from a node parses back to the node exactly
    when the node is plain: its phase, entity and subphase identifiers are
    not empty and hold no colon, and its section is one of the four entity
    sections. *)
Theorem connection_id_round_trip (node : ConnectionNode) :
  parseConnectionNodeId (buildConnectionNodeId node) = Some node <-> plain_node node.
Proof.
  split.
  - intros Hparse. by destruct (parseConnectionNodeId_inv _ _ Hparse).
  - intros Hplain. rewrite <- (app_nil_r (buildConnectionNodeId node)).
    apply parseConnectionNodeId_build; [done|by left].
Qed.

(** X2. The parser accepts exactly the identifiers of plain nodes, each
    alone or followed by a colon and any text, which it ignores; every other
    text, the empty one included, gives [null]. *)
Theorem parseConnectionNodeId_accepts (value : jsstring) (node : ConnectionNode) :
  parseConnectionNodeId value = Some node <->
  plain_node node /\
  (value = buildConnectionNodeId node \/
   exists rest, value = buildConnectionNodeId node ++ Js.lit ":" ++ rest).
Proof.
  split.
  - intros Hparse.
    destruct (parseConnectionNodeId_inv _ _ Hparse) as (Hplain & more & -> & Hmore).
    split; [done|]. destruct Hmore as [->|(rest & ->)].
    + left. by rewrite app_nil_r.
    + right. by exists rest.
  - intros [Hplain [->|(rest & ->)]].
    + rewrite <- (app_nil_r (buildConnectionNodeId node)).
      apply parseConnectionNodeId_build; [done|by left].
    + apply parseConnectionNodeId_build; [done|right; by exists rest].
Qed.

(** X3. The two tests of an entity section agree on the seven section
    identifiers; outside them the test by exclusion accepts every text and
    the test by membership none. *)
Theorem isEntitySection_agree (section : jsstring) :
  (section ∈ sectionIds -> isEntitySection section = isEntitySectionId section) /\
  ((section ∉ sectionIds) ->
   isEntitySection section = true /\ isEntitySectionId section = false) /\
  (isEntitySectionId section = true <-> section ∈ entitySections).
Proof.
  split_and!.
  - unfold sectionIds. rewrite !elem_of_cons, elem_of_nil.
    intros [->|[->|[->|[->|[->|[->|[->|[]]]]]]]]; by vm_compute.
  - unfold sectionIds, isEntitySection, isEntitySectionId, entitySections, Js.eqb.
    rewrite !not_elem_of_cons. intros (H1 & H2 & H3 & H4 & H5 & H6 & H7 & _).
    rewrite !bool_decide_eq_false_2 by done. split; [done|].
    apply bool_decide_eq_false_2. rewrite !not_elem_of_cons. split_and!; try done.
    apply not_elem_of_nil.
  - unfold isEntitySectionId. apply bool_decide_eq_true.
Qed.

End ConnectionFacts.

(** *** Trimming *)

Section TrimFacts.
Import Text.

Lemma trimStart_spec (s : jsstring) :
  exists pre, s = pre ++ Js.trimStart s /\
              Forall (fun c => Js.is_whitespace c = true) pre /\
              match Js.trimStart s with
              | [] => True
              | c :: _ => Js.is_whitespace c = false
              end.
Proof.
  induction s as [|c s (pre & Hs & Hpre & Hhead)]; simpl.
  - by exists [].
  - destruct (Js.is_whitespace c) eqn:Hc.
    + exists (c :: pre). split_and!; [by rewrite Hs at 1|by constructor|done].
    + by exists [].
Qed.

Lemma trimEnd_spec (s : jsstring) :
  exists post, s = Js.trimEnd s ++ post /\
               Forall (fun c => Js.is_whitespace c = true) post /\
               match last (Js.trimEnd s) with
               | None => True
               | Some c => Js.is_whitespace c = false
               end.
Proof.
  unfold Js.trimEnd. destruct (trimStart_spec (rev s)) as (pre & Hs & Hpre & Hhead).
  exists (rev pre). split_and!.
  - rewrite <- rev_app_distr, <- Hs. by rewrite rev_involutive.
  - by apply Forall_rev.
  - destruct (Js.trimStart (rev s)) as [|c t]; [done|].
    simpl. by rewrite last_snoc.
Qed.

Lemma trimStart_tight (s : jsstring) :
  match s with [] => True | c :: _ => Js.is_whitespace c = false end ->
  Js.trimStart s = s.
Proof. destruct s as [|c s]; simpl; [done|]. by intros ->. Qed.

Lemma trimEnd_tight (s : jsstring) :
  match last s with None => True | Some c => Js.is_whitespace c = false end ->
  Js.trimEnd s = s.
Proof.
  intros Hlast. unfold Js.trimEnd. rewrite trimStart_tight; [apply rev_involutive|].
  destruct s as [|c s] using rev_ind; [done|].
  rewrite rev_app_distr. simpl. by rewrite last_snoc in Hlast.
Qed.

Lemma trim_tight (s : jsstring) : tight_text s -> Js.trim s = s.
Proof.
  intros [Hhead Hlast]. unfold Js.trim.
  rewrite trimStart_tight by done. by apply trimEnd_tight.
Qed.

(** [trim] takes white space off both ends and nothing else. *)
Lemma trim_spec (s : jsstring) :
  exists pre post,
    s = pre ++ Js.trim s ++ post /\
    Forall (fun c => Js.is_whitespace c = true) pre /\
    Forall (fun c => Js.is_whitespace c = true) post /\
    tight_text (Js.trim s).
Proof.
  destruct (trimStart_spec s) as (pre & Hs & Hpre & Hhead).
  destruct (trimEnd_spec (Js.trimStart s)) as (post & Ht & Hpost & Hlast).
  exists pre, post. fold (Js.trim s) in Ht, Hlast.
  split_and!; [by rewrite <- Ht|done|done|]. split; [|done].
  destruct (Js.trim s) as [|c t] eqn:Htrim; [done|].
  rewrite Ht in Hhead. by simpl in Hhead.
Qed.

Lemma trim_idempotent (s : jsstring) : Js.trim (Js.trim s) = Js.trim s.
Proof. destruct (trim_spec s) as (_ & _ & _ & _ & _ & H). by apply trim_tight. Qed.

Lemma tight_app (a b : jsstring) :
  a <> [] -> b <> [] -> tight_text a -> tight_text b -> tight_text (a ++ b).
Proof.
  intros Ha Hb [Hhead _] [_ Hlast]. split.
  - destruct a; [done|]. done.
  - destruct b as [|c b] using rev_ind; [done|].
    rewrite app_assoc, last_snoc. by rewrite last_snoc in Hlast.
Qed.

Lemma slice_prefix {A} (xs : list A) (k : nat) :
  Js.slice 0 (Z.of_nat k) xs = take k xs.
Proof.
  unfold Js.slice, Js.clamp_index.
  replace (0 <? 0) with false by reflexivity.
  destruct (Z.ltb_spec (Z.of_nat k) 0); [lia|].
  rewrite (Z.min_l 0) by lia. change (Z.to_nat 0) with 0%nat.
  rewrite drop_0, Z.sub_0_r.
  destruct (Z.min_spec (Z.of_nat k) (Z.of_nat (length xs))) as [[_ ->]|[? ->]].
  - by rewrite Nat2Z.id.
  - rewrite Nat2Z.id, take_ge by lia. by rewrite take_ge by lia.
Qed.

End TrimFacts.

(** *** Main points *)

Section MainPointFacts.
Import Text MainPoints.

Lemma split_where_acc_head (is_sep : N -> bool) (cur s : jsstring) :
  exists p rest, head (Js.split_where_acc is_sep cur s) = Some (rev cur ++ p) /\
                 s = p ++ rest.
Proof.
  revert cur. induction s as [|c s IH]; intros cur; simpl.
  - exists [], []. by rewrite app_nil_r.
  - destruct (is_sep c).
    + exists [], (c :: s). by rewrite app_nil_r.
    + destruct (IH (c :: cur)) as (p & rest & -> & ->).
      exists (c :: p), rest. simpl. by rewrite <- app_assoc.
Qed.

Lemma part_of_trans (a b c : jsstring) : part_of a b -> part_of b c -> part_of a c.
Proof.
  intros (p & q & ->) (p' & q' & ->). exists (p' ++ p), (q ++ q').
  by rewrite <- !app_assoc.
Qed.

Lemma part_of_take (n : nat) (s : jsstring) : part_of (take n s) s.
Proof. exists [], (drop n s). simpl. by rewrite take_drop. Qed.

Lemma part_of_trim (s : jsstring) : part_of (Js.trim s) s.
Proof. destruct (trim_spec s) as (pre & post & Hs & _). by exists pre, post. Qed.

Lemma or_string_spec (a b : jsstring) :
  Js.or_string a b = if bool_decide (a = []) then b else a.
Proof. by destruct a. Qed.

(** X4. The main point derived from a legacy text has a title that is
    never empty and holds at most 80 code units, and the trimmed text as its
    description. The title of a blank text is [Main point]; any other title
    is a part of the text that does not start with white space. *)
Theorem deriveLegacyMainPoint_title (text : jsstring) :
  let point := deriveLegacyMainPoint text in
  title point <> [] /\
  (length (title point) <= 80)%nat /\
  description point = Js.trim text /\
  id point = Js.lit "main-point-legacy" /\
  (Js.trim text = [] -> title point = Js.lit "Main point") /\
  (Js.trim text <> [] ->
   part_of (title point) text /\
   exists c rest, title point = c :: rest /\ Js.is_whitespace c = false).
Proof.
  cbn zeta. unfold deriveLegacyMainPoint. cbn [title description id].
  set (trimmed := Js.trim text).
  destruct (split_where_acc_head sentence_end [] trimmed) as (p & rest & Hhead & Hp).
  unfold Js.split_where. rewrite Hhead. cbn [rev app].
  change 80 with (Z.of_nat 80). rewrite !slice_prefix.
  assert (Htight : forall s : jsstring,
    match take 80 (Js.trim s) with
    | [] => Js.trim s = []
    | c :: _ => Js.is_whitespace c = false
    end).
  { intros s. destruct (trim_spec s) as (_ & _ & _ & _ & _ & [Hc _]).
    by destruct (Js.trim s) as [|c t]. }
  assert (Hfirst : part_of (take 80 (Js.trim p)) text).
  { eapply part_of_trans; [apply part_of_take|].
    eapply part_of_trans; [apply part_of_trim|].
    eapply part_of_trans; [|apply (part_of_trim text)].
    fold trimmed. rewrite Hp. by exists [], rest. }
  assert (Hwhole : part_of (take 80 trimmed) text).
  { eapply part_of_trans; [apply part_of_take|apply part_of_trim]. }
  pose proof (Htight p) as Hp80. pose proof (Htight text) as Ht80.
  fold trimmed in Ht80.
  assert (Hlen : forall s : jsstring, (length (take 80 s) <= 80)%nat).
  { intros s. rewrite length_take. lia. }
  pose proof (Hlen (Js.trim p)) as Hlenp. pose proof (Hlen trimmed) as Hlent.
  destruct (take 80 (Js.trim p)) as [|c a] eqn:Ea; cbn [Js.or_string].
  - destruct (take 80 trimmed) as [|c b] eqn:Eb; cbn [Js.or_string].
    + split_and!; try done. vm_compute. lia.
    + split_and!; try done.
      * intros Hblank. by rewrite Hblank in Eb.
      * intros _. split; [done|]. by exists c, b.
  - split_and!; try done.
    + intros Hblank. rewrite Hblank in Hp. destruct p; [|done]. by vm_compute in Ea.
    + intros _. split; [done|]. by exists c, a.
Qed.

(** X5. [normalizeMainPoints] returns the points of the record whenever it
    has at least one, whatever its legacy text; else the one point derived
    from the legacy text when that is not blank; else nothing. It returns an
    empty list exactly when the record has neither. *)
Theorem normalizeMainPoints_cases (record : option Pointed) :
  (forall r p ps, record = Some r -> mainPoints r = Some (p :: ps) ->
                  normalizeMainPoints record = p :: ps) /\
  (forall r text, record = Some r ->
                  mainPoints r = None \/ mainPoints r = Some [] ->
                  mainPoint r = Some text -> Js.trim text <> [] ->
                  normalizeMainPoints record = [deriveLegacyMainPoint text]) /\
  (normalizeMainPoints record = [] <->
   match record with
   | None => True
   | Some r =>
       (mainPoints r = None \/ mainPoints r = Some []) /\
       match mainPoint r with
       | None => True
       | Some text => Js.trim text = []
       end
   end).
Proof.
  split_and!.
  - intros r p ps -> Hps. unfold normalizeMainPoints. by rewrite Hps.
  - intros r text -> Hps Htext Hne. unfold normalizeMainPoints. rewrite Htext.
    destruct (Js.trim text) eqn:Ht; [done|]. by destruct Hps as [-> | ->].
  - destruct record as [[points legacy]|]; [|done]. unfold normalizeMainPoints.
    cbn [mainPoints mainPoint]. destruct points as [[|p ps]|].
    + destruct legacy as [text|]; [|by intuition].
      destruct (Js.trim text) eqn:Ht; simpl; [by intuition|].
      split; [done|]. by intros [_ ?].
    + split; [done|]. by intros [[?|?] _].
    + destruct legacy as [text|]; [|by intuition].
      destruct (Js.trim text) eqn:Ht; simpl; [by intuition|].
      split; [done|]. by intros [_ ?].
Qed.

(** X6. The focus built from main points is the fallback exactly when no
    point has a title or a description that is not blank. Otherwise it comes
    from the first such point: its trimmed title, its trimmed description,
    or both with a colon between; it is then not empty and neither starts
    nor ends with white space, whatever the fallback is. *)
Theorem buildMainPointFocus_first (points : list MainPoint)
    (fallback : option jsstring) :
  (Forall (fun p => has_text p = false) points ->
   buildMainPointFocus (Some points) fallback = fallback) /\
  buildMainPointFocus None fallback = fallback /\
  (forall blank point rest,
     points = blank ++ point :: rest ->
     Forall (fun p => has_text p = false) blank ->
     has_text point = true ->
     let t := Js.trim (title point) in
     let d := Js.trim (description point) in
     buildMainPointFocus (Some points) fallback
     = Some (if bool_decide (d = []) then t
             else if bool_decide (t = []) then d
             else t ++ Js.lit ": " ++ d) /\
     exists focus, buildMainPointFocus (Some points) fallback = Some focus /\
                   focus <> [] /\ Js.trim focus = focus).
Proof.
  assert (Hfind : forall blank point rest,
    Forall (fun p => has_text p = false) blank ->
    has_text point = true ->
    List.find has_text (blank ++ point :: rest) = Some point).
  { intros blank point rest Hblank Hpoint.
    induction Hblank as [|p blank Hp _ IH]; simpl; [by rewrite Hpoint|].
    by rewrite Hp. }
  split_and!.
  - intros Hall. unfold buildMainPointFocus. cbn [mbind option_bind].
    replace (List.find has_text points) with (@None MainPoint); [done|].
    symmetry. induction Hall as [|p ps Hp _ IH]; simpl; [done|]. by rewrite Hp.
  - done.
  - intros blank point rest -> Hblank Hpoint t d.
    assert (Hfocus : buildMainPointFocus (Some (blank ++ point :: rest)) fallback
      = Some (if bool_decide (d = []) then t
              else if bool_decide (t = []) then d
              else t ++ Js.lit ": " ++ d)).
    { unfold buildMainPointFocus. cbn [mbind option_bind].
      rewrite Hfind by done. fold t d.
      unfold has_text in Hpoint. fold t d in Hpoint.
      destruct t as [|c t'], d as [|c' d']; try done. }
    split; [done|]. rewrite Hfocus. eexists. split; [done|].
    destruct (trim_spec (title point)) as (_ & _ & _ & _ & _ & Ht).
    destruct (trim_spec (description point)) as (_ & _ & _ & _ & _ & Hd).
    fold t in Ht. fold d in Hd.
    unfold has_text in Hpoint. fold t d in Hpoint.
    case_bool_decide as Hd0.
    + rewrite Hd0 in Hpoint. destruct t; [done|]. split; [done|].
      by apply trim_tight.
    + case_bool_decide as Ht0; [split; [done|by apply trim_tight]|].
      split; [by destruct t|]. apply trim_tight.
      apply tight_app; [done| |done|].
      * by destruct d.
      * change (Js.lit ": " ++ d) with ([58%N] ++ [32%N] ++ d).
        split; [done|]. destruct Hd as [_ Hd]. rewrite !app_assoc.
        destruct d as [|c d'] using rev_ind; [done|].
        rewrite !app_assoc, last_snoc. by rewrite last_snoc in Hd.
Qed.

End MainPointFacts.

(** *** File sizes *)

Section DisplayFacts.
Import Display.

Lemma toFixed1_tenths (a b : Z) :
  0 < b -> (b mod 2 = 0) ->
  let n := (10 * a + b / 2) / b in
  Js.toFixed1 a b = Js.of_Z (n / 10) ++ Js.lit "." ++ Js.of_Z (n mod 10) /\
  - b <= 2 * (10 * a - b * n) < b.
Proof.
  intros Hb Heven n. split; [done|].
  pose proof (Z.div_mod (10 * a + b / 2) b ltac:(lia)) as Hdiv.
  pose proof (Z.mod_pos_bound (10 * a + b / 2) b Hb) as Hmod.
  pose proof (Z.div_mod b 2 ltac:(lia)) as Hhalf. rewrite Heven in Hhalf.
  fold n in Hdiv. lia.
Qed.

(** X7. A size that is absent, zero or negative is shown as nothing. A
    byte count below 1024 is shown as it is, in bytes; one below 1024 * 1024
    in KB and any larger one in MB, as the tenths nearest to the size, a tie
    going up: the value shown differs from the size by at most a twentieth
    of the unit. The last 51 byte counts below 1024 * 1024 are shown as
    [1024.0 KB]. *)
Theorem formatFileSize_display (size : Z) :
  formatFileSize None = [] /\
  (formatFileSize (Some size) = [] <-> size <= 0) /\
  (0 < size < 1024 -> formatFileSize (Some size) = Js.of_Z size ++ Js.lit " B") /\
  (1024 <= size < 1024 * 1024 ->
   exists n, 10 <= n <= 10240 /\ - 512 <= 10 * size - 1024 * n < 512 /\
             formatFileSize (Some size)
             = Js.of_Z (n / 10) ++ Js.lit "." ++ Js.of_Z (n mod 10) ++ Js.lit " KB") /\
  (1024 * 1024 <= size ->
   exists n, 10 <= n /\ - 524288 <= 10 * size - 1048576 * n < 524288 /\
             formatFileSize (Some size)
             = Js.of_Z (n / 10) ++ Js.lit "." ++ Js.of_Z (n mod 10) ++ Js.lit " MB") /\
  (1048525 <= size < 1024 * 1024 ->
   formatFileSize (Some size) = Js.lit "1024.0 KB").
Proof.
  assert (Hshown : forall x unit, Js.of_Z x ++ Js.lit unit = [] -> unit = EmptyString).
  { intros x unit H. apply app_eq_nil in H as [_ H]. by destruct unit. }
  unfold formatFileSize. split; [done|]. split_and!.
  - destruct (Z.eqb_spec size 0) as [->|Hz]; [done|].
    destruct (Z.leb_spec size 0); [done|]. cbn [orb].
    destruct (Z.ltb_spec size 1024).
    { split; [|lia]. intros Hnil. by apply Hshown in Hnil. }
    destruct (Z.ltb_spec size (1024 * 1024));
      (split; [|lia]); unfold Js.toFixed1; rewrite <- !app_assoc;
      intros Hnil; apply app_eq_nil in Hnil as [_ Hnil]; discriminate Hnil.
  - intros Hsize. destruct (Z.eqb_spec size 0); [lia|].
    destruct (Z.leb_spec size 0); [lia|]. cbn [orb].
    by destruct (Z.ltb_spec size 1024); [|lia].
  - intros Hsize. destruct (Z.eqb_spec size 0); [lia|].
    destruct (Z.leb_spec size 0); [lia|]. cbn [orb].
    destruct (Z.ltb_spec size 1024); [lia|].
    destruct (Z.ltb_spec size (1024 * 1024)); [|lia].
    destruct (toFixed1_tenths size 1024) as [-> Hn]; [lia|done|].
    revert Hn. generalize ((10 * size + 1024 / 2) / 1024). intros q Hq.
    exists q. rewrite <- !app_assoc. split_and!; try done; lia.
  - intros Hsize. destruct (Z.eqb_spec size 0); [lia|].
    destruct (Z.leb_spec size 0); [lia|]. cbn [orb].
    destruct (Z.ltb_spec size 1024); [lia|].
    destruct (Z.ltb_spec size (1024 * 1024)); [lia|].
    destruct (toFixed1_tenths size (1024 * 1024)) as [-> Hn]; [lia|done|].
    revert Hn. generalize ((10 * size + 1024 * 1024 / 2) / (1024 * 1024)).
    intros q Hq. exists q. rewrite <- !app_assoc. split_and!; try done; lia.
  - intros Hsize. destruct (Z.eqb_spec size 0); [lia|].
    destruct (Z.leb_spec size 0); [lia|]. cbn [orb].
    destruct (Z.ltb_spec size 1024); [lia|].
    destruct (Z.ltb_spec size (1024 * 1024)); [|lia].
    unfold Js.toFixed1. cbv zeta.
    replace ((10 * size + 1024 / 2) / 1024) with 10240; [done|].
    apply Z.div_unique with (10 * size + 512 - 10240 * 1024).
    + left. lia.
    + change (1024 / 2) with 512. lia.
Qed.

End DisplayFacts.

(** *** Undo and redo as steps through the values set *)

Section UndoRedoSteps.
Context {T : Type}.
Implicit Types (h : UndoRedo.hook T) (v : T).
Import UndoRedo.

Lemma hook_eq h h' : history h = history h' -> index h = index h' -> h = h'.
Proof. destruct h, h'; simpl; by intros -> ->. Qed.

Lemma redo_undo h :
  valid h -> canUndo h = true -> event (event h [Undo]) [Redo] = h.
Proof.
  intros [Hi Hlen] Hu. unfold canUndo in Hu. rewrite undo_alone, Hu, redo_alone.
  cbn [index history].
  destruct (Z.ltb_spec (index h - 1) (Z.of_nat (length (history h)) - 1)); [|lia].
  apply hook_eq; cbn [index history]; [done|lia].
Qed.

(** X8. On a hook that satisfies the invariant, [undo] and [redo], each
    called on the callbacks of the render before it, undo each other:
    whenever [canUndo] holds, [redo] at the render after [undo] brings the
    hook back as it was, and whenever [canRedo] holds so does [undo] at the
    render after [redo]; without [canUndo], [undo] changes nothing, and
    without [canRedo], [redo] changes nothing. Called in one event, before
    React renders again, the two do not undo each other: both read the
    index of the same render, and the call made last decides. *)
Theorem undo_redo_inverse h :
  valid h ->
  (canUndo h = true -> event (event h [Undo]) [Redo] = h) /\
  (canRedo h = true -> event (event h [Redo]) [Undo] = h) /\
  (canUndo h = false -> event h [Undo] = h) /\
  (canRedo h = false -> event h [Redo] = h) /\
  event h [Undo; Redo] = (if canRedo h then event h [Redo] else event h [Undo]) /\
  event h [Redo; Undo] = (if canUndo h then event h [Undo] else event h [Redo]).
Proof.
  intros Hv. split_and!.
  - by apply redo_undo.
  - destruct Hv as [Hi Hlen]. unfold canRedo.
    intros Hr. rewrite redo_alone, Hr, undo_alone. cbn [index history].
    destruct (Z.gtb_spec (index h + 1) 0); [|lia].
    apply hook_eq; cbn [index history]; [done|lia].
  - unfold canUndo. rewrite undo_alone. by intros ->.
  - unfold canRedo. rewrite redo_alone. by intros ->.
  - unfold event, render, canRedo. cbn [flat_map call]. unfold undo, redo.
    by destruct (index h >? 0), (index h <? _).
  - unfold event, render, canUndo. cbn [flat_map call]. unfold undo, redo.
    by destruct (index h >? 0), (index h <? _).
Qed.

(** X9. On a hook that satisfies the invariant, [undo] at the render after
    [setState v] shows again the state shown before the call, also when the
    call dropped the oldest entry of a full history, and [redo] at the
    render after that shows [v]. *)
Theorem undo_after_setState v h :
  valid h ->
  canUndo (event h [SetState v]) = true /\
  state (run h [[SetState v]; [Undo]]) = state h /\
  state (run h [[SetState v]; [Undo]; [Redo]]) = Some v.
Proof.
  intros Hv. pose proof (setState_valid v h Hv) as Hv'.
  pose proof (setState_state v h Hv) as Hstate.
  cbn [run fold_left].
  assert (Hundo : canUndo (event h [SetState v]) = true
                  /\ state (event (event h [SetState v]) [Undo]) = state h).
  { revert Hv'. rewrite undo_alone, setState_history by done.
    destruct Hv as [Hi Hlen]. cbv zeta.
    set (kept := take (Z.to_nat (index h + 1)) (history h)).
    assert (Hk : length kept = Z.to_nat (index h + 1)).
    { unfold kept. rewrite length_take. lia. }
    assert (Hold : (kept ++ [v]) !! Z.to_nat (index h) = history h !! Z.to_nat (index h)).
    { rewrite lookup_app_l by lia. unfold kept. apply lookup_take_lt. lia. }
    assert (Hshown : state h = history h !! Z.to_nat (index h)).
    { unfold state, Js.at_index. by destruct (Z.ltb_spec (index h) 0); [lia|]. }
    destruct (Z.ltb_spec 50 (Z.of_nat (length (kept ++ [v])))) as [Hbig|Hsmall];
      intros _; rewrite Hshown; clear Hshown Hstate;
      unfold canUndo, state, Js.at_index; cbn [index history];
      rewrite ?tail_length, length_app in *; cbn [length] in *.
    - destruct (Z.gtb_spec (Z.of_nat (Nat.pred (length kept + 1)) - 1) 0); [|lia].
      split; [done|]. cbn [index history].
      destruct (Z.ltb_spec (Z.of_nat (Nat.pred (length kept + 1)) - 1 - 1) 0); [lia|].
      rewrite lookup_tail, <- Hold. f_equal. lia.
    - destruct (Z.gtb_spec (Z.of_nat (length kept + 1) - 1) 0); [|lia].
      split; [done|]. cbn [index history].
      destruct (Z.ltb_spec (Z.of_nat (length kept + 1) - 1 - 1) 0); [lia|].
      rewrite <- Hold. f_equal. lia. }
  destruct Hundo as [Hcan Hback]. split_and!; [done|done|].
  by rewrite (redo_undo _ Hv' Hcan).
Qed.

Lemma run_app h (events events' : list (list (action T))) :
  run h (events ++ events') = run (run h events) events'.
Proof. unfold run. apply fold_left_app. Qed.

Lemma tail_drop {A} (xs : list A) (d : nat) : tail (drop d xs) = drop (S d) xs.
Proof.
  revert xs. induction d as [|d IH]; intros [|x xs]; simpl; try done.
Qed.

(** The hook after the values [vs] were set, each at the render after the
    one before: the history holds the last 50 of the initial value and
    [vs], and the index is at its end. *)
Lemma run_setStates (v0 : T) (vs : list T) :
  let all := v0 :: vs in
  let kept := drop (length all - 50) all in
  run (useUndoRedo v0) (List.map (fun v => [SetState v]) vs)
  = Hook kept (Z.of_nat (length kept) - 1).
Proof.
  induction vs as [|v vs IH] using rev_ind; [done|].
  rewrite List.map_app, run_app, IH. cbn [List.map run fold_left]. cbv zeta.
  set (all := v0 :: vs).
  assert (Hall : v0 :: vs ++ [v] = all ++ [v]) by done. rewrite Hall.
  assert (Hlen : (1 <= length all)%nat) by (unfold all; simpl; lia).
  pose proof (length_drop all (length all - 50)) as Hdrop.
  unfold event, render. cbn [flat_map call]. unfold setState. cbn [index history].
  rewrite slice_from_start by lia.
  replace (Z.to_nat (Z.of_nat (length (drop (length all - 50) all)) - 1 + 1))
    with (length (drop (length all - 50) all)) by lia.
  rewrite firstn_all. rewrite app_nil_r, !length_app. cbn [length].
  destruct (Z.ltb_spec 50 (Z.of_nat (length (drop (length all - 50) all) + 1)));
    cbn [fold_left apply index history].
  - assert (Hfull : (50 <= length all)%nat) by lia.
    replace (length all + 1 - 50)%nat with (S (length all - 50)) by lia.
    rewrite <- tail_drop, drop_app_le by lia. done.
  - rewrite drop_app_le by lia.
    replace (length all + 1 - 50)%nat with (length all - 50)%nat by lia.
    by rewrite length_app.
Qed.

Lemma iter_undo (k : nat) (hist : list T) (i : Z) :
  0 <= i ->
  Nat.iter k (fun h => event h [Undo]) (Hook hist i)
  = Hook hist (Z.max (i - Z.of_nat k) 0).
Proof.
  intros Hi. induction k as [|k IH]; cbn [Nat.iter nat_rect].
  - f_equal. lia.
  - change (nat_rect _ _ _ k)
      with (Nat.iter k (fun h => event h [Undo]) (Hook hist i)).
    rewrite IH, undo_alone. cbn [index history].
    destruct (Z.gtb_spec (Z.max (i - Z.of_nat k) 0) 0); f_equal; lia.
Qed.

(** X10. After the values [vs] were set on a new hook, each at the render
    after the one before, [k] calls of [undo], each again at the render
    after the one before, show the value set [k] calls before the last, for
    every [k] up to the number of values set and below 50; [undo] is still
    possible after [k] calls exactly when [k] is below both the number of
    values set and 49. *)
Theorem undo_steps_back (v0 : T) (vs : list T) (k : nat) :
  let h := run (useUndoRedo v0) (List.map (fun v => [SetState v]) vs) in
  let back := Nat.iter k (fun h => event h [Undo]) h in
  ((k <= length vs)%nat -> (k < 50)%nat -> state back = rev (v0 :: vs) !! k) /\
  (canUndo back = true <-> (k < length vs)%nat /\ (k < 49)%nat).
Proof.
  cbv zeta. rewrite run_setStates. cbv zeta.
  set (all := v0 :: vs).
  assert (Hlen : length all = S (length vs)) by done.
  pose proof (length_drop all (length all - 50)) as Hdrop.
  rewrite iter_undo by lia. unfold state, canUndo, Js.at_index. cbn [index history].
  split.
  - intros Hk Hk50.
    destruct (Z.ltb_spec (Z.max (Z.of_nat (length (drop (length all - 50) all)) - 1
                                 - Z.of_nat k) 0) 0); [lia|].
    rewrite rev_alt. change (rev_append all []) with (reverse all).
    rewrite lookup_drop, reverse_lookup by lia. f_equal. lia.
  - rewrite Z.gtb_ltb, Z.ltb_lt. lia.
Qed.

End UndoRedoSteps.

(** *** [JSON.parse] reads back what [JSON.stringify] writes without
      indentation *)

Section CompactFacts.
Import Json Compact.

Lemma closes_head (c : N) (rest : jsstring) :
  closes (c :: rest) ->
  is_digit c = false /\ (c =? 46)%N = false /\ (c =? 101)%N = false
  /\ (c =? 69)%N = false /\ is_json_ws c = false.
Proof. intros [->|[->| ->]]; by vm_compute. Qed.

Lemma take_digits_closes (s rest : jsstring) :
  closes rest ->
  take_digits (s ++ rest) = let '(ds, r) := take_digits s in (ds, r ++ rest).
Proof.
  intros Hrest. induction s as [|c s IH]; simpl.
  - destruct rest as [|c rest]; [done|]. simpl.
    by destruct (closes_head _ _ Hrest) as (-> & _).
  - destruct (is_digit c); [|done]. rewrite IH. by destruct (take_digits s).
Qed.

Lemma parse_digits_closes (s rest ds r : jsstring) :
  closes rest ->
  parse_digits s = Some (ds, r) ->
  parse_digits (s ++ rest) = Some (ds, r ++ rest).
Proof.
  intros Hrest. unfold parse_digits. rewrite take_digits_closes by done.
  destruct (take_digits s) as [[|d ds'] r']; [done|]. by intros [= <- <-].
Qed.

Lemma parse_number_closes (s rest lit r : jsstring) :
  closes rest ->
  parse_number s = Some (lit, r) ->
  parse_number (s ++ rest) = Some (lit, r ++ rest).
Proof.
  intros Hrest.
  assert (Hint : forall t ds u,
    parse_int t = Some (ds, u) -> parse_int (t ++ rest) = Some (ds, u ++ rest)).
  { intros [|c t] ds u; [done|]. simpl.
    destruct (c =? 48)%N; [by intros [= <- <-]|].
    apply (parse_digits_closes (c :: t)), Hrest. }
  assert (Hfrac : forall t ds u,
    parse_frac t = Some (ds, u) -> parse_frac (t ++ rest) = Some (ds, u ++ rest)).
  { intros [|c t] ds u; simpl.
    - intros [= <- <-]. destruct rest as [|c rest]; [done|]. simpl.
      by destruct (closes_head _ _ Hrest) as (_ & -> & _).
    - destruct (c =? 46)%N; [|by intros [= <- <-]].
      destruct (parse_digits t) as [[ds' r']|] eqn:Hds; [|done].
      rewrite (parse_digits_closes _ _ _ _ Hrest Hds). by intros [= <- <-]. }
  assert (Hexp : forall t ds u,
    parse_exp t = Some (ds, u) -> parse_exp (t ++ rest) = Some (ds, u ++ rest)).
  { intros [|c t] ds u; simpl.
    - intros [= <- <-]. destruct rest as [|c rest]; [done|]. simpl.
      by destruct (closes_head _ _ Hrest) as (_ & _ & -> & -> & _).
    - destruct ((c =? 101) || (c =? 69))%N; [|by intros [= <- <-]].
      destruct t as [|sign t]; [done|]. simpl.
      destruct ((sign =? 43) || (sign =? 45))%N.
      + destruct (parse_digits t) as [[ds' r']|] eqn:Hds; [|done].
        rewrite (parse_digits_closes _ _ _ _ Hrest Hds). by intros [= <- <-].
      + destruct (parse_digits (sign :: t)) as [[ds' r']|] eqn:Hds; [|done].
        change (sign :: t ++ rest) with ((sign :: t) ++ rest).
        rewrite (parse_digits_closes (sign :: t) _ _ _ Hrest Hds).
        by intros [= <- <-]. }
  unfold parse_number.
  destruct s as [|c s].
  - simpl. done.
  - cbn [app]. destruct (c =? 45)%N.
    + destruct (parse_int s) as [[i s2]|] eqn:Hi; [|done].
      rewrite (Hint _ _ _ Hi). cbn [mbind option_bind].
      destruct (parse_frac s2) as [[f s3]|] eqn:Hf; [|done].
      rewrite (Hfrac _ _ _ Hf). cbn [mbind option_bind].
      destruct (parse_exp s3) as [[e s4]|] eqn:He; [|done].
      rewrite (Hexp _ _ _ He). cbn [mbind option_bind]. by intros [= <- <-].
    + destruct (parse_int (c :: s)) as [[i s2]|] eqn:Hi; [|done].
      change (c :: s ++ rest) with ((c :: s) ++ rest).
      rewrite (Hint _ _ _ Hi). cbn [mbind option_bind].
      destruct (parse_frac s2) as [[f s3]|] eqn:Hf; [|done].
      rewrite (Hfrac _ _ _ Hf). cbn [mbind option_bind].
      destruct (parse_exp s3) as [[e s4]|] eqn:He; [|done].
      rewrite (Hexp _ _ _ He). cbn [mbind option_bind]. by intros [= <- <-].
Qed.

Lemma compact_starts_value (v : json) :
  well_formed v = true -> starts_value (stringify v).
Proof.
  unfold starts_value. destruct v as [|[]|lit|s|items|members]; simpl; intros Hwf;
    try (eexists _, _; split; [reflexivity|]; by vm_compute).
  destruct (number_literal_head lit Hwf) as (c & t & -> & Hc).
  exists c, t. split; [done|].
  destruct Hc as [->|Hc]; [by vm_compute|]. apply digit_bounds in Hc.
  unfold is_json_ws. split; [|lia].
  repeat (apply orb_false_iff; split); apply N.eqb_neq; lia.
Qed.

Lemma skip_ws_closes (rest : jsstring) : closes rest -> skip_ws rest = rest.
Proof.
  destruct rest as [|c rest]; [done|]. intros Hc.
  destruct (closes_head _ _ Hc) as (_ & _ & _ & _ & Hws). by apply skip_ws_stop.
Qed.

Lemma parse_elements_compact (items : list json) (rest : jsstring) (fuel : nat) :
  items <> [] ->
  Forall reads_back items ->
  forallb well_formed items = true ->
  (list_sum (List.map (fun x => S (json_size x)) items) <= fuel)%nat ->
  parse_elements fuel
    (Js.join [44%N] (List.map stringify items) ++ 93%N :: rest) = Some (items, rest).
Proof.
  intros Hne Hall. revert fuel Hne.
  induction Hall as [|x xs Hx Hxs IH]; intros fuel Hne Hwf Hfuel; [done|].
  simpl in Hwf. apply andb_true_iff in Hwf as [Hwfx Hwfxs].
  simpl in Hfuel. destruct fuel as [|fuel]; [lia|].
  rewrite parse_elements_step.
  destruct xs as [|y ys].
  - cbn [List.map]. rewrite join_one.
    rewrite Hx; [|done|simpl in Hfuel; lia|by right; left].
    cbn [mbind option_bind]. rewrite skip_ws_stop by done.
    rewrite expect_other by done. by rewrite expect_head.
  - rewrite 2 map_cons, join_more, <- !app_assoc.
    rewrite Hx; [|done|simpl in Hfuel; lia|by left].
    cbn [mbind option_bind app]. rewrite skip_ws_stop by done.
    rewrite expect_head.
    assert (Hnext : starts_value
      (Js.join [44%N] (stringify y :: List.map stringify ys))).
    { apply join_starts_value, compact_starts_value.
      simpl in Hwfxs. by apply andb_true_iff in Hwfxs as [? _]. }
    rewrite skip_ws_starts_value by done. rewrite <- map_cons.
    rewrite IH by (done || simpl in *; lia). reflexivity.
Qed.

Lemma parse_members_compact (members : list (jsstring * json)) (rest : jsstring)
    (fuel : nat) :
  members <> [] ->
  Forall (fun m => reads_back (snd m)) members ->
  forallb (fun m => well_formed (snd m)) members = true ->
  (list_sum (List.map (fun m => S (json_size (snd m))) members) <= fuel)%nat ->
  parse_members fuel
    (Js.join [44%N]
       (List.map (fun m => quote (fst m) ++ 58%N :: stringify (snd m)) members)
     ++ 125%N :: rest) = Some (members, rest).
Proof.
  intros Hne Hall. revert fuel Hne.
  induction Hall as [|[k x] ms Hx Hms IH]; intros fuel Hne Hwf Hfuel; [done|].
  simpl in Hwf. apply andb_true_iff in Hwf as [Hwfx Hwfms].
  simpl in Hfuel, Hx. destruct fuel as [|fuel]; [lia|].
  assert (Hkey : forall t,
    parse_members (S fuel) (quote k ++ 58%N :: stringify x ++ t) =
      '(v, r3) ← parse_value fuel (stringify x ++ t);
      match expect 44 (skip_ws r3) with
      | Some r4 =>
          '(ms, r5) ← parse_members fuel (skip_ws r4); Some ((k, v) :: ms, r5)
      | None => r4 ← expect 125 (skip_ws r3); Some ([(k, v)], r4)
      end).
  { intros t. rewrite parse_members_step, quote_text, expect_head.
    cbn [mbind option_bind]. rewrite parse_quote_units. cbn [mbind option_bind].
    rewrite skip_ws_stop by done. rewrite expect_head. cbn [mbind option_bind].
    by rewrite skip_ws_starts_value by (by apply compact_starts_value). }
  destruct ms as [|[k' y] ms'].
  - cbn [List.map fst snd]. rewrite join_one, <- app_assoc.
    rewrite <- app_comm_cons.
    rewrite Hkey, Hx; [|done|simpl in Hfuel; lia|by right; right].
    cbn [mbind option_bind]. rewrite skip_ws_stop by done.
    rewrite expect_other by done. by rewrite expect_head.
  - rewrite map_cons, (map_cons _ (k', y)), join_more, <- !app_assoc. cbn [fst snd].
    rewrite <- app_comm_cons.
    rewrite Hkey, Hx; [|done|simpl in Hfuel; lia|by left].
    cbn [mbind option_bind app]. rewrite skip_ws_stop by done.
    rewrite expect_head.
    match goal with
    | |- context [parse_members fuel (skip_ws ?t)] =>
        assert (Hnext : skip_ws t = t)
    end.
    { apply skip_ws_starts_value, join_starts_value.
      rewrite quote_text. by eexists _, _. }
    rewrite Hnext.
    change (parse_members fuel ?t) with
      (parse_members fuel
         (Js.join [44%N]
            (List.map (fun m => quote (fst m) ++ 58%N :: stringify (snd m))
                      ((k', y) :: ms'))
          ++ 125%N :: rest)).
    rewrite IH by (done || simpl in *; lia). reflexivity.
Qed.

Lemma compact_array (items : list json) (rest : jsstring) :
  stringify (JArr items) ++ rest
  = 91%N :: Js.join [44%N] (List.map stringify items) ++ 93%N :: rest.
Proof. cbn [stringify]. by rewrite <- !app_assoc. Qed.

Lemma compact_object (members : list (jsstring * json)) (rest : jsstring) :
  stringify (JObj members) ++ rest
  = 123%N :: Js.join [44%N]
               (List.map (fun m => quote (fst m) ++ 58%N :: stringify (snd m)) members)
    ++ 125%N :: rest.
Proof. cbn [stringify]. by rewrite <- !app_assoc. Qed.

Lemma compact_reads_back (v : json) : reads_back v.
Proof.
  induction v as [|[]|lit|s|items IH|members IH] using json_ind;
    intros fuel rest Hwf Hfuel Hrest;
    (destruct fuel as [|fuel]; [simpl in Hfuel; lia|]).
  - reflexivity.
  - reflexivity.
  - reflexivity.
  - destruct (number_literal_head lit Hwf) as (c & t & -> & Hc).
    apply bool_decide_eq_true in Hwf.
    pose proof (parse_number_closes _ _ _ _ Hrest Hwf) as Hparse.
    cbn [stringify]. rewrite <- app_comm_cons, parse_value_open.
    assert (Htests : (c =? 123)%N = false /\ (c =? 91)%N = false
                     /\ (c =? 34)%N = false /\ (c =? 116)%N = false
                     /\ (c =? 102)%N = false /\ (c =? 110)%N = false).
    { destruct Hc as [->|Hc]; [by vm_compute|]. apply digit_bounds in Hc.
      repeat split; apply N.eqb_neq; lia. }
    destruct Htests as (-> & -> & -> & -> & -> & ->).
    rewrite app_comm_cons. by rewrite Hparse.
  - cbn [stringify]. rewrite quote_text, parse_value_open.
    replace (34 =? 123)%N with false by reflexivity.
    replace (34 =? 91)%N with false by reflexivity.
    replace (34 =? 34)%N with true by reflexivity.
    cbv iota. by rewrite parse_quote_units.
  - rewrite compact_array, parse_value_open.
    replace (91 =? 123)%N with false by reflexivity.
    replace (91 =? 91)%N with true by reflexivity. cbv iota.
    destruct items as [|x xs]; [reflexivity|].
    cbn [well_formed] in Hwf.
    assert (Hfirst : starts_value (Js.join [44%N] (List.map stringify (x :: xs)))).
    { rewrite map_cons. apply join_starts_value, compact_starts_value.
      simpl in Hwf. by apply andb_true_iff in Hwf as [? _]. }
    rewrite skip_ws_starts_value, expect_close_starts_value by done.
    rewrite parse_elements_compact; [done|done|done|done|simpl in Hfuel |- *; lia].
  - rewrite compact_object, parse_value_open.
    replace (123 =? 123)%N with true by reflexivity. cbv iota.
    destruct members as [|m ms]; [reflexivity|].
    cbn [well_formed] in Hwf. apply andb_true_iff in Hwf as [Hkeys Hwf].
    rewrite map_cons, (quote_text (fst m)).
    assert (Hjoin : forall sep t parts u,
      exists w, Js.join sep ((34%N :: t) :: parts) ++ u = 34%N :: w).
    { intros sep t [|p parts] u; by eexists. }
    match goal with
    | |- context [Js.join ?sep ((34%N :: ?t) :: ?parts) ++ ?u] =>
        destruct (Hjoin sep t parts u) as (w & Hw)
    end.
    rewrite Hw, skip_ws_stop, expect_other by done. rewrite <- Hw.
    rewrite <- quote_text,
      <- (map_cons (fun m => quote (fst m) ++ 58%N :: stringify (snd m))).
    rewrite parse_members_compact; [|done|done|done|simpl in Hfuel |- *; lia].
    cbn [mbind option_bind]. by rewrite build_object_ordered.
Qed.

Lemma compact_length (v : json) :
  well_formed v = true -> (S (json_size v) <= 2 * length (stringify v))%nat.
Proof.
  induction v as [|[]|lit|s|items IH|members IH] using json_ind;
    intros Hwf; try (simpl; lia).
  - destruct (number_literal_head lit Hwf) as (c & t & -> & _). simpl. lia.
  - pose proof (compact_array items []) as Heq. rewrite app_nil_r in Heq.
    rewrite Heq. cbn [length]. rewrite !length_app. cbn [length].
    pose proof (join_length [44%N] (List.map stringify items)) as Hjoin.
    pose proof (sizes_lengths json_size stringify items) as Hsum.
    cbn [well_formed] in Hwf. rewrite forallb_forall in Hwf.
    cbn [json_size]. rewrite Forall_forall in IH.
    assert (Hall : Forall (fun a => (S (json_size a)
                     <= 2 * length (stringify a))%nat) items).
    { apply Forall_forall. intros a Ha. apply IH; [done|].
      by apply Hwf, list_elem_of_In. }
    specialize (Hsum Hall). lia.
  - pose proof (compact_object members []) as Heq. rewrite app_nil_r in Heq.
    rewrite Heq. cbn [length]. rewrite !length_app. cbn [length].
    match goal with
    | |- context [Js.join ?sep ?parts] =>
        pose proof (join_length sep parts) as Hjoin
    end.
    pose proof (sizes_lengths (fun m => json_size (snd m))
                  (fun m => quote (fst m) ++ 58%N :: stringify (snd m)) members)
      as Hsum.
    cbn [well_formed] in Hwf. apply andb_true_iff in Hwf as [_ Hwf].
    rewrite forallb_forall in Hwf.
    cbn [json_size]. rewrite Forall_forall in IH.
    assert (Hall : Forall (fun a => (S (json_size (snd a))
                     <= 2 * length (quote (fst a) ++ 58%N
                                    :: stringify (snd a)))%nat) members).
    { apply Forall_forall. intros a Ha. rewrite !length_app. cbn [length].
      specialize (IH a Ha (Hwf a (proj1 (list_elem_of_In _ _) Ha))).
      lia. }
    specialize (Hsum Hall). lia.
Qed.

(** What [JSON.stringify(v)] writes, [JSON.parse] reads back as [v]. *)
Lemma JSON_parse_compact (v : json) :
  well_formed v = true -> JSON_parse (Compact.JSON_stringify v) = Some v.
Proof.
  intros Hwf. unfold JSON_parse, Compact.JSON_stringify.
  pose proof (compact_starts_value v Hwf) as Hstart.
  pose proof (skip_ws_starts_value _ [] Hstart) as Hskip.
  rewrite app_nil_r in Hskip. rewrite Hskip.
  pose proof (compact_reads_back v (2 + 2 * length (stringify v))%nat [] Hwf)
    as Hparse.
  rewrite app_nil_r in Hparse. rewrite Hparse; [done| |done].
  pose proof (compact_length v Hwf). lia.
Qed.

End CompactFacts.

(** *** The browser's storage *)

Section StorageFacts.
Import Json Storage.

Lemma stringify_not_empty (v : json) :
  well_formed v = true -> Js.truthy (Some (Compact.JSON_stringify v)) = true.
Proof.
  intros Hwf. destruct (compact_starts_value v Hwf) as (c & t & Heq & _).
  unfold Compact.JSON_stringify. by rewrite Heq.
Qed.

Lemma load_array_saved (key : jsstring) (data : json) (store : LocalStorage) :
  well_formed data = true ->
  load_array key true (<[key := Compact.JSON_stringify data]> store)
  = if isArray data then Some data else None.
Proof.
  intros Hwf. unfold load_array. cbn [negb]. rewrite lookup_insert_eq.
  rewrite stringify_not_empty by done. cbn [negb Js.nullish].
  by rewrite JSON_parse_compact.
Qed.

Lemma load_array_other (key key' text : jsstring) (store : LocalStorage) :
  key <> key' ->
  load_array key true (<[key' := text]> store) = load_array key true store.
Proof. intros Hne. unfold load_array. by rewrite lookup_insert_ne. Qed.

(** X11. What [savePhases] stores, [loadStoredPhases] reads back: after
    a write that the quota allows, the loader returns the data saved when it
    is an array, and [null] when it is not. The same holds of the
    connections; the entities are read back whatever their shape, [null]
    apart. A write under one key leaves what the loaders of the other keys
    return as it was. *)
Theorem storage_round_trip (data : json) (store : LocalStorage) :
  well_formed data = true ->
  (exists saved,
     savePhases true data true store = Some saved /\
     loadStoredPhases true saved = (if isArray data then Some data else None) /\
     loadStoredConnections true saved = loadStoredConnections true store /\
     loadStoredEntities true saved = loadStoredEntities true store) /\
  (exists saved,
     saveConnections true data true store = Some saved /\
     loadStoredConnections true saved = (if isArray data then Some data else None) /\
     loadStoredPhases true saved = loadStoredPhases true store) /\
  (exists saved,
     saveEntities true data true store = Some saved /\
     loadStoredEntities true saved = or_null data /\
     loadStoredPhases true saved = loadStoredPhases true store).
Proof.
  intros Hwf. split_and!; eexists; (split; [reflexivity|]).
  - split_and!.
    + by apply load_array_saved.
    + by apply load_array_other.
    + unfold loadStoredEntities. by rewrite lookup_insert_ne.
  - split.
    + by apply load_array_saved.
    + by apply load_array_other.
  - split.
    + unfold loadStoredEntities. cbn [negb]. rewrite lookup_insert_eq.
      rewrite stringify_not_empty by done. cbn [negb Js.nullish].
      by rewrite JSON_parse_compact.
    + by apply load_array_other.
Qed.

Lemma JSON_parse_empty : JSON_parse [] = None.
Proof. reflexivity. Qed.

Lemma load_array_Some (key : jsstring) (window : bool) (store : LocalStorage)
    (v : json) :
  load_array key window store = Some v <->
  window = true /\
  exists raw, store !! key = Some raw /\ JSON_parse raw = Some v /\ isArray v = true.
Proof.
  unfold load_array. destruct window; cbn [negb]; [|by split; [|intros [? _]]].
  destruct (store !! key) as [raw|]; cbn [Js.truthy Js.nullish negb].
  - destruct raw as [|c raw]; cbn [negb].
    + split; [done|]. by intros (_ & raw & [= <-] & Hparse & _).
    + destruct (JSON_parse (c :: raw)) as [parsed|] eqn:Hparse.
      * destruct (isArray parsed) eqn:Harr.
        -- split.
           ++ intros [= <-]. split; [done|]. by exists (c :: raw).
           ++ intros (_ & raw' & [= <-] & Hparse' & _). congruence.
        -- split; [done|].
           intros (_ & raw' & [= <-] & Hparse' & Harr'). congruence.
      * split; [done|]. intros (_ & raw' & [= <-] & Hparse' & _). congruence.
  - split; [done|]. by intros (_ & raw & ? & _).
Qed.

(** X12. [loadStoredPhases] and [loadStoredConnections] return a value
    exactly when there is a [window], the key holds a text, the text is JSON
    and the value it denotes is an array. [loadStoredEntities] checks no
    shape: it returns whatever value the stored text denotes, [null] apart. *)
Theorem loaders_accept (window : bool) (store : LocalStorage) (v : json) :
  (loadStoredPhases window store = Some v <->
   window = true /\
   exists raw, store !! storageKey = Some raw /\ JSON_parse raw = Some v
               /\ isArray v = true) /\
  (loadStoredConnections window store = Some v <->
   window = true /\
   exists raw, store !! connectionsStorageKey = Some raw /\ JSON_parse raw = Some v
               /\ isArray v = true) /\
  (loadStoredEntities window store = Some v <->
   window = true /\
   exists raw, store !! entityStorageKey = Some raw /\ JSON_parse raw = Some v
               /\ v <> JNull).
Proof.
  split_and!; [apply load_array_Some..|].
  unfold loadStoredEntities. destruct window; cbn [negb]; [|by split; [|intros [? _]]].
  destruct (store !! entityStorageKey) as [raw|]; cbn [Js.truthy Js.nullish negb].
  - destruct raw as [|c raw]; cbn [negb].
    + split; [done|]. by intros (_ & raw & [= <-] & Hparse & _).
    + destruct (JSON_parse (c :: raw)) as [parsed|] eqn:Hparse.
      * split.
        -- intros Hv. split; [done|]. exists (c :: raw).
           destruct parsed; try done; injection Hv as <-; by split_and!.
        -- intros (_ & raw' & [= <-] & Hparse' & Hnull).
           rewrite Hparse in Hparse'. injection Hparse' as ->. by destruct v.
      * split; [done|]. intros (_ & raw' & [= <-] & Hparse' & _). congruence.
  - split; [done|]. by intros (_ & raw & ? & _).
Qed.

End StorageFacts.

(** *** The sync client and the gate *)

Section ClientFacts.
Import Client.

Lemma drop_run_spec (c : N) (s : jsstring) :
  exists k, s = repeat c k ++ Js.drop_run c s /\ head (Js.drop_run c s) <> Some c.
Proof.
  induction s as [|x s (k & Hs & Hhead)]; simpl.
  - by exists 0%nat.
  - destruct (N.eqb_spec x c) as [->|Hx].
    + exists (S k). split; [|done]. simpl. by rewrite <- Hs.
    + exists 0%nat. split; [done|]. simpl. congruence.
Qed.

Lemma repeat_rev {A} (x : A) (k : nat) : rev (repeat x k) = repeat x k.
Proof.
  induction k as [|k IH]; [done|]. simpl. rewrite IH.
  clear IH. induction k as [|k IH]; [done|]. simpl. by rewrite IH.
Qed.

(** [s.replace(/c+$/, '')] takes the run of [c] off the end and nothing
    else. *)
Lemma strip_trailing_spec (c : N) (s : jsstring) :
  exists k, s = Js.strip_trailing c s ++ repeat c k /\
            last (Js.strip_trailing c s) <> Some c.
Proof.
  unfold Js.strip_trailing. destruct (drop_run_spec c (rev s)) as (k & Hs & Hhead).
  exists k. split.
  - rewrite <- (repeat_rev c k), <- rev_app_distr, <- Hs. by rewrite rev_involutive.
  - destruct (Js.drop_run c (rev s)) as [|x t]; [done|].
    simpl. rewrite last_snoc. simpl in Hhead. congruence.
Qed.

(** X13. A request with the headers the client builds passes the gate of
    the server exactly when the server has no secret, or its secret is the
    client's token, which is the configured token trimmed. A secret that
    starts or ends with white space therefore locks the client out. *)
Theorem client_passes_gate (env : Env) (cfg : Server.Config) (includeJson : bool)
    (body : option Json.json) :
  let req := request (buildSyncHeaders env includeJson) body in
  (Server.requireSyncAuth cfg req = true <->
   Js.truthy (Server.syncToken cfg) = false
   \/ Server.syncToken cfg = Some (syncToken env)) /\
  (forall secret,
     Server.syncToken cfg = Some secret -> secret <> [] -> Js.trim secret <> secret ->
     Server.requireSyncAuth cfg req = false).
Proof.
  cbv zeta.
  assert (Htoken : forall secret,
    Server.syncToken cfg = Some secret -> secret <> [] ->
    Server.requireSyncAuth cfg (request (buildSyncHeaders env includeJson) body)
    = bool_decide (syncToken env = secret)).
  { intros secret Hcfg Hsecret.
    rewrite (requireSyncAuth_spec _ _ _ Hcfg Hsecret), getAuthToken_spec.
    unfold request, buildSyncHeaders. cbn [Server.authorization Server.x_sync_token
      Authorization].
    destruct (syncToken env) as [|c t] eqn:Ht; cbn [Js.truthy].
    - rewrite bool_decide_eq_false_2 by done.
      by rewrite bool_decide_eq_false_2 by congruence.
    - replace (Js.startsWith (Js.lit "Bearer ") (Js.lit "Bearer " ++ c :: t))
        with true by (symmetry; apply startsWith_spec; by eexists).
      rewrite (drop_app_length (Js.lit "Bearer ")).
      destruct (decide (c :: t = secret)) as [->|Hne].
      + by rewrite !bool_decide_eq_true_2.
      + rewrite !bool_decide_eq_false_2; [done|done|congruence]. }
  split.
  - destruct (Server.syncToken cfg) as [[|c secret]|] eqn:Hcfg.
    + rewrite requireSyncAuth_open by (by rewrite Hcfg). split; [by left|done].
    + rewrite (Htoken _ eq_refl) by done. rewrite bool_decide_eq_true.
      split; [intros ->; by right|]. by intros [?|[= ->]].
    + rewrite requireSyncAuth_open by (by rewrite Hcfg). split; [by left|done].
  - intros secret Hcfg Hsecret Htrim. rewrite (Htoken _ Hcfg) by done.
    apply bool_decide_eq_false_2. intros Heq. apply Htrim. rewrite <- Heq.
    unfold syncToken. apply trim_idempotent.
Qed.

(** X14. The base URL of the sync server never ends with a slash: it is
    the configured URL, trimmed, less the slashes that end it; sync is
    enabled exactly when something is left, so a URL made of slashes only
    disables it. The host of Ollama is treated alike, the default standing
    in for a host that is not set or empty. *)
Theorem base_urls_tidy (env : Env) (s : Ai.Settings) :
  last (syncUrl env) <> Some 47%N /\
  (exists k,
     Js.trim (default [] (VITE_SYNC_URL env)) = syncUrl env ++ repeat 47%N k) /\
  (syncEnabled env = false <->
   exists k, Js.trim (default [] (VITE_SYNC_URL env)) = repeat 47%N k) /\
  last (Ai.ollamaHost s) <> Some 47%N /\
  (forall host, Ai.OLLAMA_HOST s = Some host -> host <> [] ->
                exists k, host = Ai.ollamaHost s ++ repeat 47%N k) /\
  (Ai.OLLAMA_HOST s = None \/ Ai.OLLAMA_HOST s = Some [] ->
   Ai.ollamaHost s = Js.lit "http://127.0.0.1:11434").
Proof.
  assert (Hurl : Js.nullish (Js.or_else (VITE_SYNC_URL env) (Some [])) []
                 = default [] (VITE_SYNC_URL env)).
  { by destruct (VITE_SYNC_URL env) as [[|c u]|]. }
  unfold syncEnabled, syncUrl. rewrite Hurl.
  destruct (strip_trailing_spec 47 (Js.trim (default [] (VITE_SYNC_URL env))))
    as (k & Hk & Hlast).
  split_and!.
  - done.
  - by exists k.
  - split.
    + intros Hoff. exists k. rewrite Hk at 1.
      by destruct (Js.strip_trailing 47 _).
    + intros (k' & Hk'). rewrite Hk' in Hlast |- *. clear -Hlast.
      destruct (strip_trailing_spec 47 (repeat 47%N k')) as (j & Hj & _).
      destruct (Js.strip_trailing 47 (repeat 47%N k')) as [|c t] using rev_ind;
        [done|].
      rewrite last_snoc in Hlast. 
      assert (Hin : c ∈ repeat 47%N k').
      { rewrite Hj. apply elem_of_app. left. apply elem_of_app. right. by left. }
      apply list_elem_of_In, repeat_spec in Hin. congruence.
  - unfold Ai.ollamaHost.
    by destruct (strip_trailing_spec 47
      (Js.nullish (Js.or_else (Ai.OLLAMA_HOST s)
         (Some (Js.lit "http://127.0.0.1:11434"))) [])) as (? & _ & ?).
  - intros host Hhost Hne. unfold Ai.ollamaHost. rewrite Hhost.
    destruct host as [|c host]; [done|]. cbn [Js.or_else Js.truthy Js.nullish].
    destruct (strip_trailing_spec 47 (c :: host)) as (j & Hj & _). by exists j.
  - unfold Ai.ollamaHost. by intros [-> | ->].
Qed.

End ClientFacts.

(** *** Keyboard shortcuts *)

Section KeyboardFacts.
Import Keyboard.

Ltac settle_keys :=
  repeat match goal with
         | |- context [bool_decide (Js.lit ?a = Js.lit ?b)] =>
             let r := eval vm_compute in (bool_decide (Js.lit a = Js.lit b)) in
             change (bool_decide (Js.lit a = Js.lit b)) with r
         | H : ?k <> Js.lit ?b |- context [bool_decide (?k = Js.lit ?b)] =>
             rewrite (bool_decide_eq_false_2 (k = Js.lit b) H)
         end.

Ltac settle_table :=
  cbn [andb orb negb]; try split; intros;
  try match goal with
      | H : ?x <> ?x |- _ => by destruct H
      end;
  repeat match goal with
         | H : _ /\ _ |- _ => destruct H
         | H : _ \/ _ |- _ => destruct H
         end;
  try discriminate; try congruence;
  try match goal with
      | H : Js.lit _ = Js.lit _ |- _ => by vm_compute in H
      end;
  try (split_and!; first [done | by left | by right]).

(** X15. A key press runs at most one handler, after preventing the
    default action, and none when the handler is not given. Escape runs
    [onEscape] whatever the modifiers. The other shortcuts need the
    platform's modifier: the meta key on a Mac, the control key elsewhere,
    the other of the two being ignored; so a key other than Escape pressed
    without it is left alone. Undo never runs with the shift key down, and
    redo runs on [y] or on [z] with the shift key. *)
Theorem handleKeyDown_table (isMac : bool) (shortcuts : Shortcuts)
    (event : KeyboardEvent) :
  let modKey := if isMac then metaKey event else ctrlKey event in
  let run := handleKeyDown isMac shortcuts event in
  (run = Some Escape <-> key event = Js.lit "Escape" /\ onEscape shortcuts = true) /\
  (key event <> Js.lit "Escape" -> modKey = false -> run = None) /\
  (run = Some Save <->
   modKey = true /\ key event = Js.lit "s" /\ onSave shortcuts = true) /\
  (run = Some CommandPalette <->
   modKey = true /\ key event = Js.lit "k" /\ onCommandPalette shortcuts = true) /\
  (run = Some Undo <->
   modKey = true /\ key event = Js.lit "z" /\ shiftKey event = false
   /\ onUndo shortcuts = true) /\
  (run = Some Redo <->
   modKey = true /\ onRedo shortcuts = true /\
   (key event = Js.lit "y" \/ (key event = Js.lit "z" /\ shiftKey event = true))) /\
  (forall other,
     handleKeyDown isMac shortcuts
       {| key := key event;
          metaKey := if isMac then metaKey event else other;
          ctrlKey := if isMac then other else ctrlKey event;
          shiftKey := shiftKey event |} = run).
Proof.
  cbv zeta. split_and!; [..|intros other; by destruct isMac];
    unfold handleKeyDown, Js.eqb;
    destruct event as [k meta ctrl shift]; cbn [key metaKey ctrlKey shiftKey];
    destruct shortcuts as [esc save palette undo redo];
    cbn [onEscape onSave onCommandPalette onUndo onRedo];
    generalize (if isMac then meta else ctrl); intros m;
    (destruct (decide (k = Js.lit "Escape")) as [->|?];
     [|destruct (decide (k = Js.lit "s")) as [->|?];
       [|destruct (decide (k = Js.lit "k")) as [->|?];
         [|destruct (decide (k = Js.lit "z")) as [->|?];
           [|destruct (decide (k = Js.lit "y")) as [->|?]]]]]);
    settle_keys;
    destruct m, shift, esc, save, palette, undo, redo; settle_table.
Qed.

End KeyboardFacts.

(** *** The subphase setup parser *)

Section SubSetupFacts.
Import Json Setup SubSetup.

Lemma indexOf_from_found (c : N) (s : jsstring) (k i : Z) :
  Js.indexOf_from [c] s k = i -> 0 <= k -> k <= i ->
  exists pre rest, s = pre ++ c :: rest /\ Z.of_nat (length pre) = i - k.
Proof.
  revert k. induction s as [|x s IH]; intros k; simpl; [lia|].
  destruct (N.eqb_spec c x) as [->|Hc]; cbn [andb].
  - intros <- _ _. exists [], s. split; [done|]. simpl. lia.
  - intros Hi Hk0 Hk. 
    assert (k + 1 <= i).
    { assert (Hge : forall t j,
        Js.indexOf_from [c] t j = -1 \/ j <= Js.indexOf_from [c] t j).
      { clear. induction t as [|y t IHt]; intros j; simpl; [by left|].
        destruct (c =? y)%N; cbn [andb]; [right; lia|].
        destruct (IHt (j + 1)); [by left|right; lia]. }
      destruct (Hge s (k + 1)); lia. }
    destruct (IH _ Hi) as (pre & rest & -> & Hlen); [lia|done|].
    exists (x :: pre), rest. split; [done|]. simpl. lia.
Qed.

(** What [extractJsonObject] returns is an object: the text it parses
    starts with a brace. *)
Lemma extractJsonObject_object (text : jsstring) (v : json) :
  extractJsonObject text = Some v -> exists members, v = JObj members.
Proof.
  unfold extractJsonObject.
  set (start := Js.indexOf (Js.lit "{") text).
  set (end_ := Js.lastIndexOf (Js.lit "}") text).
  destruct (Z.ltb_spec start 0) as [|Hstart]; [done|].
  destruct (Z.ltb_spec end_ 0) as [|Hend]; [done|].
  destruct (Z.leb_spec end_ start) as [|Hlt]; [done|]. cbn [orb].
  destruct (indexOf_from_found 123 text 0 start) as (pre & rest & Htext & Hpre);
    [done|lia|lia|].
  assert (Hslice : exists t, Js.slice start (end_ + 1) text = 123%N :: t).
  { unfold Js.slice, Js.clamp_index.
    destruct (Z.ltb_spec start 0); [lia|]. destruct (Z.ltb_spec (end_ + 1) 0); [lia|].
    rewrite Htext, length_app. cbn [length].
    rewrite (Z.min_l start) by lia.
    replace (Z.to_nat start) with (length pre) by lia.
    rewrite drop_app_length.
    destruct (Z.to_nat (Z.min (end_ + 1) (Z.of_nat (length pre + S (length rest)))
                        - start)) as [|n] eqn:Hn; [lia|].
    by eexists. }
  destruct Hslice as (t & ->). apply JSON_parse_object.
Qed.

(** X16. [parseSubphaseSetup] returns [null] on the texts on which
    [parsePhaseSetup] does, which are those where no object is found:
    what is extracted is always an object, so the test of its type never
    fails. On the other texts its title, range and prompt are the trimmed
    strings under these keys, absent when the key holds anything else; its
    title and range are those [parsePhaseSetup] finds in the same text; and
    no field starts or ends with white space. *)
Theorem parseSubphaseSetup_spec (text : jsstring) :
  (parseSubphaseSetup text = None <-> extractJsonObject text = None) /\
  (parseSubphaseSetup text = None <-> parsePhaseSetup text = None) /\
  (forall value,
     extractJsonObject text = Some value ->
     let string_at key :=
       match get (Some value) (Js.lit key) with
       | Some (JStr s) => Some (Js.trim s)
       | _ => None
       end in
     parseSubphaseSetup text
     = Some {| SubSetup.title := string_at "title"%string;
               SubSetup.range := string_at "range"%string;
               SubSetup.prompt := string_at "prompt"%string |}) /\
  (forall sub phase,
     parseSubphaseSetup text = Some sub -> parsePhaseSetup text = Some phase ->
     SubSetup.title sub = Setup.title phase /\
     SubSetup.range sub = Setup.range phase) /\
  (forall sub s,
     parseSubphaseSetup text = Some sub ->
     SubSetup.title sub = Some s \/ SubSetup.range sub = Some s
     \/ SubSetup.prompt sub = Some s ->
     Js.trim s = s).
Proof.
  assert (Hempty : extractJsonObject [] = None) by done.
  assert (Hsub : parseSubphaseSetup text =
    match extractJsonObject text with
    | Some value =>
        Some {| SubSetup.title := pickString (Some value) "title";
                SubSetup.range := pickString (Some value) "range";
                SubSetup.prompt := pickString (Some value) "prompt" |}
    | None => None
    end).
  { unfold parseSubphaseSetup. destruct text as [|c text]; [done|].
    cbn [Js.truthy negb].
    destruct (extractJsonObject (c :: text)) as [value|] eqn:Hvalue; [|done].
    by destruct (extractJsonObject_object _ _ Hvalue) as (members & ->). }
  assert (Hphase : parsePhaseSetup text = None <-> extractJsonObject text = None).
  { unfold parsePhaseSetup. destruct text as [|c text]; [done|].
    cbn [Js.truthy negb].
    destruct (extractJsonObject (c :: text)) as [value|] eqn:Hvalue; [|done].
    by destruct (extractJsonObject_object _ _ Hvalue) as (members & ->). }
  assert (Hpick : forall value key s,
    pickString value key = Some s -> Js.trim s = s).
  { intros value key s. unfold pickString.
    destruct (get value (Js.lit key)) as [[]|]; try done.
    intros [= <-]. apply trim_idempotent. }
  split_and!.
  - rewrite Hsub. by destruct (extractJsonObject text).
  - rewrite Hphase, Hsub. by destruct (extractJsonObject text).
  - intros value Hvalue. cbv zeta. rewrite Hsub, Hvalue. reflexivity.
  - intros sub phase. rewrite Hsub. unfold parsePhaseSetup.
    destruct text as [|c text]; [done|]. cbn [Js.truthy negb].
    destruct (extractJsonObject (c :: text)) as [value|] eqn:Hvalue; [|done].
    destruct (extractJsonObject_object _ _ Hvalue) as (members & ->).
    cbn [truthy typeof_object negb orb]. by intros [= <-] [= <-].
  - intros sub s. rewrite Hsub.
    destruct (extractJsonObject text) as [value|]; [|done].
    intros [= <-]. cbn [SubSetup.title SubSetup.range SubSetup.prompt].
    intros [H|[H|H]]; by apply Hpick in H.
Qed.

End SubSetupFacts.

(** *** More of the sync and upload store *)

Section StoreFacts.
Import Json Server.
Variable Buffer_from_base64 : jsstring -> list N.

(** X17. With a secret configured, a request passes the gate exactly
    when its Authorization header is [Bearer ] followed by the secret, or
    the header does not start with [Bearer ] and [x-sync-token] is the
    secret. A header that starts with [Bearer ] and carries another token
    is refused, whatever [x-sync-token] holds. *)
Theorem requireSyncAuth_exact (cfg : Config) (route : Route) (req : Request)
    (env : Env) (d : Disk) (secret : jsstring) :
  syncToken cfg = Some secret -> secret <> [] ->
  let bearer := exists token, authorization req = Some (Js.lit "Bearer " ++ token) in
  (requireSyncAuth cfg req = true <->
   authorization req = Some (Js.lit "Bearer " ++ secret)
   \/ (~ bearer /\ x_sync_token req = Some secret)) /\
  (bearer -> authorization req <> Some (Js.lit "Bearer " ++ secret) ->
   serve Buffer_from_base64 cfg route req env d = (unauthorized, d)).
Proof.
  intros Hcfg Hsecret bearer.
  assert (Hgate : requireSyncAuth cfg req = true <->
    authorization req = Some (Js.lit "Bearer " ++ secret)
    \/ (~ bearer /\ x_sync_token req = Some secret)).
  { assert (Hb : forall t,
      Js.startsWith (Js.lit "Bearer ") (Js.lit "Bearer " ++ t) = true).
    { intros t. apply startsWith_spec. by eexists. }
    rewrite (requireSyncAuth_spec _ _ _ Hcfg Hsecret), getAuthToken_spec.
    rewrite bool_decide_eq_true. unfold bearer.
    destruct (authorization req) as [header|].
    - destruct (Js.startsWith (Js.lit "Bearer ") header) eqn:Hstart.
      + apply startsWith_spec in Hstart as (t & ->).
        rewrite (drop_app_length (Js.lit "Bearer ")). split.
        * intros [= ->]. by left.
        * intros [[= Heq]|[Hno _]].
          -- by rewrite Heq.
          -- destruct Hno. by exists t.
      + split.
        * intros Hx. right. split; [|done]. intros (t & Ht).
          assert (Hh : header = Js.lit "Bearer " ++ t) by congruence.
          by rewrite Hh, Hb in Hstart.
        * intros [Hs|[_ Hx]]; [|done].
          assert (Hh : header = Js.lit "Bearer " ++ secret) by congruence.
          by rewrite Hh, Hb in Hstart.
    - split.
      + intros Hx. right. split; [|done]. by intros (t & ?).
      + by intros [?|[_ Hx]]. }
  split; [done|]. intros Hbearer Hother. unfold serve.
  destruct (requireSyncAuth cfg req) eqn:Hauth; [|done].
  destruct (proj1 Hgate eq_refl) as [?|[Hno _]]; done.
Qed.

Lemma body_get (req : Request) (k : jsstring) :
  get (match body req with
       | None | Some JNull => Some (JObj [])
       | other => other
       end) k = get (body req) k.
Proof. by destruct (body req) as [[]|]. Qed.

(** The test of the upload route on the body. *)
Lemma postUpload_guard (cfg : Config) (req : Request) (env : Env) (d : Disk) :
  let fileName := get (body req) (Js.lit "fileName") in
  let data := get (body req) (Js.lit "data") in
  negb (truthy fileName) || negb (truthy data) || negb (is_string data)
  = negb (truthy fileName
          && match data with
             | Some (JStr (_ :: _)) => true
             | _ => false
             end).
Proof.
  cbv zeta. destruct (truthy (get (body req) (Js.lit "fileName"))); [|done].
  destruct (get (body req) (Js.lit "data")) as [[| | |[|c s]| |]|];
    cbn [is_string negb andb]; by rewrite ?orb_true_r.
Qed.

(** X18. The upload route answers 400 exactly when the body has no
    truthy [fileName] or its [data] is not a string that is not empty; it
    then writes nothing, and this whatever the clock and the disk. *)
Theorem postUpload_rejects (cfg : Config) (req : Request) (env : Env) (d : Disk) :
  let fileName := get (body req) (Js.lit "fileName") in
  let data := get (body req) (Js.lit "data") in
  let complete :=
    truthy fileName && match data with
                       | Some (JStr (_ :: _)) => true
                       | _ => false
                       end in
  (complete = false ->
   postUpload Buffer_from_base64 cfg req env d
   = (json_response 400 [prop "error" (Some (JStr (Js.lit "Missing file payload")))],
      d)) /\
  (status (fst (postUpload Buffer_from_base64 cfg req env d)) = 400
   <-> complete = false).
Proof.
  cbv zeta. pose proof (postUpload_guard cfg req env d) as Hguard. cbv zeta in Hguard.
  unfold postUpload. cbv zeta. rewrite !body_get, Hguard.
  destruct (truthy (get (body req) (Js.lit "fileName")) && _); cbn [negb].
  - split; [done|]. split; [|done].
    destruct (safeBase _); [|done].
    by destruct (writeFileSync _ _ _ _) as [[] ?].
  - done.
Qed.

Lemma indexOf_from_none (p s : jsstring) (i : Z) :
  (forall t u, s <> t ++ p ++ u) -> Js.indexOf_from p s i = -1.
Proof.
  revert i. induction s as [|c s IH]; intros i Hno; simpl.
  - destruct (Js.startsWith p []) eqn:Hstart; [|done].
    apply startsWith_spec in Hstart as (u & Hu). by destruct (Hno [] u).
  - destruct (Js.startsWith p (c :: s)) eqn:Hstart.
    + apply startsWith_spec in Hstart as (u & Hu). by destruct (Hno [] u).
    + apply IH. intros t u ->. by destruct (Hno (c :: t) u).
Qed.

Lemma indexOf_from_at (p pre rest : jsstring) (i : Z) :
  (forall t u v, t <> [] -> pre = v ++ t -> t ++ p ++ rest <> p ++ u) ->
  Js.indexOf_from p (pre ++ p ++ rest) i = i + Z.of_nat (length pre).
Proof.
  revert i. induction pre as [|c pre IH]; intros i Hno.
  - cbn [app length]. destruct (p ++ rest) as [|x xs] eqn:Hp; simpl.
    + destruct p; [simpl; lia|done].
    + replace (Js.startsWith p (x :: xs)) with true; [lia|].
      symmetry. apply startsWith_spec. exists rest. by rewrite <- Hp.
  - cbn [app Js.indexOf_from].
    destruct (Js.startsWith p (c :: pre ++ p ++ rest)) eqn:Hstart.
    + apply startsWith_spec in Hstart as (u & Hu).
      by destruct (Hno (c :: pre) u []).
    + rewrite IH; [cbn [length]; lia|].
      intros t u v Ht ->. apply (Hno t u (c :: v)); done.
Qed.

(** The payload of a data URL: what follows [base64,], when neither the
    part before it nor the part after it holds a comma. *)
Lemma data_url_payload (pre text : jsstring) :
  (44%N ∉ pre) -> (44%N ∉ text) ->
  Js.includes (Js.lit "base64,") (pre ++ (Js.lit "base64,") ++ text) = true /\
  Js.split_second (Js.lit "base64,") (pre ++ (Js.lit "base64,") ++ text) = Some text.
Proof.
  intros Hpre Htext.
  assert (Hcomma : forall t u : jsstring, (44%N ∉ t) -> t <> (Js.lit "base64,") ++ u).
  { intros t u Ht ->. apply Ht. apply elem_of_app. left.
    apply (bool_decide_unpack _). by vm_compute. }
  assert (Hfirst : Js.indexOf (Js.lit "base64,") (pre ++ (Js.lit "base64,") ++ text)
                   = Z.of_nat (length pre)).
  { unfold Js.indexOf. rewrite indexOf_from_at; [lia|].
    intros t u v Ht -> Heq.
    assert (Hin : forall n : nat, (n < length t)%nat ->
      (t ++ (Js.lit "base64,") ++ text) !! n <> Some 44%N).
    { intros n Hn Hc. rewrite lookup_app_l in Hc by done.
      apply Hpre. apply elem_of_app. right. by eapply list_elem_of_lookup_2. }
    assert (Hsix : ((Js.lit "base64,") ++ u) !! 6%nat = Some 44%N) by done.
    rewrite <- Heq in Hsix.
    destruct (decide (6 < length t)%nat) as [Hlong|Hshort].
    - by apply (Hin 6%nat).
    - rewrite lookup_app_r in Hsix by lia.
      destruct t as [|t1 [|t2 [|t3 [|t4 [|t5 [|t6 [|t7 t]]]]]]];
        try done; simpl in Hshort; lia. }
  assert (Hlast : Js.indexOf (Js.lit "base64,") text = -1).
  { unfold Js.indexOf. apply indexOf_from_none. intros t u ->.
    apply Htext. apply elem_of_app. right. apply elem_of_app. left.
    apply (bool_decide_unpack _). by vm_compute. }
  unfold Js.includes, Js.split_second. rewrite Hfirst.
  destruct (Z.leb_spec 0 (Z.of_nat (length pre))); [|lia]. split; [done|].
  destruct (Z.ltb_spec (Z.of_nat (length pre)) 0); [lia|].
  rewrite Nat2Z.id, <- length_app, app_assoc, drop_app_length, Hlast. done.
Qed.

Lemma no_base64_mark (data : jsstring) :
  (44%N ∉ data) -> Js.includes (Js.lit "base64,") data = false.
Proof.
  intros Hdata. unfold Js.includes, Js.indexOf. rewrite indexOf_from_none; [done|].
  intros t u ->. apply Hdata. apply elem_of_app. right. apply elem_of_app. left.
  apply (bool_decide_unpack _). by vm_compute.
Qed.

(** X19. An upload that passes the test with a file name that is a
    string is answered, when the write succeeds, with the URL [/uploads/]
    followed by the stored name, the sanitised file name, the file type
    given (the empty string when none is) and the number of bytes written,
    which are those the payload decodes to. The payload of a data URL is
    what follows [base64,], and a text without a comma is its own payload.
    When the write fails the answer is 500, and the disk is as it was if the
    file could not be opened. *)
Theorem postUpload_response (cfg : Config) (req : Request) (env : Env) (d : Disk)
    (fileName data : jsstring) :
  get (body req) (Js.lit "fileName") = Some (JStr fileName) ->
  fileName <> [] ->
  get (body req) (Js.lit "data") = Some (JStr data) ->
  data <> [] ->
  let payload :=
    if Js.includes (Js.lit "base64,") data
    then default [] (Js.split_second (Js.lit "base64,") data)
    else data in
  let bytes := Buffer_from_base64 payload in
  let fileType := get (body req) (Js.lit "fileType") in
  (exists base,
     safeBase (JStr fileName) = Some base /\
     let name := uniqueName (now env) base in
     (disk_write env = WriteOk ->
      postUpload Buffer_from_base64 cfg req env d
      = (json_response 200
           [prop "url" (Some (JStr (Js.lit "/uploads/" ++ name)));
            prop "fileName" (Some (JStr base));
            prop "fileType" (Some (if truthy fileType then default JNull fileType
                                   else JStr []));
            prop "size" (Some (JNum (Js.of_nat (length bytes))))],
         <[uploadsDir cfg ++ [name] := bytes]> d))) /\
  (disk_write env <> WriteOk ->
   status (fst (postUpload Buffer_from_base64 cfg req env d)) = 500) /\
  (disk_write env = WriteFailsAtOpen ->
   snd (postUpload Buffer_from_base64 cfg req env d) = d) /\
  (forall pre text,
     data = pre ++ Js.lit "base64," ++ text -> (44%N ∉ pre) -> (44%N ∉ text) ->
     payload = text) /\
  ((44%N ∉ data) -> payload = data).
Proof.
  intros Hname Htruthy Hdata Hne payload bytes fileType.
  destruct (safeBase (JStr fileName)) as [base|] eqn:Hbase; [|done].
  set (name := uniqueName (now env) base).
  assert (Hrun : postUpload Buffer_from_base64 cfg req env d =
    match writeFileSync (uploadsDir cfg ++ [name]) bytes (disk_write env) d with
    | (true, d') =>
        (json_response 200
           [prop "url" (Some (JStr (Js.lit "/uploads/" ++ name)));
            prop "fileName" (Some (JStr base));
            prop "fileType" (Some (if truthy fileType then default JNull fileType
                                   else JStr []));
            prop "size" (Some (JNum (Js.of_nat (length bytes))))], d')
    | (false, d') =>
        (json_response 500 [prop "error" (Some (JStr (Js.lit "Failed to store file")))],
         d')
    end).
  { unfold postUpload. cbv zeta. rewrite !body_get, Hname, Hdata.
    destruct data as [|c data]; [done|]. destruct fileName as [|c' fileName]; [done|].
    cbn [truthy Js.truthy is_string negb orb default].
    change (id (JStr (c' :: fileName))) with (JStr (c' :: fileName)).
    rewrite Hbase. rewrite uniqueName_child; [done|].
    by apply (safeBase_safe (JStr (c' :: fileName))). }
  rewrite Hrun. split_and!.
  - exists base. split; [done|]. cbv zeta. by intros ->.
  - by destruct (disk_write env).
  - by intros ->.
  - intros pre text -> Hpre Htext. unfold payload.
    destruct (data_url_payload pre text Hpre Htext) as [-> ->]. done.
  - intros Hcomma. unfold payload. by rewrite no_base64_mark.
Qed.

(** X20. What [GET /api/sync] answers is an object or an array, never a
    primitive value or [null]: a sync file that holds the JSON text of a
    number, a string, a boolean or [null] is answered with the placeholder
    [{updatedAt: null}], as is a file that is missing or unreadable, while
    the object or the array of a file that holds one is answered as it is. *)
Theorem readSyncData_shape (cfg : Config) (env : Env) (d : Disk) :
  match readSyncData cfg env d with
  | JObj _ | JArr _ => True
  | _ => False
  end /\
  (forall raw value,
     d !! syncFile cfg = Some raw -> read_fails env = false ->
     JSON_parse raw = Some value ->
     readSyncData cfg env d = match value with
                              | JObj _ | JArr _ => value
                              | _ => placeholder
                              end) /\
  (forall req,
     getSync cfg req env d
     = ({| status := 200; payload := readSyncData cfg env d |}, d)).
Proof.
  unfold readSyncData. split_and!.
  - destruct (d !! syncFile cfg) as [raw|]; [|done].
    destruct (read_fails env); [done|].
    by destruct (JSON_parse raw) as [[]|].
  - intros raw value -> -> ->. by destruct value.
  - done.
Qed.

End StoreFacts.

(** *** The AI route *)

Section AiFacts.
Import Json Ai.
Context {World : Type}.
Variable create : ChatCall -> World -> (Gateway.ApiError + Gateway.Completion) * World.
Variable fetch : jsstring -> jsstring -> World -> fetched * World.

Lemma equals_spec (v : option json) (text : string) :
  equals v text = true <-> v = Some (JStr (Js.lit text)).
Proof.
  unfold equals, Js.eqb. destruct v as [[]|]; try (by split).
  rewrite bool_decide_eq_true. split; [by intros ->|by intros [= ->]].
Qed.

Lemma supported_spec (action : option json) :
  supported action = true <->
  exists name, name ∈ actions /\ action = Some (JStr (Js.lit name)).
Proof.
  unfold supported. rewrite existsb_exists. split.
  - intros (name & Hin & Heq). exists name. split; [by apply list_elem_of_In|].
    by apply equals_spec.
  - intros (name & Hin & ->). exists name. split; [by apply list_elem_of_In|].
    by apply equals_spec.
Qed.

Lemma request_get (req : Server.Request) (k : jsstring) :
  get (match Server.body req with
       | None | Some JNull => Some (JObj [])
       | other => other
       end) k = get (Server.body req) k.
Proof. by destruct (Server.body req) as [[]|]. Qed.

(** X21. The AI route answers 400 to a body without a truthy [action] or
    without a truthy [context], and to one whose action is not one of
    [draft], [edit], [overview], [chat] and [setup], as a string; it then
    contacts no provider: the answer does not depend on what the providers
    would do, and the world is as it was. *)
Theorem postAi_rejects (s : Settings) (req : Server.Request) (w : World) :
  let action := get (Server.body req) (Js.lit "action") in
  let context := get (Server.body req) (Js.lit "context") in
  (truthy action = false \/ truthy context = false ->
   postAi create fetch s req w
   = (Answers
        (Server.json_response 400
           [Server.prop "error" (Some (JStr (Js.lit "Missing action or context")))]),
      w)) /\
  (truthy action = true -> truthy context = true ->
   (forall name, name ∈ actions -> action <> Some (JStr (Js.lit name))) ->
   postAi create fetch s req w
   = (Answers
        (Server.json_response 400
           [Server.prop "error" (Some (JStr (Js.lit "Unsupported action")))]),
      w)) /\
  (answer_status (fst (postAi create fetch s req w)) = Some 400 <->
   truthy action = false \/ truthy context = false
   \/ forall name, name ∈ actions -> action <> Some (JStr (Js.lit name))).
Proof.
  cbv zeta. unfold postAi. cbv zeta. rewrite !request_get.
  set (action := get (Server.body req) (Js.lit "action")).
  set (context := get (Server.body req) (Js.lit "context")).
  assert (Hunsupported : supported action = false <->
    forall name, name ∈ actions -> action <> Some (JStr (Js.lit name))).
  { rewrite <- not_true_iff_false, supported_spec. split.
    - intros Hno name Hin Heq. apply Hno. by exists name.
    - intros Hno (name & Hin & Heq). by apply (Hno name). }
  split_and!.
  - intros [-> | ->]; [done|]. by rewrite orb_true_r.
  - intros -> -> Hno. cbn [negb orb]. by rewrite (proj2 Hunsupported Hno).
  - destruct (truthy action); cbn [negb orb]; [|split; [by left|done]].
    destruct (truthy context); cbn [negb orb]; [|split; [by right; left|done]].
    destruct (supported action) eqn:Hsup; cbn [negb].
    + split.
      * destruct (build_messages _ _ _ _); [|done].
        destruct (dispatch _ _ _ _ _ _) as [[?|?] ?]; [|done].
        by destruct (Js.eqb (provider s) (Js.lit "ollama")).
      * intros [?|[?|Hno]]; try done. apply Hunsupported in Hno. congruence.
    + split; [|done]. intros _. right. right. by apply Hunsupported.
Qed.

Lemma slice_last {A} (xs : list A) (k : nat) :
  (0 < k)%nat ->
  Js.slice (- Z.of_nat k) (Z.of_nat (length xs)) xs = drop (length xs - k) xs.
Proof.
  intros Hk. unfold Js.slice, Js.clamp_index.
  destruct (Z.ltb_spec (Z.of_nat (length xs)) 0); [lia|].
  rewrite Z.min_id. destruct (Z.ltb_spec (- Z.of_nat k) 0); [|lia].
  replace (Z.to_nat (Z.max (Z.of_nat (length xs) + - Z.of_nat k) 0))
    with (length xs - k)%nat by lia.
  apply take_ge. rewrite length_drop. lia.
Qed.

Lemma history_of_array (entries : list json) :
  history_of (Some (JArr entries))
  = drop (length (List.filter is_turn entries) - 8) (List.filter is_turn entries).
Proof. unfold history_of. apply (slice_last _ 8). lia. Qed.

Lemma is_turn_spec (entry : json) :
  is_turn entry = true ->
  (get (Some entry) (Js.lit "role") = Some (JStr (Js.lit "user"))
   \/ get (Some entry) (Js.lit "role") = Some (JStr (Js.lit "assistant"))) /\
  exists text, get (Some entry) (Js.lit "content") = Some (JStr text).
Proof.
  unfold is_turn. rewrite !andb_true_iff, orb_true_iff, !equals_spec.
  intros [[_ Hrole] Hcontent]. split; [done|].
  destruct (get (Some entry) (Js.lit "content")) as [[]|]; try done. by eexists.
Qed.

Lemma buildTask_not_empty (action context : option json) :
  Js.truthy (Some (buildTask action context)) = true.
Proof.
  unfold buildTask.
  repeat match goal with
         | |- context [equals ?v ?t] => destruct (equals v t)
         end; reflexivity.
Qed.

Lemma context_block_not_empty (context : Prompt.AiContext) :
  Js.truthy (Some (Prompt.buildContextBlock context)) = true.
Proof.
  unfold Prompt.buildContextBlock, Prompt.context_lines.
  rewrite filter_Boolean_cons_truthy by done.
  rewrite filter_Boolean_cons_truthy by done.
  by destruct (Prompt.filter_Boolean _).
Qed.

(** On a typed context the block of the route is the block of
    [Prompt.buildContextBlock] for the record of its fields. *)
Lemma buildContextBlock_typed (context : option json) :
  typed_context context ->
  buildContextBlock context
  = Some (Prompt.buildContextBlock (context_record context)).
Proof.
  intros (H1 & H2 & H3 & H4 & H5 & H6 & H7 & H8 & H9).
  assert (Hrequired : forall label k missing,
    typed_field context k ->
    required_line label (get context (Js.lit k)) missing
    = Some (Some (Js.lit label
                  ++ Js.nullish (text_field context k) (Js.lit missing)))).
  { intros label k missing. unfold typed_field, required_line, text_field.
    by destruct (get context (Js.lit k)) as [[]|]. }
  assert (Hoptional : forall label k,
    typed_field context k ->
    optional_line label (get context (Js.lit k))
    = Some (Prompt.optional_line label (text_field context k))).
  { intros label k. unfold typed_field, optional_line, text_field,
      Prompt.optional_line.
    by destruct (get context (Js.lit k)) as [[| | |[|c t]| |]|]. }
  unfold buildContextBlock, Prompt.buildContextBlock, Prompt.context_lines,
    context_record.
  cbn [Prompt.kind Prompt.scope Prompt.title Prompt.range Prompt.focus
       Prompt.summary Prompt.prompt Prompt.draft Prompt.readingText].
  by rewrite !Hrequired, !Hoptional by done.
Qed.

(** X22. For the action [chat] the messages are the system prompt, the
    context and the task, as system messages, then turns of the chat
    history, then the user's message. The turns are the last 8, at most, of
    the entries of the history that have the role [user] or [assistant] and
    a string as content, in their order: no entry with another role, so
    none with the role [system], is passed on; a history that is not an
    array gives no turn. *)
Theorem chat_history_window (context message_ chatHistory : option json) :
  typed_context context ->
  let action := Some (JStr (Js.lit "chat")) in
  let turns := history_of chatHistory in
  build_messages action context message_ chatHistory
  = Some
      ([ message "system" (JStr systemPrompt);
         message "system"
           (JStr (Js.lit "Context:" ++ [10%N]
                  ++ Prompt.buildContextBlock (context_record context)));
         message "system"
           (JStr (Js.lit "Answer the user question and suggest concrete edits or next steps.")) ]
       ++ turns
       ++ [ message "user"
              (if truthy message_ then default JNull message_
               else JStr (Js.lit "Continue the conversation with useful guidance.")) ]) /\
  (length turns <= 8)%nat /\
  Forall (fun turn =>
            (get (Some turn) (Js.lit "role") = Some (JStr (Js.lit "user"))
             \/ get (Some turn) (Js.lit "role") = Some (JStr (Js.lit "assistant")))
            /\ exists text, get (Some turn) (Js.lit "content") = Some (JStr text))
         turns /\
  (forall entries,
     chatHistory = Some (JArr entries) ->
     exists older,
       List.filter is_turn entries = older ++ turns /\
       (older = [] \/ length turns = 8%nat)) /\
  ((forall entries, chatHistory <> Some (JArr entries)) -> turns = []).
Proof.
  intros Htyped. cbv zeta. split_and!.
  - unfold build_messages. by rewrite (buildContextBlock_typed _ Htyped).
  - destruct chatHistory as [[]|]; try (simpl; lia).
    rewrite history_of_array, length_drop. lia.
  - destruct chatHistory as [[| | | |entries|]|]; try by constructor.
    rewrite history_of_array. apply Forall_drop, Forall_forall.
    intros turn Hin. apply is_turn_spec.
    apply list_elem_of_In, List.filter_In in Hin. by destruct Hin.
  - intros entries ->. rewrite history_of_array.
    exists (take (length (List.filter is_turn entries) - 8) (List.filter is_turn entries)).
    split; [by rewrite take_drop|].
    rewrite length_drop.
    destruct (decide (length (List.filter is_turn entries) <= 8)%nat) as [Hle|Hgt].
    + left. replace (length (List.filter is_turn entries) - 8)%nat with 0%nat by lia.
      done.
    + right. lia.
  - intros Hno. destruct chatHistory as [[| | | |entries|]|]; try done.
    by destruct (Hno entries).
Qed.

(** X23. The discussion of the client reaches the provider as its last
    8 lines, the lines of [ai] as turns of the assistant and the others as
    turns of the user, each with its text; without a discussion no turn is
    passed on. *)
Theorem discussion_forwarded (lines : list Discussion.DiscussionLine) :
  history_of (Discussion.chatHistory (Some lines))
  = List.map Discussion.chat_message (drop (length lines - 8) lines) /\
  history_of (Discussion.chatHistory None) = [] /\
  (forall line,
     Discussion.chat_message line
     = JObj [ (Js.lit "role",
               JStr (match Discussion.role line with
                     | Discussion.ai => Js.lit "assistant"
                     | Discussion.you => Js.lit "user"
                     end));
              (Js.lit "content", JStr (Discussion.text line)) ]).
Proof.
  split_and!.
  - cbn [Discussion.chatHistory]. rewrite history_of_array.
    assert (Hall : List.filter is_turn (List.map Discussion.chat_message lines)
                   = List.map Discussion.chat_message lines).
    { induction lines as [|[[] text] lines IH]; [done|..]; simpl; by rewrite IH. }
    rewrite Hall, length_map. apply skipn_map.
  - done.
  - by intros [[] text].
Qed.

(** X24. For the actions [draft], [edit], [overview] and [setup] the
    messages are three: the system prompt, the context, and one message of
    the user that holds the task, then the direction of the user when the
    message of the request is a string that is not blank, then the context
    block, with a blank line between them. The task and the block are never
    empty, so neither is left out; the chat history is not read. *)
Theorem build_messages_prompt (name : string)
    (context message_ chatHistory : option json) :
  name ∈ ["draft"; "edit"; "overview"; "setup"]%string ->
  typed_context context ->
  let action := Some (JStr (Js.lit name)) in
  let block := Prompt.buildContextBlock (context_record context) in
  let guidance :=
    match message_ with
    | Some (JStr text) =>
        if bool_decide (Js.trim text = []) then []
        else [Js.lit "User direction: " ++ Js.trim text]
    | _ => []
    end in
  build_messages action context message_ chatHistory
  = Some
      [ message "system" (JStr systemPrompt);
        message "system" (JStr (Js.lit "Context:" ++ [10%N] ++ block));
        message "user"
          (JStr (Js.join [10%N; 10%N]
                   ([buildTask action context] ++ guidance ++ [block]))) ] /\
  buildTask action context <> [] /\ block <> [].
Proof.
  intros Hname Htyped. cbv zeta.
  pose proof (buildTask_not_empty (Some (JStr (Js.lit name))) context) as Htask.
  pose proof (context_block_not_empty (context_record context)) as Hblock.
  split; [|split; [by destruct (buildTask _ _)|by destruct (Prompt.buildContextBlock _)]].
  assert (Hchat : equals (Some (JStr (Js.lit name))) "chat" = false).
  { rewrite !elem_of_cons, elem_of_nil in Hname.
    destruct Hname as [->|[->|[->|[->|[]]]]]; by vm_compute. }
  unfold build_messages. rewrite (buildContextBlock_typed _ Htyped).
  cbn [mbind option_bind]. unfold messages_for. rewrite Hchat.
  cbn [app]. do 5 f_equal. unfold blank_lines.
  rewrite filter_Boolean_cons_truthy by done.
  assert (Hlast : forall g : option jsstring,
    Prompt.filter_Boolean
      [g; Some (Prompt.buildContextBlock (context_record context))]
    = match g with
      | Some (c :: t) => [c :: t]
      | _ => []
      end ++ [Prompt.buildContextBlock (context_record context)]).
  { intros [[|c t]|].
    - change (Prompt.filter_Boolean [Some []; ?b]) with (Prompt.filter_Boolean [b]).
      by rewrite filter_Boolean_cons_truthy by done.
    - rewrite filter_Boolean_cons_truthy by done.
      by rewrite filter_Boolean_cons_truthy by done.
    - change (Prompt.filter_Boolean [None; ?b]) with (Prompt.filter_Boolean [b]).
      by rewrite filter_Boolean_cons_truthy by done. }
  rewrite Hlast. do 3 f_equal.
  destruct message_ as [[|b|lit|text|items|members]|]; try done.
  destruct (Js.trim text) as [|c t] eqn:Htext; cbn [Js.truthy].
  - by rewrite bool_decide_eq_true_2.
  - by rewrite bool_decide_eq_false_2.
Qed.

Lemma provider_default (s : Settings) :
  AI_PROVIDER s = None \/ AI_PROVIDER s = Some [] ->
  provider s = if has_client s then Js.lit "openai" else Js.lit "ollama".
Proof. unfold provider. by intros [-> | ->]. Qed.

(** X25. A request that passes the checks is answered by one provider:
    OpenAI when the provider is [openai], with no call to Ollama, and
    Ollama otherwise, with no call to OpenAI; a JSON answer is asked for
    exactly when the action is [setup]. The reply is answered with its text,
    its model and the provider. A failure is answered 503 when the provider
    is [ollama] and 500 otherwise; so is the missing API key, before any
    call. Without [AI_PROVIDER] the provider is [openai] when there is an
    API key and [ollama] when there is none. *)
Theorem postAi_outcome (s : Settings) (req : Server.Request) (w : World) :
  let action := get (Server.body req) (Js.lit "action") in
  let context := get (Server.body req) (Js.lit "context") in
  let jsonMode := equals action "setup" in
  let replied (reply : Gateway.Reply) :=
    Server.json_response 200
      [Server.prop "text" (Some (JStr (Gateway.text reply)));
       Server.prop "model" (Some (JStr (Gateway.model reply)));
       Server.prop "provider" (Some (JStr (provider s)))] in
  let failed :=
    Server.json_response 500
      [Server.prop "error" (Some (JStr (Js.lit "AI request failed")))] in
  truthy action = true -> truthy context = true -> supported action = true ->
  typed_context context ->
  let answer := postAi create fetch s req w in
  (exists messages,
     build_messages action context (get (Server.body req) (Js.lit "message"))
       (get (Server.body req) (Js.lit "chatHistory")) = Some messages /\
     (provider s = Js.lit "openai" ->
      let r := callOpenAi create s messages jsonMode w in
      answer = (Answers (match Gateway.result r with
                         | inr reply => replied reply
                         | inl _ => failed
                         end), Gateway.provider_after r)) /\
     (provider s <> Js.lit "openai" ->
      let r := callOllama fetch s messages jsonMode w in
      answer = (Answers (match fst r with
                         | inr reply => replied reply
                         | inl _ =>
                             if bool_decide (provider s = Js.lit "ollama") then
                               Server.json_response 503
                                 [Server.prop "error"
                                    (Some (JStr (Js.lit "Ollama is not reachable. Make sure it is running and the model is downloaded.")))]
                             else failed
                         end), snd r))) /\
  (provider s = Js.lit "openai" -> has_client s = false ->
   answer = (Answers failed, w)) /\
  (answer_status (fst answer) = Some 503 -> provider s = Js.lit "ollama") /\
  (AI_PROVIDER s = None \/ AI_PROVIDER s = Some [] ->
   provider s = if has_client s then Js.lit "openai" else Js.lit "ollama").
Proof.
  intros action context jsonMode replied failed Haction Hcontext Hsup Htyped.
  cbv zeta. unfold postAi. cbv zeta. rewrite !request_get.
  fold action context. rewrite Haction, Hcontext, Hsup. cbn [negb orb].
  assert (Hbuilt : exists messages,
    build_messages action context (get (Server.body req) (Js.lit "message"))
      (get (Server.body req) (Js.lit "chatHistory")) = Some messages).
  { unfold build_messages. rewrite (buildContextBlock_typed _ Htyped). by eexists. }
  destruct Hbuilt as (messages & Hbuilt). rewrite Hbuilt.
  fold jsonMode. unfold dispatch, Js.eqb.
  assert (Hnot : provider s = Js.lit "openai" ->
    bool_decide (provider s = Js.lit "ollama") = false).
  { intros ->. by apply bool_decide_eq_false_2. }
  split_and!.
  - exists messages. split; [done|]. split.
    + intros Hp. rewrite (bool_decide_eq_true_2 _ Hp), (Hnot Hp). cbv zeta.
      by destruct (Gateway.result (callOpenAi create s messages jsonMode w)).
    + intros Hp. rewrite (bool_decide_eq_false_2 _ Hp). cbv zeta.
      destruct (callOllama fetch s messages jsonMode w) as [[failure|reply] w'];
        cbn [fst snd]; [|done].
      by case_bool_decide.
  - intros Hp Hkey. rewrite (bool_decide_eq_true_2 _ Hp), (Hnot Hp).
    unfold callOpenAi, Gateway.callOpenAi, Gateway.callOpenAi_on. by rewrite Hkey.
  - destruct (bool_decide (provider s = Js.lit "openai")) eqn:Hp.
    + apply bool_decide_eq_true in Hp. rewrite (Hnot Hp).
      by destruct (Gateway.result (callOpenAi create s messages jsonMode w)).
    + destruct (callOllama fetch s messages jsonMode w) as [[failure|reply] w'];
        [|done].
      destruct (bool_decide (provider s = Js.lit "ollama")) eqn:Hc.
      * intros _. by apply bool_decide_eq_true in Hc.
      * intros Hs. cbn in Hs. discriminate Hs.
  - apply provider_default.
Qed.

Lemma ollama_request_well_formed (s : Settings) (messages : list json)
    (jsonMode : bool) :
  forallb well_formed messages = true ->
  well_formed (ollama_request s messages jsonMode) = true.
Proof.
  intros Hwf. unfold ollama_request.
  destruct jsonMode; cbn [app well_formed List.map fst snd forallb];
    rewrite Hwf; by vm_compute.
Qed.

(** X26. [callOllama] posts one text to [/api/chat] on the host: the
    JSON text of an object with the model, the messages, [stream] false, the
    sampling options and, exactly in JSON mode, the format [json]. A
    rejected request is thrown on; a response that is not [ok] throws its
    text, or [Ollama request failed] when it has none; a response whose
    text is not JSON, or whose message content is neither absent nor a
    string, throws. Otherwise the reply is the trimmed content, the empty
    text when there is no message or no content, with the model asked. *)
Theorem callOllama_reply (s : Settings) (messages : list json) (jsonMode : bool)
    (w : World) :
  forallb well_formed messages = true ->
  let request := ollama_request s messages jsonMode in
  let posted := fetch (ollamaHost s ++ Js.lit "/api/chat")
                      (Compact.JSON_stringify request) w in
  let called := callOllama fetch s messages jsonMode w in
  JSON_parse (Compact.JSON_stringify request) = Some request /\
  get (Some request) (Js.lit "format")
  = (if jsonMode then Some (JStr (Js.lit "json")) else None) /\
  get (Some request) (Js.lit "messages") = Some (JArr messages) /\
  snd called = snd posted /\
  (fst posted = Rejects -> fst called = inl FetchRejected) /\
  (forall text,
     fst posted = Responds false text ->
     fst called
     = inl (Thrown (Gateway.NewError
                      (if bool_decide (text = []) then Js.lit "Ollama request failed"
                       else text)))) /\
  (forall text,
     fst posted = Responds true text ->
     fst called
     = match JSON_parse text with
       | None => inl SyntaxError
       | Some data =>
           match get (get (Some data) (Js.lit "message")) (Js.lit "content") with
           | None | Some JNull =>
               inr {| Gateway.text := []; Gateway.model := ollamaModel s |}
           | Some (JStr content) =>
               inr {| Gateway.text := Js.trim content;
                      Gateway.model := ollamaModel s |}
           | Some _ => inl TypeError
           end
       end).
Proof.
  intros Hwf. cbv zeta. split_and!.
  - by apply JSON_parse_compact, ollama_request_well_formed.
  - by destruct jsonMode.
  - by destruct jsonMode.
  - unfold callOllama. destruct (fetch _ _ w) as [[|[] text] w']; try done.
    destruct (JSON_parse text) as [data|]; [|done].
    by destruct (ollama_text data).
  - unfold callOllama. by destruct (fetch _ _ w) as [[|[] text] w'].
  - intros text. unfold callOllama.
    destruct (fetch _ _ w) as [[|[] text'] w']; try done.
    cbn [fst]. intros [= ->]. by destruct text.
  - intros text. unfold callOllama.
    destruct (fetch _ _ w) as [[|[] text'] w']; try done.
    cbn [fst]. intros [= ->].
    destruct (JSON_parse text) as [data|]; [|done]. unfold ollama_text.
    destruct (get (Some data) (Js.lit "message")) as [m|] eqn:Hm; [|done].
    destruct m; try done;
      by destruct (get _ (Js.lit "content")) as [[]|].
Qed.

(** A request that passes the checks with a context of which a field
    cannot be printed: the handler throws while it builds the context
    block, before its [try] block, and no provider is contacted. *)
Lemma postAi_throws (s : Settings) (req : Server.Request) (w : World) :
  let action := get (Server.body req) (Js.lit "action") in
  let context := get (Server.body req) (Js.lit "context") in
  truthy action = true -> truthy context = true -> supported action = true ->
  buildContextBlock context = None ->
  postAi create fetch s req w = (Throws, w).
Proof.
  cbv zeta. intros Haction Hcontext Hsup Hblock.
  unfold postAi. cbv zeta. rewrite !request_get, Haction, Hcontext, Hsup.
  cbn [negb orb]. unfold build_messages. by rewrite Hblock.
Qed.

End AiFacts.

(** *** An array as the body of [POST /api/sync] *)

Section ArrayBodyFacts.
Import Json Server.

Lemma digits_value_acc (d : Decimal.uint) (acc : positive) :
  digits_value (Npos acc) (Js.lit (NilEmpty.string_of_uint d))
  = Some (Npos (Pos.of_uint_acc d acc)).
Proof.
  revert acc. induction d as [|d IH|d IH|d IH|d IH|d IH|d IH|d IH|d IH|d IH|d IH];
    intros acc; [done|..];
    cbn [NilEmpty.string_of_uint Pos.of_uint_acc];
    match goal with
    | |- digits_value _ (Js.lit (String ?c ?s)) = _ =>
        change (Js.lit (String c s)) with (N_of_ascii c :: Js.lit s)
    end;
    cbn [digits_value]; change (is_digit (N_of_ascii _)) with true; cbv iota;
    rewrite <- IH; f_equal; simpl (N_of_ascii _ - 48)%N; lia.
Qed.

Lemma digits_value_uint (d : Decimal.uint) :
  digits_value 0 (Js.lit (NilEmpty.string_of_uint d)) = Some (Pos.of_uint d).
Proof.
  induction d as [|d IH|d IH|d IH|d IH|d IH|d IH|d IH|d IH|d IH|d IH]; [done|..];
    cbn [NilEmpty.string_of_uint Pos.of_uint];
    match goal with
    | |- digits_value _ (Js.lit (String ?c ?s)) = _ =>
        change (Js.lit (String c s)) with (N_of_ascii c :: Js.lit s)
    end;
    cbn [digits_value]; change (is_digit (N_of_ascii _)) with true; cbv iota;
    [exact IH|..];
    rewrite <- digits_value_acc; f_equal.
Qed.

(** The decimal text of a positive number does not start with a zero. *)
Lemma to_uint_head (p : positive) (d : Decimal.uint) : Pos.to_uint p <> Decimal.D0 d.
Proof.
  intros H. pose proof (Unsigned.to_of (Pos.to_uint p)) as Hnorm.
  rewrite Unsigned.of_to in Hnorm. cbn [N.to_uint] in Hnorm.
  destruct (Decimal.nzhead (Pos.to_uint p)) eqn:Hhead;
    [apply DecimalFacts.unorm_0 in Hhead; rewrite Hhead in Hnorm;
     by apply (Unsigned.to_uint_nonzero p)|..];
    (rewrite DecimalFacts.unorm_nzhead in Hnorm by (rewrite Hhead; discriminate);
     rewrite H in Hnorm; symmetry in Hnorm;
     by apply DecimalFacts.nzhead_nonzero in Hnorm).
Qed.

(** The key of an element of an array is the index it denotes. *)
Lemma array_index_of_nat (i : nat) :
  Z.of_nat i < 4294967295 -> array_index (Js.of_nat i) = Some (N.of_nat i).
Proof.
  intros Hi. unfold Js.of_nat. destruct (Z.of_nat i) as [|p|p] eqn:Hp; [|  |lia].
  - by replace i with 0%nat by lia.
  - cbn [Js.of_Z]. unfold array_index.
    pose proof (digits_value_uint (Pos.to_uint p)) as Hvalue.
    rewrite Unsigned.of_to in Hvalue.
    pose proof (to_uint_head p) as Hhead.
    destruct (Pos.to_uint p) as [|d|d|d|d|d|d|d|d|d|d] eqn:Hu;
      [by apply Unsigned.to_uint_nonnil in Hu|by destruct (Hhead d)|..];
      cbn [NilEmpty.string_of_uint] in *;
      match goal with
      | |- context [Js.lit (String ?c ?s)] =>
          change (Js.lit (String c s)) with (N_of_ascii c :: Js.lit s) in *
      end;
      change (N_of_ascii _ =? 48)%N with false; cbv iota;
      rewrite Hvalue; cbn [mbind option_bind];
      (destruct (N.ltb_spec (N.pos p) 4294967295); [f_equal; lia|lia]).
Qed.

Lemma imap_keys {A} (f : nat -> jsstring) (items : list A) :
  List.map fst (imap (fun i x => (f i, x)) items)
  = List.map f (seq 0 (length items)).
Proof.
  revert f. induction items as [|x items IH]; intros f; [done|].
  cbn [imap length seq List.map fst]. f_equal.
  rewrite <- seq_shift, List.map_map. apply (IH (f ∘ S)).
Qed.

Lemma imap_values (f : nat -> jsstring) (items : list json) :
  forallb (fun m => well_formed (snd m)) (imap (fun i x => (f i, x)) items)
  = forallb well_formed items.
Proof.
  revert f. induction items as [|x items IH]; intros f; [done|].
  cbn [imap forallb snd]. f_equal. apply (IH (f ∘ S)).
Qed.

Lemma keys_ordered_indices (n s : nat) (above : option N) (k : jsstring) :
  Z.of_nat s + Z.of_nat n <= 4294967295 ->
  (forall m, above = Some m -> (m < N.of_nat s)%N) ->
  keys_ordered None [k] = true -> array_index k = None ->
  keys_ordered above (List.map Js.of_nat (seq s n) ++ [k]) = true.
Proof.
  intros Hmax Habove Hk Hname. revert s above Hmax Habove.
  induction n as [|n IH]; intros s above Hmax Habove.
  - cbn [seq List.map app keys_ordered] in *. by rewrite Hname in *.
  - cbn [seq List.map app keys_ordered]. rewrite array_index_of_nat by lia.
    rewrite IH; [|lia|intros m [= <-]; lia]. rewrite andb_true_r.
    destruct above as [m|]; [|done]. apply N.ltb_lt. by apply Habove.
Qed.

(** The stamped document of an array: an object with the indices as keys. *)
Lemma stamp_array (items : list json) (t : Z) :
  Z.of_nat (length items) <= 4294967295 ->
  let doc := JObj (own_properties (JArr items)
                   ++ [(Js.lit "updatedAt", JStr (Js.toISOString t))]) in
  stamp (JArr items) t = doc /\
  well_formed doc = forallb well_formed items.
Proof.
  intros Hlen. cbv zeta. cbn [own_properties].
  set (indexed := imap (fun i x => (Js.of_nat i, x)) items).
  set (last := (Js.lit "updatedAt", JStr (Js.toISOString t))).
  assert (Hkeys : keys_ordered None (List.map fst (indexed ++ [last])) = true).
  { rewrite map_app. unfold indexed. rewrite imap_keys.
    apply keys_ordered_indices; [lia|done|done|done]. }
  split.
  - unfold stamp. cbn [own_properties]. fold indexed.
    rewrite <- (build_object_ordered (indexed ++ [last]) Hkeys).
    unfold build_object. by rewrite fold_left_app.
  - cbn [well_formed]. rewrite Hkeys. cbn [andb].
    rewrite forallb_app. unfold indexed. rewrite imap_values.
    cbn [forallb last snd well_formed]. by rewrite !andb_true_r.
Qed.

(** X27. [POST /api/sync] does not refuse an array: it stores an object
    that has the elements under their indices, in order, and [updatedAt]
    after them. A later [GET /api/sync] answers with this object, not with
    the array sent. *)
Theorem postSync_array_body (cfg : Config) (req : Request) (env : Env) (d : Disk)
    (items : list json) :
  body req = Some (JArr items) ->
  Z.of_nat (length items) <= 4294967295 ->
  let doc := JObj (imap (fun i x => (Js.of_nat i, x)) items
                   ++ [(Js.lit "updatedAt", JStr (Js.toISOString (now env)))]) in
  status (fst (postSync cfg req env d)) <> 400 /\
  (disk_write env = WriteOk ->
   postSync cfg req env d
   = (json_response 200
        [prop "ok" (Some (JBool true));
         prop "updatedAt" (Some (JStr (Js.toISOString (now env))))],
      <[syncFile cfg := JSON_stringify doc]> d)) /\
  (disk_write env = WriteOk -> forallb well_formed items = true ->
   forall req' env',
     read_fails env' = false ->
     fst (getSync cfg req' env' (snd (postSync cfg req env d)))
     = {| status := 200; payload := doc |}).
Proof.
  intros Hbody Hlen. cbv zeta.
  destruct (stamp_array items (now env) Hlen) as [Hstamp Hwf].
  cbn [own_properties] in Hstamp, Hwf.
  assert (Hpost : disk_write env = WriteOk ->
    postSync cfg req env d
    = (json_response 200
         [prop "ok" (Some (JBool true));
          prop "updatedAt" (Some (JStr (Js.toISOString (now env))))],
       <[syncFile cfg := JSON_stringify (stamp (JArr items) (now env))]> d)).
  { intros Hwrite. unfold postSync, writeSyncData, writeFileSync.
    rewrite Hbody, Hwrite. cbn [truthy typeof_object negb orb default].
    change (id (JArr items)) with (JArr items).
    unfold stamp at 1. cbn [get]. rewrite obj_get_set by done.
    by rewrite decide_True. }
  split_and!.
  - unfold postSync, writeSyncData, writeFileSync. rewrite Hbody.
    cbn [truthy typeof_object negb orb default]. by destruct (disk_write env).
  - intros Hwrite. by rewrite Hpost, Hstamp.
  - intros Hwrite Hitems req' env' Hread. rewrite Hpost, Hstamp by done. cbn [snd].
    rewrite getSync_after_write; [done| |done|done]. by rewrite Hwf.
Qed.

End ArrayBodyFacts.

(** *** The requests of the client at the AI route *)

Section ClientRequestFacts.
Import Json Ai Contexts.
Context {World : Type}.
Variable create : ChatCall -> World -> (Gateway.ApiError + Gateway.Completion) * World.
Variable fetch : jsstring -> jsstring -> World -> fetched * World.

Lemma obj_get_member_same (k : string) (v : option jsstring)
    (rest : list (jsstring * json)) :
  obj_get (Js.lit k) (member k v ++ rest)
  = match v with
    | Some s => Some (JStr s)
    | None => obj_get (Js.lit k) rest
    end.
Proof.
  destruct v as [s|]; cbn [member app]; [|done].
  unfold obj_get. cbn [List.find fst]. unfold Js.eqb.
  by rewrite bool_decide_eq_true_2.
Qed.

Lemma obj_get_member_other (k k' : string) (v : option jsstring)
    (rest : list (jsstring * json)) :
  k' <> k ->
  obj_get (Js.lit k) (member k' v ++ rest) = obj_get (Js.lit k) rest.
Proof.
  intros Hne. destruct v as [s|]; cbn [member app]; [|done].
  unfold obj_get. cbn [List.find fst]. unfold Js.eqb.
  rewrite bool_decide_eq_false_2; [done|]. intros H. by apply lit_inj in H.
Qed.

Ltac read_member :=
  unfold text_field, typed_field, context_json; cbn [get];
  cbn [Prompt.kind Prompt.scope Prompt.title Prompt.range Prompt.focus
       Prompt.summary Prompt.prompt Prompt.draft Prompt.readingText];
  rewrite <- (app_nil_r (member "readingText" _));
  rewrite ?obj_get_member_other by discriminate;
  rewrite obj_get_member_same;
  match goal with
  | |- context [match ?v with Some _ => _ | None => obj_get _ _ end] => destruct v
  end;
  [done|rewrite ?obj_get_member_other by discriminate; done].

(** What the server reads in a context is what the client set. *)
Lemma context_json_read (c : Prompt.AiContext) :
  typed_context (Some (context_json c)) /\
  context_record (Some (context_json c)) = c.
Proof.
  destruct c as [k sc t r f su p d rt]. split.
  - unfold typed_context. split_and!; read_member.
  - unfold context_record. f_equal; read_member.
Qed.

(** X28. Every request that [requestAi] builds for one of the five actions
    passes the checks of the AI route: the route answers it, and never with
    400. Its context
    reaches the server with each field a string or absent, and the server
    reads in it the fields the client set, so the context block of the
    server is that of these fields. For a context of [buildPhaseAiContext]
    or of [buildEntityAiContext] the kind is [phase] or [entity], and the
    scope is [subphase] exactly when a subphase is given: a draft is then
    asked as a working draft, and otherwise as a narrative of the phase or a
    summary of the entity. *)
Theorem client_request_accepted (context : Prompt.AiContext)
    (message : option jsstring) (history : option (list Discussion.DiscussionLine))
    (s : Settings) (w : World) :
  let sent := Some (context_json context) in
  typed_context sent /\
  context_record sent = context /\
  buildContextBlock sent = Some (Prompt.buildContextBlock context) /\
  Forall (fun action =>
            exists answer,
              fst (postAi create fetch s (requestAi action context message history) w)
              = Answers answer /\
              Server.status answer <> 400)
         actions /\
  (forall phase entity subphase,
     let of_phase := Some (context_json (OfPhase.buildPhaseAiContext phase subphase)) in
     let of_entity :=
       Some (context_json (OfEntity.buildEntityAiContext entity subphase)) in
     let draft := Some (JStr (Js.lit "draft")) in
     buildTask draft of_phase
     = match subphase with
       | Some _ =>
           Js.lit "Write a clear working draft (3-6 paragraphs) based on the prompt and context."
       | None => Js.lit "Write a long-form narrative (4-6 paragraphs) based on the context."
       end /\
     buildTask draft of_entity
     = match subphase with
       | Some _ =>
           Js.lit "Write a clear working draft (3-6 paragraphs) based on the prompt and context."
       | None => Js.lit "Write a concise 3-5 sentence summary based on the context."
       end).
Proof.
  cbv zeta. destruct (context_json_read context) as [Htyped Hread].
  split_and!; [done|done|by rewrite buildContextBlock_typed, Hread| |].
  - assert (Hstatus : forall name,
      name ∈ actions ->
      exists answer,
        fst (postAi create fetch s (requestAi name context message history) w)
        = Answers answer /\
        Server.status answer <> 400).
    { intros name Hname. unfold postAi, requestAi, build_messages.
      cbn [Server.body]. cbv zeta.
      assert (Haction : forall rest,
        get (Some (JObj ((Js.lit "action", JStr (Js.lit name)) :: rest)))
            (Js.lit "action") = Some (JStr (Js.lit name))).
      { intros rest. cbn [get]. unfold obj_get. cbn [List.find fst]. unfold Js.eqb.
        by rewrite bool_decide_eq_true_2. }
      assert (Hcontext : forall a rest,
        get (Some (JObj ((Js.lit "action", a) :: (Js.lit "context", context_json context)
                         :: rest)))
            (Js.lit "context") = Some (context_json context)).
      { intros a rest. reflexivity. }
      cbn [app]. rewrite Haction, Hcontext.
      assert (Hsupported : supported (Some (JStr (Js.lit name))) = true).
      { apply supported_spec. by exists name. }
      assert (Htruthy : truthy (Some (JStr (Js.lit name))) = true).
      { repeat (apply elem_of_cons in Hname as [->|Hname]; [done|]).
        by apply elem_of_nil in Hname. }
      rewrite Htruthy, Hsupported. cbn [truthy context_json negb orb].
      rewrite (buildContextBlock_typed _ Htyped). cbn [mbind option_bind].
      destruct (dispatch _ _ _ _ _ _) as [[failure|reply] w'];
        [|by eexists].
      destruct (Js.eqb (provider s) (Js.lit "ollama")); by eexists. }
    unfold actions in *. repeat constructor; apply Hstatus; set_solver.
  - intros phase entity subphase.
    destruct (context_json_read (OfPhase.buildPhaseAiContext phase subphase))
      as [_ Hphase].
    destruct (context_json_read (OfEntity.buildEntityAiContext entity subphase))
      as [_ Hentity].
    apply (f_equal Prompt.kind) in Hphase as Hpk.
    apply (f_equal Prompt.scope) in Hphase as Hps.
    apply (f_equal Prompt.kind) in Hentity as Hek.
    apply (f_equal Prompt.scope) in Hentity as Hes.
    unfold context_record, text_field in Hpk, Hps, Hek, Hes.
    cbn [Prompt.kind Prompt.scope OfPhase.buildPhaseAiContext
         OfEntity.buildEntityAiContext] in Hpk, Hps, Hek, Hes.
    unfold buildTask. cbv zeta.
    destruct (get (Some (context_json (OfPhase.buildPhaseAiContext phase subphase)))
                  (Js.lit "kind")) as [[]|]; try discriminate Hpk.
    destruct (get (Some (context_json (OfPhase.buildPhaseAiContext phase subphase)))
                  (Js.lit "scope")) as [[]|]; try discriminate Hps.
    destruct (get (Some (context_json (OfEntity.buildEntityAiContext entity subphase)))
                  (Js.lit "kind")) as [[]|]; try discriminate Hek.
    destruct (get (Some (context_json (OfEntity.buildEntityAiContext entity subphase)))
                  (Js.lit "scope")) as [[]|]; try discriminate Hes.
    injection Hpk as ->. injection Hps as ->. injection Hek as ->. injection Hes as ->.
    by destruct subphase.
Qed.

End ClientRequestFacts.

(** *** The properties on examples *)

(** A hook with three values set: [undo] and [redo] undo each other, each
    at its own render; called in one event at the last entry, where no
    [redo] is possible, they leave the hook one step back. *)
Lemma undo_redo_inverse_witness :
  let h := UndoRedo.run (UndoRedo.useUndoRedo 1%nat)
             [[UndoRedo.SetState 2%nat]; [UndoRedo.SetState 3%nat]] in
  UndoRedo.valid h /\
  UndoRedo.event (UndoRedo.event h [UndoRedo.Undo]) [UndoRedo.Redo] = h /\
  UndoRedo.event h [UndoRedo.Undo; UndoRedo.Redo]
  = UndoRedo.Hook [1; 2; 3]%nat 1.
Proof.
  assert (Hv : UndoRedo.valid
                 (UndoRedo.run (UndoRedo.useUndoRedo 1%nat)
                    [[UndoRedo.SetState 2%nat]; [UndoRedo.SetState 3%nat]])).
  { unfold UndoRedo.valid. simpl. lia. }
  split; [exact Hv|]. split.
  - exact (proj1 (undo_redo_inverse _ Hv) eq_refl).
  - exact (proj1 (proj2 (proj2 (proj2 (proj2 (undo_redo_inverse _ Hv)))))).
Defined.

(** A full history: the value set drops the oldest entry, and [undo] at
    the next render shows the value shown before. *)
Lemma undo_after_setState_witness :
  let h := UndoRedo.Hook (seq 0 50) 49 in
  UndoRedo.valid h /\
  UndoRedo.state (UndoRedo.run h [[UndoRedo.SetState 50%nat]; [UndoRedo.Undo]])
  = Some 49%nat.
Proof.
  assert (Hv : UndoRedo.valid (UndoRedo.Hook (seq 0 50) 49)).
  { unfold UndoRedo.valid. simpl. lia. }
  split; [exact Hv|]. exact (proj1 (proj2 (undo_after_setState 50%nat _ Hv))).
Defined.

Lemma storage_round_trip_witness :
  Json.well_formed Scenario.phases = true /\
  exists saved,
    Storage.savePhases true Scenario.phases true ∅ = Some saved /\
    Storage.loadStoredPhases true saved = Some Scenario.phases.
Proof.
  split; [reflexivity|].
  destruct (proj1 (storage_round_trip Scenario.phases ∅ eq_refl))
    as (saved & Hsave & Hload & _).
  exists saved. split; [exact Hsave|exact Hload].
Defined.

(** The right [x-sync-token] does not make up for a wrong bearer token. *)
Lemma requireSyncAuth_exact_witness :
  Server.serve Example.raw_bytes Example.gated_config Server.GET_api_sync
    Scenario.wrong_bearer (Example.at_time 1000 Server.WriteOk) ∅
  = (Server.unauthorized, ∅).
Proof.
  apply (proj2 (requireSyncAuth_exact Example.raw_bytes Example.gated_config
                  Server.GET_api_sync Scenario.wrong_bearer
                  (Example.at_time 1000 Server.WriteOk) ∅ (Js.lit "s3cret")
                  eq_refl ltac:(discriminate))).
  - by exists (Js.lit "guess").
  - discriminate.
Defined.

(** A data URL: the three bytes that the payload decodes to are stored,
    whatever comes before the mark. *)
Lemma postUpload_response_witness :
  Server.postUpload Example.raw_bytes Example.open_config
    (Example.upload "a b.txt" "data:text/plain;base64,QUJD")
    (Example.at_time 1700000000000 Server.WriteOk) ∅
  = (Server.json_response 200
       [Server.prop "url"
          (Some (Json.JStr (Js.lit "/uploads/1700000000000-a_b.txt")));
        Server.prop "fileName" (Some (Json.JStr (Js.lit "a_b.txt")));
        Server.prop "fileType" (Some (Json.JStr []));
        Server.prop "size" (Some (Json.JNum (Js.lit "3")))],
     <[ [Js.lit "srv"; Js.lit "app"; Js.lit "server"; Js.lit "uploads";
         Js.lit "1700000000000-a_b.txt"] := Js.lit "ABC" ]> ∅).
Proof.
  destruct (proj1 (postUpload_response Example.raw_bytes Example.open_config
                     (Example.upload "a b.txt" "data:text/plain;base64,QUJD")
                     (Example.at_time 1700000000000 Server.WriteOk) ∅
                     (Js.lit "a b.txt") (Js.lit "data:text/plain;base64,QUJD")
                     eq_refl ltac:(discriminate) eq_refl ltac:(discriminate)))
    as (base & Hbase & Hstored).
  injection Hbase as <-. exact (Hstored eq_refl).
Defined.

Lemma typed_context_scenario : Ai.typed_context (Some Scenario.context).
Proof. by repeat split. Qed.

(** A chat with a history of ten lines: the last eight are passed on. *)
Lemma chat_history_window_witness :
  length <$> Ai.build_messages (Some (Json.JStr (Js.lit "chat")))
               (Some Scenario.context) None
               (Discussion.chatHistory (Some Scenario.discussion))
  = Some 12%nat /\
  (length (Ai.history_of (Discussion.chatHistory (Some Scenario.discussion)))
   <= 8)%nat.
Proof.
  split; [reflexivity|].
  exact (proj1 (proj2 (chat_history_window (Some Scenario.context) None
                         (Discussion.chatHistory (Some Scenario.discussion))
                         typed_context_scenario))).
Defined.

Lemma build_messages_prompt_witness :
  List.map (fun m => Json.get (Some m) (Js.lit "role"))
    <$> Ai.build_messages (Some (Json.JStr (Js.lit "draft"))) (Some Scenario.context)
          (Some (Json.JStr (Js.lit " Shorter, please. "))) None
  = Some [Some (Json.JStr (Js.lit "system")); Some (Json.JStr (Js.lit "system"));
          Some (Json.JStr (Js.lit "user"))] /\
  Ai.buildTask (Some (Json.JStr (Js.lit "draft"))) (Some Scenario.context) <> [].
Proof.
  split; [reflexivity|].
  refine (proj1 (proj2 (build_messages_prompt "draft" (Some Scenario.context)
                          (Some (Json.JStr (Js.lit " Shorter, please. "))) None
                          _ typed_context_scenario))).
  apply (bool_decide_unpack _). reflexivity.
Defined.

(** With an API key the first model is unknown and the second answers;
    without one, Ollama answers and OpenAI is not called. *)
Lemma postAi_outcome_witness :
  Ai.postAi Scenario.create Scenario.fetch Scenario.with_key
    (Scenario.ask "draft" []) 0%nat
  = (Ai.Answers
       (Server.json_response 200
          [Server.prop "text" (Some (Json.JStr (Js.lit "Hello.")));
           Server.prop "model" (Some (Json.JStr (Js.lit "gpt-4o")));
           Server.prop "provider" (Some (Json.JStr (Js.lit "openai")))]), 2%nat) /\
  Ai.postAi Scenario.create Scenario.fetch Scenario.local
    (Scenario.ask "draft" []) 0%nat
  = (Ai.Answers
       (Server.json_response 200
          [Server.prop "text" (Some (Json.JStr (Js.lit "Bonjour.")));
           Server.prop "model" (Some (Json.JStr (Js.lit "llama3.1:8b")));
           Server.prop "provider" (Some (Json.JStr (Js.lit "ollama")))]), 1%nat).
Proof.
  split.
  - destruct (proj1 (postAi_outcome Scenario.create Scenario.fetch Scenario.with_key
                       (Scenario.ask "draft" []) 0%nat eq_refl eq_refl eq_refl
                       typed_context_scenario))
      as (messages & Hbuilt & Hopenai & _).
    injection Hbuilt as <-. exact (Hopenai eq_refl).
  - destruct (proj1 (postAi_outcome Scenario.create Scenario.fetch Scenario.local
                       (Scenario.ask "draft" []) 0%nat eq_refl eq_refl eq_refl
                       typed_context_scenario))
      as (messages & Hbuilt & _ & Hollama).
    injection Hbuilt as <-. apply Hollama. discriminate.
Defined.

(** A context whose kind is an object with a property [toString]: the
    handler throws and the world is as it was. *)
Example postAi_context_not_printable :
  Ai.postAi Scenario.create Scenario.fetch Scenario.with_key
    (Example.request
       (Some (Json.JObj
                [(Js.lit "action", Json.JStr (Js.lit "draft"));
                 (Js.lit "context",
                  Json.JObj [(Js.lit "kind",
                              Json.JObj [(Js.lit "toString", Json.JNum (Js.lit "1"))])])])))
    0%nat
  = (Ai.Throws, 0%nat).
Proof. reflexivity. Qed.

Lemma callOllama_reply_witness :
  let messages := [Ai.message "user" (Json.JStr (Js.lit "Bonjour?"))] in
  Json.JSON_parse
    (Compact.JSON_stringify (Ai.ollama_request Scenario.local messages true))
  = Some (Ai.ollama_request Scenario.local messages true) /\
  Ai.ollamaHost Scenario.local = Js.lit "http://ollama:11434".
Proof.
  split; [|reflexivity].
  exact (proj1 (callOllama_reply Scenario.fetch Scenario.local
                  [Ai.message "user" (Json.JStr (Js.lit "Bonjour?"))] true 0%nat
                  eq_refl)).
Defined.

(** An array of two elements becomes an object with the keys [0] and [1]. *)
Lemma postSync_array_body_witness :
  Server.postSync Example.open_config
    (Example.request (Some (Json.JArr [Json.JStr (Js.lit "a"); Json.JBool true])))
    (Example.at_time 1000 Server.WriteOk) ∅
  = (Server.json_response 200
       [Server.prop "ok" (Some (Json.JBool true));
        Server.prop "updatedAt" (Some (Json.JStr (Js.toISOString 1000)))],
     <[Server.syncFile Example.open_config :=
         Json.JSON_stringify
           (Json.JObj [(Js.lit "0", Json.JStr (Js.lit "a"));
                       (Js.lit "1", Json.JBool true);
                       (Js.lit "updatedAt", Json.JStr (Js.toISOString 1000))])]> ∅).
Proof.
  exact (proj1 (proj2 (postSync_array_body Example.open_config
                         (Example.request
                            (Some (Json.JArr [Json.JStr (Js.lit "a"); Json.JBool true])))
                         (Example.at_time 1000 Server.WriteOk) ∅
                         [Json.JStr (Js.lit "a"); Json.JBool true] eq_refl
                         ltac:(simpl; lia))) eq_refl).
Defined.
